(** * A shallow embedding of the AddressSanitizer allocator
    (src/asan/asan_allocator.cc) and the properties of its quarantine,
    size classes and pointer-to-chunk lookup. *)

From stdpp Require Import gmap list fin_maps.
From Stdlib Require Import ZArith Lia.

Open Scope Z_scope.

(** ** Machine words

    [size_t] and [uintptr_t] are 64-bit unsigned integers ([__WORDSIZE] is
    64: the source uses [1UL] and the [...l] builtins on them).  They are
    modelled as [Z] in the range [0, 2^64) with the wrap-around written
    out where the source computes. *)

Definition WORDSIZE : Z := 64.
Definition wrap (x : Z) : Z := x mod 2 ^ WORDSIZE.
Definition is_word (x : Z) : Prop := 0 <= x < 2 ^ WORDSIZE.

(** Modelled from the spec: the constants of asan_int.h and asan_mapping.h
    that the allocator reads ([kWordSize], [kPageSize], [kShadowShift]) are
    not part of the sources at hand; the values are the word size in bytes,
    the page size and the shadow granule (2^3 bytes) the spec speaks of. *)
Definition kWordSize : Z := WORDSIZE / 8.
Definition kPageSize : Z := 4096.
Definition kShadowShift : Z := 3.

Definition kMinMmapSize : Z := kPageSize * 128.

(** The magic numbers of the chunk states. *)
Definition CHUNK_AVAILABLE  : Z := 0x573B5CE5.
Definition CHUNK_ALLOCATED  : Z := 0x32041A36.
Definition CHUNK_QUARANTINE : Z := 0x1978BAE3.
Definition CHUNK_MEMALIGN   : Z := 0xDC68ECD8.

Definition IsAligned (a alignment : Z) : bool :=
  Z.land a (wrap (alignment - 1)) =? 0.

Definition IsWordAligned (a : Z) : bool := IsAligned a kWordSize.

Definition IsPowerOfTwo (x : Z) : bool :=
  Z.land x (wrap (x - 1)) =? 0.

(** [__builtin_ctzl] and [__builtin_clzl] on a non-zero word. *)
Definition ctzl (x : Z) : Z := Z.log2 (Z.land x (- x)).
Definition clzl (x : Z) : Z := WORDSIZE - 1 - Z.log2 x.

(** ** Outcomes

    A call either returns, or a [CHECK] fails (or [abort] is called), or it
    does something the typed memory of this model does not describe (an
    access outside the mapped heap, a raw word access into a chunk header,
    a builtin outside its domain), or the model ran out of fuel for the
    quarantine loop. *)

Inductive result (A : Type) : Type :=
| Ok (a : A)
| Abort
| Undef
| OutOfFuel.
Arguments Ok {A} a.
Arguments Abort {A}.
Arguments Undef {A}.
Arguments OutOfFuel {A}.

(** ** The chunk header and the allocator state *)

Record Chunk := mkChunk {
  chunk_state    : Z;
  allocated_size : Z;
  used_size      : Z;
  next           : Z;
  prev           : Z }.

Definition set_chunk_state (v : Z) (c : Chunk) : Chunk :=
  mkChunk v (allocated_size c) (used_size c) (next c) (prev c).
Definition set_allocated_size (v : Z) (c : Chunk) : Chunk :=
  mkChunk (chunk_state c) v (used_size c) (next c) (prev c).
Definition set_used_size (v : Z) (c : Chunk) : Chunk :=
  mkChunk (chunk_state c) (allocated_size c) v (next c) (prev c).
Definition set_next (v : Z) (c : Chunk) : Chunk :=
  mkChunk (chunk_state c) (allocated_size c) (used_size c) v (prev c).
Definition set_prev (v : Z) (c : Chunk) : Chunk :=
  mkChunk (chunk_state c) (allocated_size c) (used_size c) (next c) v.

(** The state: the [struct Chunk] objects by address ([hdr]), the words
    written through [uintptr_t*] ([words], zero where never written, as
    the pages come from [mmap]), the [memset]s done on the shadow, latest
    first, as (first granule, length, value) ([shadow]),
    the end of the mapped heap ([brk]), the members of [MallocInfo] and
    the flag [__asan_flag_quarantine_size]. *)
Record heap := mkHeap {
  hdr : gmap Z Chunk;
  words : gmap Z Z;
  shadow : list (Z * Z * Z);
  brk : Z;
  chunks : list Z;
  quarantine_ : Z;
  quarantine_size_ : Z;
  malloced_items_ : Z;
  flag_quarantine_size : Z }.

Definition set_hdr (h : gmap Z Chunk) (s : heap) : heap :=
  mkHeap h (words s) (shadow s) (brk s) (chunks s) (quarantine_ s)
         (quarantine_size_ s) (malloced_items_ s) (flag_quarantine_size s).
Definition set_words (w : gmap Z Z) (s : heap) : heap :=
  mkHeap (hdr s) w (shadow s) (brk s) (chunks s) (quarantine_ s)
         (quarantine_size_ s) (malloced_items_ s) (flag_quarantine_size s).
Definition set_shadow (f : list (Z * Z * Z)) (s : heap) : heap :=
  mkHeap (hdr s) (words s) f (brk s) (chunks s) (quarantine_ s)
         (quarantine_size_ s) (malloced_items_ s) (flag_quarantine_size s).
Definition set_brk (b : Z) (s : heap) : heap :=
  mkHeap (hdr s) (words s) (shadow s) b (chunks s) (quarantine_ s)
         (quarantine_size_ s) (malloced_items_ s) (flag_quarantine_size s).
Definition set_chunks (l : list Z) (s : heap) : heap :=
  mkHeap (hdr s) (words s) (shadow s) (brk s) l (quarantine_ s)
         (quarantine_size_ s) (malloced_items_ s) (flag_quarantine_size s).
Definition set_quarantine (q : Z) (s : heap) : heap :=
  mkHeap (hdr s) (words s) (shadow s) (brk s) (chunks s) q
         (quarantine_size_ s) (malloced_items_ s) (flag_quarantine_size s).
Definition set_quarantine_size (n : Z) (s : heap) : heap :=
  mkHeap (hdr s) (words s) (shadow s) (brk s) (chunks s) (quarantine_ s)
         n (malloced_items_ s) (flag_quarantine_size s).
Definition set_malloced_items (m : Z) (s : heap) : heap :=
  mkHeap (hdr s) (words s) (shadow s) (brk s) (chunks s) (quarantine_ s)
         (quarantine_size_ s) m (flag_quarantine_size s).

(** The environment: [mmap] hands out consecutive page ranges from
    [mmap_base] upwards and fails at the end of the user address space. *)
Definition mmap_base : Z := 2 ^ 32.
Definition mmap_limit : Z := 2 ^ 47.

(** The zero-initialised [malloc_info] before the first call, for a given
    value of the quarantine flag. *)
Definition heap0 (cap : Z) : heap :=
  mkHeap ∅ ∅ [] mmap_base (replicate (Z.to_nat WORDSIZE) 0) 0 0 0 cap.

(** ** The state-and-outcome monad *)

Definition M (A : Type) : Type := heap -> result (A * heap).

Definition ret {A} (a : A) : M A := fun s => Ok (a, s).

Definition bind {A B} (m : M A) (f : A -> M B) : M B :=
  fun s => match m s with
           | Ok (a, s') => f a s'
           | Abort => Abort
           | Undef => Undef
           | OutOfFuel => OutOfFuel
           end.

Notation "'let!' x ':=' c1 'in' c2" := (bind c1 (fun x => c2))
  (at level 10, x name, c1 at level 100, c2 at level 200).
Notation "'do!' c1 'in' c2" := (bind c1 (fun _ => c2))
  (at level 10, c1 at level 100, c2 at level 200).

Definition CHECK (b : bool) : M unit :=
  fun s => if b then Ok (tt, s) else Abort.

Definition abort {A} : M A := fun _ => Abort.
Definition undef {A} : M A := fun _ => Undef.
Definition get : M heap := fun s => Ok (s, s).
Definition modify (f : heap -> heap) : M unit := fun s => Ok (tt, f s).

(** *** Typed access to chunk headers *)

Definition load (m : Z) : M Chunk :=
  fun s => match hdr s !! m with
           | Some c => Ok (c, s)
           | None => Undef
           end.

Definition update (m : Z) (f : Chunk -> Chunk) : M unit :=
  fun s => match hdr s !! m with
           | Some c => Ok (tt, set_hdr (<[m := f c]> (hdr s)) s)
           | None => Undef
           end.

(** *** Raw word access

    A word of the mapped heap read through [uintptr_t*] is a field of the
    header that covers it when there is one, and the word last written
    there otherwise. *)

Definition mapped (s : heap) (a len : Z) : bool :=
  (mmap_base <=? a) && (a + len <=? brk s).

Definition field_at (s : heap) (a : Z) : option Z :=
  match hdr s !! a with
  | Some c => Some (chunk_state c)
  | None =>
  match hdr s !! (a - kWordSize) with
  | Some c => Some (allocated_size c)
  | None =>
  match hdr s !! (a - 2 * kWordSize) with
  | Some c => Some (used_size c)
  | None =>
  match hdr s !! (a - 3 * kWordSize) with
  | Some c => Some (next c)
  | None =>
  match hdr s !! (a - 4 * kWordSize) with
  | Some c => Some (prev c)
  | None => None
  end end end end end.

Definition load_word (a : Z) : M Z :=
  fun s => match field_at s a with
           | Some v => Ok (v, s)
           | None =>
               if mapped s a kWordSize && (a mod kWordSize =? 0)
               then Ok (default 0 (words s !! a), s)
               else Undef
           end.

Definition store_word (a v : Z) : M unit :=
  fun s => match field_at s a with
           | Some _ => Undef
           | None =>
               if mapped s a kWordSize && (a mod kWordSize =? 0)
               then Ok (tt, set_words (<[a := v]> (words s)) s)
               else Undef
           end.

Definition chunks_get (idx : Z) : M Z :=
  fun s => match chunks s !! Z.to_nat idx with
           | Some v => if 0 <=? idx then Ok (v, s) else Undef
           | None => Undef
           end.

Definition chunks_set (idx v : Z) : M unit :=
  fun s => match chunks s !! Z.to_nat idx with
           | Some _ => if 0 <=? idx
                       then Ok (tt, set_chunks (<[Z.to_nat idx := v]> (chunks s)) s)
                       else Undef
           | None => Undef
           end.

(** [1UL << n]; a shift by the width of the word or more is undefined. *)
Definition shl1 (n : Z) : M Z :=
  if (0 <=? n) && (n <? WORDSIZE) then ret (2 ^ n) else undef.

(** [CHECK(IsPowerOfTwo(x)); return __builtin_ctzl(x);].  The [CHECK]
    lets 0 through, and the result of [__builtin_ctzl(0)] is undefined:
    the call returns a value that the code does not determine, which the
    model classes as [Undef] (no result described), not as a failing
    [CHECK].  The allocator calls [Log2] on non-zero powers of two only. *)
Definition Log2 (x : Z) : M Z :=
  do! CHECK (IsPowerOfTwo x) in
  if x =? 0 then undef else ret (ctzl x).

Definition RoundUptoPowerOfTwo (size : Z) : M Z :=
  do! CHECK (negb (size =? 0)) in
  if IsPowerOfTwo size then ret size else
  let up := WORDSIZE - clzl size in
  let! hi := shl1 up in
  do! CHECK (size <? hi) in
  let! lo := shl1 (up - 1) in
  do! CHECK (lo <? size) in
  shl1 up.

(** *** The shadow

    [MemToShadow] is an affine map of asan_mapping.h; the shadow bytes are
    kept in a store of their own, indexed by granule, so the offset of the
    map is left out.  The store is the list of the [memset]s done; a
    shadow byte never written is 0, as fresh pages are.  [memset] on the
    shadow is defined on the shadow of the mapped heap. *)
Definition MemToShadow (a : Z) : Z := Z.shiftr a kShadowShift.

Fixpoint shadow_byte (sh : list (Z * Z * Z)) (g : Z) : Z :=
  match sh with
  | [] => 0
  | (beg, len, v) :: sh' =>
      if (beg <=? g) && (g <? beg + len) then v else shadow_byte sh' g
  end.

Definition memset_shadow (beg poison len : Z) : M unit :=
  fun s =>
    if len =? 0 then Ok (tt, s)
    else if (MemToShadow mmap_base <=? beg) && (beg + len <=? MemToShadow (brk s))
    then Ok (tt, set_shadow ((beg, len, poison) :: shadow s) s)
    else Undef.

Definition PoisonShadow (mem size poison : Z) : M unit :=
  do! CHECK (IsAligned mem (Z.shiftl 1 kShadowShift)) in
  do! CHECK (IsAligned (wrap (mem + size)) (Z.shiftl 1 kShadowShift)) in
  let shadow_beg := MemToShadow mem in
  let shadow_end := MemToShadow (wrap (mem + size)) in
  memset_shadow shadow_beg poison (wrap (shadow_end - shadow_beg)).

(** *** The page provider *)

Definition MAP_FAILED : Z := wrap (-1).

Definition mmap (size : Z) : M Z :=
  fun s => if (0 <? size) && (brk s + size <=? mmap_limit)
           then Ok (brk s, set_brk (brk s + size) s)
           else Ok (MAP_FAILED, s).

Definition MmapNewPages (size : Z) : M Z :=
  do! CHECK (size mod kPageSize =? 0) in
  let! res := mmap size in
  if res =? MAP_FAILED then abort else
  do! PoisonShadow res size 255 in
  ret res.

(** *** Word loops *)

Fixpoint clear_loop (n : nat) (mem i : Z) : M unit :=
  match n with
  | O => ret tt
  | S n' =>
      do! store_word (wrap (mem + i * kWordSize)) 0 in
      clear_loop n' mem (i + 1)
  end.

Definition asan_clear_mem (mem n_words : Z) : M unit :=
  do! CHECK (IsWordAligned mem) in
  clear_loop (Z.to_nat n_words) mem 0.

Fixpoint copy_loop (n : nat) (dst src i : Z) : M unit :=
  match n with
  | O => ret tt
  | S n' =>
      let! v := load_word (wrap (src + i * kWordSize)) in
      do! store_word (wrap (dst + i * kWordSize)) v in
      copy_loop n' dst src (i + 1)
  end.

Definition asan_copy_mem (dst src n_words : Z) : M unit :=
  do! CHECK (IsWordAligned dst) in
  do! CHECK (IsWordAligned src) in
  copy_loop (Z.to_nat n_words) dst src 0.

(** ** The allocator

    [kMinRedzone] is a constant of asan_int.h, which is not part of the
    sources at hand: the allocator is modelled for any value of it. *)

Section Allocator.

Variable kMinRedzone : Z.

Definition kRedzone : Z := kMinRedzone * 2.
Definition kMinAllocSize : Z := kRedzone * 2.

Definition RoundUptoRedzone (size : Z) : Z :=
  wrap (wrap (size + kRedzone - 1) / kRedzone * kRedzone).

(** *** MallocInfo *)

(** The header of a chunk carved out of fresh pages: the three fields that
    [GetNewChunks] writes, the others as the zero pages have them. *)
Definition init_chunk (m size nxt : Z) : M unit :=
  fun s =>
    let c0 := default (mkChunk 0 0 0 0 0) (hdr s !! m) in
    Ok (tt, set_hdr (<[m := set_next nxt (set_allocated_size size
                              (set_chunk_state CHUNK_AVAILABLE c0))]> (hdr s)) s).

Fixpoint GetNewChunks_loop (n : nat) (mem size idx i : Z) : M unit :=
  match n with
  | O => ret tt
  | S n' =>
      let m := wrap (mem + i * size) in
      let! head := chunks_get idx in
      do! init_chunk m size head in
      do! chunks_set idx m in
      GetNewChunks_loop n' mem size idx (i + 1)
  end.

Definition GetNewChunks (size : Z) : M unit :=
  let! idx := Log2 size in
  let! head := chunks_get idx in
  do! CHECK (head =? 0) in
  do! CHECK (IsPowerOfTwo size) in
  do! CHECK (IsPowerOfTwo kMinMmapSize) in
  let mmap_size := Z.max size kMinMmapSize in
  do! CHECK (IsPowerOfTwo mmap_size) in
  let! mem := MmapNewPages mmap_size in
  GetNewChunks_loop (Z.to_nat (mmap_size / size)) mem size idx 0.

Definition AllocateChunk (size : Z) : M Z :=
  do! CHECK (IsPowerOfTwo size) in
  let! idx := Log2 size in
  let! head := chunks_get idx in
  do! (if head =? 0 then GetNewChunks size else ret tt) in
  let! m := chunks_get idx in
  do! CHECK (negb (m =? 0)) in
  let! c := load m in
  do! chunks_set idx (next c) in
  do! update m (fun c => set_prev 0 (set_next 0 c)) in
  let! c := load m in
  do! CHECK (chunk_state c =? CHUNK_AVAILABLE) in
  do! update m (set_chunk_state CHUNK_ALLOCATED) in
  let! s := get in
  do! (if malloced_items_ s =? 0 then ret tt
       else update (malloced_items_ s) (set_prev m)) in
  do! update m (set_next (malloced_items_ s)) in
  do! modify (set_malloced_items m) in
  ret m.

Definition pop : M unit :=
  let! s := get in
  do! CHECK (negb (quarantine_ s =? 0)) in
  do! CHECK (0 <? quarantine_size_ s) in
  let! q := load (quarantine_ s) in
  let m := prev q in
  do! CHECK (negb (m =? 0)) in
  let! c := load m in
  let nx := next c in
  let pv := prev c in
  do! CHECK (negb (nx =? 0) && negb (pv =? 0)) in
  do! (if nx =? m then modify (set_quarantine 0)
       else do! update nx (set_prev pv) in update pv (set_next nx)) in
  let! c := load m in
  do! CHECK (allocated_size c <=? quarantine_size_ s) in
  do! modify (fun s => set_quarantine_size
                         (wrap (quarantine_size_ s - allocated_size c)) s) in
  do! CHECK (chunk_state c =? CHUNK_QUARANTINE) in
  do! update m (set_chunk_state CHUNK_AVAILABLE) in
  let! idx := Log2 (allocated_size c) in
  let! head := chunks_get idx in
  do! update m (set_next head) in
  chunks_set idx m.

(** The loop at the end of [TakeChunkBack]. *)
Fixpoint evict (fuel : nat) : M unit :=
  fun s =>
    if negb (quarantine_size_ s =? 0)
       && (flag_quarantine_size s <? quarantine_size_ s)
    then match fuel with
         | O => OutOfFuel
         | S fuel' => (do! pop in evict fuel') s
         end
    else Ok (tt, s).

Definition TakeChunkBack (m : Z) : M unit :=
  do! CHECK (negb (m =? 0)) in
  let! c := load m in
  do! CHECK (chunk_state c =? CHUNK_ALLOCATED) in
  do! CHECK (IsPowerOfTwo (allocated_size c)) in
  let! s := get in
  do! CHECK (0 <? flag_quarantine_size s) in
  do! (if m =? malloced_items_ s then
         do! modify (set_malloced_items (next c)) in
         if next c =? 0 then ret tt else update (next c) (set_prev 0)
       else
         let pv := prev c in
         let nx := next c in
         do! (if pv =? 0 then ret tt else update pv (set_next nx)) in
         if nx =? 0 then ret tt else update nx (set_prev pv)) in
  let! s := get in
  do! (if quarantine_ s =? 0 then
         update m (fun c => set_next m (set_prev m c))
       else
         let! q := load (quarantine_ s) in
         let pv := prev q in
         let nx := quarantine_ s in
         do! update m (set_next nx) in
         do! update m (set_prev pv) in
         do! update pv (set_next m) in
         update nx (set_prev m)) in
  do! modify (set_quarantine m) in
  let! c := load m in
  do! modify (fun s => set_quarantine_size
                         (wrap (quarantine_size_ s + allocated_size c)) s) in
  do! update m (set_chunk_state CHUNK_QUARANTINE) in
  let! s := get in
  evict (S (size (hdr s))).

Definition MallocInfo_Deallocate (m : Z) : M unit :=
  do! CHECK (negb (m =? 0)) in
  let! c := load m in
  do! CHECK (chunk_state c =? CHUNK_ALLOCATED) in
  TakeChunkBack m.

(** *** The allocation service *)

Definition needed_size (alignment size : Z) : Z :=
  let rounded_size := RoundUptoRedzone size in
  let needed_size := wrap (rounded_size + kRedzone) in
  if kRedzone <? alignment then wrap (needed_size + alignment) else needed_size.

Definition Allocate (alignment size : Z) : M Z :=
  if size =? 0 then ret 0 else
  do! CHECK (IsPowerOfTwo alignment) in
  let rounded_size := RoundUptoRedzone size in
  let needed_size := needed_size alignment size in
  do! CHECK (needed_size mod kRedzone =? 0) in
  let! size_to_allocate := RoundUptoPowerOfTwo needed_size in
  do! CHECK (kMinAllocSize <=? size_to_allocate) in
  do! CHECK (size_to_allocate mod kRedzone =? 0) in
  let! m := AllocateChunk size_to_allocate in
  do! CHECK (negb (m =? 0)) in
  let! c := load m in
  do! CHECK (allocated_size c =? size_to_allocate) in
  do! CHECK (chunk_state c =? CHUNK_ALLOCATED) in
  do! update m (set_used_size size) in
  let addr := wrap (m + kRedzone) in
  let! addr :=
    (if (kRedzone <? alignment)
        && negb (Z.land addr (wrap (alignment - 1)) =? 0) then
       let! alignment_log := Log2 alignment in
       let addr := wrap (Z.shiftl (Z.shiftr (wrap (addr + alignment - 1))
                                            alignment_log) alignment_log) in
       do! CHECK (Z.land addr (wrap (alignment - 1)) =? 0) in
       let p := wrap (addr - kRedzone) in
       do! store_word p CHUNK_MEMALIGN in
       do! store_word (wrap (p + kWordSize)) m in
       ret addr
     else ret addr) in
  do! PoisonShadow addr rounded_size 0 in
  ret addr.

Definition PtrToChunk (ptr : Z) : M Z :=
  let m := wrap (ptr - kRedzone) in
  let! st := load_word m in
  if st =? CHUNK_MEMALIGN then load_word (wrap (m + kWordSize)) else ret m.

Definition Deallocate (ptr : Z) : M unit :=
  if ptr =? 0 then ret tt else
  let! m := PtrToChunk ptr in
  let! st := load_word m in
  do! CHECK (st =? CHUNK_ALLOCATED) in
  let! c := load m in
  let rounded_size := RoundUptoRedzone (used_size c) in
  do! PoisonShadow ptr rounded_size 255 in
  MallocInfo_Deallocate m.

(** The two counters of [__asan_stats] that [Reallocate] bumps belong to
    the statistics module and are not part of the state. *)
Definition Reallocate (ptr size : Z) : M Z :=
  if ptr =? 0 then Allocate 0 size else
  if size =? 0 then ret 0 else
  let! m := PtrToChunk ptr in
  let! st := load_word m in
  do! CHECK (st =? CHUNK_ALLOCATED) in
  let! c := load m in
  let old_size := used_size c in
  let memcpy_size := Z.min size old_size in
  let! new_ptr := Allocate 0 size in
  do! asan_copy_mem new_ptr ptr (wrap (memcpy_size + kWordSize - 1) / kWordSize) in
  do! Deallocate ptr in
  ret new_ptr.

(** *** The entry points *)

Definition asan_memalign (alignment size : Z) : M Z := Allocate alignment size.
Definition asan_free (ptr : Z) : M unit := Deallocate ptr.
Definition asan_malloc (size : Z) : M Z := Allocate 0 size.

Definition asan_calloc (nmemb size : Z) : M Z :=
  let! res := Allocate 0 (wrap (nmemb * size)) in
  do! asan_clear_mem res (wrap (wrap (nmemb * size) + kWordSize - 1) / kWordSize) in
  ret res.

Definition asan_realloc (p size : Z) : M Z := Reallocate p size.
Definition asan_valloc (size : Z) : M Z := Allocate kPageSize size.

(** [*memptr] is memory of the caller: the pointer stored there is
    returned beside the result.  [%] by an alignment of 0 is undefined. *)
Definition asan_posix_memalign (alignment size : Z) : M (Z * Z) :=
  let! p := Allocate alignment size in
  do! (if alignment =? 0 then undef else CHECK (p mod alignment =? 0)) in
  ret (0, p).

Definition asan_mz_size (ptr : Z) : M Z :=
  do! CHECK false in ret 0.

Definition asan_describe_heap_address (addr access_size : Z) : M unit :=
  CHECK false.

End Allocator.

(** * Properties *)

(** ** Words and powers of two *)

Lemma wrap_small x : is_word x -> wrap x = x.
Proof. unfold is_word, wrap. intros H. apply Z.mod_small. lia. Qed.

Lemma wrap_is_word x : is_word (wrap x).
Proof. unfold is_word, wrap. apply Z.mod_pos_bound. reflexivity. Qed.

Lemma pow2_is_word j : 0 <= j < WORDSIZE -> is_word (2 ^ j).
Proof.
  intros H. unfold is_word. split; [apply Z.pow_nonneg; lia|].
  apply Z.pow_lt_mono_r; lia.
Qed.

Lemma land_pred_pow2 a j : 0 <= j < WORDSIZE -> Z.land a (wrap (2 ^ j - 1)) = a mod 2 ^ j.
Proof.
  intros H. rewrite wrap_small.
  - replace (2 ^ j - 1) with (Z.ones j) by (rewrite Z.ones_equiv; lia).
    apply Z.land_ones. lia.
  - pose proof (pow2_is_word j H) as Hw. unfold is_word in *.
    assert (0 < 2 ^ j) by (apply Z.pow_pos_nonneg; lia). lia.
Qed.

Lemma IsPowerOfTwo_pow2 j : 0 <= j < WORDSIZE -> IsPowerOfTwo (2 ^ j) = true.
Proof.
  intros H. unfold IsPowerOfTwo. rewrite land_pred_pow2 by done.
  rewrite Z.mod_same; [done|]. apply Z.pow_nonzero; lia.
Qed.

Lemma IsPowerOfTwo_inv x :
  is_word x -> x <> 0 -> IsPowerOfTwo x = true ->
  exists j, 0 <= j < WORDSIZE /\ x = 2 ^ j.
Proof.
  unfold IsPowerOfTwo. intros Hw Hx Hp. apply Z.eqb_eq in Hp.
  assert (Hpos : 0 < x) by (unfold is_word in Hw; lia).
  rewrite wrap_small in Hp by (unfold is_word in *; lia).
  destruct (Z.log2_spec x Hpos) as [Hlo Hhi].
  pose proof (Z.log2_nonneg x) as Hj.
  exists (Z.log2 x). split.
  - split; [done|]. apply Z.log2_lt_pow2; [done|]. unfold is_word in Hw. lia.
  - destruct (Z.eq_dec x (2 ^ Z.log2 x)) as [|Hne]; [done|exfalso].
    assert (Hb1 : Z.testbit x (Z.log2 x) = true) by (apply Z.bit_log2; lia).
    assert (Hl : Z.log2 (x - 1) = Z.log2 x).
    { apply Z.log2_unique; [done|]. lia. }
    assert (Hb2 : Z.testbit (x - 1) (Z.log2 x) = true).
    { rewrite <- Hl. apply Z.bit_log2. assert (0 < 2 ^ Z.log2 x) by (apply Z.pow_pos_nonneg; lia). lia. }
    assert (Hb : Z.testbit (Z.land x (x - 1)) (Z.log2 x) = true).
    { rewrite Z.land_spec, Hb1, Hb2. done. }
    rewrite Hp, Z.bits_0 in Hb. done.
Qed.

Lemma ctzl_pow2 j : 0 <= j -> ctzl (2 ^ j) = j.
Proof.
  intros Hj. unfold ctzl.
  replace (Z.land (2 ^ j) (- 2 ^ j)) with (2 ^ j); [by apply Z.log2_pow2|].
  apply Z.bits_inj'. intros n Hn. rewrite Z.land_spec.
  rewrite Z.pow2_bits_eqb by done.
  destruct (Z.eqb_spec j n) as [->|Hne]; [|done].
  replace (- 2 ^ n) with (Z.lnot (Z.ones n)).
  - rewrite Z.lnot_spec by done. rewrite Z.ones_spec_high by lia. done.
  - rewrite Z.ones_equiv. unfold Z.lnot. lia.
Qed.

(** ** Running the monad *)

Lemma bind_Ok {A B} (m : M A) (f : A -> M B) s r :
  bind m f s = Ok r -> exists a s1, m s = Ok (a, s1) /\ f a s1 = Ok r.
Proof.
  unfold bind. destruct (m s) as [[a s1]| | |]; try discriminate. eauto.
Qed.

Lemma bind_step {A B} (m : M A) (f : A -> M B) s a s1 :
  m s = Ok (a, s1) -> bind m f s = f a s1.
Proof. unfold bind. intros ->. done. Qed.

Lemma CHECK_Ok b s r : CHECK b s = Ok r -> b = true /\ r = (tt, s).
Proof. unfold CHECK. destruct b; [|discriminate]. intros [= <-]. done. Qed.

Lemma load_Ok m s c s' : load m s = Ok (c, s') -> hdr s !! m = Some c /\ s' = s.
Proof. unfold load. destruct (hdr s !! m); [|discriminate]. intros [= -> ->]. done. Qed.

Lemma update_Ok m f s u s' :
  update m f s = Ok (u, s') ->
  exists c, hdr s !! m = Some c /\ s' = set_hdr (<[m := f c]> (hdr s)) s.
Proof. unfold update. destruct (hdr s !! m); [|discriminate]. intros [= _ <-]. eauto. Qed.

Lemma load_step m s c : hdr s !! m = Some c -> load m s = Ok (c, s).
Proof. unfold load. intros ->. done. Qed.

Lemma update_step m f s c :
  hdr s !! m = Some c -> update m f s = Ok (tt, set_hdr (<[m := f c]> (hdr s)) s).
Proof. unfold update. intros ->. done. Qed.

(** ** Doubly-linked segments of chunks

    [dlseg h st pv l nx]: the chunks at the addresses [l] are in state
    [st] and linked in this order through [next] and [prev]; [pv] is the
    [prev] of the first and [nx] the [next] of the last. *)

Fixpoint dlseg (h : gmap Z Chunk) (st pv : Z) (l : list Z) (nx : Z) : Prop :=
  match l with
  | [] => True
  | x :: l' =>
      (exists c, h !! x = Some c /\ chunk_state c = st /\ prev c = pv
                 /\ next c = hd nx l')
      /\ dlseg h st x l' nx
  end.

(** The quarantine: a ring entered at [q], most recently freed first. *)
Definition ring (h : gmap Z Chunk) (q : Z) (l : list Z) : Prop :=
  match l with
  | [] => q = 0
  | x :: _ => q = x /\ dlseg h CHUNK_QUARANTINE (List.last l x) l x
  end.

Definition asz_of (h : gmap Z Chunk) (x : Z) : Z :=
  default 0 (allocated_size <$> h !! x).

Definition sum_sizes (h : gmap Z Chunk) (l : list Z) : Z :=
  foldr (fun x acc => asz_of h x + acc) 0 l.

Definition total_size (h : gmap Z Chunk) : Z :=
  map_fold (fun _ c acc => allocated_size c + acc) 0 h.

Lemma last_cons_default {A} (x d : A) l : List.last (x :: l) d = List.last l x.
Proof.
  revert x d. induction l as [|y l IH]; intros x d; [done|].
  change (List.last (x :: y :: l) d) with (List.last (y :: l) d).
  rewrite IH. symmetry. apply IH.
Qed.

Lemma last_In_default {A} (l : list A) d : l <> [] -> List.last l d ∈ l.
Proof.
  induction l as [|x l IH]; [done|]. intros _.
  rewrite last_cons_default. destruct l as [|y l]; [simpl; set_solver|].
  apply elem_of_cons. right.
  rewrite (last_cons_default y x), <- (last_cons_default y d). apply IH. done.
Qed.

Lemma last_app_single {A} (l : list A) x d : List.last (l ++ [x]) d = x.
Proof. apply List.last_last. Qed.

Lemma dlseg_app h st pv l1 l2 nx :
  dlseg h st pv (l1 ++ l2) nx <->
  dlseg h st pv l1 (hd nx l2) /\ dlseg h st (List.last l1 pv) l2 nx.
Proof.
  revert pv. induction l1 as [|x l1 IH]; intros pv; simpl.
  - tauto.
  - rewrite IH. change (match l1 with [] => x | _ :: _ => List.last l1 pv end)
      with (List.last (x :: l1) pv). rewrite last_cons_default.
    destruct l1; simpl; tauto.
Qed.

Lemma dlseg_elem h st pv l nx x :
  dlseg h st pv l nx -> x ∈ l -> exists c, h !! x = Some c /\ chunk_state c = st.
Proof.
  revert pv. induction l as [|y l IH]; intros pv H Hx; [by apply elem_of_nil in Hx|].
  destruct H as [(c & Hc & Hst & _) H]. apply elem_of_cons in Hx as [->|Hx]; eauto.
Qed.

(** The link view of a chunk: what a segment depends on. *)
Lemma dlseg_ext h h' st pv l nx :
  (forall x c, x ∈ l -> h !! x = Some c ->
     exists c', h' !! x = Some c' /\ chunk_state c' = chunk_state c
                /\ prev c' = prev c /\ next c' = next c) ->
  dlseg h st pv l nx -> dlseg h' st pv l nx.
Proof.
  revert pv. induction l as [|x l IH]; intros pv Hext; [done|].
  intros [(c & Hc & Hst & Hpv & Hnx) H]. split.
  - destruct (Hext x c) as (c' & Hc' & E1 & E2 & E3); [set_solver|done|].
    exists c'. rewrite E1, E2, E3. done.
  - apply IH; [|done]. intros y cy Hy. apply Hext. set_solver.
Qed.

Lemma dlseg_relink h h' st pv pv' nx nx' l :
  NoDup l -> dlseg h st pv l nx ->
  (forall x c, x ∈ l -> h !! x = Some c ->
     exists c', h' !! x = Some c' /\ chunk_state c' = chunk_state c
       /\ prev c' = (if decide (head l = Some x) then pv' else prev c)
       /\ next c' = (if decide (last l = Some x) then nx' else next c)) ->
  dlseg h' st pv' l nx'.
Proof.
  revert pv pv'. induction l as [|x l IH]; intros pv pv' Hnd H Hrel; [done|].
  apply NoDup_cons in Hnd as [Hx Hnd].
  destruct H as [(c & Hc & Hst & Hpv & Hnx) H]. split.
  - destruct (Hrel x c) as (c' & Hc' & E1 & E2 & E3); [set_solver|done|].
    exists c'. split; [done|]. split; [congruence|].
    rewrite decide_True in E2 by done. split; [done|].
    destruct l as [|y l].
    + rewrite decide_True in E3 by done. done.
    + rewrite decide_False in E3; [simpl in *; congruence|].
      intros Hl. apply Hx. rewrite last_cons_cons in Hl.
      apply last_Some_elem_of in Hl. done.
  - apply (IH x x Hnd H). intros y cy Hy Hcy.
    assert (Hne : y <> x) by (intros ->; done).
    destruct (Hrel y cy) as (c' & Hc' & E1 & E2 & E3); [set_solver|done|].
    exists c'. split; [done|]. split; [done|].
    rewrite decide_False in E2 by (simpl; congruence). split.
    + destruct (decide (head l = Some y)) as [Hh|Hh]; [|done].
      destruct l as [|z l]; [done|].
      simpl in Hh. injection Hh as ->. destruct H as [(cz & Hcz & _ & Hp & _) _].
      congruence.
    + destruct l as [|z l]; [by apply elem_of_nil in Hy|].
      rewrite last_cons_cons in E3. done.
Qed.

Lemma sum_sizes_ext h h' l :
  (forall x, x ∈ l -> asz_of h' x = asz_of h x) -> sum_sizes h' l = sum_sizes h l.
Proof.
  induction l as [|x l IH]; intros H; [done|]. simpl.
  rewrite H by set_solver. rewrite IH; [done|]. intros y Hy. apply H. set_solver.
Qed.

Lemma sum_sizes_app h l1 l2 : sum_sizes h (l1 ++ l2) = sum_sizes h l1 + sum_sizes h l2.
Proof. induction l1 as [|x l1 IH]; simpl; lia. Qed.

Lemma total_size_insert_fresh h x c :
  h !! x = None -> total_size (<[x := c]> h) = allocated_size c + total_size h.
Proof.
  intros H. unfold total_size.
  apply (map_fold_insert_L (fun _ c acc => allocated_size c + acc)); [|done].
  intros. lia.
Qed.

Lemma total_size_delete h x c :
  h !! x = Some c -> total_size h = allocated_size c + total_size (delete x h).
Proof.
  intros H. unfold total_size.
  apply (map_fold_delete_L (fun _ c acc => allocated_size c + acc)); [|done].
  intros. lia.
Qed.

Lemma total_size_insert_same h x c c' :
  h !! x = Some c -> allocated_size c' = allocated_size c ->
  total_size (<[x := c']> h) = total_size h.
Proof.
  intros H E. rewrite <- (insert_delete_eq h x c').
  rewrite total_size_insert_fresh by apply lookup_delete_eq.
  rewrite (total_size_delete h x c H). lia.
Qed.

Lemma total_size_nonneg h :
  (forall x c, h !! x = Some c -> 0 <= allocated_size c) -> 0 <= total_size h.
Proof.
  induction h as [|x c h Hx _ IH] using map_first_key_ind; intros Hpos.
  - unfold total_size. rewrite map_fold_empty. done.
  - rewrite total_size_insert_fresh by done.
    assert (0 <= allocated_size c) by (apply (Hpos x); apply lookup_insert_eq).
    assert (0 <= total_size h); [|lia].
    apply IH. intros y cy Hy. apply (Hpos y).
    rewrite lookup_insert_ne; [done|]. intros ->. congruence.
Qed.

Lemma sum_sizes_le_total h l :
  NoDup l -> (forall x, x ∈ l -> is_Some (h !! x)) ->
  (forall x c, h !! x = Some c -> 0 <= allocated_size c) ->
  sum_sizes h l <= total_size h.
Proof.
  revert h. induction l as [|x l IH]; intros h Hnd Hin Hpos.
  - simpl. by apply total_size_nonneg.
  - apply NoDup_cons in Hnd as [Hx Hnd].
    destruct (Hin x) as [c Hc]; [set_solver|].
    simpl. rewrite (total_size_delete h x c Hc).
    unfold asz_of at 1. rewrite Hc. simpl.
    assert (sum_sizes h l = sum_sizes (delete x h) l) as ->.
    { symmetry. apply sum_sizes_ext. intros y Hy. unfold asz_of.
      rewrite lookup_delete_ne; [done|]. intros ->. done. }
    assert (sum_sizes (delete x h) l <= total_size (delete x h)); [|lia].
    apply IH; [done| |].
    + intros y Hy. rewrite lookup_delete_ne by (intros ->; done). apply Hin. set_solver.
    + intros y cy Hy. apply lookup_delete_Some in Hy as [_ Hy]. eauto.
Qed.

(** ** Headers that keep their domain and their sizes *)

Definition same_sizes (h h' : gmap Z Chunk) : Prop :=
  total_size h' = total_size h
  /\ forall x, asz_of h' x = asz_of h x /\ (is_Some (h' !! x) <-> is_Some (h !! x)).

Lemma same_sizes_refl h : same_sizes h h.
Proof. split; [done|]. intros x. tauto. Qed.

Lemma same_sizes_trans h1 h2 h3 :
  same_sizes h1 h2 -> same_sizes h2 h3 -> same_sizes h1 h3.
Proof.
  intros [T1 H1] [T2 H2]. split; [congruence|]. intros x.
  destruct (H1 x) as [E1 I1], (H2 x) as [E2 I2]. split; [congruence|tauto].
Qed.

Lemma same_sizes_insert h x c c' :
  h !! x = Some c -> allocated_size c' = allocated_size c ->
  same_sizes h (<[x := c']> h).
Proof.
  intros Hc E. split; [by apply (total_size_insert_same h x c)|].
  intros y. unfold asz_of. destruct (decide (x = y)) as [<-|Hne].
  - rewrite lookup_insert_eq, Hc. simpl. split; [done|]. split; eauto.
  - rewrite lookup_insert_ne by done. tauto.
Qed.

Lemma same_sizes_lookup h h' x c' :
  same_sizes h h' -> h' !! x = Some c' ->
  exists c, h !! x = Some c /\ allocated_size c = allocated_size c'.
Proof.
  intros [_ H] Hc'. destruct (H x) as [E [I _]].
  destruct I as [c Hc]; [eauto|]. exists c. split; [done|].
  unfold asz_of in E. rewrite Hc, Hc' in E. simpl in E. done.
Qed.

(** ** The well-formed allocator state

    [wf_at B s l lv]: the quarantine ring is [l] (most recently freed
    first) and the list of allocated chunks is [lv]; every chunk lies in
    the mapped heap below [B] and has a power of two as its size; the
    quarantine counter is the sum of the sizes of the ring. *)

Record wf_at (B : Z) (s : heap) (l lv : list Z) : Prop := {
  wf_ring_nodup : NoDup l;
  wf_live_nodup : NoDup lv;
  wf_ring : ring (hdr s) (quarantine_ s) l;
  wf_live_head : malloced_items_ s = hd 0 lv;
  wf_live : dlseg (hdr s) CHUNK_ALLOCATED 0 lv 0;
  wf_alloc : forall x c, hdr s !! x = Some c ->
                         chunk_state c = CHUNK_ALLOCATED -> x ∈ lv;
  wf_range : forall x c, hdr s !! x = Some c -> mmap_base <= x < B;
  wf_pow2 : forall x c, hdr s !! x = Some c ->
                        exists j, 0 <= j < WORDSIZE /\ allocated_size c = 2 ^ j;
  wf_total : total_size (hdr s) <= B - mmap_base;
  wf_brk : mmap_base <= B <= brk s /\ brk s <= mmap_limit;
  wf_chunks : length (chunks s) = Z.to_nat WORDSIZE;
  wf_qsize : quarantine_size_ s = sum_sizes (hdr s) l;
  wf_flag : is_word (flag_quarantine_size s) }.

Definition wf (s : heap) (l lv : list Z) : Prop := wf_at (brk s) s l lv.

(** The invariant of the allocator between two calls. *)
Definition Inv (s : heap) : Prop :=
  exists l lv, wf s l lv /\ quarantine_size_ s <= flag_quarantine_size s.

Lemma wf_at_frame B s s' l lv :
  wf_at B s l lv ->
  hdr s' = hdr s -> quarantine_ s' = quarantine_ s ->
  quarantine_size_ s' = quarantine_size_ s ->
  malloced_items_ s' = malloced_items_ s ->
  flag_quarantine_size s' = flag_quarantine_size s ->
  length (chunks s') = length (chunks s) ->
  brk s <= brk s' <= mmap_limit ->
  wf_at B s' l lv.
Proof.
  intros [] E1 E2 E3 E4 E5 E6 E7.
  constructor; rewrite ?E1, ?E2, ?E3, ?E4, ?E5, ?E6; try done. lia.
Qed.

Lemma wf_at_mono B B' s l lv :
  wf_at B s l lv -> B <= B' <= brk s -> wf_at B' s l lv.
Proof.
  intros [] HB. constructor; try done.
  - intros x c Hc. specialize (wf_range0 x c Hc). lia.
  - lia.
  - lia.
Qed.

Lemma wf_ring_lookup B s l lv x :
  wf_at B s l lv -> x ∈ l ->
  exists c, hdr s !! x = Some c /\ chunk_state c = CHUNK_QUARANTINE.
Proof.
  intros H Hx. pose proof (wf_ring _ _ _ _ H) as Hr.
  destruct l as [|y l]; [by apply elem_of_nil in Hx|].
  destruct Hr as [_ Hr]. eapply dlseg_elem; eauto.
Qed.

Lemma wf_nonnull B s l lv x c : wf_at B s l lv -> hdr s !! x = Some c -> x <> 0.
Proof.
  intros H Hc. pose proof (wf_range _ _ _ _ H x c Hc). unfold mmap_base in *. lia.
Qed.

Lemma wf_asz_pos B s l lv x c :
  wf_at B s l lv -> hdr s !! x = Some c -> 0 < allocated_size c.
Proof.
  intros H Hc. destruct (wf_pow2 _ _ _ _ H x c Hc) as (j & Hj & ->).
  apply Z.pow_pos_nonneg; lia.
Qed.

Lemma sum_sizes_nonneg B s l lv l' :
  wf_at B s l lv -> 0 <= sum_sizes (hdr s) l'.
Proof.
  intros H. induction l' as [|x l' IH]; simpl; [done|].
  assert (0 <= asz_of (hdr s) x); [|lia].
  unfold asz_of. destruct (hdr s !! x) as [c|] eqn:Hc; simpl; [|done].
  pose proof (wf_asz_pos _ _ _ _ _ _ H Hc). lia.
Qed.

(** ** Stepping through a body *)

Lemma bind_get {B} (f : heap -> M B) s : bind get f s = f s s.
Proof. done. Qed.

Lemma bind_ret {A B} (a : A) (f : A -> M B) s : bind (ret a) f s = f a s.
Proof. done. Qed.

Lemma bind_modify {B} g (f : unit -> M B) s : bind (modify g) f s = f tt (g s).
Proof. done. Qed.

Lemma bind_CHECK {B} b (f : unit -> M B) s : b = true -> bind (CHECK b) f s = f tt s.
Proof. intros ->. done. Qed.

Lemma bind_load {B} m c (f : Chunk -> M B) s :
  hdr s !! m = Some c -> bind (load m) f s = f c s.
Proof. intros H. unfold bind. rewrite (load_step _ _ _ H). done. Qed.

Lemma update_alter m g s :
  is_Some (hdr s !! m) -> update m g s = Ok (tt, set_hdr (alter g m (hdr s)) s).
Proof.
  intros [c Hc]. unfold update. rewrite Hc. by rewrite (alter_alt_Some _ _ _ _ Hc).
Qed.

Lemma bind_update {B} m g (f : unit -> M B) s :
  is_Some (hdr s !! m) ->
  bind (update m g) f s = f tt (set_hdr (alter g m (hdr s)) s).
Proof. intros H. unfold bind. rewrite (update_alter _ _ _ H). done. Qed.

Lemma bind_assoc {A B C} (m : M A) (f : A -> M B) (g : B -> M C) s :
  bind (bind m f) g s = bind m (fun a => bind (f a) g) s.
Proof. unfold bind. destruct (m s) as [[a s1]| | |]; done. Qed.

Lemma bind_Log2 {B} j (f : Z -> M B) s :
  0 <= j < WORDSIZE -> bind (Log2 (2 ^ j)) f s = f j s.
Proof.
  intros Hj. unfold Log2. rewrite bind_assoc, bind_CHECK by (by apply IsPowerOfTwo_pow2).
  assert (2 ^ j <> 0) as Hne by (apply Z.pow_nonzero; lia).
  apply Z.eqb_neq in Hne. rewrite Hne, bind_ret, ctzl_pow2 by lia. done.
Qed.

Lemma bind_chunks_get {B} idx v (f : Z -> M B) s :
  0 <= idx -> chunks s !! Z.to_nat idx = Some v -> bind (chunks_get idx) f s = f v s.
Proof.
  intros Hi Hv. unfold bind, chunks_get. rewrite Hv.
  destruct (Z.leb_spec 0 idx); [done|lia].
Qed.

Lemma bind_chunks_set {B} idx v (f : unit -> M B) s :
  0 <= idx -> (Z.to_nat idx < length (chunks s))%nat ->
  bind (chunks_set idx v) f s = f tt (set_chunks (<[Z.to_nat idx := v]> (chunks s)) s).
Proof.
  intros Hi Hv. unfold bind, chunks_set.
  destruct (lookup_lt_is_Some_2 _ _ Hv) as [w ->].
  destruct (Z.leb_spec 0 idx); [done|lia].
Qed.

Lemma last_default_Some {A} (l : list A) d : l <> [] -> last l = Some (List.last l d).
Proof.
  induction l as [|x l IH]; [done|]. intros _. destruct l as [|y l]; [done|].
  rewrite last_cons_cons. rewrite IH by done. done.
Qed.

Lemma head_hd_Some {A} (l : list A) d : l <> [] -> head l = Some (hd d l).
Proof. destruct l; done. Qed.

(** The constants of the model as numerals, for [lia]. *)
Ltac knorm :=
  unfold is_word, mmap_limit, mmap_base, kMinMmapSize, kPageSize, kWordSize,
         WORDSIZE in *;
  change (2 ^ 64) with 18446744073709551616 in *;
  change (2 ^ 47) with 140737488355328 in *;
  change (2 ^ 32) with 4294967296 in *;
  change (64 / 8) with 8 in *;
  change (4096 * 128) with 524288 in *.

Ltac hsimpl :=
  cbn [hdr words shadow brk chunks quarantine_ quarantine_size_ malloced_items_
       flag_quarantine_size set_hdr set_words set_shadow set_brk set_chunks
       set_quarantine set_quarantine_size set_malloced_items
       chunk_state allocated_size used_size next prev set_chunk_state
       set_allocated_size set_used_size set_next set_prev] in *.

(** Lookups through a stack of [alter]s, for keys told apart by the
    hypotheses. *)
Ltac alter_lookup :=
  hsimpl;
  repeat first [ rewrite lookup_alter_eq | rewrite lookup_alter_ne by congruence ];
  repeat match goal with
         | H : ?h !! ?m = Some _ |- context [?h !! ?m] => rewrite H
         end;
  cbn [fmap option_fmap option_map]; hsimpl.

Ltac solve_lookup := alter_lookup; first [ reflexivity | eassumption | eauto ].

Ltac step_load :=
  match goal with
  | |- context [bind (load ?m) ?f ?s] =>
      let H := fresh in
      eassert (H : hdr s !! m = Some _);
      [ hsimpl; try solve [solve_lookup] | rewrite (bind_load m _ f s H); clear H ]
  end.

Ltac step_update :=
  match goal with
  | |- context [bind (update ?m ?g) ?f ?s] =>
      let H := fresh in
      assert (H : is_Some (hdr s !! m));
      [ hsimpl; try solve [solve_lookup] | rewrite (bind_update m g f s H); clear H ]
  end.

Ltac step_check :=
  match goal with
  | |- context [bind (CHECK ?b) ?f ?s] =>
      let H := fresh in
      assert (H : b = true);
      [ hsimpl | rewrite (bind_CHECK b f s H); clear H ]
  end.

Lemma same_sizes_pow2 B s l lv h' x c' :
  wf_at B s l lv -> same_sizes (hdr s) h' -> h' !! x = Some c' ->
  mmap_base <= x < B /\ exists j, 0 <= j < WORDSIZE /\ allocated_size c' = 2 ^ j.
Proof.
  intros H Hs Hc'. destruct (same_sizes_lookup _ _ _ _ Hs Hc') as (c & Hc & E).
  rewrite <- E. split; [eapply wf_range; eauto|eapply wf_pow2; eauto].
Qed.

Lemma wf_at_intro B s s' l lv l' lv' :
  wf_at B s l lv -> same_sizes (hdr s) (hdr s') ->
  NoDup l' -> NoDup lv' ->
  ring (hdr s') (quarantine_ s') l' ->
  malloced_items_ s' = hd 0 lv' ->
  dlseg (hdr s') CHUNK_ALLOCATED 0 lv' 0 ->
  (forall x c, hdr s' !! x = Some c -> chunk_state c = CHUNK_ALLOCATED -> x ∈ lv') ->
  brk s' = brk s -> length (chunks s') = length (chunks s) ->
  quarantine_size_ s' = sum_sizes (hdr s') l' ->
  flag_quarantine_size s' = flag_quarantine_size s ->
  wf_at B s' l' lv'.
Proof.
  intros H Hs N1 N2 Hr Hh Hl Ha Eb Ec Eq Ef. constructor; try done.
  - intros x c Hc. eapply same_sizes_pow2; eauto.
  - intros x c Hc. eapply same_sizes_pow2; eauto.
  - destruct Hs as [-> _]. by destruct H.
  - rewrite Eb. by destruct H.
  - rewrite Ec. by destruct H.
  - rewrite Ef. by destruct H.
Qed.

Lemma sum_sizes_same h h' l : same_sizes h h' -> sum_sizes h' l = sum_sizes h l.
Proof. intros [_ H]. apply sum_sizes_ext. intros x _. apply H. Qed.

Lemma sum_sizes_bound B s l lv l' :
  wf_at B s l lv -> NoDup l' -> (forall x, x ∈ l' -> is_Some (hdr s !! x)) ->
  0 <= sum_sizes (hdr s) l' <= mmap_limit - mmap_base.
Proof.
  intros H Hnd Hin. split; [eapply sum_sizes_nonneg; eauto|].
  assert (sum_sizes (hdr s) l' <= total_size (hdr s)).
  { apply sum_sizes_le_total; [done|done|].
    intros x c Hc. pose proof (wf_asz_pos _ _ _ _ _ _ H Hc). lia. }
  pose proof (wf_total _ _ _ _ H). pose proof (wf_brk _ _ _ _ H). lia.
Qed.

Lemma ring_unfold h q l0 t :
  ring h q (l0 ++ [t]) ->
  exists x, head (l0 ++ [t]) = Some x /\ q = x /\
            dlseg h CHUNK_QUARANTINE t (l0 ++ [t]) x.
Proof.
  intros Hr. destruct l0 as [|x l0]; simpl in Hr |- *.
  - exists t. tauto.
  - exists x. destruct Hr as [-> Hr]. split; [done|]. split; [done|].
    change (match l0 ++ [t] with [] => x | _ :: _ => List.last (l0 ++ [t]) x end)
      with (List.last (x :: l0 ++ [t]) x) in Hr.
    rewrite last_cons_default, last_app_single in Hr. done.
Qed.

Lemma same_sizes_alter_r h h2 x f :
  (forall c, allocated_size (f c) = allocated_size c) ->
  same_sizes h h2 -> same_sizes h (alter f x h2).
Proof.
  intros E Hs. eapply same_sizes_trans; [exact Hs|].
  destruct (h2 !! x) as [c|] eqn:Hc.
  - rewrite (alter_alt_Some _ _ _ _ Hc). eapply same_sizes_insert; eauto.
  - replace (alter f x h2) with h2; [apply same_sizes_refl|].
    apply map_eq. intros y. rewrite lookup_alter. case_decide; [|done].
    subst. by rewrite Hc.
Qed.

Ltac solve_same_sizes :=
  hsimpl;
  repeat (apply same_sizes_alter_r; [ intros ?; reflexivity | ]);
  apply same_sizes_refl.

Lemma asz_of_lookup h x c : h !! x = Some c -> asz_of h x = allocated_size c.
Proof. unfold asz_of. intros ->. done. Qed.

Lemma states_distinct :
  CHUNK_AVAILABLE <> CHUNK_ALLOCATED /\ CHUNK_AVAILABLE <> CHUNK_QUARANTINE
  /\ CHUNK_ALLOCATED <> CHUNK_QUARANTINE /\ CHUNK_MEMALIGN <> CHUNK_ALLOCATED
  /\ CHUNK_MEMALIGN <> CHUNK_AVAILABLE /\ CHUNK_MEMALIGN <> CHUNK_QUARANTINE.
Proof. repeat split; discriminate. Qed.

Ltac states :=
  let H := fresh in
  pose proof states_distinct as H; hsimpl; intuition congruence.

(** ** [pop]: the eviction of the ring's tail *)

Definition pop_post (s : heap) (t : Z) (s' : heap) : Prop :=
  quarantine_size_ s' = quarantine_size_ s - asz_of (hdr s) t
  /\ same_sizes (hdr s) (hdr s')
  /\ (exists c', hdr s' !! t = Some c' /\ chunk_state c' = CHUNK_AVAILABLE
        /\ next c' = default 0 (chunks s !! Z.to_nat (Z.log2 (asz_of (hdr s) t))))
  /\ chunks s' = <[Z.to_nat (Z.log2 (asz_of (hdr s) t)) := t]> (chunks s)
  /\ (forall y c, hdr s !! y = Some c ->
        exists c', hdr s' !! y = Some c' /\ used_size c' = used_size c
                   /\ (y <> t -> chunk_state c' = chunk_state c))
  /\ words s' = words s /\ shadow s' = shadow s /\ brk s' = brk s
  /\ malloced_items_ s' = malloced_items_ s
  /\ flag_quarantine_size s' = flag_quarantine_size s
  /\ (forall y c, hdr s !! y = Some c -> chunk_state c = CHUNK_AVAILABLE ->
        hdr s' !! y = Some c).

Lemma pop_spec s l0 t lv :
  wf s (l0 ++ [t]) lv ->
  exists s', pop s = Ok (tt, s') /\ wf s' l0 lv /\ pop_post s t s'.
Proof.
  intros H.
  pose proof (wf_ring _ _ _ _ H) as Hr.
  pose proof (wf_ring_nodup _ _ _ _ H) as Hnd.
  apply NoDup_app in Hnd as (Hnd0 & Hnt & _).
  assert (Htl : t ∉ l0) by (intros Hin; apply (Hnt t Hin); (rewrite ?elem_of_app, ?elem_of_cons, ?list_elem_of_singleton; tauto)).
  destruct (wf_ring_lookup _ _ _ _ t H) as (ct & Hct & Hst); [(rewrite ?elem_of_app, ?elem_of_cons, ?list_elem_of_singleton; tauto)|].
  destruct (ring_unfold _ _ _ _ Hr) as (x & Hhd & Hq & Hseg).
  apply dlseg_app in Hseg as [Hseg0 Hsegt]. simpl in Hsegt, Hseg0.
  destruct Hsegt as [(ct' & Hct' & _ & Hpv & Hnx) _].
  rewrite Hct in Hct'. injection Hct' as <-.
  destruct (wf_pow2 _ _ _ _ H t ct Hct) as (j & Hj & Hasz).
  pose proof (wf_nonnull _ _ _ _ _ _ H Hct) as Ht0.
  pose proof (wf_qsize _ _ _ _ H) as Hqs. rewrite sum_sizes_app in Hqs.
  simpl in Hqs. unfold asz_of in Hqs. rewrite Hct in Hqs. simpl in Hqs.
  pose proof (sum_sizes_nonneg _ _ _ _ l0 H) as Hs0.
  pose proof (wf_asz_pos _ _ _ _ _ _ H Hct) as Hapos.
  assert (Hxq : exists cx, hdr s !! x = Some cx /\ prev cx = t).
  { destruct l0 as [|x' l0]; simpl in Hhd; injection Hhd as <-.
    - exists ct. split; [done|]. done.
    - destruct Hseg0 as [(cx & Hcx & _ & Hp & _) _]. eauto. }
  destruct Hxq as (cx & Hcx & Hpx).
  pose proof (wf_nonnull _ _ _ _ _ _ H Hcx) as Hx0.
  pose proof (wf_chunks _ _ _ _ H) as Hlen.
  assert (Hjl : (Z.to_nat j < length (chunks s))%nat).
  { rewrite Hlen. unfold WORDSIZE in *. lia. }
  destruct (lookup_lt_is_Some_2 _ _ Hjl) as [hd0 Hhd0].
  assert (Hlive : forall y, y ∈ lv -> y ∉ l0 ++ [t]).
  { intros y Hy Hy'.
    destruct (dlseg_elem _ _ _ _ _ _ (wf_live _ _ _ _ H) Hy) as (c2 & Hc2 & Hs2).
    destruct (wf_ring_lookup _ _ _ _ y H Hy') as (c3 & Hc3 & Hs3).
    rewrite Hc2 in Hc3. injection Hc3 as <-. rewrite Hs2 in Hs3. discriminate. }
  assert (Hsum : wrap (quarantine_size_ s - allocated_size ct) = sum_sizes (hdr s) l0).
  { rewrite Hqs. replace (sum_sizes (hdr s) l0 + (allocated_size ct + 0) - allocated_size ct)
      with (sum_sizes (hdr s) l0) by lia.
    apply wrap_small.
    assert (0 <= sum_sizes (hdr s) l0 <= mmap_limit - mmap_base).
    { eapply sum_sizes_bound; [exact H|done|].
      intros y Hy. destruct (wf_ring_lookup _ _ _ _ y H) as (c & Hc & _); [(rewrite ?elem_of_app, ?elem_of_cons, ?list_elem_of_singleton; tauto)|eauto]. }
    knorm. lia. }
  assert (Hlog : Z.log2 (asz_of (hdr s) t) = j).
  { rewrite (asz_of_lookup _ _ _ Hct), Hasz. apply Z.log2_pow2. lia. }
  destruct l0 as [|x' l0'].
  - simpl in Hhd. injection Hhd as <-.
    assert (cx = ct) by congruence. subst cx.
    unfold pop. rewrite bind_get.
    step_check. { rewrite Hq. apply negb_true_iff, Z.eqb_neq. done. }
    step_check. { apply Z.ltb_lt. lia. }
    rewrite Hq. rewrite (bind_load _ _ _ _ Hcx), Hpx.
    step_check. { apply negb_true_iff, Z.eqb_neq. done. }
    rewrite (bind_load _ _ _ _ Hct), Hnx, Hpv.
    cbn [List.last].
    step_check. { apply andb_true_iff; split; apply negb_true_iff, Z.eqb_neq; done. }
    rewrite Z.eqb_refl, bind_modify.
    step_load.
    step_check. { apply Z.leb_le. lia. }
    rewrite bind_modify.
    step_check. { apply Z.eqb_eq. done. }
    step_update.
    rewrite Hasz, bind_Log2 by done.
    rewrite (bind_chunks_get j hd0) by (hsimpl; first [lia|done]).
    step_update.
    eexists. split.
    { unfold chunks_set. hsimpl. rewrite Hhd0.
      destruct (Z.leb_spec 0 j); [reflexivity|lia]. }
    split.
    + eapply (wf_at_intro _ s); hsimpl; try done.
      * solve_same_sizes.
      * by destruct H.
      * by destruct H.
      * eapply dlseg_ext; [|apply (wf_live _ _ _ _ H)].
        intros y c Hy Hc. exists c. split; [|done].
        assert (y <> t) by (intros ->; apply (Hlive t Hy); (rewrite ?elem_of_app, ?elem_of_cons, ?list_elem_of_singleton; tauto)).
        solve_lookup.
      * intros y c Hc Hs. destruct (decide (y = t)) as [->|Hne].
        -- revert Hc. alter_lookup. intros [= <-]. discriminate.
        -- revert Hc. alter_lookup. intros Hc. eapply wf_alloc; eauto.
      * apply length_insert.
      * rewrite <- Hasz, Hsum. symmetry. apply sum_sizes_same. solve_same_sizes.
    + unfold pop_post. hsimpl. rewrite Hlog, Hhd0.
      split. { rewrite (asz_of_lookup _ _ _ Hct), <- Hasz, Hsum, Hqs. lia. }
      split. { solve_same_sizes. }
      split. { eexists. split; [solve_lookup|]. done. }
      split; [done|].
      split; [|repeat (split; [done|])].
      * intros y c Hc. destruct (decide (y = t)) as [Ey|?]; [rewrite Ey|];
          eexists; (split; [solve_lookup|]); hsimpl; split; congruence.
      * intros y c Hc Hav.
        assert (y <> t) by (intros ->; states).
        solve_lookup.
  - simpl in Hhd. injection Hhd as <-.
    remember (x' :: l0') as l0 eqn:El0.
    assert (Hl0 : l0 <> []) by (subst l0; done).
    remember (List.last l0 t) as u eqn:Eu.
    assert (Hu : u ∈ l0) by (subst u; apply last_In_default; exact Hl0).
    assert (Hxl : x' ∈ l0) by (subst l0; (rewrite ?elem_of_app, ?elem_of_cons, ?list_elem_of_singleton; tauto)).
    destruct (dlseg_elem _ _ _ _ _ _ Hseg0 Hu) as (cu & Hcu & Hsu).
    pose proof (wf_nonnull _ _ _ _ _ _ H Hcu) as Hu0.
    assert (Hxt : x' <> t) by (intros ->; done).
    assert (Hut : u <> t) by (intros E; rewrite E in Hu; done).
    unfold pop. rewrite bind_get.
    step_check. { rewrite Hq. apply negb_true_iff, Z.eqb_neq. done. }
    step_check. { apply Z.ltb_lt. lia. }
    rewrite Hq. rewrite (bind_load _ _ _ _ Hcx), Hpx.
    step_check. { apply negb_true_iff, Z.eqb_neq. done. }
    rewrite (bind_load _ _ _ _ Hct), Hnx, Hpv.
    step_check. { apply andb_true_iff; split; apply negb_true_iff, Z.eqb_neq; done. }
    apply Z.eqb_neq in Hxt as Hxt'. rewrite Hxt'. clear Hxt'.
    rewrite bind_assoc. step_update.
    step_update. { rewrite lookup_alter_is_Some. eauto. }
    step_load.
    step_check. { apply Z.leb_le. lia. }
    rewrite bind_modify.
    step_check. { apply Z.eqb_eq. done. }
    step_update.
    rewrite Hasz, bind_Log2 by done.
    rewrite (bind_chunks_get j hd0) by (hsimpl; first [lia|done]).
    step_update.
    eexists. split.
    { unfold chunks_set. hsimpl. rewrite Hhd0.
      destruct (Z.leb_spec 0 j); [reflexivity|lia]. }
    split.
    + eapply (wf_at_intro _ s); hsimpl; try done.
      * solve_same_sizes.
      * by destruct H.
      * rewrite El0. cbn [ring]. split; [done|]. rewrite <- El0.
        replace (List.last l0 x') with u by (subst u l0; rewrite !last_cons_default; done).
        eapply (dlseg_relink (hdr s)); [done|exact Hseg0|].
        intros y c Hy Hc.
        assert (y <> t) by (intros ->; done).
        rewrite (last_default_Some l0 t), <- Eu by done.
        replace (head l0) with (Some x') by (subst l0; done).
        destruct (decide (y = x')) as [Ex|Hyx];
          [rewrite Ex; destruct (decide (x' = u)) as [E2|N2]; [rewrite <- E2|]
          |destruct (decide (y = u)) as [E2|N2]; [rewrite E2|]];
          eexists; (split; [solve_lookup|]); hsimpl;
          repeat split; repeat case_decide; try done; congruence.
      * by destruct H.
      * eapply dlseg_ext; [|apply (wf_live _ _ _ _ H)].
        intros y c Hy Hc. exists c. split; [|done].
        assert (y <> t) by (intros ->; apply (Hlive t Hy); (rewrite ?elem_of_app, ?elem_of_cons, ?list_elem_of_singleton; tauto)).
        assert (y <> u) by (intros ->; apply (Hlive u Hy); (rewrite ?elem_of_app, ?elem_of_cons, ?list_elem_of_singleton; tauto)).
        assert (y <> x') by (intros ->; apply (Hlive x' Hy); (rewrite ?elem_of_app, ?elem_of_cons, ?list_elem_of_singleton; tauto)).
        solve_lookup.
      * intros y c Hc Hs.
        destruct (decide (y = t)) as [->|?].
        { revert Hc. alter_lookup. intros [= <-]. discriminate. }
        destruct (decide (y = u)) as [->|?].
        { destruct (wf_ring_lookup _ _ _ _ u H) as (c3 & Hc3 & Hs3); [(rewrite ?elem_of_app, ?elem_of_cons, ?list_elem_of_singleton; tauto)|].
          revert Hc. destruct (decide (u = x')) as [->|?]; alter_lookup;
            intros [= <-]; states. }
        destruct (decide (y = x')) as [->|?].
        { destruct (wf_ring_lookup _ _ _ _ x' H) as (c3 & Hc3 & Hs3); [(rewrite ?elem_of_app, ?elem_of_cons, ?list_elem_of_singleton; tauto)|].
          revert Hc. alter_lookup. intros [= <-]. states. }
        revert Hc. alter_lookup. intros Hc. eapply wf_alloc; eauto.
      * apply length_insert.
      * rewrite <- Hasz, Hsum. symmetry. apply sum_sizes_same. solve_same_sizes.
    + unfold pop_post. hsimpl. rewrite Hlog, Hhd0.
      split. { rewrite (asz_of_lookup _ _ _ Hct), <- Hasz, Hsum, Hqs. lia. }
      split. { solve_same_sizes. }
      split. { eexists. split; [solve_lookup|]. done. }
      split; [done|].
      split; [|repeat (split; [done|])].
      * intros y c Hc.
        destruct (decide (y = t)) as [Ey|?]; [rewrite Ey|
          destruct (decide (y = x')) as [Ex|Hyx];
            [rewrite Ex; destruct (decide (x' = u)) as [E2|N2]; [rewrite <- E2|]
            |destruct (decide (y = u)) as [E2|N2]; [rewrite E2|]]];
            eexists; (split; [solve_lookup|]); hsimpl; split; congruence.
      * intros y c Hc Hav.
        assert (y <> t) by (intros ->; states).
        assert (y <> u).
        { intros ->. assert (cu = c) by congruence. subst cu. states. }
        assert (y <> x').
        { intros ->.
          destruct (dlseg_elem _ _ _ _ _ _ Hseg0 Hxl) as (c3 & Hc3 & Hs3).
          assert (c3 = c) by congruence. subst c3. states. }
        solve_lookup.
Qed.

(** ** [evict]: the loop of [TakeChunkBack] *)

(** What a run of evictions of the chunks [k] leaves of the state. *)
Definition evicted (s : heap) (k : list Z) (s' : heap) : Prop :=
  same_sizes (hdr s) (hdr s')
  /\ (forall t, t ∈ k -> exists c', hdr s' !! t = Some c'
                                   /\ chunk_state c' = CHUNK_AVAILABLE)
  /\ (forall y c, hdr s !! y = Some c ->
        exists c', hdr s' !! y = Some c' /\ used_size c' = used_size c
                   /\ (y ∉ k -> chunk_state c' = chunk_state c))
  /\ words s' = words s /\ shadow s' = shadow s /\ brk s' = brk s
  /\ malloced_items_ s' = malloced_items_ s
  /\ flag_quarantine_size s' = flag_quarantine_size s.

Lemma evict_spec fuel : forall s l lv,
  wf s l lv -> (length l < fuel)%nat ->
  exists s' l' k, evict fuel s = Ok (tt, s') /\ wf s' l' lv /\ l = l' ++ k
    /\ quarantine_size_ s' <= flag_quarantine_size s'
    /\ (quarantine_size_ s <= flag_quarantine_size s -> k = [])
    /\ evicted s k s'.
Proof.
  induction fuel as [|fuel IH]; intros s l lv H Hlen; [lia|].
  pose proof (wf_flag _ _ _ _ H) as Hflag.
  pose proof (wf_qsize _ _ _ _ H) as Hqs.
  pose proof (sum_sizes_nonneg _ _ _ _ l H) as Hs0.
  cbn [evict].
  destruct (negb (quarantine_size_ s =? 0)
            && (flag_quarantine_size s <? quarantine_size_ s)) eqn:Hcond.
  - apply andb_true_iff in Hcond as [Hne Hlt].
    apply negb_true_iff, Z.eqb_neq in Hne. apply Z.ltb_lt in Hlt.
    destruct l as [|x l1] using rev_ind; [simpl in Hqs; lia|]. clear IHl1.
    destruct (pop_spec _ _ _ _ H) as (s1 & Hpop & Hwf1 & Hpost).
    destruct Hpost as (P1 & P2 & P3 & P4 & P5 & P6 & P7 & P8 & P9 & P10 & _).
    destruct (IH s1 l1 lv Hwf1) as (s' & l' & k & Hev & Hwf' & El & Hcap & _ & Hevd).
    { rewrite length_app in Hlen. simpl in Hlen. lia. }
    destruct Hevd as (E1 & E2 & E3 & E4 & E5 & E6 & E7 & E8).
    exists s', l', (k ++ [x]). rewrite (bind_step _ _ _ _ _ Hpop).
    split; [done|]. split; [done|]. split; [rewrite El, app_assoc; done|].
    split; [done|]. split; [lia|].
    pose proof (wf_ring_nodup _ _ _ _ H) as Hnd.
    rewrite El, <- app_assoc in Hnd. apply NoDup_app in Hnd as (_ & _ & Hnd).
    apply NoDup_app in Hnd as (_ & Hkx & _).
    unfold evicted. split; [eapply same_sizes_trans; eauto|].
    split.
    { intros t Ht. apply elem_of_app in Ht as [Ht|Ht]; [eauto|].
      apply list_elem_of_singleton in Ht as ->.
      destruct P3 as (c1 & Hc1 & Hst1 & _).
      destruct (E3 x c1 Hc1) as (c' & Hc' & _ & Hst').
      exists c'. split; [done|]. rewrite Hst'; [done|].
      intros Hin. apply (Hkx x Hin). apply list_elem_of_singleton. done. }
    split.
    { intros y c Hc.
      destruct (P5 y c Hc) as (c1 & Hc1 & Hu1 & Hst1).
      destruct (E3 y c1 Hc1) as (c' & Hc' & Hu' & Hst').
      exists c'. split; [done|]. split; [congruence|]. intros Hy.
      rewrite Hst', Hst1; [done| |].
      - intros ->. apply Hy, elem_of_app. right. apply list_elem_of_singleton. done.
      - intros Hin. apply Hy, elem_of_app. by left. }
    repeat split; congruence.
  - exists s, l, []. split; [done|]. split; [done|]. split; [by rewrite app_nil_r|].
    split.
    { apply andb_false_iff in Hcond as [Hc|Hc].
      - apply negb_false_iff, Z.eqb_eq in Hc. unfold is_word in Hflag. lia.
      - apply Z.ltb_ge in Hc. done. }
    split; [done|]. unfold evicted. split; [apply same_sizes_refl|].
    split; [intros t Ht; by apply elem_of_nil in Ht|].
    split; [|done]. intros y c Hc. eauto.
Qed.

(** ** Relinking one end of a segment *)

Lemma dlseg_last_next h st pv l nx y c :
  dlseg h st pv l nx -> last l = Some y -> h !! y = Some c -> next c = nx.
Proof.
  revert pv. induction l as [|x l IH]; intros pv H Hl Hc; [done|].
  destruct H as [(cx & Hcx & _ & _ & Hnx) H]. destruct l as [|z l].
  - simpl in Hl. injection Hl as ->. simpl in Hnx. congruence.
  - rewrite last_cons_cons in Hl. eauto.
Qed.

Lemma dlseg_relink_head h h' st pv pv' nx l :
  NoDup l -> dlseg h st pv l nx ->
  (forall x c, x ∈ l -> h !! x = Some c ->
     exists c', h' !! x = Some c' /\ chunk_state c' = chunk_state c
       /\ prev c' = (if decide (head l = Some x) then pv' else prev c)
       /\ next c' = next c) ->
  dlseg h' st pv' l nx.
Proof.
  intros Hnd H Hrel. eapply dlseg_relink; [done|exact H|].
  intros x c Hx Hc. destruct (Hrel x c Hx Hc) as (c' & Hc' & E1 & E2 & E3).
  exists c'. split; [done|]. split; [done|]. split; [done|].
  destruct (decide (last l = Some x)) as [Hl|Hl]; [|done].
  rewrite E3. eapply dlseg_last_next; eauto.
Qed.

Lemma dlseg_relink_last h h' st pv nx nx' l :
  NoDup l -> dlseg h st pv l nx ->
  (forall x c, x ∈ l -> h !! x = Some c ->
     exists c', h' !! x = Some c' /\ chunk_state c' = chunk_state c
       /\ prev c' = prev c
       /\ next c' = (if decide (last l = Some x) then nx' else next c)) ->
  dlseg h' st pv l nx'.
Proof.
  intros Hnd H Hrel. eapply dlseg_relink; [done|exact H|].
  intros x c Hx Hc. destruct (Hrel x c Hx Hc) as (c' & Hc' & E1 & E2 & E3).
  exists c'. split; [done|]. split; [done|]. split; [|done].
  destruct (decide (head l = Some x)) as [Hl|Hl]; [|done]. rewrite E2.
  destruct l as [|z l]; [done|]. simpl in Hl. injection Hl as ->.
  destruct H as [(cz & Hcz & _ & Hp & _) _]. congruence.
Qed.

(** ** [TakeChunkBack] *)

(** The block of [TakeChunkBack] that removes [m] from the list of
    allocated chunks. *)
Definition unlink_block (m : Z) (c : Chunk) (s0 : heap) : M unit :=
  if m =? malloced_items_ s0 then
    do! modify (set_malloced_items (next c)) in
    if next c =? 0 then ret tt else update (next c) (set_prev 0)
  else
    let pv := prev c in
    let nx := next c in
    do! (if pv =? 0 then ret tt else update pv (set_next nx)) in
    if nx =? 0 then ret tt else update nx (set_prev pv).

Definition hdr_frame (s s1 : heap) : Prop :=
  same_sizes (hdr s) (hdr s1)
  /\ (forall y cy, hdr s !! y = Some cy ->
        exists cy', hdr s1 !! y = Some cy' /\ chunk_state cy' = chunk_state cy
                    /\ used_size cy' = used_size cy)
  /\ words s1 = words s /\ shadow s1 = shadow s /\ brk s1 = brk s
  /\ chunks s1 = chunks s
  /\ flag_quarantine_size s1 = flag_quarantine_size s.

Lemma unlink_block_spec s l l1 l2 m c :
  wf s l (l1 ++ m :: l2) -> hdr s !! m = Some c ->
  exists s1, unlink_block m c s s = Ok (tt, s1)
    /\ hdr_frame s s1
    /\ malloced_items_ s1 = hd 0 (l1 ++ l2)
    /\ dlseg (hdr s1) CHUNK_ALLOCATED 0 (l1 ++ l2) 0
    /\ (forall y, y ∉ l1 ++ l2 -> hdr s1 !! y = hdr s !! y)
    /\ quarantine_ s1 = quarantine_ s /\ quarantine_size_ s1 = quarantine_size_ s.
Proof.
  intros H Hc.
  pose proof (wf_live _ _ _ _ H) as Hl.
  pose proof (wf_live_head _ _ _ _ H) as Hh.
  pose proof (wf_live_nodup _ _ _ _ H) as Hnd.
  apply dlseg_app in Hl as [Hl1 Hl2].
  destruct Hl2 as [(c' & Hc' & Hst & Hpv & Hnx) Hl2].
  assert (c' = c) by congruence. subst c'. simpl in Hl1.
  apply NoDup_app in Hnd as (Hnd1 & Hd & Hnd2).
  apply NoDup_cons in Hnd2 as [Hm2 Hnd2].
  assert (Hm1 : m ∉ l1) by (intros Hin; apply (Hd m Hin); left).
  assert (Hnz : forall y, y ∈ l1 ++ m :: l2 -> y <> 0 /\ is_Some (hdr s !! y)).
  { intros y Hy. destruct (dlseg_elem _ _ _ _ _ _ (wf_live _ _ _ _ H) Hy) as (cy & Hcy & _).
    split; [eapply wf_nonnull; eauto|eauto]. }
  unfold unlink_block.
  destruct l1 as [|a l1].
  - simpl in Hh. rewrite Hh, Z.eqb_refl, bind_modify. simpl in Hpv.
    destruct l2 as [|n l2].
    + simpl in Hnx. rewrite Hnx. simpl. eexists. split; [reflexivity|].
      hsimpl. split. { unfold hdr_frame. hsimpl. split; [apply same_sizes_refl|]. split; [eauto|done]. }
      done.
    + simpl in Hnx. rewrite Hnx.
      destruct (Hnz n) as [Hn0 Hn]; [simpl; right; left|].
      apply Z.eqb_neq in Hn0. rewrite Hn0.
      rewrite update_alter by (hsimpl; done).
      eexists. split; [reflexivity|]. hsimpl.
      assert (Hnm : n <> m) by (intros ->; apply Hm2; left).
      split.
      { unfold hdr_frame. hsimpl. split; [solve_same_sizes|]. split; [|done].
        intros y cy Hcy. destruct (decide (y = n)) as [->|?];
          eexists; (split; [solve_lookup|]); done. }
      split; [done|]. split.
      { eapply (dlseg_relink_head (hdr s)); [done|exact Hl2|].
        intros y cy Hy Hcy. simpl.
        destruct (decide (y = n)) as [->|?]; eexists; (split; [solve_lookup|]); hsimpl;
          repeat split; repeat case_decide; try done; congruence. }
      split; [|done].
      intros y Hy. apply lookup_alter_ne. intros ->. apply Hy. left.
  - remember (a :: l1) as L1 eqn:EL1.
    assert (HL1 : L1 <> []) by (subst L1; done).
    assert (Hh' : malloced_items_ s = a) by (subst L1; done).
    remember (List.last L1 0) as p eqn:Ep.
    assert (Hp : p ∈ L1) by (subst p; apply last_In_default; done).
    assert (Hpl : last L1 = Some p) by (subst p; apply last_default_Some; done).
    assert (Hma : m <> a) by (intros ->; apply Hm1; subst L1; left).
    apply Z.eqb_neq in Hma as Hma'. rewrite Hh', Hma'. clear Hma'. cbv zeta.
    destruct (Hnz p) as [Hp0 Hps]; [apply elem_of_app; by left|].
    rewrite Hpv. apply Z.eqb_neq in Hp0 as Hp0'. rewrite Hp0'. clear Hp0'.
    rewrite (bind_update _ _ _ _ Hps).
    assert (Hpm : p <> m) by (intros ->; done).
    assert (Hhd : hd 0 (L1 ++ l2) = a) by (subst L1; done).
    destruct l2 as [|n l2].
    + simpl in Hnx. rewrite Hnx. simpl. eexists. split; [reflexivity|]. hsimpl.
      rewrite app_nil_r.
      split.
      { unfold hdr_frame. hsimpl. split; [solve_same_sizes|]. split; [|done].
        intros y cy Hcy. destruct (decide (y = p)) as [->|?];
          eexists; (split; [solve_lookup|]); done. }
      split; [subst L1; done|]. split.
      { eapply (dlseg_relink_last (hdr s)); [done|exact Hl1|].
        intros y cy Hy Hcy. rewrite Hpl.
        destruct (decide (y = p)) as [->|?]; eexists; (split; [solve_lookup|]); hsimpl;
          repeat split; repeat case_decide; try done; congruence. }
      split; [|done].
      intros y Hy. apply lookup_alter_ne. intros ->. done.
    + simpl in Hnx. rewrite Hnx.
      destruct (Hnz n) as [Hn0 Hn]; [apply elem_of_app; right; right; left|].
      apply Z.eqb_neq in Hn0 as Hn0'. rewrite Hn0'. clear Hn0'.
      rewrite update_alter by (hsimpl; rewrite lookup_alter_is_Some; done).
      eexists. split; [reflexivity|]. hsimpl.
      assert (Hnm : n <> m) by (intros ->; apply Hm2; left).
      assert (Hnp : n <> p) by (intros ->; apply (Hd p Hp); right; left).
      split.
      { unfold hdr_frame. hsimpl. split; [solve_same_sizes|]. split; [|done].
        intros y cy Hcy.
        destruct (decide (y = p)) as [->|?]; [|destruct (decide (y = n)) as [->|?]];
          eexists; (split; [solve_lookup|]); done. }
      split; [subst L1; done|]. split.
      { apply dlseg_app. split.
        - eapply (dlseg_relink_last (hdr s)); [done|exact Hl1|].
          intros y cy Hy Hcy. rewrite Hpl.
          assert (y <> n) by (intros ->; apply (Hd n Hy); right; left).
          destruct (decide (y = p)) as [->|?]; eexists; (split; [solve_lookup|]); hsimpl;
            repeat split; repeat case_decide; try done; congruence.
        - rewrite <- Ep.
          eapply (dlseg_relink_head (hdr s)); [exact Hnd2|exact Hl2|].
          intros y cy Hy Hcy.
          assert (y <> p) by (intros ->; apply (Hd p Hp); right; done).
          destruct (decide (y = n)) as [->|?]; eexists; (split; [solve_lookup|]); hsimpl;
            repeat split; repeat case_decide; try done; simpl in *; congruence. }
      split; [|done].
      intros y Hy. rewrite !lookup_alter_ne; [done| |].
      * intros ->. apply Hy, elem_of_app. by left.
      * intros ->. apply Hy, elem_of_app. right. left.
Qed.

(** The block of [TakeChunkBack] that links [m] into the ring. *)
Definition ring_insert_block (m : Z) (s0 : heap) : M unit :=
  if quarantine_ s0 =? 0 then
    update m (fun c => set_next m (set_prev m c))
  else
    let! q := load (quarantine_ s0) in
    let pv := prev q in
    let nx := quarantine_ s0 in
    do! update m (set_next nx) in
    do! update m (set_prev pv) in
    do! update pv (set_next m) in
    update nx (set_prev m).

Lemma ring_insert_block_spec s1 l m :
  NoDup l -> ring (hdr s1) (quarantine_ s1) l -> m ∉ l ->
  is_Some (hdr s1 !! m) -> (forall y, y ∈ l -> y <> 0) ->
  exists s2, ring_insert_block m s1 s1 = Ok (tt, s2)
    /\ hdr_frame s1 s2
    /\ dlseg (alter (set_chunk_state CHUNK_QUARANTINE) m (hdr s2))
             CHUNK_QUARANTINE (List.last l m) (m :: l) m
    /\ (forall y, y ∉ m :: l -> hdr s2 !! y = hdr s1 !! y)
    /\ quarantine_ s2 = quarantine_ s1 /\ quarantine_size_ s2 = quarantine_size_ s1
    /\ malloced_items_ s2 = malloced_items_ s1.
Proof.
  intros Hnd Hr Hm [cm Hcm] Hnz. unfold ring_insert_block.
  destruct l as [|x l'].
  - simpl in Hr. rewrite Hr. simpl.
    rewrite update_alter by eauto. eexists. split; [reflexivity|]. hsimpl.
    split.
    { unfold hdr_frame. hsimpl. split; [solve_same_sizes|]. split; [|done].
      intros y cy Hcy. destruct (decide (y = m)) as [->|?];
        eexists; (split; [solve_lookup|]); done. }
    split.
    { split; [|done]. eexists. split; [solve_lookup|]. done. }
    split; [|done].
    intros y Hy. apply lookup_alter_ne. intros ->. apply Hy. left.
  - remember (x :: l') as l eqn:El.
    assert (Hl : l <> []) by (subst l; done).
    assert (Hq : quarantine_ s1 = x) by (subst l; apply Hr).
    assert (Hseg : dlseg (hdr s1) CHUNK_QUARANTINE (List.last l x) l x)
      by (subst l; apply Hr).
    remember (List.last l x) as t eqn:Et.
    assert (Htl : last l = Some t) by (subst t; apply last_default_Some; done).
    assert (Ht : t ∈ l) by (subst t; apply last_In_default; done).
    assert (Hx : x ∈ l) by (subst l; left).
    assert (Hx0 : x <> 0) by auto.
    destruct (dlseg_elem _ _ _ _ _ _ Hseg Hx) as (cx & Hcx & _).
    destruct (dlseg_elem _ _ _ _ _ _ Hseg Ht) as (ct & Hct & _).
    assert (Hpx : prev cx = t).
    { rewrite El in Hseg. destruct Hseg as [(cx' & Hcx' & _ & Hp & _) _]. congruence. }
    assert (Hxm : x <> m) by (intros ->; done).
    assert (Htm : t <> m) by (intros ->; done).
    rewrite Hq. apply Z.eqb_neq in Hx0 as Hx0'. rewrite Hx0'. clear Hx0'.
    rewrite (bind_load _ _ _ _ Hcx). cbv zeta. rewrite Hpx.
    step_update. step_update. step_update.
    rewrite update_alter by (hsimpl; rewrite !lookup_alter_is_Some; eauto).
    eexists. split; [reflexivity|]. hsimpl.
    split.
    { unfold hdr_frame. hsimpl. split; [solve_same_sizes|]. split; [|done].
      intros y cy Hcy.
      destruct (decide (y = m)) as [Em|?]; [rewrite Em|
        destruct (decide (y = x)) as [Ex|?]; [rewrite Ex;
          destruct (decide (x = t)) as [E2|?]; [rewrite <- E2|]|
          destruct (decide (y = t)) as [E2|?]; [rewrite E2|]]];
        eexists; (split; [solve_lookup|]); hsimpl; split; congruence. }
    split.
    { split.
      - eexists. split; [solve_lookup|]. hsimpl. split; [done|]. split.
        + subst t l. rewrite !last_cons_default. done.
        + subst l. done.
      - replace (List.last l m) with t.
        2:{ subst t l. rewrite !last_cons_default. done. }
        eapply (dlseg_relink (hdr s1)); [done|exact Hseg|].
        intros y cy Hy Hcy. rewrite Htl.
        replace (head l) with (Some x) by (subst l; done).
        assert (y <> m) by (intros ->; done).
        destruct (decide (y = x)) as [Ex|?]; [rewrite Ex;
          destruct (decide (x = t)) as [E2|?]; [rewrite <- E2|]|
          destruct (decide (y = t)) as [E2|?]; [rewrite E2|]];
        eexists; (split; [solve_lookup|]); hsimpl;
          repeat split; repeat case_decide; try done; congruence. }
    split; [|done].
    intros y Hy. rewrite !lookup_alter_ne; [done| | | |]; intros ->; apply Hy.
    all: first [left; done | right; done].
Qed.

Lemma length_le_size (h : gmap Z Chunk) l :
  NoDup l -> (forall x, x ∈ l -> is_Some (h !! x)) -> (length l <= size h)%nat.
Proof.
  revert h. induction l as [|x l IH]; intros h Hnd Hin; simpl; [lia|].
  apply NoDup_cons in Hnd as [Hx Hnd].
  assert (Hs : is_Some (h !! x)) by (apply Hin; left).
  pose proof (map_size_delete_Some x h Hs) as Hd.
  assert (size h <> 0%nat).
  { apply map_size_non_empty_iff. destruct Hs as [c Hc]. intros ->.
    rewrite lookup_empty in Hc. done. }
  assert (length l <= size (delete x h))%nat; [|lia].
  apply IH; [done|]. intros y Hy.
  rewrite lookup_delete_ne by (intros ->; done). apply Hin. by right.
Qed.

Lemma hdr_frame_trans s1 s2 s3 : hdr_frame s1 s2 -> hdr_frame s2 s3 -> hdr_frame s1 s3.
Proof.
  intros (A1 & A2 & A3 & A4 & A5 & A6 & A7) (B1 & B2 & B3 & B4 & B5 & B6 & B7).
  split; [eapply same_sizes_trans; eauto|]. split.
  - intros y cy Hcy. destruct (A2 y cy Hcy) as (c1 & Hc1 & E1 & E2).
    destruct (B2 y c1 Hc1) as (c2 & Hc2 & E3 & E4). exists c2.
    split; [done|]. split; congruence.
  - repeat split; congruence.
Qed.

(** What [TakeChunkBack m] leaves of the state: [k] are the chunks it
    evicted. *)
Definition tcb_post (s : heap) (m : Z) (k : list Z) (s' : heap) : Prop :=
  same_sizes (hdr s) (hdr s')
  /\ (forall t, t ∈ k -> exists c', hdr s' !! t = Some c'
                                   /\ chunk_state c' = CHUNK_AVAILABLE)
  /\ (m ∉ k -> exists c', hdr s' !! m = Some c'
                          /\ chunk_state c' = CHUNK_QUARANTINE)
  /\ (forall y c, y <> m -> y ∉ k -> hdr s !! y = Some c ->
        exists c', hdr s' !! y = Some c' /\ chunk_state c' = chunk_state c)
  /\ (forall y c, hdr s !! y = Some c ->
        exists c', hdr s' !! y = Some c' /\ used_size c' = used_size c)
  /\ words s' = words s /\ shadow s' = shadow s /\ brk s' = brk s
  /\ flag_quarantine_size s' = flag_quarantine_size s.

(** [TakeChunkBack] up to its loop: the chunk [m] has left the list of
    allocated chunks and heads the ring, the free lists and the headers
    outside the two lists are as before, and what is left to run is the
    eviction loop.  Stated for any property [Q] of the outcome. *)
Lemma TakeChunkBack_links s l l1 l2 m (Q : result (unit * heap) -> Prop) :
  wf s l (l1 ++ m :: l2) -> 0 < flag_quarantine_size s ->
  (forall s3 c,
     hdr s !! m = Some c ->
     wf s3 (m :: l) (l1 ++ l2) ->
     (length (m :: l) <= size (hdr s3))%nat ->
     same_sizes (hdr s) (hdr s3) ->
     quarantine_size_ s3 = quarantine_size_ s + allocated_size c ->
     (exists c3, hdr s3 !! m = Some c3 /\ chunk_state c3 = CHUNK_QUARANTINE
                 /\ used_size c3 = used_size c) ->
     (forall y cy, y <> m -> hdr s !! y = Some cy ->
        exists cy', hdr s3 !! y = Some cy' /\ chunk_state cy' = chunk_state cy
                    /\ used_size cy' = used_size cy) ->
     (forall y, y ∉ l1 ++ m :: l2 -> y ∉ l -> hdr s3 !! y = hdr s !! y) ->
     chunks s3 = chunks s -> words s3 = words s -> shadow s3 = shadow s ->
     brk s3 = brk s -> flag_quarantine_size s3 = flag_quarantine_size s ->
     Q (evict (S (size (hdr s3))) s3)) ->
  Q (TakeChunkBack m s).
Proof.
  intros H Hflag HQ.
  assert (Hmlv : m ∈ l1 ++ m :: l2) by (apply elem_of_app; right; left).
  destruct (dlseg_elem _ _ _ _ _ _ (wf_live _ _ _ _ H) Hmlv) as (c & Hc & Hst).
  destruct (wf_pow2 _ _ _ _ H m c Hc) as (j & Hj & Hasz).
  pose proof (wf_nonnull _ _ _ _ _ _ H Hc) as Hm0.
  assert (Hml : m ∉ l).
  { intros Hin. destruct (wf_ring_lookup _ _ _ _ m H Hin) as (c' & Hc' & Hst').
    states. }
  destruct (unlink_block_spec _ _ _ _ _ _ H Hc)
    as (s1 & Hun & Hf1 & Hh1 & Hl1 & Hfr1 & Hq1 & Hqs1).
  assert (Hr1 : ring (hdr s1) (quarantine_ s1) l).
  { rewrite Hq1. pose proof (wf_ring _ _ _ _ H) as Hr.
    assert (Hext : forall st pv nx, dlseg (hdr s) st pv l nx -> dlseg (hdr s1) st pv l nx).
    { intros st pv nx. apply dlseg_ext. intros y cy Hy Hcy. exists cy. split; [|done].
      rewrite Hfr1; [done|]. intros Hy'.
      destruct (wf_ring_lookup _ _ _ _ y H Hy) as (c' & Hc' & Hst').
      assert (Hy2 : y ∈ l1 ++ m :: l2).
      { apply elem_of_app in Hy' as [?|?]; apply elem_of_app; [by left|right; by right]. }
      destruct (dlseg_elem _ _ _ _ _ _ (wf_live _ _ _ _ H) Hy2) as (c2 & Hc2 & Hst2).
      states. }
    destruct l as [|x l']; [done|]. destruct Hr as [-> Hr]. split; [done|]. by apply Hext. }
  assert (Hm1 : hdr s1 !! m = Some c).
  { rewrite Hfr1; [done|]. intros Hin.
    pose proof (wf_live_nodup _ _ _ _ H) as Hnd.
    apply NoDup_app in Hnd as (_ & Hd & Hnd2). apply NoDup_cons in Hnd2 as [Hm2 _].
    apply elem_of_app in Hin as [Hin|Hin]; [apply (Hd m Hin); left|done]. }
  destruct (ring_insert_block_spec s1 l m (wf_ring_nodup _ _ _ _ H) Hr1 Hml)
    as (s2 & Hins & Hf2 & Hseg2 & Hfr2 & Hq2 & Hqs2 & Hmi2); [eauto| |].
  { intros y Hy. destruct (wf_ring_lookup _ _ _ _ y H Hy) as (c' & Hc' & _).
    eapply wf_nonnull; eauto. }
  pose proof (hdr_frame_trans _ _ _ Hf1 Hf2) as Hf.
  destruct Hf as (F1 & F2 & F3 & F4 & F5 & F6 & F7).
  destruct (F2 m c Hc) as (c2 & Hc2 & Hst2 & Hus2).
  assert (Hasz2 : allocated_size c2 = allocated_size c).
  { destruct F1 as [_ F1]. destruct (F1 m) as [E _].
    rewrite (asz_of_lookup _ _ _ Hc), (asz_of_lookup _ _ _ Hc2) in E. done. }
  unfold TakeChunkBack.
  step_check. { apply negb_true_iff, Z.eqb_neq. done. }
  rewrite (bind_load _ _ _ _ Hc).
  step_check. { apply Z.eqb_eq. done. }
  step_check. { rewrite Hasz. by apply IsPowerOfTwo_pow2. }
  rewrite bind_get.
  step_check. { apply Z.ltb_lt. done. }
  unfold unlink_block in Hun. rewrite (bind_step _ _ _ _ _ Hun).
  rewrite bind_get.
  unfold ring_insert_block in Hins. rewrite (bind_step _ _ _ _ _ Hins).
  rewrite bind_modify.
  step_load. rewrite bind_modify. step_update. rewrite bind_get.
  hsimpl.
  match goal with |- context [evict _ ?st] => set (s3 := st) end.
  assert (Hring_some : forall y, y ∈ m :: l -> is_Some (hdr s !! y)).
  { intros y Hy. apply elem_of_cons in Hy as [->|Hy]; [eauto|].
    destruct (wf_ring_lookup _ _ _ _ y H Hy) as (c' & Hc' & _). eauto. }
  assert (Hnd3 : NoDup (m :: l)) by (apply NoDup_cons; split; [done|apply H]).
  assert (Hsum : wrap (quarantine_size_ s + allocated_size c) = sum_sizes (hdr s) (m :: l)).
  { rewrite (wf_qsize _ _ _ _ H). simpl. rewrite (asz_of_lookup _ _ _ Hc).
    rewrite Z.add_comm. apply wrap_small.
    pose proof (sum_sizes_bound _ _ _ _ (m :: l) H Hnd3 Hring_some) as Hb.
    simpl in Hb. rewrite (asz_of_lookup _ _ _ Hc) in Hb. knorm. lia. }
  assert (Hss3 : same_sizes (hdr s) (hdr s3)).
  { subst s3. hsimpl. apply same_sizes_alter_r; [done|exact F1]. }
  assert (Hnd12 : NoDup (l1 ++ l2)).
  { pose proof (wf_live_nodup _ _ _ _ H) as Hnd.
    apply NoDup_app in Hnd as (N1 & Hd & N2). apply NoDup_cons in N2 as [Hm2 N2].
    apply NoDup_app. split; [done|]. split; [|done].
    intros y Hy Hy2. apply (Hd y Hy). by right. }
  assert (Hm12 : m ∉ l1 ++ l2).
  { pose proof (wf_live_nodup _ _ _ _ H) as Hnd.
    apply NoDup_app in Hnd as (_ & Hd & N2). apply NoDup_cons in N2 as [Hm2 _].
    intros Hin. apply elem_of_app in Hin as [Hin|Hin]; [apply (Hd m Hin); left|done]. }
  assert (Hlive_ring : forall y, y ∈ l1 ++ l2 -> y ∉ m :: l).
  { intros y Hy Hy2. apply elem_of_cons in Hy2 as [->|Hy2]; [done|].
    destruct (wf_ring_lookup _ _ _ _ y H Hy2) as (c' & Hc' & Hst').
    assert (Hy3 : y ∈ l1 ++ m :: l2).
    { apply elem_of_app in Hy as [?|?]; apply elem_of_app; [by left|right; by right]. }
    destruct (dlseg_elem _ _ _ _ _ _ (wf_live _ _ _ _ H) Hy3) as (c3 & Hc3 & Hst3).
    states. }
  assert (Hwf3 : wf s3 (m :: l) (l1 ++ l2)).
  { unfold wf. replace (brk s3) with (brk s) by (subst s3; hsimpl; congruence).
    eapply (wf_at_intro _ s); try done; subst s3; hsimpl; try congruence.
    - split; [done|]. rewrite last_cons_default. exact Hseg2.
    - eapply dlseg_ext; [|exact Hl1].
      intros y cy Hy Hcy. exists cy. split; [|done].
      rewrite lookup_alter_ne by (intros ->; done).
      rewrite Hfr2; [done|]. by apply Hlive_ring.
    - intros y cy Hcy Hsty.
      destruct (decide (y = m)) as [->|Hne].
      { revert Hcy. alter_lookup. intros [= <-]. states. }
      rewrite lookup_alter_ne in Hcy by done.
      destruct F1 as [_ F1]. destruct (F1 y) as [_ [I _]].
      assert (is_Some (hdr s !! y)) as [c0 Hc0] by (apply I; eauto).
      destruct (F2 y c0 Hc0) as (cy' & Hcy' & E1 & E2).
      assert (cy' = cy) by congruence. subst cy'.
      assert (Hy : y ∈ l1 ++ m :: l2) by (eapply wf_alloc; eauto; congruence).
      apply elem_of_app in Hy as [?|Hy]; apply elem_of_app; [by left|right].
      apply elem_of_cons in Hy as [?|?]; done.
    - rewrite Hqs2, Hqs1, Hasz2, Hsum. symmetry. apply sum_sizes_same.
      apply same_sizes_alter_r; [done|exact F1]. }
  assert (Hm3 : hdr s3 !! m = Some (set_chunk_state CHUNK_QUARANTINE c2)).
  { subst s3. solve_lookup. }
  assert (Hy3 : forall y cy, y <> m -> hdr s2 !! y = Some cy -> hdr s3 !! y = Some cy).
  { intros y cy Hy Hcy. subst s3. solve_lookup. }
  apply (HQ s3 c); try done.
  - apply length_le_size; [done|]. intros y Hy.
    destruct Hss3 as [_ Hss3]. apply Hss3. by apply Hring_some.
  - subst s3. hsimpl. rewrite Hqs2, Hqs1, Hasz2, Hsum. simpl.
    rewrite (wf_qsize _ _ _ _ H), (asz_of_lookup _ _ _ Hc). lia.
  - eexists. split; [exact Hm3|]. hsimpl. split; [done|congruence].
  - intros y cy Hym Hcy. destruct (F2 y cy Hcy) as (cy2 & Hcy2 & Hs2 & Hu2).
    exists cy2. split; [by apply Hy3|]. done.
  - intros y Hlv Hl.
    assert (Hym : y <> m).
    { intros ->. apply Hlv. apply elem_of_app. right. left. }
    subst s3. hsimpl. rewrite lookup_alter_ne by done.
    rewrite Hfr2, Hfr1; [done| |].
    + intros Hin. apply Hlv.
      apply elem_of_app in Hin as [?|?]; apply elem_of_app; [by left|right; by right].
    + intros Hin. apply elem_of_cons in Hin as [?|?]; done.
Qed.

Lemma TakeChunkBack_spec s l l1 l2 m :
  wf s l (l1 ++ m :: l2) -> 0 < flag_quarantine_size s ->
  exists s' l' k, TakeChunkBack m s = Ok (tt, s')
    /\ wf s' l' (l1 ++ l2) /\ m :: l = l' ++ k
    /\ quarantine_size_ s' <= flag_quarantine_size s'
    /\ (quarantine_size_ s + asz_of (hdr s) m <= flag_quarantine_size s -> k = [])
    /\ tcb_post s m k s'.
Proof.
  intros H Hflag.
  apply (TakeChunkBack_links s l l1 l2 m); [done..|].
  intros s3 c Hc Hwf3 Hlen Hss3 Hq3 (c3 & Hm3 & Hst3 & Hus3) Hy3 _ Hch3 Hw3 Hsh3 Hb3 Hf3.
  destruct (evict_spec (S (size (hdr s3))) s3 (m :: l) (l1 ++ l2) Hwf3)
    as (s' & l' & k & Hev & Hwf' & El & Hcap & Hnone & Hevd); [lia|].
  exists s', l', k. split; [exact Hev|]. split; [done|]. split; [done|].
  split; [done|]. split.
  { intros Hle. apply Hnone. rewrite Hq3, Hf3.
    rewrite (asz_of_lookup _ _ _ Hc) in Hle. done. }
  destruct Hevd as (E1 & E2 & E3 & E4 & E5 & E6 & E7 & E8).
  unfold tcb_post. split; [eapply same_sizes_trans; eauto|].
  split; [done|]. split.
  { intros Hmk. destruct (E3 m _ Hm3) as (c' & Hc' & _ & Hst').
    exists c'. split; [done|]. rewrite Hst'; done. }
  split.
  { intros y cy Hym Hyk Hcy. destruct (Hy3 y cy Hym Hcy) as (cy2 & Hcy2 & Hs2 & _).
    destruct (E3 y cy2 Hcy2) as (c' & Hc' & _ & Hst').
    exists c'. split; [done|]. rewrite Hst'; [congruence|done]. }
  split.
  { intros y cy Hcy.
    destruct (decide (y = m)) as [->|Hym].
    - destruct (E3 m _ Hm3) as (c' & Hc' & Hu' & _). exists c'. split; [done|].
      assert (cy = c) by congruence. subst cy. congruence.
    - destruct (Hy3 y cy Hym Hcy) as (cy2 & Hcy2 & _ & Hu2).
      destruct (E3 y cy2 Hcy2) as (c' & Hc' & Hu' & _).
      exists c'. split; [done|]. congruence. }
  repeat split; congruence.
Qed.

(** ** Inverting a run that returned *)

Lemma CHECK_inv b s u s' : CHECK b s = Ok (u, s') -> b = true /\ s' = s.
Proof. intros H. apply CHECK_Ok in H as [-> [= _ ->]]. done. Qed.

Lemma get_inv s a s' : get s = Ok (a, s') -> a = s /\ s' = s.
Proof. intros [= -> ->]. done. Qed.

Lemma ret_inv {A} (x : A) s a s' : ret x s = Ok (a, s') -> a = x /\ s' = s.
Proof. intros [= -> ->]. done. Qed.

Lemma modify_inv g s u s' : modify g s = Ok (u, s') -> s' = g s.
Proof. intros [= _ ->]. done. Qed.

Lemma update_inv m g s u s' :
  update m g s = Ok (u, s') ->
  is_Some (hdr s !! m) /\ s' = set_hdr (alter g m (hdr s)) s.
Proof.
  intros H. assert (Hs : is_Some (hdr s !! m)).
  { unfold update in H. destruct (hdr s !! m); [eauto|discriminate]. }
  rewrite (update_alter _ _ _ Hs) in H. injection H as _ <-. done.
Qed.

Lemma chunks_get_inv idx s v s' :
  chunks_get idx s = Ok (v, s') ->
  chunks s !! Z.to_nat idx = Some v /\ 0 <= idx /\ s' = s.
Proof.
  unfold chunks_get. destruct (chunks s !! Z.to_nat idx); [|discriminate].
  destruct (Z.leb_spec 0 idx); [|discriminate]. intros [= -> ->]. done.
Qed.

Lemma chunks_set_inv idx v s u s' :
  chunks_set idx v s = Ok (u, s') ->
  s' = set_chunks (<[Z.to_nat idx := v]> (chunks s)) s.
Proof.
  unfold chunks_set. destruct (chunks s !! Z.to_nat idx); [|discriminate].
  destruct (Z.leb_spec 0 idx); [|discriminate]. intros [= _ <-]. done.
Qed.

Lemma Log2_inv x s idx s' :
  is_word x -> Log2 x s = Ok (idx, s') ->
  0 <= idx < WORDSIZE /\ x = 2 ^ idx /\ s' = s.
Proof.
  intros Hw H. unfold Log2 in H. apply bind_Ok in H as (u & s1 & H1 & H).
  apply CHECK_inv in H1 as [Hp ->].
  destruct (Z.eqb_spec x 0) as [|Hx]; [discriminate|].
  injection H as <- <-.
  destruct (IsPowerOfTwo_inv x Hw Hx Hp) as (j & Hj & ->).
  rewrite ctzl_pow2 by lia. done.
Qed.

Ltac minv H :=
  repeat (lazymatch type of H with
  | bind _ _ _ = Ok _ =>
      let a := fresh "a" in
      let s1 := fresh "s" in
      let H1 := fresh "Hs" in
      apply bind_Ok in H as (a & s1 & H1 & H);
      first [ apply CHECK_inv in H1 as [H1 ->]
            | apply load_Ok in H1 as [H1 ->]
            | apply get_inv in H1 as [-> ->]
            | apply modify_inv in H1 as ->
            | apply update_inv in H1 as [H1 ->]
            | apply ret_inv in H1 as [-> ->]
            | apply chunks_get_inv in H1 as (H1 & ? & ->)
            | apply chunks_set_inv in H1 as ->
            | idtac ]
  end).

(** ** Fresh chunks *)

Lemma wf_at_insert_fresh B s l lv m c j :
  wf_at B s l lv -> B <= m -> chunk_state c = CHUNK_AVAILABLE ->
  0 <= j < WORDSIZE -> allocated_size c = 2 ^ j -> m + 2 ^ j <= brk s ->
  wf_at (m + 2 ^ j) (set_hdr (<[m := c]> (hdr s)) s) l lv.
Proof.
  intros H HB Hst Hj Hasz Hbrk.
  assert (Hfresh : hdr s !! m = None).
  { destruct (hdr s !! m) as [c0|] eqn:Hc0; [|done].
    pose proof (wf_range _ _ _ _ H m c0 Hc0). lia. }
  assert (Hne : forall y c0, hdr s !! y = Some c0 -> y <> m) by (intros y c0 Hy ->; congruence).
  assert (Hpos : 0 < 2 ^ j) by (apply Z.pow_pos_nonneg; lia).
  pose proof (wf_brk _ _ _ _ H) as Hb.
  constructor; hsimpl.
  - apply H.
  - apply H.
  - pose proof (wf_ring _ _ _ _ H) as Hr. destruct l as [|x l']; [done|].
    destruct Hr as [-> Hr]. split; [done|]. eapply dlseg_ext; [|exact Hr].
    intros y cy Hy Hcy. exists cy. rewrite lookup_insert_ne; [done|].
    intros <-. congruence.
  - apply H.
  - eapply dlseg_ext; [|apply (wf_live _ _ _ _ H)].
    intros y cy Hy Hcy. exists cy. rewrite lookup_insert_ne; [done|].
    intros <-. congruence.
  - intros y cy Hcy Hs. destruct (decide (y = m)) as [->|?].
    + rewrite lookup_insert_eq in Hcy. injection Hcy as <-. states.
    + rewrite lookup_insert_ne in Hcy by done. eapply wf_alloc; eauto.
  - intros y cy Hcy. destruct (decide (y = m)) as [->|?].
    + lia.
    + rewrite lookup_insert_ne in Hcy by done.
      pose proof (wf_range _ _ _ _ H y cy Hcy). lia.
  - intros y cy Hcy. destruct (decide (y = m)) as [->|?].
    + rewrite lookup_insert_eq in Hcy. injection Hcy as <-. eauto.
    + rewrite lookup_insert_ne in Hcy by done. eapply wf_pow2; eauto.
  - rewrite total_size_insert_fresh by done. pose proof (wf_total _ _ _ _ H). lia.
  - lia.
  - apply H.
  - rewrite (wf_qsize _ _ _ _ H). symmetry. apply sum_sizes_ext.
    intros y Hy. unfold asz_of. rewrite lookup_insert_ne; [done|]. intros <-.
    destruct (wf_ring_lookup _ _ _ _ m H Hy) as (c0 & Hc0 & _). congruence.
  - apply H.
Qed.

(** What drawing fresh chunks leaves of the state. *)
Definition grown (s s' : heap) : Prop :=
  (forall y c, hdr s !! y = Some c -> hdr s' !! y = Some c)
  /\ (forall y c', hdr s' !! y = Some c' -> hdr s !! y = None ->
        chunk_state c' = CHUNK_AVAILABLE)
  /\ quarantine_ s' = quarantine_ s /\ quarantine_size_ s' = quarantine_size_ s
  /\ malloced_items_ s' = malloced_items_ s
  /\ flag_quarantine_size s' = flag_quarantine_size s
  /\ words s' = words s /\ brk s <= brk s'.

Lemma grown_refl s : grown s s.
Proof. unfold grown. repeat split; try done. intros y c' H1 H2. congruence. Qed.

Lemma grown_trans s1 s2 s3 : grown s1 s2 -> grown s2 s3 -> grown s1 s3.
Proof.
  intros (A1 & A2 & A3 & A4 & A5 & A6 & A7 & A8) (B1 & B2 & B3 & B4 & B5 & B6 & B7 & B8).
  unfold grown. split; [eauto|]. split.
  - intros y c' Hc' Hn. destruct (hdr s2 !! y) as [c2|] eqn:Hc2.
    + rewrite (B1 _ _ Hc2) in Hc'. injection Hc' as <-. eauto.
    + eauto.
  - repeat split; try congruence. lia.
Qed.

Lemma GetNewChunks_loop_wf l lv mem j idx n : forall i s s',
  wf_at (mem + i * 2 ^ j) s l lv -> 0 <= i -> 0 <= j < WORDSIZE ->
  mem + (i + Z.of_nat n) * 2 ^ j <= brk s ->
  GetNewChunks_loop n mem (2 ^ j) idx i s = Ok (tt, s') ->
  wf_at (mem + (i + Z.of_nat n) * 2 ^ j) s' l lv /\ grown s s'.
Proof.
  induction n as [|n IH]; intros i s s' H Hi Hj Hb Hrun.
  - injection Hrun as <-. rewrite Z.add_0_r. split; [done|apply grown_refl].
  - cbn [GetNewChunks_loop] in Hrun.
    pose proof (wf_brk _ _ _ _ H) as Hbrk.
    assert (Hpos : 0 < 2 ^ j) by (apply Z.pow_pos_nonneg; lia).
    assert (Hw : wrap (mem + i * 2 ^ j) = mem + i * 2 ^ j).
    { apply wrap_small. knorm. nia. }
    rewrite Hw in Hrun.
    apply bind_Ok in Hrun as (hd0 & s1 & H1 & Hrun).
    apply chunks_get_inv in H1 as (Hhd & Hidx & ->).
    apply bind_Ok in Hrun as (u & s1 & H1 & Hrun).
    unfold init_chunk in H1. injection H1 as _ <-.
    apply bind_Ok in Hrun as (u2 & s2 & H2 & Hrun).
    apply chunks_set_inv in H2 as ->.
    assert (Hfresh : hdr s !! (mem + i * 2 ^ j) = None).
    { destruct (hdr s !! (mem + i * 2 ^ j)) as [c0|] eqn:Hc0; [|done].
      pose proof (wf_range _ _ _ _ H _ c0 Hc0). lia. }
    rewrite Hfresh in Hrun. simpl default in Hrun.
    match type of Hrun with GetNewChunks_loop _ _ _ _ _ ?st = _ => set (s2 := st) in * end.
    assert (Hwf2 : wf_at (mem + (i + 1) * 2 ^ j) s2 l lv).
    { replace (mem + (i + 1) * 2 ^ j) with (mem + i * 2 ^ j + 2 ^ j) by lia.
      eapply (wf_at_frame _ (set_hdr _ s)); [|subst s2; hsimpl; try done..].
      - eapply (wf_at_insert_fresh _ s l lv (mem + i * 2 ^ j)); try done. nia.
      - apply length_insert.
      - lia. }
    destruct (IH (i + 1) s2 s' Hwf2) as [Hwf' Hg]; [lia|done| |done|].
    { subst s2. hsimpl. lia. }
    split.
    { replace (i + Z.of_nat (S n)) with (i + 1 + Z.of_nat n) by lia. done. }
    eapply grown_trans; [|exact Hg].
    subst s2. unfold grown. hsimpl. split.
    { intros y c Hc. rewrite lookup_insert_ne; [done|]. intros <-. congruence. }
    split; [|repeat split; try done; lia].
    intros y c' Hc' Hn. destruct (decide (y = mem + i * 2 ^ j)) as [->|?].
    + rewrite lookup_insert_eq in Hc'. injection Hc' as <-. done.
    + rewrite lookup_insert_ne in Hc' by done. congruence.
Qed.

(** ** The shadow and the page provider *)

Lemma memset_shadow_inv beg v len s u s' :
  memset_shadow beg v len s = Ok (u, s') ->
  (len = 0 /\ s' = s)
  \/ (MemToShadow mmap_base <= beg /\ beg + len <= MemToShadow (brk s)
      /\ s' = set_shadow ((beg, len, v) :: shadow s) s).
Proof.
  unfold memset_shadow. destruct (Z.eqb_spec len 0) as [->|Hne].
  - intros [= _ <-]. by left.
  - destruct (Z.leb_spec (MemToShadow mmap_base) beg);
      destruct (Z.leb_spec (beg + len) (MemToShadow (brk s))); simpl; try discriminate.
    intros [= _ <-]. right. done.
Qed.

Lemma PoisonShadow_frame a n v s u s' :
  PoisonShadow a n v s = Ok (u, s') -> exists f, s' = set_shadow f s.
Proof.
  intros H. unfold PoisonShadow in H. minv H.
  apply memset_shadow_inv in H as [[_ ->]|(_ & _ & ->)]; [|eauto].
  exists (shadow s). by destruct s.
Qed.

Lemma MmapNewPages_inv size s mem s' :
  MmapNewPages size s = Ok (mem, s') ->
  mem = brk s /\ 0 < size /\ brk s + size <= mmap_limit
  /\ exists f, s' = set_shadow f (set_brk (brk s + size) s).
Proof.
  intros H. unfold MmapNewPages in H.
  apply bind_Ok in H as (u & s0 & H0 & H). apply CHECK_inv in H0 as [_ ->].
  apply bind_Ok in H as (res & s1 & H1 & H).
  unfold mmap in H1.
  destruct ((0 <? size) && (brk s + size <=? mmap_limit)) eqn:Hc.
  - injection H1 as <- <-. apply andb_true_iff in Hc as [Hc1 Hc2].
    apply Z.ltb_lt in Hc1. apply Z.leb_le in Hc2.
    destruct (brk s =? MAP_FAILED); [discriminate|].
    apply bind_Ok in H as (u2 & s2 & H2 & H). apply ret_inv in H as [Hm Hs].
    apply PoisonShadow_frame in H2 as [f ->]. subst.
    split; [done|]. split; [done|]. split; [done|]. eauto.
  - injection H1 as <- <-. rewrite Z.eqb_refl in H. discriminate.
Qed.

Lemma GetNewChunks_wf s l lv size s' :
  wf s l lv -> is_word size -> GetNewChunks size s = Ok (tt, s') ->
  wf s' l lv /\ grown s s'.
Proof.
  intros H Hw Hrun. unfold GetNewChunks in Hrun.
  apply bind_Ok in Hrun as (idx & s1 & H1 & Hrun).
  apply Log2_inv in H1 as (Hidx & -> & ->); [|done].
  minv Hrun.
  match goal with
  | H1 : MmapNewPages _ _ = Ok _ |- _ =>
      apply MmapNewPages_inv in H1 as (-> & Hpos & Hlim & f & ->)
  end.
  set (msz := Z.max (2 ^ idx) kMinMmapSize) in *.
  set (s1 := set_shadow f (set_brk (brk s + msz) s)) in *.
  assert (Hp2 : 0 < 2 ^ idx) by (apply Z.pow_pos_nonneg; lia).
  assert (Hwf1 : wf_at (brk s + 0 * 2 ^ idx) s1 l lv).
  { rewrite Z.mul_0_l, Z.add_0_r.
    eapply (wf_at_frame _ s); [exact H|subst s1; hsimpl; try done..]. lia. }
  assert (Hn : Z.of_nat (Z.to_nat (msz / 2 ^ idx)) = msz / 2 ^ idx).
  { apply Z2Nat.id. apply Z.div_pos; lia. }
  destruct (GetNewChunks_loop_wf l lv (brk s) idx idx (Z.to_nat (msz / 2 ^ idx)) 0 s1 s'
              Hwf1 (Z.le_refl 0) Hidx) as [Hwf' Hg]; [|exact Hrun|].
  { subst s1. hsimpl. rewrite Hn. pose proof (Z.mul_div_le msz (2 ^ idx) Hp2). lia. }
  split.
  - eapply wf_at_mono; [exact Hwf'|]. pose proof (wf_brk _ _ _ _ Hwf'). lia.
  - eapply grown_trans; [|exact Hg]. subst s1. unfold grown. hsimpl.
    repeat split; try done; [congruence|lia].
Qed.

(** ** [AllocateChunk] *)

Lemma ring_ext h h' q l :
  (forall x c, x ∈ l -> h !! x = Some c ->
     exists c', h' !! x = Some c' /\ chunk_state c' = chunk_state c
                /\ prev c' = prev c /\ next c' = next c) ->
  ring h q l -> ring h' q l.
Proof.
  intros Hext Hr. destruct l as [|x l']; [done|]. destruct Hr as [-> Hr].
  split; [done|]. eapply dlseg_ext; eauto.
Qed.

(** What drawing the chunk [m] leaves of the state. *)
Definition drawn (s : heap) (m : Z) (s' : heap) : Prop :=
  (forall y c, hdr s !! y = Some c ->
     exists c', hdr s' !! y = Some c' /\ allocated_size c' = allocated_size c
                /\ used_size c' = used_size c
                /\ (y <> m -> chunk_state c' = chunk_state c))
  /\ (forall y c', hdr s' !! y = Some c' -> hdr s !! y = None -> (y <> m) ->
        chunk_state c' = CHUNK_AVAILABLE)
  /\ quarantine_ s' = quarantine_ s /\ quarantine_size_ s' = quarantine_size_ s
  /\ flag_quarantine_size s' = flag_quarantine_size s
  /\ words s' = words s /\ brk s <= brk s'.

Lemma AllocateChunk_wf s l lv size m s' :
  wf s l lv -> is_word size -> AllocateChunk size s = Ok (m, s') ->
  wf s' l (m :: lv) /\ (m ∉ lv)
  /\ (exists c', hdr s' !! m = Some c' /\ chunk_state c' = CHUNK_ALLOCATED)
  /\ drawn s m s'.
Proof.
  intros H Hw Hrun. unfold AllocateChunk in Hrun.
  apply bind_Ok in Hrun as (u & s0 & H0 & Hrun). apply CHECK_inv in H0 as [_ ->].
  apply bind_Ok in Hrun as (idx & s0 & H0 & Hrun).
  apply Log2_inv in H0 as (Hidx & -> & ->); [|done].
  apply bind_Ok in Hrun as (head & s0 & H0 & Hrun).
  apply chunks_get_inv in H0 as (Hhead & _ & ->).
  apply bind_Ok in Hrun as (u1 & s1 & Hrefill & Hrun).
  assert (Hwf1 : wf s1 l lv /\ grown s s1).
  { destruct (head =? 0).
    - destruct u1. by apply (GetNewChunks_wf _ _ _ _ _ H Hw).
    - apply ret_inv in Hrefill as [_ ->]. split; [done|apply grown_refl]. }
  destruct Hwf1 as [Hwf1 Hg]. clear Hrefill.
  apply bind_Ok in Hrun as (m' & s0 & H0 & Hrun).
  apply chunks_get_inv in H0 as (Hm' & _ & ->).
  apply bind_Ok in Hrun as (u2 & s0 & H0 & Hrun). apply CHECK_inv in H0 as [Hm0 ->].
  apply bind_Ok in Hrun as (c & s0 & H0 & Hrun). apply load_Ok in H0 as [Hc ->].
  apply bind_Ok in Hrun as (u3 & s0 & H0 & Hrun). apply chunks_set_inv in H0 as ->.
  apply bind_Ok in Hrun as (u4 & s0 & H0 & Hrun). apply update_inv in H0 as [_ ->].
  apply bind_Ok in Hrun as (c2 & s0 & H0 & Hrun). apply load_Ok in H0 as [Hc2 ->].
  revert Hc2. alter_lookup. intros [= <-].
  apply bind_Ok in Hrun as (u5 & s0 & H0 & Hrun). apply CHECK_inv in H0 as [Hst ->].
  hsimpl. apply Z.eqb_eq in Hst.
  apply bind_Ok in Hrun as (u6 & s0 & H0 & Hrun). apply update_inv in H0 as [_ ->].
  apply bind_Ok in Hrun as (sg & s0 & H0 & Hrun). apply get_inv in H0 as [-> ->].
  hsimpl.
  apply bind_Ok in Hrun as (u7 & s2 & Hlink & Hrun).
  apply bind_Ok in Hrun as (u8 & s0 & H0 & Hrun). apply update_inv in H0 as [_ ->].
  apply bind_Ok in Hrun as (u9 & s0 & H0 & Hrun). apply modify_inv in H0 as ->.
  apply ret_inv in Hrun as [-> ->].
  apply negb_true_iff, Z.eqb_neq in Hm0.
  assert (Hml : m' ∉ l).
  { intros Hin. destruct (wf_ring_lookup _ _ _ _ m' Hwf1 Hin) as (c0 & Hc0 & Hs0). states. }
  assert (Hmlv : m' ∉ lv).
  { intros Hin. destruct (dlseg_elem _ _ _ _ _ _ (wf_live _ _ _ _ Hwf1) Hin) as (c0 & Hc0 & Hs0).
    states. }
  pose proof (wf_live_head _ _ _ _ Hwf1) as Hhd.
  assert (Hlvs : forall y, y ∈ lv -> y <> 0 /\ is_Some (hdr s1 !! y) /\ is_Some (hdr s !! y)).
  { intros y Hy.
    destruct (dlseg_elem _ _ _ _ _ _ (wf_live _ _ _ _ Hwf1) Hy) as (c0 & Hc0 & _).
    destruct (dlseg_elem _ _ _ _ _ _ (wf_live _ _ _ _ H) Hy) as (c1 & Hc1 & _).
    split; [eapply wf_nonnull; eauto|eauto]. }
  destruct Hg as (G1 & G2 & G3 & G4 & G5 & G6 & G7 & G8).
  destruct lv as [|a lv'].
  - simpl in Hhd. rewrite Hhd in Hlink |- *. simpl in Hlink.
    apply ret_inv in Hlink as [_ ->]. hsimpl.
    split.
    { unfold wf. hsimpl. eapply (wf_at_intro _ s1); hsimpl; try done.
      - solve_same_sizes.
      - apply Hwf1.
      - apply NoDup_singleton.
      - eapply ring_ext; [|apply (wf_ring _ _ _ _ Hwf1)].
        intros y cy Hy Hcy. exists cy. split; [|done].
        assert (y <> m') by (intros ->; done). solve_lookup.
      - split; [|done]. eexists. split; [solve_lookup|]. done.
      - intros y cy Hcy Hs. destruct (decide (y = m')) as [->|?]; [left|].
        revert Hcy. alter_lookup. intros Hcy.
        pose proof (wf_alloc _ _ _ _ Hwf1 y cy Hcy Hs) as Hin. by apply elem_of_nil in Hin.
      - apply length_insert.
      - rewrite (wf_qsize _ _ _ _ Hwf1). symmetry. apply sum_sizes_same. solve_same_sizes. }
    split; [done|]. split. { eexists. split; [solve_lookup|]. done. }
    unfold drawn. hsimpl. split.
    { intros y cy Hcy. apply G1 in Hcy.
      destruct (decide (y = m')) as [Ey|?]; [rewrite Ey in *|];
        eexists; (split; [solve_lookup|]); hsimpl; repeat split; congruence. }
    split; [|repeat split; congruence].
    intros y cy Hcy Hn Hy. revert Hcy. alter_lookup. intros Hcy. eauto.
  - simpl in Hhd. rewrite Hhd in Hlink |- *.
    destruct (Hlvs a) as (Ha0 & Has1 & Has); [left|].
    apply Z.eqb_neq in Ha0 as Ha0'. rewrite Ha0' in Hlink. clear Ha0'.
    apply update_inv in Hlink as [_ ->]. hsimpl.
    assert (Ham : a <> m') by (intros ->; apply Hmlv; left).
    destruct Has1 as [ca Hca].
    split.
    { unfold wf. hsimpl. eapply (wf_at_intro _ s1); hsimpl; try done.
      - solve_same_sizes.
      - apply Hwf1.
      - apply NoDup_cons. split; [done|apply Hwf1].
      - eapply ring_ext; [|apply (wf_ring _ _ _ _ Hwf1)].
        intros y cy Hy Hcy. exists cy. split; [|done].
        assert (y <> m') by (intros ->; done).
        assert (y <> a).
        { intros ->. destruct (wf_ring_lookup _ _ _ _ a Hwf1 Hy) as (c0 & Hc0 & Hs0).
          destruct (dlseg_elem _ _ _ _ _ a (wf_live _ _ _ _ Hwf1)) as (c1 & Hc1 & Hs1); [left|].
          states. }
        solve_lookup.
      - split. { eexists. split; [solve_lookup|]. done. }
        eapply (dlseg_relink_head (hdr s1)); [apply Hwf1|apply (wf_live _ _ _ _ Hwf1)|].
        intros y cy Hy Hcy. simpl.
        assert (y <> m') by (intros ->; done).
        destruct (decide (y = a)) as [Ey|?]; [rewrite Ey in *|];
          eexists; (split; [solve_lookup|]); hsimpl;
          repeat split; repeat case_decide; try done; congruence.
      - intros y cy Hcy Hs. destruct (decide (y = m')) as [->|?]; [left|]. right.
        destruct (decide (y = a)) as [->|?]; [left|].
        revert Hcy. alter_lookup. intros Hcy.
        apply (wf_alloc _ _ _ _ Hwf1 y cy Hcy Hs).
      - apply length_insert.
      - rewrite (wf_qsize _ _ _ _ Hwf1). symmetry. apply sum_sizes_same. solve_same_sizes. }
    split; [done|]. split. { eexists. split; [solve_lookup|]. done. }
    unfold drawn. hsimpl. split.
    { intros y cy Hcy. apply G1 in Hcy.
      destruct (decide (y = m')) as [Ey|?]; [rewrite Ey in *|
        destruct (decide (y = a)) as [Ey|?]; [rewrite Ey in *|]];
        eexists; (split; [solve_lookup|]); hsimpl; repeat split; congruence. }
    split; [|repeat split; congruence].
    intros y cy Hcy Hn Hy.
    assert (y <> a) by (intros ->; destruct Has; congruence).
    revert Hcy. alter_lookup. intros Hcy. eauto.
Qed.

(** ** The size of the chunk *)

Lemma shl1_inv n s v s' : shl1 n s = Ok (v, s') -> 0 <= n < WORDSIZE /\ v = 2 ^ n /\ s' = s.
Proof.
  unfold shl1. destruct (Z.leb_spec 0 n); destruct (Z.ltb_spec n WORDSIZE);
    simpl; try discriminate. intros [= <- <-]. done.
Qed.

(** [RoundUptoPowerOfTwo] returns the least power of two that is not
    below its argument. *)
Lemma RoundUptoPowerOfTwo_inv x s y s' :
  is_word x -> RoundUptoPowerOfTwo x s = Ok (y, s') ->
  s' = s /\ x <> 0 /\ y = 2 ^ Z.log2_up x /\ 0 <= Z.log2_up x < WORDSIZE.
Proof.
  intros Hw H. unfold RoundUptoPowerOfTwo in H.
  apply bind_Ok in H as (u & s0 & H0 & H). apply CHECK_inv in H0 as [Hx ->].
  apply negb_true_iff, Z.eqb_neq in Hx.
  destruct (IsPowerOfTwo x) eqn:Hp.
  - apply ret_inv in H as [-> ->].
    destruct (IsPowerOfTwo_inv x Hw Hx Hp) as (j & Hj & ->).
    rewrite Z.log2_up_pow2 by lia. done.
  - apply bind_Ok in H as (hi & s0 & H0 & H). apply shl1_inv in H0 as (Hup & -> & ->).
    apply bind_Ok in H as (u1 & s0 & H0 & H). apply CHECK_inv in H0 as [Hlt ->].
    apply bind_Ok in H as (lo & s0 & H0 & H). apply shl1_inv in H0 as (Hup1 & -> & ->).
    apply bind_Ok in H as (u2 & s0 & H0 & H). apply CHECK_inv in H0 as [Hgt ->].
    apply shl1_inv in H as (_ & -> & ->).
    apply Z.ltb_lt in Hlt, Hgt.
    assert (Hl : Z.log2_up x = WORDSIZE - clzl x).
    { apply Z.log2_up_unique; [lia|].
      replace (Z.pred (WORDSIZE - clzl x)) with (WORDSIZE - clzl x - 1) by lia. lia. }
    rewrite Hl. done.
Qed.

Lemma store_word_inv a v s u s' :
  store_word a v s = Ok (u, s') ->
  field_at s a = None /\ mapped s a kWordSize && (a mod kWordSize =? 0) = true
  /\ s' = set_words (<[a := v]> (words s)) s.
Proof.
  unfold store_word. destruct (field_at s a); [discriminate|].
  destruct (mapped s a kWordSize && (a mod kWordSize =? 0)); [|discriminate].
  intros [= _ <-]. done.
Qed.

Lemma load_word_frame a s v s' : load_word a s = Ok (v, s') -> s' = s.
Proof.
  unfold load_word. destruct (field_at s a); [by intros [= _ <-]|].
  destruct (mapped s a kWordSize && (a mod kWordSize =? 0)); [|discriminate].
  by intros [= _ <-].
Qed.

Lemma load_word_hdr a s c : hdr s !! a = Some c -> load_word a s = Ok (chunk_state c, s).
Proof. intros H. unfold load_word, field_at. rewrite H. done. Qed.

Section AllocatorProperties.

Variable kMinRedzone : Z.

Local Abbreviation kRedzone := (kRedzone kMinRedzone).
Local Abbreviation kMinAllocSize := (kMinAllocSize kMinRedzone).
Local Abbreviation RoundUptoRedzone := (RoundUptoRedzone kMinRedzone).
Local Abbreviation needed_size := (needed_size kMinRedzone).
Local Abbreviation Allocate := (Allocate kMinRedzone).
Local Abbreviation PtrToChunk := (PtrToChunk kMinRedzone).
Local Abbreviation Deallocate := (Deallocate kMinRedzone).
Local Abbreviation Reallocate := (Reallocate kMinRedzone).

(** The two ways [Allocate] places the user pointer in the chunk [m]:
    at the end of the left redzone, or at the next multiple of the
    alignment with the [CHUNK_MEMALIGN] record in front of it. *)
Definition placed (alignment m p : Z) (s2 s3 : heap) : Prop :=
  (p = wrap (m + kRedzone) /\ s3 = s2
   /\ ((kRedzone <? alignment) && negb (Z.land p (wrap (alignment - 1)) =? 0) = false))
  \/ (kRedzone < alignment
      /\ Z.land (wrap (m + kRedzone)) (wrap (alignment - 1)) <> 0
      /\ Z.land p (wrap (alignment - 1)) = 0
      /\ (exists k, 0 <= k < WORDSIZE /\ alignment = 2 ^ k
            /\ p = wrap (Z.shiftl (Z.shiftr (wrap (wrap (m + kRedzone) + alignment - 1)) k) k))
      /\ field_at s2 (wrap (p - kRedzone)) = None
      /\ field_at s2 (wrap (wrap (p - kRedzone) + kWordSize)) = None
      /\ mapped s2 (wrap (p - kRedzone)) kWordSize
           && (wrap (p - kRedzone) mod kWordSize =? 0) = true
      /\ mapped s2 (wrap (wrap (p - kRedzone) + kWordSize)) kWordSize
           && (wrap (wrap (p - kRedzone) + kWordSize) mod kWordSize =? 0) = true
      /\ s3 = set_words (<[wrap (wrap (p - kRedzone) + kWordSize) := m]>
                          (<[wrap (p - kRedzone) := CHUNK_MEMALIGN]> (words s2))) s2).

Lemma Allocate_inv alignment size s p s' :
  is_word alignment -> size <> 0 -> Allocate alignment size s = Ok (p, s') ->
  exists sz m s1 c1 s3,
    IsPowerOfTwo alignment = true
    /\ needed_size alignment size mod kRedzone = 0
    /\ sz = 2 ^ Z.log2_up (needed_size alignment size)
    /\ 0 <= Z.log2_up (needed_size alignment size) < WORDSIZE
    /\ kMinAllocSize <= sz /\ sz mod kRedzone = 0
    /\ AllocateChunk sz s = Ok (m, s1)
    /\ m <> 0 /\ hdr s1 !! m = Some c1 /\ allocated_size c1 = sz
    /\ chunk_state c1 = CHUNK_ALLOCATED
    /\ placed alignment m p (set_hdr (alter (set_used_size size) m (hdr s1)) s1) s3
    /\ PoisonShadow p (RoundUptoRedzone size) 0 s3 = Ok (tt, s').
Proof.
  intros Hwa Hn H. unfold Allocate in H.
  apply Z.eqb_neq in Hn as Hn'. rewrite Hn' in H. clear Hn'.
  apply bind_Ok in H as (u & s0 & H0 & H). apply CHECK_inv in H0 as [Hpa ->].
  apply bind_Ok in H as (u1 & s0 & H0 & H). apply CHECK_inv in H0 as [Hmod ->].
  apply bind_Ok in H as (sz & s0 & H0 & H).
  apply RoundUptoPowerOfTwo_inv in H0 as (-> & Hnz & -> & Hlog).
  2:{ unfold needed_size. destruct (_ <? _); apply wrap_is_word. }
  apply bind_Ok in H as (u2 & s0 & H0 & H). apply CHECK_inv in H0 as [Hmin ->].
  apply bind_Ok in H as (u3 & s0 & H0 & H). apply CHECK_inv in H0 as [Hmod2 ->].
  apply bind_Ok in H as (m & s1 & Hdraw & H).
  apply bind_Ok in H as (u4 & s0 & H0 & H). apply CHECK_inv in H0 as [Hm0 ->].
  apply bind_Ok in H as (c1 & s0 & H0 & H). apply load_Ok in H0 as [Hc1 ->].
  apply bind_Ok in H as (u5 & s0 & H0 & H). apply CHECK_inv in H0 as [Hasz ->].
  apply bind_Ok in H as (u6 & s0 & H0 & H). apply CHECK_inv in H0 as [Hst ->].
  apply bind_Ok in H as (u7 & s0 & H0 & H). apply update_inv in H0 as [_ ->].
  apply bind_Ok in H as (addr & s3 & Hplace & H).
  apply bind_Ok in H as (u8 & s4 & Hpoison & H). apply ret_inv in H as [-> ->].
  destruct u8.
  apply Z.eqb_eq in Hmod, Hmod2, Hasz, Hst. apply Z.leb_le in Hmin.
  apply negb_true_iff, Z.eqb_neq in Hm0.
  exists (2 ^ Z.log2_up (needed_size alignment size)), m, s1, c1, s3.
  repeat (split; [done|]). split; [|done].
  destruct ((kRedzone <? alignment)
            && negb (Z.land (wrap (m + kRedzone)) (wrap (alignment - 1)) =? 0)) eqn:Hc.
  - right. apply andb_true_iff in Hc as [Hc1' Hc2].
    apply Z.ltb_lt in Hc1'. apply negb_true_iff, Z.eqb_neq in Hc2.
    apply bind_Ok in Hplace as (k & s0 & H0 & H).
    apply Log2_inv in H0 as (Hk & Hak & ->); [|done].
    apply bind_Ok in H as (u9 & s0 & H0 & H). apply CHECK_inv in H0 as [Hal ->].
    apply bind_Ok in H as (u10 & s0 & H0 & H).
    apply store_word_inv in H0 as (Hf1 & Hb1 & ->).
    apply bind_Ok in H as (u11 & s0 & H0 & H).
    apply store_word_inv in H0 as (Hf2 & Hb2 & ->).
    apply ret_inv in H as [-> ->]. apply Z.eqb_eq in Hal.
    split; [done|]. split; [done|]. split; [done|].
    split. { exists k. rewrite <- Hak. done. }
    done.
  - left. apply ret_inv in Hplace as [-> ->]. done.
Qed.


Lemma wf_set_used s l lv m n :
  wf s l lv -> wf (set_hdr (alter (set_used_size n) m (hdr s)) s) l lv.
Proof.
  intros H. unfold wf. hsimpl.
  assert (Hext : forall x c, hdr s !! x = Some c ->
            exists c', alter (set_used_size n) m (hdr s) !! x = Some c'
              /\ chunk_state c' = chunk_state c /\ prev c' = prev c /\ next c' = next c).
  { intros x c Hc. destruct (decide (x = m)) as [Ex|?]; [rewrite Ex in *|];
      eexists; (split; [solve_lookup|]); done. }
  eapply (wf_at_intro _ s); hsimpl; try done; try apply H.
  - solve_same_sizes.
  - eapply ring_ext; [|apply H]. intros x c _ Hc. eauto.
  - eapply dlseg_ext; [|apply H]. intros x c _ Hc. eauto.
  - intros x c' Hc' Hs. destruct (decide (x = m)) as [Ex|?].
    + rewrite Ex in *. rewrite lookup_alter_eq in Hc'.
      destruct (hdr s !! m) as [c|] eqn:Hc; [|done]. injection Hc' as <-.
      eapply wf_alloc; eauto.
    + rewrite lookup_alter_ne in Hc' by done. eapply wf_alloc; eauto.
  - rewrite (wf_qsize _ _ _ _ H). symmetry. apply sum_sizes_same. solve_same_sizes.
Qed.

Lemma placed_frame a m p s2 s3 :
  placed a m p s2 s3 -> exists w, s3 = set_words w s2.
Proof.
  intros [(_ & -> & _)|(_ & _ & _ & _ & _ & _ & _ & _ & ->)]; [|eauto].
  exists (words s2). by destruct s2.
Qed.

(** [Allocate] keeps the state well-formed: the chunk it hands out joins
    the allocated chunks, the quarantine is as before. *)
Lemma Allocate_wf alignment size s l lv p s' :
  wf s l lv -> is_word alignment -> size <> 0 ->
  Allocate alignment size s = Ok (p, s') ->
  exists m, wf s' l (m :: lv) /\ (m ∉ lv)
    /\ quarantine_size_ s' = quarantine_size_ s
    /\ flag_quarantine_size s' = flag_quarantine_size s.
Proof.
  intros H Hwa Hn Hrun.
  destruct (Allocate_inv _ _ _ _ _ Hwa Hn Hrun)
    as (sz & m & s1 & c1 & s3 & _ & _ & Hsz & Hlog & _ & _ & Hdraw & _ & _ & _ & _ & Hpl & Hps).
  destruct (AllocateChunk_wf s l lv sz m s1 H) as (Hwf1 & Hm & _ & Hd); [|exact Hdraw|].
  { rewrite Hsz. by apply pow2_is_word. }
  destruct Hd as (_ & _ & _ & D4 & D5 & _ & _).
  apply placed_frame in Hpl as [w ->]. apply PoisonShadow_frame in Hps as [f ->].
  exists m. split; [|done].
  eapply (wf_set_used _ _ _ m size) in Hwf1.
  unfold wf in *. hsimpl.
  eapply wf_at_frame; [exact Hwf1|hsimpl; try done..].
  pose proof (wf_brk _ _ _ _ Hwf1) as Hb. hsimpl. lia.
Qed.

Lemma PtrToChunk_frame p s m s' : PtrToChunk p s = Ok (m, s') -> s' = s.
Proof.
  unfold PtrToChunk. intros H.
  apply bind_Ok in H as (st & s0 & H0 & H). apply load_word_frame in H0 as ->.
  destruct (st =? CHUNK_MEMALIGN).
  - by apply load_word_frame in H.
  - by apply ret_inv in H as [_ ->].
Qed.

Lemma TakeChunkBack_flag m s r : TakeChunkBack m s = Ok r -> 0 < flag_quarantine_size s.
Proof.
  unfold TakeChunkBack. intros H.
  apply bind_Ok in H as (u & s0 & H0 & H). apply CHECK_inv in H0 as [_ ->].
  apply bind_Ok in H as (c & s0 & H0 & H). apply load_Ok in H0 as [_ ->].
  apply bind_Ok in H as (u1 & s0 & H0 & H). apply CHECK_inv in H0 as [_ ->].
  apply bind_Ok in H as (u2 & s0 & H0 & H). apply CHECK_inv in H0 as [_ ->].
  apply bind_Ok in H as (sg & s0 & H0 & H). apply get_inv in H0 as [-> ->].
  apply bind_Ok in H as (u3 & s0 & H0 & H). apply CHECK_inv in H0 as [Hf ->].
  by apply Z.ltb_lt in Hf.
Qed.

Lemma Deallocate_inv p s s' :
  p <> 0 -> Deallocate p s = Ok (tt, s') ->
  exists m c sp,
    PtrToChunk p s = Ok (m, s) /\ hdr s !! m = Some c
    /\ chunk_state c = CHUNK_ALLOCATED
    /\ PoisonShadow p (RoundUptoRedzone (used_size c)) 255 s = Ok (tt, sp)
    /\ TakeChunkBack m sp = Ok (tt, s')
    /\ 0 < flag_quarantine_size s.
Proof.
  intros Hp H. unfold Deallocate in H.
  apply Z.eqb_neq in Hp as Hp'. rewrite Hp' in H. clear Hp'.
  apply bind_Ok in H as (m & s0 & H0 & H).
  pose proof (PtrToChunk_frame _ _ _ _ H0) as ->.
  apply bind_Ok in H as (st & s0 & H1 & H).
  pose proof (load_word_frame _ _ _ _ H1) as ->.
  apply bind_Ok in H as (u & s0 & H2 & H). apply CHECK_inv in H2 as [Hst ->].
  apply bind_Ok in H as (c & s0 & H2 & H). apply load_Ok in H2 as [Hc ->].
  rewrite (load_word_hdr _ _ _ Hc) in H1. injection H1 as <-.
  apply bind_Ok in H as (u1 & sp & Hps & H). destruct u1.
  unfold MallocInfo_Deallocate in H.
  apply bind_Ok in H as (u2 & s0 & H2 & H). apply CHECK_inv in H2 as [_ ->].
  apply bind_Ok in H as (c2 & s0 & H2 & H). apply load_Ok in H2 as [_ ->].
  apply bind_Ok in H as (u3 & s0 & H2 & H). apply CHECK_inv in H2 as [_ ->].
  exists m, c, sp. apply Z.eqb_eq in Hst.
  repeat (split; [done|]).
  apply TakeChunkBack_flag in H. apply PoisonShadow_frame in Hps as [f ->]. done.
Qed.

(** [Deallocate] keeps the state well-formed: the chunk [m] leaves the
    allocated chunks and enters the ring, the chunks [k] leave the ring
    from its tail, and the counter is within the cap. *)
Lemma Deallocate_wf p s l lv s' :
  wf s l lv -> p <> 0 -> Deallocate p s = Ok (tt, s') ->
  exists m c sp l1 l2 l' k,
    PtrToChunk p s = Ok (m, s) /\ hdr s !! m = Some c
    /\ chunk_state c = CHUNK_ALLOCATED
    /\ PoisonShadow p (RoundUptoRedzone (used_size c)) 255 s = Ok (tt, sp)
    /\ lv = l1 ++ m :: l2 /\ wf s' l' (l1 ++ l2) /\ m :: l = l' ++ k
    /\ quarantine_size_ s' <= flag_quarantine_size s'
    /\ (quarantine_size_ s + allocated_size c <= flag_quarantine_size s -> k = [])
    /\ tcb_post sp m k s'.
Proof.
  intros H Hp Hrun.
  destruct (Deallocate_inv _ _ _ Hp Hrun) as (m & c & sp & Hptr & Hc & Hst & Hps & Htcb & Hflag).
  assert (Hin : m ∈ lv) by (eapply wf_alloc; eauto).
  apply list_elem_of_split in Hin as (l1 & l2 & ->).
  pose proof (PoisonShadow_frame _ _ _ _ _ _ Hps) as [f Esp].
  assert (Hwfp : wf sp l (l1 ++ m :: l2)).
  { unfold wf. subst sp. hsimpl.
    eapply wf_at_frame; [exact H|hsimpl; try done..].
    pose proof (wf_brk _ _ _ _ H). lia. }
  destruct (TakeChunkBack_spec sp l l1 l2 m Hwfp)
    as (s'' & l' & k & Htcb' & Hwf' & El & Hcap & Hnone & Hpost).
  { subst sp. hsimpl. done. }
  rewrite Htcb in Htcb'. injection Htcb' as <-.
  exists m, c, sp, l1, l2, l', k. repeat (split; [done|]). split; [|done].
  intros Hle. apply Hnone. subst sp. hsimpl.
  rewrite (asz_of_lookup _ _ _ Hc). done.
Qed.

End AllocatorProperties.

(** ** The word loops touch the raw words only *)

Lemma wf_set_words s l lv w : wf s l lv -> wf (set_words w s) l lv.
Proof.
  intros H. unfold wf. hsimpl. eapply wf_at_frame; [exact H|hsimpl; try done..].
  pose proof (wf_brk _ _ _ _ H). lia.
Qed.

Lemma copy_loop_frame n : forall dst src i s u s',
  copy_loop n dst src i s = Ok (u, s') -> exists w, s' = set_words w s.
Proof.
  induction n as [|n IH]; intros dst src i s u s' H.
  - injection H as _ <-. exists (words s). by destruct s.
  - cbn [copy_loop] in H.
    apply bind_Ok in H as (v & s0 & H0 & H). apply load_word_frame in H0 as ->.
    apply bind_Ok in H as (u1 & s0 & H0 & H). apply store_word_inv in H0 as (_ & _ & ->).
    apply IH in H as [w ->]. eauto.
Qed.

Lemma asan_copy_mem_frame dst src n s u s' :
  asan_copy_mem dst src n s = Ok (u, s') -> exists w, s' = set_words w s.
Proof.
  unfold asan_copy_mem. intros H.
  apply bind_Ok in H as (u0 & s0 & H0 & H). apply CHECK_inv in H0 as [_ ->].
  apply bind_Ok in H as (u1 & s0 & H0 & H). apply CHECK_inv in H0 as [_ ->].
  by apply copy_loop_frame in H.
Qed.

Lemma clear_loop_frame n : forall mem i s u s',
  clear_loop n mem i s = Ok (u, s') -> exists w, s' = set_words w s.
Proof.
  induction n as [|n IH]; intros mem i s u s' H.
  - injection H as _ <-. exists (words s). by destruct s.
  - cbn [clear_loop] in H.
    apply bind_Ok in H as (u1 & s0 & H0 & H). apply store_word_inv in H0 as (_ & _ & ->).
    apply IH in H as [w ->]. eauto.
Qed.

Lemma asan_clear_mem_frame mem n s u s' :
  asan_clear_mem mem n s = Ok (u, s') -> exists w, s' = set_words w s.
Proof.
  unfold asan_clear_mem. intros H.
  apply bind_Ok in H as (u0 & s0 & H0 & H). apply CHECK_inv in H0 as [_ ->].
  by apply clear_loop_frame in H.
Qed.

Lemma wf_heap0 cap : is_word cap -> wf (heap0 cap) [] [].
Proof.
  intros Hc. unfold wf, heap0. constructor; hsimpl; try done.
  - apply NoDup_nil_2.
  - apply NoDup_nil_2.
Qed.

Section AllocatorInvariant.

Variable kMinRedzone : Z.

Local Abbreviation Allocate := (Allocate kMinRedzone).
Local Abbreviation Deallocate := (Deallocate kMinRedzone).
Local Abbreviation Reallocate := (Reallocate kMinRedzone).
Local Abbreviation PtrToChunk := (PtrToChunk kMinRedzone).

Lemma Allocate_zero alignment s : Allocate alignment 0 s = Ok (0, s).
Proof. done. Qed.

Lemma Deallocate_null s : Deallocate 0 s = Ok (tt, s).
Proof. done. Qed.

Lemma Allocate_Inv alignment size s p s' :
  Inv s -> is_word alignment -> Allocate alignment size s = Ok (p, s') -> Inv s'.
Proof.
  intros (l & lv & H & Hcap) Hwa Hrun.
  destruct (Z.eq_dec size 0) as [->|Hn].
  - injection Hrun as _ <-. exists l, lv. done.
  - destruct (Allocate_wf _ _ _ _ _ _ _ _ H Hwa Hn Hrun) as (m & Hwf' & _ & E1 & E2).
    exists l, (m :: lv). split; [done|]. lia.
Qed.

Lemma Deallocate_Inv p s s' : Inv s -> Deallocate p s = Ok (tt, s') -> Inv s'.
Proof.
  intros (l & lv & H & Hcap) Hrun.
  destruct (Z.eq_dec p 0) as [->|Hp].
  - injection Hrun as <-. exists l, lv. done.
  - destruct (Deallocate_wf _ _ _ _ _ _ H Hp Hrun)
      as (m & c & sp & l1 & l2 & l' & k & _ & _ & _ & _ & _ & Hwf' & _ & Hcap' & _).
    exists l', (l1 ++ l2). done.
Qed.

Lemma Reallocate_inv p size s q s' :
  p <> 0 -> size <> 0 -> Reallocate p size s = Ok (q, s') ->
  exists m c s1 s2,
    PtrToChunk p s = Ok (m, s) /\ hdr s !! m = Some c
    /\ chunk_state c = CHUNK_ALLOCATED
    /\ Allocate 0 size s = Ok (q, s1)
    /\ asan_copy_mem q p (wrap (Z.min size (used_size c) + kWordSize - 1) / kWordSize) s1
       = Ok (tt, s2)
    /\ Deallocate p s2 = Ok (tt, s').
Proof.
  intros Hp Hn H. unfold Reallocate in H.
  apply Z.eqb_neq in Hp as Hp'. apply Z.eqb_neq in Hn as Hn'.
  rewrite Hp', Hn' in H. clear Hp' Hn'.
  apply bind_Ok in H as (m & s0 & H0 & H).
  pose proof (PtrToChunk_frame _ _ _ _ _ H0) as ->.
  apply bind_Ok in H as (st & s0 & H1 & H).
  pose proof (load_word_frame _ _ _ _ H1) as ->.
  apply bind_Ok in H as (u & s0 & H2 & H). apply CHECK_inv in H2 as [Hst ->].
  apply bind_Ok in H as (c & s0 & H2 & H). apply load_Ok in H2 as [Hc ->].
  rewrite (load_word_hdr _ _ _ Hc) in H1. injection H1 as <-.
  apply bind_Ok in H as (q' & s1 & Hal & H).
  apply bind_Ok in H as (u1 & s2 & Hcp & H).
  apply bind_Ok in H as (u2 & s3 & Hde & H). apply ret_inv in H as [-> ->].
  destruct u1, u2. apply Z.eqb_eq in Hst.
  exists m, c, s1, s2. done.
Qed.

Lemma Reallocate_Inv p size s q s' :
  Inv s -> Reallocate p size s = Ok (q, s') -> Inv s'.
Proof.
  intros HI Hrun.
  destruct (Z.eq_dec p 0) as [->|Hp].
  - eapply Allocate_Inv; [exact HI| |exact Hrun]. knorm. lia.
  - destruct (Z.eq_dec size 0) as [->|Hn].
    + unfold Reallocate in Hrun. apply Z.eqb_neq in Hp. rewrite Hp in Hrun.
      injection Hrun as _ <-. done.
    + destruct (Reallocate_inv _ _ _ _ _ Hp Hn Hrun)
        as (m & c & s1 & s2 & _ & _ & _ & Hal & Hcp & Hde).
      eapply Deallocate_Inv; [|exact Hde].
      apply asan_copy_mem_frame in Hcp as [w ->].
      assert (HI1 : Inv s1).
      { eapply Allocate_Inv; [exact HI| |exact Hal]. knorm. lia. }
      destruct HI1 as (l & lv & H & Hcap). exists l, lv.
      split; [by apply wf_set_words|done].
Qed.

(** The states the allocator can be in: [malloc_info] as the loader
    leaves it, and what the three operations make of it. *)
Inductive reachable : heap -> Prop :=
| reach_init cap : is_word cap -> reachable (heap0 cap)
| reach_Allocate s alignment size p s' :
    reachable s -> is_word alignment -> is_word size ->
    Allocate alignment size s = Ok (p, s') -> reachable s'
| reach_Deallocate s p s' :
    reachable s -> is_word p -> Deallocate p s = Ok (tt, s') -> reachable s'
| reach_Reallocate s p size q s' :
    reachable s -> is_word p -> is_word size ->
    Reallocate p size s = Ok (q, s') -> reachable s'.

Lemma reachable_Inv s : reachable s -> Inv s.
Proof.
  induction 1 as [cap Hc|s a n p s' Hr IH Ha Hn Hrun|s p s' Hr IH Hp Hrun
                 |s p n q s' Hr IH Hp Hn Hrun].
  - exists [], []. split; [by apply wf_heap0|]. simpl. by destruct Hc.
  - exact (Allocate_Inv _ _ _ _ _ IH Ha Hrun).
  - exact (Deallocate_Inv _ _ _ IH Hrun).
  - exact (Reallocate_Inv _ _ _ _ _ IH Hrun).
Qed.

End AllocatorInvariant.

(** ** From the user pointer back to the chunk *)

Lemma wrap_wrap_sub a b : wrap (wrap a - b) = wrap (a - b).
Proof. unfold wrap. apply Zminus_mod_idemp_l. Qed.

Lemma field_at_None_dom s s' a :
  (forall x, is_Some (hdr s' !! x) <-> is_Some (hdr s !! x)) ->
  field_at s a = None -> field_at s' a = None.
Proof.
  intros Hdom. unfold field_at.
  assert (Hn : forall x, hdr s !! x = None -> hdr s' !! x = None).
  { intros x Hx. destruct (hdr s' !! x) as [c'|] eqn:E; [|done].
    assert (is_Some (hdr s !! x)) as [c0 Hc0] by (apply Hdom; eauto). congruence. }
  destruct (hdr s !! a) eqn:E0; [done|]. rewrite (Hn _ E0).
  destruct (hdr s !! (a - kWordSize)) eqn:E1; [done|]. rewrite (Hn _ E1).
  destruct (hdr s !! (a - 2 * kWordSize)) eqn:E2; [done|]. rewrite (Hn _ E2).
  destruct (hdr s !! (a - 3 * kWordSize)) eqn:E3; [done|]. rewrite (Hn _ E3).
  destruct (hdr s !! (a - 4 * kWordSize)) eqn:E4; [done|]. rewrite (Hn _ E4). done.
Qed.

Lemma PoisonShadow_brk a n v v' s u s1 s2 :
  PoisonShadow a n v s = Ok (u, s1) -> brk s2 = brk s ->
  exists s3, PoisonShadow a n v' s2 = Ok (tt, s3).
Proof.
  intros H Hb. unfold PoisonShadow in *.
  apply bind_Ok in H as (u0 & s0 & H0 & H). apply CHECK_inv in H0 as [C1 ->].
  apply bind_Ok in H as (u1 & s0 & H0 & H). apply CHECK_inv in H0 as [C2 ->].
  rewrite (bind_CHECK _ _ _ C1), (bind_CHECK _ _ _ C2).
  unfold memset_shadow in *. destruct (_ =? 0); [eauto|]. rewrite Hb.
  destruct (_ && _); [eauto|discriminate].
Qed.

Section PointerProperties.

Variable kMinRedzone : Z.

Local Abbreviation kRedzone := (kRedzone kMinRedzone).
Local Abbreviation kMinAllocSize := (kMinAllocSize kMinRedzone).
Local Abbreviation RoundUptoRedzone := (RoundUptoRedzone kMinRedzone).
Local Abbreviation needed_size := (needed_size kMinRedzone).
Local Abbreviation Allocate := (Allocate kMinRedzone).
Local Abbreviation PtrToChunk := (PtrToChunk kMinRedzone).
Local Abbreviation Deallocate := (Deallocate kMinRedzone).
Local Abbreviation Reallocate := (Reallocate kMinRedzone).

(** [resolves s p m]: the word [kRedzone] bytes before [p] is the state
    word of the chunk [m], or it is the tag of a [CHUNK_MEMALIGN] record
    whose second word is [m]. *)
Definition resolves (s : heap) (p m : Z) : Prop :=
  let a := wrap (p - kRedzone) in
  (a = m /\ exists c, hdr s !! m = Some c /\ chunk_state c <> CHUNK_MEMALIGN)
  \/ (field_at s a = None /\ field_at s (wrap (a + kWordSize)) = None
      /\ mapped s a kWordSize && (a mod kWordSize =? 0) = true
      /\ mapped s (wrap (a + kWordSize)) kWordSize
           && (wrap (a + kWordSize) mod kWordSize =? 0) = true
      /\ words s !! a = Some CHUNK_MEMALIGN
      /\ words s !! wrap (a + kWordSize) = Some m).

Lemma resolves_PtrToChunk s p m : resolves s p m -> PtrToChunk p s = Ok (m, s).
Proof.
  unfold resolves, PtrToChunk.
  intros [(Ha & c & Hc & Hst)|(F1 & F2 & M1 & M2 & W1 & W2)].
  - rewrite Ha. unfold bind. rewrite (load_word_hdr _ _ _ Hc).
    apply Z.eqb_neq in Hst. rewrite Hst. done.
  - unfold bind, load_word. rewrite F1, M1, W1. simpl.
    rewrite F2, M2, W2. done.
Qed.

Lemma resolves_frame s s' p m :
  resolves s p m ->
  (forall x, is_Some (hdr s' !! x) <-> is_Some (hdr s !! x)) ->
  (forall c', hdr s' !! m = Some c' -> chunk_state c' <> CHUNK_MEMALIGN) ->
  words s' = words s -> brk s' = brk s ->
  resolves s' p m.
Proof.
  unfold resolves. intros [(Ha & c & Hc & Hst)|(F1 & F2 & M1 & M2 & W1 & W2)] Hdom Hm Hw Hb.
  - left. split; [done|].
    assert (is_Some (hdr s' !! m)) as [c' Hc'] by (apply Hdom; eauto). eauto.
  - right. unfold mapped in *. rewrite Hw, Hb.
    split; [by eapply field_at_None_dom|]. split; [by eapply field_at_None_dom|]. done.
Qed.

(** A pointer the user may pass to [Deallocate]: it resolves to a chunk in
    state [CHUNK_ALLOCATED] and the shadow of its payload can be written. *)
Definition live_ptr (s : heap) (p m : Z) : Prop :=
  resolves s p m
  /\ exists c, hdr s !! m = Some c /\ chunk_state c = CHUNK_ALLOCATED
       /\ exists sp, PoisonShadow p (RoundUptoRedzone (used_size c)) 255 s = Ok (tt, sp).

(** What [Allocate] returns: the facts about the chunk behind the
    pointer. *)
Lemma Allocate_chunk alignment size s l lv p s' :
  wf s l lv -> is_word alignment -> size <> 0 ->
  Allocate alignment size s = Ok (p, s') ->
  exists m c,
    live_ptr s' p m /\ hdr s' !! m = Some c /\ chunk_state c = CHUNK_ALLOCATED
    /\ used_size c = size
    /\ allocated_size c = 2 ^ Z.log2_up (needed_size alignment size)
    /\ kMinAllocSize <= allocated_size c
    /\ (p = wrap (m + kRedzone)
        \/ (kRedzone < alignment
            /\ words s' !! wrap (p - kRedzone) = Some CHUNK_MEMALIGN
            /\ words s' !! wrap (wrap (p - kRedzone) + kWordSize) = Some m)).
Proof.
  intros H Hwa Hn Hrun.
  destruct (Allocate_inv _ _ _ _ _ _ Hwa Hn Hrun)
    as (sz & m & s1 & c1 & s3 & _ & _ & Hsz & Hlog & Hmin & _ & Hdraw & Hm0 & Hc1
        & Hasz & Hst & Hpl & Hps).
  destruct (AllocateChunk_wf s l lv sz m s1 H) as (Hwf1 & _ & _ & _); [|exact Hdraw|].
  { rewrite Hsz. by apply pow2_is_word. }
  pose proof (wf_range _ _ _ _ Hwf1 m c1 Hc1) as Hrange.
  pose proof (wf_brk _ _ _ _ Hwf1) as Hbrk.
  pose proof (PoisonShadow_frame _ _ _ _ _ _ Hps) as [f Es'].
  set (s2 := set_hdr (alter (set_used_size size) m (hdr s1)) s1) in *.
  assert (Hc2 : hdr s2 !! m = Some (set_used_size size c1)).
  { subst s2. solve_lookup. }
  assert (Hres : resolves s3 p m /\ hdr s3 = hdr s2 /\ brk s3 = brk s1
                 /\ (p = wrap (m + kRedzone)
                     \/ (kRedzone < alignment
                         /\ words s3 !! wrap (p - kRedzone) = Some CHUNK_MEMALIGN
                         /\ words s3 !! wrap (wrap (p - kRedzone) + kWordSize) = Some m))).
  { destruct Hpl as [(Hp & -> & _)|(Hlt & _ & _ & _ & F1 & F2 & M1 & M2 & ->)].
    - split; [|split; [done|split; [done|by left]]].
      left. rewrite Hp, wrap_wrap_sub.
      replace (m + kRedzone - kRedzone) with m by lia.
      split; [apply wrap_small; knorm; lia|].
      eexists. split; [exact Hc2|]. hsimpl. rewrite Hst. discriminate.
    - set (a0 := wrap (p - kRedzone)) in *.
      assert (Ha1 : wrap (a0 + kWordSize) = a0 + kWordSize).
      { apply andb_true_iff in M1 as [M1 _]. unfold mapped in M1.
        apply andb_true_iff in M1 as [Mb Me]. apply Z.leb_le in Mb, Me.
        apply wrap_small. subst s2. hsimpl. knorm. lia. }
      assert (Hw0 : <[wrap (a0 + kWordSize):=m]> (<[a0:=CHUNK_MEMALIGN]> (words s2)) !! a0
                    = Some CHUNK_MEMALIGN).
      { rewrite lookup_insert_ne by (rewrite Ha1; knorm; lia). apply lookup_insert_eq. }
      split; [|split; [done|split; [done|]]].
      + right. hsimpl. fold a0. split; [exact F1|]. split; [exact F2|].
        split; [exact M1|]. split; [exact M2|]. split; [exact Hw0|].
        apply lookup_insert_eq.
      + right. hsimpl. split; [done|]. split; [exact Hw0|]. apply lookup_insert_eq. }
  destruct Hres as (Hres & Hh3 & Hb3 & Hrec).
  exists m, (set_used_size size c1).
  assert (Hc' : hdr s' !! m = Some (set_used_size size c1)).
  { rewrite Es'. hsimpl. rewrite Hh3. exact Hc2. }
  split.
  { split.
    - eapply resolves_frame; [exact Hres| | | |]; rewrite Es'; hsimpl; try done.
      intros c' Hc. rewrite Hh3, Hc2 in Hc. injection Hc as <-. hsimpl.
      rewrite Hst. discriminate.
    - eexists. split; [exact Hc'|]. split; [exact Hst|]. hsimpl.
      eapply PoisonShadow_brk; [exact Hps|]. rewrite Es'. done. }
  split; [done|]. split; [done|]. split; [done|]. hsimpl.
  split; [congruence|]. split; [congruence|].
  rewrite Es'. hsimpl. exact Hrec.
Qed.

Lemma Deallocate_not_allocated p s m c :
  p <> 0 -> PtrToChunk p s = Ok (m, s) -> hdr s !! m = Some c ->
  chunk_state c <> CHUNK_ALLOCATED -> Deallocate p s = Abort.
Proof.
  intros Hp Hptr Hc Hst. unfold Deallocate.
  apply Z.eqb_neq in Hp. rewrite Hp.
  rewrite (bind_step _ _ _ _ _ Hptr).
  rewrite (bind_step _ _ _ _ _ (load_word_hdr _ _ _ Hc)).
  apply Z.eqb_neq in Hst. unfold bind, CHECK. rewrite Hst. done.
Qed.

Lemma Deallocate_total p s l lv m :
  wf s l lv -> live_ptr s p m -> p <> 0 -> 0 < flag_quarantine_size s ->
  exists s', Deallocate p s = Ok (tt, s').
Proof.
  intros H (Hres & c & Hc & Hst & sp & Hps) Hp Hflag.
  unfold Deallocate. apply Z.eqb_neq in Hp as Hp'. rewrite Hp'. clear Hp'.
  rewrite (bind_step _ _ _ _ _ (resolves_PtrToChunk _ _ _ Hres)).
  rewrite (bind_step _ _ _ _ _ (load_word_hdr _ _ _ Hc)).
  rewrite bind_CHECK by (by apply Z.eqb_eq).
  rewrite (bind_load _ _ _ _ Hc), (bind_step _ _ _ _ _ Hps).
  pose proof (PoisonShadow_frame _ _ _ _ _ _ Hps) as [f Esp].
  assert (Hin : m ∈ lv) by (eapply wf_alloc; eauto).
  apply list_elem_of_split in Hin as (l1 & l2 & ->).
  assert (Hwfp : wf sp l (l1 ++ m :: l2)).
  { unfold wf. subst sp. hsimpl.
    eapply wf_at_frame; [exact H|hsimpl; try done..].
    pose proof (wf_brk _ _ _ _ H). lia. }
  destruct (TakeChunkBack_spec sp l l1 l2 m Hwfp) as (s' & l' & k & Htcb & _).
  { subst sp. hsimpl. done. }
  exists s'. unfold MallocInfo_Deallocate.
  assert (Hcp : hdr sp !! m = Some c) by (subst sp; done).
  rewrite bind_CHECK by (apply negb_true_iff, Z.eqb_neq; eapply wf_nonnull; eauto).
  rewrite (bind_load _ _ _ _ Hcp).
  rewrite bind_CHECK by (by apply Z.eqb_eq). done.
Qed.

(** With a cap of zero the [CHECK] at the head of [TakeChunkBack] fails. *)
Lemma Deallocate_cap_zero p s m :
  live_ptr s p m -> p <> 0 -> flag_quarantine_size s = 0 -> Deallocate p s = Abort.
Proof.
  intros (Hres & c & Hc & Hst & sp & Hps) Hp Hflag.
  unfold Deallocate. apply Z.eqb_neq in Hp as Hp'. rewrite Hp'. clear Hp'.
  rewrite (bind_step _ _ _ _ _ (resolves_PtrToChunk _ _ _ Hres)).
  rewrite (bind_step _ _ _ _ _ (load_word_hdr _ _ _ Hc)).
  rewrite bind_CHECK by (by apply Z.eqb_eq).
  rewrite (bind_load _ _ _ _ Hc), (bind_step _ _ _ _ _ Hps).
  pose proof (PoisonShadow_frame _ _ _ _ _ _ Hps) as [f Esp].
  assert (Hcp : hdr sp !! m = Some c) by (subst sp; done).
  assert (Hfp : flag_quarantine_size sp = 0) by (subst sp; done).
  unfold MallocInfo_Deallocate, TakeChunkBack.
  destruct (negb (m =? 0)) eqn:Hm0; [|done].
  rewrite bind_CHECK by done. rewrite (bind_load _ _ _ _ Hcp).
  rewrite bind_CHECK by (by apply Z.eqb_eq).
  rewrite bind_CHECK by done. rewrite (bind_load _ _ _ _ Hcp).
  rewrite bind_CHECK by (by apply Z.eqb_eq).
  destruct (IsPowerOfTwo (allocated_size c)) eqn:Hp2; [|done].
  rewrite bind_CHECK by done. rewrite bind_get, Hfp. done.
Qed.

Lemma Deallocate_twice p s l lv m s' :
  wf s l lv -> resolves s p m -> p <> 0 ->
  Deallocate p s = Ok (tt, s') -> Deallocate p s' = Abort.
Proof.
  intros H Hres Hp Hrun.
  destruct (Deallocate_wf _ _ _ _ _ _ H Hp Hrun)
    as (m0 & c & sp & l1 & l2 & l' & k & Hptr & Hc & Hst & Hps & _ & Hwf' & _ & _ & _ & Hpost).
  rewrite (resolves_PtrToChunk _ _ _ Hres) in Hptr. injection Hptr as <-.
  destruct Hpost as (T1 & T2 & T3 & _ & _ & T6 & _ & T8 & _).
  pose proof (PoisonShadow_frame _ _ _ _ _ _ Hps) as [f Esp].
  assert (Hm' : exists c', hdr s' !! m = Some c'
                 /\ (chunk_state c' = CHUNK_AVAILABLE \/ chunk_state c' = CHUNK_QUARANTINE)).
  { destruct (decide (m ∈ k)) as [Hin|Hnin].
    - destruct (T2 m Hin) as (c' & Hc' & Hs'). eauto.
    - destruct (T3 Hnin) as (c' & Hc' & Hs'). eauto. }
  destruct Hm' as (c' & Hc' & Hs').
  eapply (Deallocate_not_allocated p s' m c'); [done| |done|].
  - apply resolves_PtrToChunk. eapply resolves_frame; [exact Hres| | | |].
    + intros x. destruct T1 as [_ T1]. destruct (T1 x) as [_ I]. subst sp. exact I.
    + intros c2 Hc2. assert (c2 = c') by congruence. subst c2. states.
    + subst sp. done.
    + subst sp. done.
  - states.
Qed.

(** What a successful [Deallocate] does to the quarantine. *)
Lemma Deallocate_evicts p s l lv s' :
  wf s l lv -> p <> 0 -> Deallocate p s = Ok (tt, s') ->
  exists m c l' k lv',
    PtrToChunk p s = Ok (m, s) /\ hdr s !! m = Some c
    /\ wf s' l' lv' /\ m :: l = l' ++ k
    /\ quarantine_size_ s' <= flag_quarantine_size s
    /\ (k = [] <-> quarantine_size_ s + allocated_size c <= flag_quarantine_size s)
    /\ (forall t, t ∈ k -> exists c', hdr s' !! t = Some c'
                                     /\ chunk_state c' = CHUNK_AVAILABLE)
    /\ (m ∉ k -> exists c', hdr s' !! m = Some c'
                            /\ chunk_state c' = CHUNK_QUARANTINE)
    /\ (flag_quarantine_size s < allocated_size c -> m ∈ k).
Proof.
  intros H Hp Hrun.
  destruct (Deallocate_wf _ _ _ _ _ _ H Hp Hrun)
    as (m & c & sp & l1 & l2 & l' & k & Hptr & Hc & Hst & Hps & _ & Hwf' & El & Hcap
        & Hnone & Hpost).
  destruct Hpost as (T1 & T2 & T3 & _ & _ & _ & _ & _ & T9).
  pose proof (PoisonShadow_frame _ _ _ _ _ _ Hps) as [f Esp].
  assert (Hflag : flag_quarantine_size s' = flag_quarantine_size s) by (subst sp; done).
  assert (Hss : same_sizes (hdr s) (hdr s')) by (subst sp; done).
  assert (Hsum : quarantine_size_ s' = sum_sizes (hdr s) l').
  { rewrite (wf_qsize _ _ _ _ Hwf'). by apply sum_sizes_same. }
  assert (Hl'_nonneg : forall l0, 0 <= sum_sizes (hdr s) l0).
  { intros l0. eapply sum_sizes_nonneg; eauto. }
  exists m, c, l', k, (l1 ++ l2).
  split; [done|]. split; [done|]. split; [done|]. split; [done|].
  split; [lia|]. split.
  { split; [|done]. intros ->. rewrite app_nil_r in El. subst l'.
    simpl in Hsum. rewrite (asz_of_lookup _ _ _ Hc) in Hsum.
    rewrite <- (wf_qsize _ _ _ _ H) in Hsum. lia. }
  split; [done|]. split; [done|].
  intros Hbig. destruct (decide (m ∈ k)) as [|Hnin]; [done|exfalso].
  destruct l' as [|x l''].
  - simpl in El. apply Hnin. rewrite <- El. left.
  - injection El as <- El. simpl in Hsum. rewrite (asz_of_lookup _ _ _ Hc) in Hsum.
    specialize (Hl'_nonneg l''). lia.
Qed.

End PointerProperties.

(** * The claims *)

Ltac word_tac := unfold is_word; split; [vm_compute; discriminate | vm_compute; reflexivity].

(** ** Two runs on concrete states

    [kMinRedzone] is 32 here, the least power of two for which
    [struct Chunk] (five words) fits the left redzone. *)

Definition run {A} (m : M A) (s : heap) : heap :=
  match m s with Ok (_, s') => s' | _ => s end.

Definition value {A} (d : A) (m : M A) (s : heap) : A :=
  match m s with Ok (a, _) => a | _ => d end.

(** Quarantine cap 2^20; one request that takes a chunk of 2^19 bytes. *)
Definition big : Z := 300000.
Definition demo0 : heap := heap0 (2 ^ 20).
Definition demo_p : Z := value 0 (Allocate 32 0 big) demo0.
Definition demo1 : heap := run (Allocate 32 0 big) demo0.
Definition demo2 : heap := run (Deallocate 32 demo_p) demo1.

Lemma demo1_run : Allocate 32 0 big demo0 = Ok (demo_p, demo1).
Proof. vm_compute. reflexivity. Qed.

Lemma demo2_run : Deallocate 32 demo_p demo1 = Ok (tt, demo2).
Proof. vm_compute. reflexivity. Qed.

Lemma demo2_reachable : reachable 32 demo2.
Proof.
  eapply reach_Deallocate; [|shelve|apply demo2_run].
  eapply reach_Allocate; [| | |apply demo1_run]; [|word_tac..].
  apply reach_init. word_tac.
  Unshelve. word_tac.
Qed.

(** C3. After every public operation (allocate, deallocate, reallocate)
    returns, the quarantine counter is the sum of [allocated_size] over the
    chunks of the quarantine ring, and it is at most the configured cap. *)
Theorem C3_quarantine_counter (kMinRedzone : Z) (s : heap) :
  reachable kMinRedzone s ->
  exists l, NoDup l /\ ring (hdr s) (quarantine_ s) l
    /\ quarantine_size_ s = sum_sizes (hdr s) l
    /\ quarantine_size_ s <= flag_quarantine_size s.
Proof.
  intros Hr. destruct (reachable_Inv _ _ Hr) as (l & lv & H & Hcap).
  exists l. split; [apply H|]. split; [apply H|]. split; [apply H|done].
Qed.

Lemma C3_quarantine_counter_witness :
  exists l, NoDup l /\ ring (hdr demo2) (quarantine_ demo2) l
    /\ quarantine_size_ demo2 = sum_sizes (hdr demo2) l
    /\ quarantine_size_ demo2 <= flag_quarantine_size demo2.
Proof. apply (C3_quarantine_counter 32 demo2). apply demo2_reachable. Defined.

(** ** Reading a chunk's state and size *)

Definition st_of (s : heap) (m : Z) : Z := default 0 (chunk_state <$> hdr s !! m).
Definition used_of (s : heap) (m : Z) : Z := default 0 (used_size <$> hdr s !! m).

(** ** C1: [Reallocate] to size zero *)

Lemma Reallocate_zero kMinRedzone p s :
  p <> 0 -> Reallocate kMinRedzone p 0 s = Ok (0, s).
Proof.
  intros Hp. unfold Reallocate. apply Z.eqb_neq in Hp. rewrite Hp. done.
Qed.

(** C1. The claim: [reallocate(p, 0)] returns null and the old chunk
    leaves the ALLOCATED state, as [deallocate(p)] makes it.  The code
    returns null and leaves the state as it is: the chunk of [p] is still
    ALLOCATED, where [Deallocate p] puts it in quarantine. *)
Theorem C1_reallocate_zero_keeps_chunk :
  demo_p <> 0
  /\ st_of demo1 (demo_p - 64) = CHUNK_ALLOCATED
  /\ Reallocate 32 demo_p 0 demo1 = Ok (0, demo1)
  /\ Deallocate 32 demo_p demo1 = Ok (tt, demo2)
  /\ st_of demo2 (demo_p - 64) = CHUNK_QUARANTINE.
Proof.
  split; [vm_compute; discriminate|]. split; [vm_compute; reflexivity|].
  split; [apply Reallocate_zero; vm_compute; discriminate|].
  split; [apply demo2_run|]. vm_compute. reflexivity.
Qed.

(** ** C5: a size that wraps around

    [RoundUptoRedzone] of a size within [kRedzone] of 2^64 is 0; with an
    alignment above [kRedzone] the chunk still has the least size, the
    pointer is returned and nothing is unpoisoned. *)

Definition ovf_size : Z := 2 ^ 64 - 1.
Definition ovf_p : Z := value 0 (Allocate 32 262144 ovf_size) (heap0 (2 ^ 20)).
Definition ovf1 : heap := run (Allocate 32 262144 ovf_size) (heap0 (2 ^ 20)).

(** C5. The claim: every pointer that [allocate(a, n)] returns for
    [n > 0] is non-null, a multiple of [max(a, REDZONE)], and the shadow
    of [p, p+n) reads 0.  The code, for [a = 2^18] and [n = 2^64 - 1] on
    the initial state: returns a non-null multiple of 2^18 whose first
    byte has the shadow value 0xFF. *)
Theorem C5_allocate_overflow :
  is_word ovf_size /\ 0 < ovf_size
  /\ Allocate 32 262144 ovf_size (heap0 (2 ^ 20)) = Ok (ovf_p, ovf1)
  /\ ovf_p <> 0 /\ ovf_p mod 262144 = 0
  /\ RoundUptoRedzone 32 ovf_size = 0
  /\ shadow_byte (shadow ovf1) (MemToShadow ovf_p) = 255.
Proof.
  split; [word_tac|]. split; [reflexivity|].
  split; [vm_compute; reflexivity|]. split; [vm_compute; discriminate|].
  split; vm_compute; try reflexivity. split; reflexivity.
Qed.

(** ** C2: the word before the pointer *)

Lemma wrap_wrap_add a b : wrap (wrap a + b) = wrap (a + b).
Proof. unfold wrap. apply Zplus_mod_idemp_l. Qed.

(** A block aligned to 4096 bytes, which is later reallocated. *)
Definition c9_0 : heap := heap0 (2 ^ 20).
Definition c9_p : Z := value 0 (Allocate 32 4096 10) c9_0.
Definition c9_1 : heap := run (Allocate 32 4096 10) c9_0.
Definition c9_q : Z := value 0 (Reallocate 32 c9_p big) c9_1.
Definition c9_2 : heap := run (Reallocate 32 c9_p big) c9_1.

Lemma c9_1_run : Allocate 32 4096 10 c9_0 = Ok (c9_p, c9_1).
Proof. vm_compute. reflexivity. Qed.

Lemma c9_2_run : Reallocate 32 c9_p big c9_1 = Ok (c9_q, c9_2).
Proof. vm_compute. reflexivity. Qed.

Lemma c9_0_reachable : reachable 32 c9_0.
Proof. apply reach_init. word_tac. Qed.

(** The spec's words for the lookup: the word two words before the pointer
    decides, and the word after it is the chunk. *)
Definition spec_ptr_to_chunk (R ptr : Z) : M Z :=
  let! tag := load_word (wrap (ptr - 2 * kWordSize)) in
  if tag =? CHUNK_MEMALIGN then load_word (wrap (ptr - kWordSize))
  else ret (wrap (ptr - R)).

(** C2, as stated, fails for a redzone of 64 bytes: for the pointer of
    [Allocate 4096 10] the record (tag, chunk) lies 64 bytes before the
    pointer, the word two words before the pointer is 0, and the lookup by
    the spec's words ends at an address that holds no chunk. *)
Lemma C2_two_words_before_counterexample :
  exists m,
    Allocate 32 4096 10 c9_0 = Ok (c9_p, c9_1)
    /\ PtrToChunk 32 c9_p c9_1 = Ok (m, c9_1)
    /\ st_of c9_1 m = CHUNK_ALLOCATED
    /\ words c9_1 !! (c9_p - kRedzone 32) = Some CHUNK_MEMALIGN
    /\ words c9_1 !! (c9_p - kRedzone 32 + kWordSize) = Some m
    /\ load_word (c9_p - 2 * kWordSize) c9_1 = Ok (0, c9_1)
    /\ spec_ptr_to_chunk (kRedzone 32) c9_p c9_1 = Ok (c9_p - kRedzone 32, c9_1)
    /\ hdr c9_1 !! (c9_p - kRedzone 32) = None
    /\ PtrToChunk 32 c9_p c9_1 <> spec_ptr_to_chunk (kRedzone 32) c9_p c9_1.
Proof.
  eexists. split; [apply c9_1_run|].
  split; [vm_compute; reflexivity|].
  split; [vm_compute; reflexivity|].
  split; [vm_compute; reflexivity|].
  split; [vm_compute; reflexivity|].
  split; [vm_compute; reflexivity|].
  split; [vm_compute; reflexivity|].
  split; [vm_compute; reflexivity|].
  vm_compute. discriminate.
Qed.

(** C2 (amended). [Deallocate p] resolves the chunk from the word at
    [p - kRedzone]: if it is the [CHUNK_MEMALIGN] tag the chunk is the word
    after it, otherwise the chunk is [p - kRedzone].  The pointer that
    [Allocate] returns resolves to the chunk it drew, and when it is not
    [kRedzone] bytes after the chunk the record (tag, chunk) is in the two
    words at [p - kRedzone].  That word is two words before [p] when
    [kRedzone] is two words. *)
Theorem C2_pointer_to_chunk (kMinRedzone : Z) :
  (forall p s s',
     p <> 0 -> Deallocate kMinRedzone p s = Ok (tt, s') ->
     exists tag m c sp,
       load_word (wrap (p - kRedzone kMinRedzone)) s = Ok (tag, s)
       /\ (if tag =? CHUNK_MEMALIGN
           then load_word (wrap (wrap (p - kRedzone kMinRedzone) + kWordSize)) s = Ok (m, s)
           else m = wrap (p - kRedzone kMinRedzone))
       /\ hdr s !! m = Some c /\ chunk_state c = CHUNK_ALLOCATED
       /\ TakeChunkBack m sp = Ok (tt, s'))
  /\ (forall alignment size s p s',
        reachable kMinRedzone s -> is_word alignment -> size <> 0 ->
        Allocate kMinRedzone alignment size s = Ok (p, s') ->
        exists m c,
          PtrToChunk kMinRedzone p s' = Ok (m, s') /\ hdr s' !! m = Some c
          /\ chunk_state c = CHUNK_ALLOCATED /\ used_size c = size
          /\ (p <> wrap (m + kRedzone kMinRedzone) ->
              kRedzone kMinRedzone < alignment
              /\ words s' !! wrap (p - kRedzone kMinRedzone) = Some CHUNK_MEMALIGN
              /\ words s' !! wrap (wrap (p - kRedzone kMinRedzone) + kWordSize) = Some m))
  /\ (kRedzone kMinRedzone = 2 * kWordSize ->
      forall p s,
        PtrToChunk kMinRedzone p s = spec_ptr_to_chunk (kRedzone kMinRedzone) p s).
Proof.
  split; [|split].
  - intros p s s' Hp Hrun.
    destruct (Deallocate_inv _ _ _ _ Hp Hrun) as (m & c & sp & H1 & H2 & H3 & _ & H5 & _).
    unfold PtrToChunk in H1.
    apply bind_Ok in H1 as (tag & s0 & Hl & H1).
    pose proof (load_word_frame _ _ _ _ Hl) as ->.
    exists tag, m, c, sp. split; [done|]. split; [|done].
    destruct (tag =? CHUNK_MEMALIGN); [done|].
    by apply ret_inv in H1 as [-> _].
  - intros alignment size s p s' Hr Hwa Hn Hrun.
    destruct (reachable_Inv _ _ Hr) as (l & lv & H & _).
    destruct (Allocate_chunk _ _ _ _ _ _ _ _ H Hwa Hn Hrun)
      as (m & c & (Hres & _) & Hc & Hst & Hus & _ & _ & Hrec).
    exists m, c. split; [by apply resolves_PtrToChunk|].
    split; [done|]. split; [done|]. split; [done|].
    intros Hne. by destruct Hrec as [?|(Hlt & W1 & W2)].
  - intros HR p s. unfold PtrToChunk, spec_ptr_to_chunk. rewrite HR.
    replace (wrap (wrap (p - 2 * kWordSize) + kWordSize)) with (wrap (p - kWordSize)); [done|].
    rewrite wrap_wrap_add. f_equal. knorm. lia.
Qed.

Lemma C2_pointer_to_chunk_witness :
  exists m c,
    PtrToChunk 32 c9_p c9_1 = Ok (m, c9_1) /\ hdr c9_1 !! m = Some c
    /\ chunk_state c = CHUNK_ALLOCATED /\ used_size c = 10
    /\ (c9_p <> wrap (m + kRedzone 32) ->
        kRedzone 32 < 4096
        /\ words c9_1 !! wrap (c9_p - kRedzone 32) = Some CHUNK_MEMALIGN
        /\ words c9_1 !! wrap (wrap (c9_p - kRedzone 32) + kWordSize) = Some m).
Proof.
  apply (proj1 (proj2 (C2_pointer_to_chunk 32)) 4096 10 c9_0 c9_p c9_1).
  - apply c9_0_reachable.
  - word_tac.
  - discriminate.
  - apply c9_1_run.
Defined.

(** ** C6: the size of the chunk *)

(** The spec's words: the size rounded up to a multiple of the redzone,
    one redzone more, and the alignment when it is above the redzone; the
    least power of two that is not below. *)
Definition round_up_to_redzone (R size : Z) : Z := (size + R - 1) / R * R.

Definition spec_needed (R alignment size : Z) : Z :=
  round_up_to_redzone R size + R + (if R <? alignment then alignment else 0).

Definition round_up_to_power_of_two (x : Z) : Z := 2 ^ Z.log2_up x.

Lemma round_up_to_power_of_two_least x :
  0 < x ->
  x <= round_up_to_power_of_two x
  /\ forall j, 0 <= j -> x <= 2 ^ j -> round_up_to_power_of_two x <= 2 ^ j.
Proof.
  intros Hx. unfold round_up_to_power_of_two. split.
  - destruct (Z.eq_dec x 1) as [->|Hne]; [done|].
    apply Z.log2_up_spec. lia.
  - intros j Hj Hle. apply Z.pow_le_mono_r; [lia|].
    apply Z.log2_up_le_pow2; lia.
Qed.

Lemma round_up_to_redzone_spec R size :
  0 < R -> size <= round_up_to_redzone R size < size + R
           /\ round_up_to_redzone R size mod R = 0.
Proof.
  intros HR. unfold round_up_to_redzone. split.
  - pose proof (Z.div_mod (size + R - 1) R ltac:(lia)) as Hdm.
    pose proof (Z.mod_pos_bound (size + R - 1) R HR). lia.
  - apply Z.mod_mul. lia.
Qed.

Lemma needed_size_spec kMinRedzone alignment size :
  0 < kRedzone kMinRedzone -> 0 <= size -> 0 <= alignment ->
  spec_needed (kRedzone kMinRedzone) alignment size < 2 ^ WORDSIZE ->
  needed_size kMinRedzone alignment size
  = spec_needed (kRedzone kMinRedzone) alignment size.
Proof.
  intros HR Hs Ha Hlt. unfold needed_size, spec_needed, RoundUptoRedzone in *.
  set (R := kRedzone kMinRedzone) in *.
  destruct (round_up_to_redzone_spec R size HR) as [Hb _].
  fold (round_up_to_redzone R size) in *.
  assert (Hc : 0 <= (if R <? alignment then alignment else 0)) by (destruct (_ <? _); lia).
  assert (Hw1 : wrap (size + R - 1) = size + R - 1) by (apply wrap_small; unfold is_word; lia).
  rewrite Hw1. fold (round_up_to_redzone R size).
  rewrite (wrap_small (round_up_to_redzone R size)) by (unfold is_word; lia).
  rewrite (wrap_small (round_up_to_redzone R size + R)) by (unfold is_word; lia).
  destruct (R <? alignment); [|lia]. apply wrap_small. unfold is_word. lia.
Qed.

Lemma demo0_reachable : reachable 32 demo0.
Proof. apply reach_init. word_tac. Qed.

Lemma demo1_reachable : reachable 32 demo1.
Proof.
  eapply reach_Allocate; [| | |apply demo1_run]; [|word_tac..].
  apply demo0_reachable.
Qed.

(** The chunk that [Allocate] draws for a request with [size > 0] has
    the size [round_up_to_power_of_two needed], where [needed] is the size
    rounded up to a redzone multiple, plus [kRedzone], plus the alignment
    when it is above [kRedzone], computed on [size_t]: it is the spec's
    sum whenever that fits a word; the size is at least [kMinAllocSize]. *)
Lemma Allocate_chunk_size (kMinRedzone alignment size : Z) (s : heap) (p : Z) (s' : heap) :
  reachable kMinRedzone s -> is_word alignment -> size <> 0 ->
  Allocate kMinRedzone alignment size s = Ok (p, s') ->
  exists m c,
    PtrToChunk kMinRedzone p s' = Ok (m, s') /\ hdr s' !! m = Some c
    /\ chunk_state c = CHUNK_ALLOCATED
    /\ allocated_size c
       = round_up_to_power_of_two (needed_size kMinRedzone alignment size)
    /\ kMinAllocSize kMinRedzone <= allocated_size c
    /\ (0 < kRedzone kMinRedzone -> 0 <= size ->
        spec_needed (kRedzone kMinRedzone) alignment size < 2 ^ WORDSIZE ->
        needed_size kMinRedzone alignment size
        = spec_needed (kRedzone kMinRedzone) alignment size).
Proof.
  intros Hr Hwa Hn Hrun.
  destruct (reachable_Inv _ _ Hr) as (l & lv & H & _).
  destruct (Allocate_chunk _ _ _ _ _ _ _ _ H Hwa Hn Hrun)
    as (m & c & (Hres & _) & Hc & Hst & _ & Hasz & Hmin & _).
  exists m, c. split; [by apply resolves_PtrToChunk|].
  split; [done|]. split; [done|]. split; [done|]. split; [done|].
  intros HR Hs Hlt. apply needed_size_spec; try done. unfold is_word in Hwa. lia.
Qed.

(** C6. The claim: for every request with [size > 0] the chunk drawn has
    the size [round_up_to_power_of_two needed], where [needed] is the size
    rounded up to a redzone multiple, plus REDZONE, plus the alignment
    when it is above REDZONE.  The code computes the sum on [size_t]; for
    the alignment 2^18 and the size 2^64 - 1 on the initial state the
    rounded size wraps to 0 and the sum is 2^18 + 64: the call returns,
    and the chunk behind the pointer has 2^19 bytes where the claim's
    formula gives 2^65.  The chunk is smaller than the size asked for,
    which its [used_size] records; without the alignment the same size
    fails a [CHECK]. *)
Theorem C6_chunk_size_overflow :
  0 < ovf_size /\ is_word ovf_size
  /\ Allocate 32 262144 ovf_size (heap0 (2 ^ 20)) = Ok (ovf_p, ovf1)
  /\ RoundUptoRedzone 32 ovf_size = 0
  /\ needed_size 32 262144 ovf_size = 262144 + 64
  /\ spec_needed (kRedzone 32) 262144 ovf_size = 2 ^ 64 + 262144 + 64
  /\ round_up_to_power_of_two (spec_needed (kRedzone 32) 262144 ovf_size) = 2 ^ 65
  /\ Allocate 32 0 ovf_size (heap0 (2 ^ 20)) = Abort
  /\ exists m c,
       PtrToChunk 32 ovf_p ovf1 = Ok (m, ovf1) /\ hdr ovf1 !! m = Some c
       /\ chunk_state c = CHUNK_ALLOCATED /\ used_size c = ovf_size
       /\ allocated_size c = 2 ^ 19
       /\ allocated_size c < used_size c.
Proof.
  split; [reflexivity|]. split; [word_tac|].
  split; [vm_compute; reflexivity|]. split; [vm_compute; reflexivity|].
  split; [vm_compute; reflexivity|]. split; [vm_compute; reflexivity|].
  split; [vm_compute; reflexivity|]. split; [vm_compute; reflexivity|].
  exists (ovf_p - 262144), (mkChunk CHUNK_ALLOCATED (2 ^ 19) ovf_size 0 0).
  split; [vm_compute; reflexivity|]. split; [vm_compute; reflexivity|].
  split; [reflexivity|]. split; [reflexivity|]. split; [reflexivity|].
  vm_compute. reflexivity.
Qed.

(** ** C7: what [Deallocate] refuses *)

(** C7. [Deallocate] of a non-null pointer whose chunk is not in state
    [CHUNK_ALLOCATED] aborts; so does the second of two [Deallocate]s of a
    pointer that [Allocate] returned; [Deallocate] of null does nothing
    and [Allocate] of size 0 returns null. *)
Theorem C7_invalid_free (kMinRedzone : Z) :
  (forall p s m c,
     p <> 0 -> PtrToChunk kMinRedzone p s = Ok (m, s) -> hdr s !! m = Some c ->
     chunk_state c <> CHUNK_ALLOCATED -> Deallocate kMinRedzone p s = Abort)
  /\ (forall alignment size s p s1 s2,
        reachable kMinRedzone s -> is_word alignment -> size <> 0 -> p <> 0 ->
        Allocate kMinRedzone alignment size s = Ok (p, s1) ->
        Deallocate kMinRedzone p s1 = Ok (tt, s2) ->
        Deallocate kMinRedzone p s2 = Abort)
  /\ (forall s, Deallocate kMinRedzone 0 s = Ok (tt, s))
  /\ (forall alignment s, Allocate kMinRedzone alignment 0 s = Ok (0, s)).
Proof.
  split; [|split; [|split]].
  - intros p s m c. apply Deallocate_not_allocated.
  - intros alignment size s p s1 s2 Hr Hwa Hn Hp Hal Hde.
    destruct (reachable_Inv _ _ Hr) as (l & lv & H & _).
    destruct (Allocate_chunk _ _ _ _ _ _ _ _ H Hwa Hn Hal) as (m & c & (Hres & _) & _).
    destruct (Allocate_wf _ _ _ _ _ _ _ _ H Hwa Hn Hal) as (m' & Hwf1 & _).
    eapply Deallocate_twice; eauto.
  - intros s. done.
  - intros alignment s. done.
Qed.

Lemma C7_invalid_free_witness :
  Deallocate 32 demo_p demo2 = Abort.
Proof.
  apply (proj1 (proj2 (C7_invalid_free 32)) 0 big demo0 demo_p demo1 demo2).
  - apply demo0_reachable.
  - word_tac.
  - vm_compute. discriminate.
  - vm_compute. discriminate.
  - apply demo1_run.
  - apply demo2_run.
Defined.

(** ** C8: a quarantine cap of zero *)

Definition z_p : Z := value 0 (Allocate 32 0 big) (heap0 0).
Definition z1 : heap := run (Allocate 32 0 big) (heap0 0).

(** C8. With the quarantine cap configured as 0, [Deallocate] of a live
    pointer aborts: the [CHECK] on the flag at the head of [TakeChunkBack]
    fails before the chunk is linked into the ring. *)
Theorem C8_zero_cap_aborts (kMinRedzone : Z) (s : heap) (p m : Z) :
  live_ptr kMinRedzone s p m -> p <> 0 -> flag_quarantine_size s = 0 ->
  Deallocate kMinRedzone p s = Abort
  /\ forall c, hdr s !! m = Some c ->
               TakeChunkBack m s = Abort.
Proof.
  intros Hlive Hp Hflag. split; [by eapply Deallocate_cap_zero|].
  intros c Hc. destruct Hlive as (_ & c' & Hc' & Hst & _).
  assert (c' = c) by congruence. subst c'.
  unfold TakeChunkBack.
  destruct (negb (m =? 0)) eqn:Hm0; [|done].
  rewrite bind_CHECK by done. rewrite (bind_load _ _ _ _ Hc).
  rewrite bind_CHECK by (by apply Z.eqb_eq).
  destruct (IsPowerOfTwo (allocated_size c)) eqn:Hp2; [|done].
  rewrite bind_CHECK by done. rewrite bind_get, Hflag. done.
Qed.

Lemma z1_live : live_ptr 32 z1 z_p (z_p - 64).
Proof.
  split.
  - left. split; [vm_compute; reflexivity|].
    eexists. split; [vm_compute; reflexivity|]. vm_compute. discriminate.
  - eexists. split; [vm_compute; reflexivity|]. split; [vm_compute; reflexivity|].
    eexists. vm_compute. reflexivity.
Qed.

Lemma C8_zero_cap_aborts_witness :
  Deallocate 32 z_p z1 = Abort
  /\ forall c, hdr z1 !! (z_p - 64) = Some c -> TakeChunkBack (z_p - 64) z1 = Abort.
Proof.
  apply (C8_zero_cap_aborts 32 z1 z_p (z_p - 64)).
  - apply z1_live.
  - vm_compute. discriminate.
  - reflexivity.
Defined.

(** ** C4: the eviction loop *)

(** Quarantine cap 4096; the chunk of the request is 2^19 bytes. *)
Definition c4_0 : heap := heap0 4096.
Definition c4_p : Z := value 0 (Allocate 32 0 big) c4_0.
Definition c4_1 : heap := run (Allocate 32 0 big) c4_0.

Lemma c4_1_reachable : reachable 32 c4_1.
Proof.
  apply (reach_Allocate 32 c4_0 0 big c4_p c4_1); [|word_tac..|vm_compute; reflexivity].
  apply reach_init. word_tac.
Qed.

Lemma c4_1_live : live_ptr 32 c4_1 c4_p (c4_p - 64).
Proof.
  split.
  - left. split; [vm_compute; reflexivity|].
    eexists. split; [vm_compute; reflexivity|]. vm_compute. discriminate.
  - eexists. split; [vm_compute; reflexivity|]. split; [vm_compute; reflexivity|].
    eexists. vm_compute. reflexivity.
Qed.

(** C4. The loop at the end of [TakeChunkBack] stops as soon as the counter
    is at most the cap; one turn of it ([pop]) takes the chunk at the tail
    of the ring, subtracts its [allocated_size] from the counter, puts it in
    state [CHUNK_AVAILABLE] and makes it the head of the free list of its
    size class.  A [Deallocate] evicts a suffix of the ring, which is empty
    exactly when the counter plus the freed chunk's size is at most the cap,
    and a chunk larger than the cap is itself evicted by the call that
    frees it. *)
Theorem C4_quarantine_eviction (kMinRedzone : Z) :
  (forall fuel s,
     quarantine_size_ s <= flag_quarantine_size s -> evict fuel s = Ok (tt, s))
  /\ (forall fuel s,
        quarantine_size_ s <> 0 -> flag_quarantine_size s < quarantine_size_ s ->
        evict (S fuel) s = (do! pop in evict fuel) s)
  /\ (forall s l0 t lv,
        wf s (l0 ++ [t]) lv ->
        exists s', pop s = Ok (tt, s') /\ wf s' l0 lv
          /\ quarantine_size_ s' = quarantine_size_ s - asz_of (hdr s) t
          /\ (exists c', hdr s' !! t = Some c'
                /\ chunk_state c' = CHUNK_AVAILABLE
                /\ next c' = default 0 (chunks s !! Z.to_nat (Z.log2 (asz_of (hdr s) t))))
          /\ chunks s' = <[Z.to_nat (Z.log2 (asz_of (hdr s) t)) := t]> (chunks s))
  /\ (forall p s l lv s',
        wf s l lv -> p <> 0 -> Deallocate kMinRedzone p s = Ok (tt, s') ->
        exists m c l' k lv',
          PtrToChunk kMinRedzone p s = Ok (m, s) /\ hdr s !! m = Some c
          /\ wf s' l' lv' /\ m :: l = l' ++ k
          /\ quarantine_size_ s' <= flag_quarantine_size s
          /\ (k = [] <-> quarantine_size_ s + allocated_size c <= flag_quarantine_size s)
          /\ (forall t, t ∈ k -> exists c', hdr s' !! t = Some c'
                                           /\ chunk_state c' = CHUNK_AVAILABLE)
          /\ (m ∉ k -> exists c', hdr s' !! m = Some c'
                                  /\ chunk_state c' = CHUNK_QUARANTINE))
  /\ (forall p s l lv m,
        wf s l lv -> live_ptr kMinRedzone s p m -> p <> 0 ->
        0 < flag_quarantine_size s -> flag_quarantine_size s < asz_of (hdr s) m ->
        exists s' c', Deallocate kMinRedzone p s = Ok (tt, s')
          /\ hdr s' !! m = Some c' /\ chunk_state c' = CHUNK_AVAILABLE).
Proof.
  split; [|split; [|split; [|split]]].
  - intros fuel s Hle. destruct fuel; cbn [evict];
      (destruct (negb (quarantine_size_ s =? 0)
                 && (flag_quarantine_size s <? quarantine_size_ s)) eqn:E; [|done]);
      apply andb_true_iff in E as [_ E]; apply Z.ltb_lt in E; lia.
  - intros fuel s Hne Hlt. cbn [evict].
    apply Z.eqb_neq in Hne. apply Z.ltb_lt in Hlt. by rewrite Hne, Hlt.
  - intros s l0 t lv H.
    destruct (pop_spec _ _ _ _ H) as (s' & Hpop & Hwf & P1 & _ & P3 & P4 & _).
    exists s'. done.
  - intros p s l lv s' H Hp Hrun.
    destruct (Deallocate_evicts _ _ _ _ _ _ H Hp Hrun)
      as (m & c & l' & k & lv' & E1 & E2 & E3 & E4 & E5 & E6 & E7 & E8 & _).
    exists m, c, l', k, lv'. done.
  - intros p s l lv m H Hlive Hp Hflag Hbig.
    destruct (Deallocate_total _ _ _ _ _ _ H Hlive Hp Hflag) as [s' Hrun].
    destruct (Deallocate_evicts _ _ _ _ _ _ H Hp Hrun)
      as (m' & c & l' & k & lv' & E1 & E2 & _ & _ & _ & _ & E7 & _ & E9).
    destruct Hlive as (Hres & _).
    rewrite (resolves_PtrToChunk _ _ _ _ Hres) in E1.
    assert (m' = m) by congruence. subst m'.
    rewrite (asz_of_lookup _ _ _ E2) in Hbig.
    destruct (E7 m (E9 Hbig)) as (c' & Hc' & Hst'). by exists s', c'.
Qed.

Lemma C4_quarantine_eviction_witness :
  exists s' c', Deallocate 32 c4_p c4_1 = Ok (tt, s')
    /\ hdr s' !! (c4_p - 64) = Some c' /\ chunk_state c' = CHUNK_AVAILABLE.
Proof.
  destruct (reachable_Inv _ _ c4_1_reachable) as (l & lv & H & _).
  apply (proj2 (proj2 (proj2 (proj2 (C4_quarantine_eviction 32))))
           c4_p c4_1 l lv (c4_p - 64) H).
  - apply c4_1_live.
  - vm_compute. discriminate.
  - vm_compute. reflexivity.
  - vm_compute. reflexivity.
Defined.

(** ** C9: the alignment of a reallocated block *)

Lemma pow2_nonzero k : 0 <> 2 ^ k \/ k < 0.
Proof. destruct (Z.lt_ge_cases k 0); [by right|left]. pose proof (Z.pow_pos_nonneg 2 k). lia. Qed.

(** C9. [Reallocate] of a non-null pointer to a non-zero size obtains the
    new block by [Allocate 0 size]; a block obtained with alignment 0 lies
    [kRedzone] bytes after its chunk header, with no alignment fix-up.  For
    a block that was allocated with alignment 4096 the reallocated pointer
    is not a multiple of 4096. *)
Theorem C9_reallocate_alignment (kMinRedzone : Z) :
  (forall p size s q s',
     p <> 0 -> size <> 0 -> Reallocate kMinRedzone p size s = Ok (q, s') ->
     exists m c s1 s2,
       PtrToChunk kMinRedzone p s = Ok (m, s) /\ hdr s !! m = Some c
       /\ Allocate kMinRedzone 0 size s = Ok (q, s1)
       /\ asan_copy_mem q p (wrap (Z.min size (used_size c) + kWordSize - 1) / kWordSize) s1
          = Ok (tt, s2)
       /\ Deallocate kMinRedzone p s2 = Ok (tt, s'))
  /\ (forall size s q s1,
        size <> 0 -> Allocate kMinRedzone 0 size s = Ok (q, s1) ->
        exists m c, hdr s1 !! m = Some c /\ chunk_state c = CHUNK_ALLOCATED
                    /\ q = wrap (m + kRedzone kMinRedzone))
  /\ (Allocate 32 4096 10 c9_0 = Ok (c9_p, c9_1) /\ c9_p mod 4096 = 0
      /\ Reallocate 32 c9_p big c9_1 = Ok (c9_q, c9_2) /\ c9_q mod 4096 <> 0).
Proof.
  split; [|split].
  - intros p size s q s' Hp Hn H.
    destruct (Reallocate_inv _ _ _ _ _ _ Hp Hn H)
      as (m & c & s1 & s2 & H1 & H2 & _ & H4 & H5 & H6).
    by exists m, c, s1, s2.
  - intros size s q s1 Hn H.
    assert (Hw : is_word 0) by word_tac.
    destruct (Allocate_inv _ _ _ _ _ _ Hw Hn H)
      as (sz & m & s0 & c1 & s3 & _ & _ & _ & _ & _ & _ & _ & Hm & Hc1 & _ & Hst & Hpl & Hps).
    pose proof (PoisonShadow_frame _ _ _ _ _ _ Hps) as [f ->].
    destruct Hpl as [(-> & -> & _)|(_ & _ & _ & (k & Hk & E & _) & _)].
    + exists m, (set_used_size size c1). split; [|done].
      simpl. rewrite lookup_alter_eq, Hc1. done.
    + destruct (pow2_nonzero k); unfold WORDSIZE in *; [done|lia].
  - split; [apply c9_1_run|]. split; [vm_compute; reflexivity|].
    split; [apply c9_2_run|]. vm_compute. discriminate.
Qed.

Lemma C9_reallocate_alignment_witness :
  exists m c s1 s2,
    PtrToChunk 32 c9_p c9_1 = Ok (m, c9_1) /\ hdr c9_1 !! m = Some c
    /\ Allocate 32 0 big c9_1 = Ok (c9_q, s1)
    /\ asan_copy_mem c9_q c9_p (wrap (Z.min big (used_size c) + kWordSize - 1) / kWordSize) s1
       = Ok (tt, s2)
    /\ Deallocate 32 c9_p s2 = Ok (tt, c9_2).
Proof.
  apply (proj1 (C9_reallocate_alignment 32) c9_p big c9_1 c9_q c9_2).
  - vm_compute. discriminate.
  - vm_compute. discriminate.
  - apply c9_2_run.
Defined.

(** ** C10: the byte count of [__asan_calloc] *)

Definition c10_n : Z := 2 ^ 61 + 504.
Definition c10_0 : heap := heap0 (2 ^ 20).
Definition c10_p : Z := value 0 (asan_calloc 32 c10_n 8) c10_0.
Definition c10_1 : heap := run (asan_calloc 32 c10_n 8) c10_0.

Lemma c10_1_run : asan_calloc 32 c10_n 8 c10_0 = Ok (c10_p, c10_1).
Proof. vm_compute. reflexivity. Qed.

(** C10. [__asan_calloc] asks [Allocate] for [nmemb * size] reduced modulo
    2^64, with no check of the product, and the chunk records that reduced
    count as its [used_size].  For [nmemb = 2^61 + 504] and [size = 8] the
    product is [2^64 + 4032] and the block that is returned has 4032 bytes. *)
Theorem C10_calloc_wraps (kMinRedzone : Z) :
  (forall nmemb size s l lv p s',
     wf s l lv -> wrap (nmemb * size) <> 0 ->
     asan_calloc kMinRedzone nmemb size s = Ok (p, s') ->
     exists s1 m c,
       Allocate kMinRedzone 0 (wrap (nmemb * size)) s = Ok (p, s1)
       /\ asan_clear_mem p (wrap (wrap (nmemb * size) + kWordSize - 1) / kWordSize) s1
          = Ok (tt, s')
       /\ PtrToChunk kMinRedzone p s1 = Ok (m, s1)
       /\ hdr s' !! m = Some c /\ chunk_state c = CHUNK_ALLOCATED
       /\ used_size c = wrap (nmemb * size))
  /\ (is_word c10_n /\ is_word 8 /\ 2 ^ 64 <= c10_n * 8
      /\ asan_calloc 32 c10_n 8 c10_0 = Ok (c10_p, c10_1)
      /\ st_of c10_1 (c10_p - 64) = CHUNK_ALLOCATED
      /\ used_of c10_1 (c10_p - 64) = 4032
      /\ used_of c10_1 (c10_p - 64) < c10_n * 8).
Proof.
  split.
  - intros nmemb size s l lv p s' H Hn Hrun.
    unfold asan_calloc in Hrun.
    apply bind_Ok in Hrun as (q & s1 & Hal & Hrun).
    apply bind_Ok in Hrun as ([] & s2 & Hcl & Hrun).
    injection Hrun as <- <-.
    assert (Hw : is_word 0) by word_tac.
    destruct (Allocate_chunk _ _ _ _ _ _ _ _ H Hw Hn Hal)
      as (m & c & (Hres & _) & Hc & Hst & Hus & _).
    pose proof (asan_clear_mem_frame _ _ _ _ _ Hcl) as [w ->].
    exists s1, m, c. split; [done|]. split; [done|].
    split; [by apply resolves_PtrToChunk|]. done.
  - split; [word_tac|]. split; [word_tac|]. split; [vm_compute; discriminate|].
    split; [apply c10_1_run|]. split; [vm_compute; reflexivity|].
    split; vm_compute; reflexivity.
Qed.

Lemma C10_calloc_wraps_witness :
  exists s1 m c,
    Allocate 32 0 (wrap (c10_n * 8)) c10_0 = Ok (c10_p, s1)
    /\ asan_clear_mem c10_p (wrap (wrap (c10_n * 8) + kWordSize - 1) / kWordSize) s1
       = Ok (tt, c10_1)
    /\ PtrToChunk 32 c10_p s1 = Ok (m, s1)
    /\ hdr c10_1 !! m = Some c /\ chunk_state c = CHUNK_ALLOCATED
    /\ used_size c = wrap (c10_n * 8).
Proof.
  apply (proj1 (C10_calloc_wraps 32) c10_n 8 c10_0 [] [] c10_p c10_1).
  - apply wf_heap0. word_tac.
  - vm_compute. discriminate.
  - apply c10_1_run.
Defined.

(** * Further properties of the code *)

(** ** The helpers on words *)

(** [IsPowerOfTwo] holds of the powers of two below 2^64 and of 0, and of
    no other word. *)
Theorem IsPowerOfTwo_iff (x : Z) :
  is_word x ->
  IsPowerOfTwo x = true <-> x = 0 \/ exists j, 0 <= j < WORDSIZE /\ x = 2 ^ j.
Proof.
  intros Hw. split.
  - intros Hp. destruct (Z.eq_dec x 0) as [|Hne]; [by left|right].
    by apply IsPowerOfTwo_inv.
  - intros [->|(j & Hj & ->)]; [reflexivity|by apply IsPowerOfTwo_pow2].
Qed.

Lemma IsPowerOfTwo_iff_witness :
  IsPowerOfTwo 0 = true <-> 0 = 0 \/ exists j, 0 <= j < WORDSIZE /\ 0 = 2 ^ j.
Proof. apply (IsPowerOfTwo_iff 0). unfold is_word. vm_compute. split; [discriminate|reflexivity]. Defined.

Lemma land_word_mask a : is_word a -> Z.land a (wrap (0 - 1)) = a.
Proof.
  intros Hw. change (wrap (0 - 1)) with (Z.ones 64).
  rewrite Z.land_ones by lia. apply Z.mod_small. exact Hw.
Qed.

(** [IsAligned a alignment], for a power of two, says that [a] is a
    multiple of [alignment]; for the alignment 0 it holds of the address 0
    alone. *)
Theorem IsAligned_iff (a : Z) :
  is_word a ->
  (forall j, 0 <= j < WORDSIZE -> IsAligned a (2 ^ j) = true <-> a mod 2 ^ j = 0)
  /\ (IsAligned a 0 = true <-> a = 0).
Proof.
  intros Hw. unfold IsAligned. split.
  - intros j Hj. rewrite land_pred_pow2 by done. apply Z.eqb_eq.
  - rewrite land_word_mask by done. apply Z.eqb_eq.
Qed.

Lemma IsAligned_iff_witness :
  (forall j, 0 <= j < WORDSIZE -> IsAligned 24 (2 ^ j) = true <-> 24 mod 2 ^ j = 0)
  /\ (IsAligned 24 0 = true <-> 24 = 0).
Proof. apply (IsAligned_iff 24). unfold is_word. vm_compute. split; [discriminate|reflexivity]. Defined.

(** On a non-zero word [Log2] returns the exponent when the word is a
    power of two and nothing else; its [CHECK] fails exactly on the words
    that [IsPowerOfTwo] rejects, so not on 0, where [__builtin_ctzl] is
    called outside its domain. *)
Theorem Log2_spec (x : Z) (s : heap) :
  is_word x ->
  (x <> 0 ->
   forall j s', Log2 x s = Ok (j, s') <-> (0 <= j < WORDSIZE /\ x = 2 ^ j /\ s' = s))
  /\ (Log2 x s = Abort <-> IsPowerOfTwo x = false).
Proof.
  intros Hw. split.
  - intros Hx j s'. split; [by apply Log2_inv|].
    intros (Hj & -> & ->). unfold Log2, bind, CHECK.
    rewrite IsPowerOfTwo_pow2 by done.
    assert (H0 : 0 < 2 ^ j) by (apply Z.pow_pos_nonneg; lia).
    destruct (Z.eqb_spec (2 ^ j) 0) as [E|_]; [lia|].
    unfold ret. rewrite ctzl_pow2 by lia. done.
  - unfold Log2, bind, CHECK. destruct (IsPowerOfTwo x); [|done].
    destruct (x =? 0); split; discriminate.
Qed.

Lemma Log2_spec_witness :
  (4096 <> 0 ->
   forall j s', Log2 4096 (heap0 0) = Ok (j, s')
                <-> (0 <= j < WORDSIZE /\ 4096 = 2 ^ j /\ s' = heap0 0))
  /\ (Log2 4096 (heap0 0) = Abort <-> IsPowerOfTwo 4096 = false).
Proof. apply (Log2_spec 4096 (heap0 0)). unfold is_word. vm_compute. split; [discriminate|reflexivity]. Defined.

(** [RoundUptoRedzone size] is the least multiple of [kRedzone] that is
    not below [size], as long as [size + kRedzone] fits a word. *)
Theorem RoundUptoRedzone_least (kMinRedzone size : Z) :
  0 < kRedzone kMinRedzone -> 0 <= size ->
  size + kRedzone kMinRedzone <= 2 ^ WORDSIZE ->
  size <= RoundUptoRedzone kMinRedzone size < size + kRedzone kMinRedzone
  /\ RoundUptoRedzone kMinRedzone size mod kRedzone kMinRedzone = 0.
Proof.
  intros HR Hs Hb. unfold RoundUptoRedzone.
  set (R := kRedzone kMinRedzone) in *.
  destruct (round_up_to_redzone_spec R size HR) as [Hr Hm].
  unfold round_up_to_redzone in *.
  rewrite (wrap_small (size + R - 1)) by (unfold is_word; lia).
  rewrite wrap_small by (unfold is_word; lia). done.
Qed.

Lemma RoundUptoRedzone_least_witness :
  100 <= RoundUptoRedzone 32 100 < 100 + kRedzone 32
  /\ RoundUptoRedzone 32 100 mod kRedzone 32 = 0.
Proof. apply (RoundUptoRedzone_least 32 100); vm_compute; (reflexivity || discriminate). Defined.

(** A size within [kRedzone] of 2^64 is rounded to 0: the sum in
    [RoundUptoRedzone] wraps around. *)
Theorem RoundUptoRedzone_wraps (kMinRedzone size : Z) :
  0 < kRedzone kMinRedzone <= 2 ^ WORDSIZE ->
  2 ^ WORDSIZE - kRedzone kMinRedzone < size < 2 ^ WORDSIZE ->
  RoundUptoRedzone kMinRedzone size = 0.
Proof.
  intros HR Hs. unfold RoundUptoRedzone.
  set (R := kRedzone kMinRedzone) in *.
  assert (Hw : wrap (size + R - 1) = size + R - 1 - 2 ^ WORDSIZE).
  { unfold wrap. symmetry. apply (Z.mod_unique _ _ 1); lia. }
  rewrite Hw. rewrite Z.div_small by lia. reflexivity.
Qed.

Lemma RoundUptoRedzone_wraps_witness : RoundUptoRedzone 32 (2 ^ 64 - 1) = 0.
Proof. apply (RoundUptoRedzone_wraps 32 (2 ^ 64 - 1)); vm_compute; split; (reflexivity || discriminate). Defined.

(** [RoundUptoPowerOfTwo] fails its [CHECK] on 0 and returns, for a size
    from 1 to 2^63, the least power of two that is not below the size. *)
Theorem RoundUptoPowerOfTwo_spec (size : Z) (s : heap) :
  (RoundUptoPowerOfTwo 0 s = Abort)
  /\ (0 < size <= 2 ^ (WORDSIZE - 1) ->
      exists k, 0 <= k < WORDSIZE
        /\ RoundUptoPowerOfTwo size s = Ok (2 ^ k, s)
        /\ size <= 2 ^ k
        /\ forall j, 0 <= j -> size <= 2 ^ j -> k <= j).
Proof.
  split; [reflexivity|]. intros Hs.
  assert (Hw : is_word size).
  { unfold is_word, WORDSIZE in *. change (2 ^ (64 - 1)) with 9223372036854775808 in Hs.
    change (2 ^ 64) with 18446744073709551616. lia. }
  assert (Hk : 0 <= Z.log2_up size < WORDSIZE).
  { split; [apply Z.log2_up_nonneg|].
    assert (Z.log2_up size <= WORDSIZE - 1); [|lia].
    apply Z.log2_up_le_pow2; unfold WORDSIZE in *; lia. }
  exists (Z.log2_up size). split; [done|].
  destruct (round_up_to_power_of_two_least size ltac:(lia)) as [Hle Hleast].
  unfold round_up_to_power_of_two in *.
  split; [|split; [done|]].
  - unfold RoundUptoPowerOfTwo.
    assert (Hnz : negb (size =? 0) = true) by (apply negb_true_iff, Z.eqb_neq; lia).
    rewrite bind_CHECK by done.
    destruct (IsPowerOfTwo size) eqn:Hp.
    + apply IsPowerOfTwo_inv in Hp as (j & Hj & ->); [|done|lia].
      rewrite Z.log2_up_pow2 by lia. done.
    + assert (Hnp : 2 ^ Z.log2 size <> size).
      { intros E. rewrite <- E in Hp. rewrite IsPowerOfTwo_pow2 in Hp; [done|].
        split; [apply Z.log2_nonneg|]. apply Z.log2_lt_pow2; [lia|]. apply Hw. }
      destruct (Z.log2_spec size ltac:(lia)) as [Hlo Hhi].
      assert (Hup : Z.log2_up size = Z.succ (Z.log2 size)).
      { destruct (Z.log2_log2_up_spec size ltac:(lia)) as [H1 H2].
        pose proof (Z.le_log2_up_succ_log2 size) as H3.
        pose proof (Z.le_log2_log2_up size) as H4.
        destruct (Z.eq_dec (Z.log2_up size) (Z.log2 size)) as [E|E]; [|lia].
        exfalso. apply Hnp. rewrite E in H2. lia. }
      unfold clzl.
      replace (WORDSIZE - (WORDSIZE - 1 - Z.log2 size)) with (Z.log2_up size) by lia.
      unfold shl1 at 1.
      assert (Hr : (0 <=? Z.log2_up size) && (Z.log2_up size <? WORDSIZE) = true).
      { apply andb_true_iff. split; [apply Z.leb_le|apply Z.ltb_lt]; lia. }
      rewrite Hr. rewrite bind_ret.
      rewrite bind_CHECK by (apply Z.ltb_lt; rewrite Hup; lia).
      unfold shl1 at 1.
      assert (Hr' : (0 <=? Z.log2_up size - 1) && (Z.log2_up size - 1 <? WORDSIZE) = true).
      { pose proof (Z.log2_nonneg size).
        apply andb_true_iff. split; [apply Z.leb_le|apply Z.ltb_lt]; lia. }
      rewrite Hr'. rewrite bind_ret.
      rewrite bind_CHECK.
      2:{ apply Z.ltb_lt. replace (Z.log2_up size - 1) with (Z.log2 size) by lia. lia. }
      unfold shl1. rewrite Hr. done.
  - intros j Hj Hle'. apply Z.log2_up_le_pow2; lia.
Qed.

Lemma RoundUptoPowerOfTwo_spec_witness :
  exists k, 0 <= k < WORDSIZE
    /\ RoundUptoPowerOfTwo 300064 (heap0 0) = Ok (2 ^ k, heap0 0)
    /\ 300064 <= 2 ^ k
    /\ forall j, 0 <= j -> 300064 <= 2 ^ j -> k <= j.
Proof.
  apply (proj2 (RoundUptoPowerOfTwo_spec 300064 (heap0 0))).
  vm_compute. split; [reflexivity|discriminate].
Defined.

(** ** The shadow *)

Lemma MemToShadow_div a : MemToShadow a = a / 8.
Proof. unfold MemToShadow, kShadowShift. by rewrite Z.shiftr_div_pow2. Qed.

Lemma IsAligned_granule a :
  IsAligned a (Z.shiftl 1 kShadowShift) = true <-> a mod 8 = 0.
Proof.
  unfold IsAligned. change (Z.shiftl 1 kShadowShift) with (2 ^ 3).
  rewrite land_pred_pow2 by (unfold WORDSIZE; lia). apply Z.eqb_eq.
Qed.

Lemma IsAligned_granule_false a :
  a mod 8 <> 0 -> IsAligned a (Z.shiftl 1 kShadowShift) = false.
Proof.
  intros H. destruct (IsAligned a _) eqn:E; [|done].
  by apply IsAligned_granule in E.
Qed.

(** What a [PoisonShadow] that returns has done. *)
Lemma PoisonShadow_sets mem size v s u s' :
  is_word mem -> 0 <= size -> mem + size < 2 ^ WORDSIZE ->
  PoisonShadow mem size v s = Ok (u, s') ->
  mem mod 8 = 0 /\ (mem + size) mod 8 = 0
  /\ (forall a, mem <= a < mem + size -> shadow_byte (shadow s') (MemToShadow a) = v)
  /\ (forall g, ~ (MemToShadow mem <= g < MemToShadow (mem + size)) ->
        shadow_byte (shadow s') g = shadow_byte (shadow s) g)
  /\ exists f, s' = set_shadow f s.
Proof.
  intros Hw Hs Hb H. pose proof (PoisonShadow_frame _ _ _ _ _ _ H) as Hf.
  unfold PoisonShadow in H.
  apply bind_Ok in H as (u1 & s1 & H1 & H). apply CHECK_inv in H1 as [Ha1 ->].
  apply bind_Ok in H as (u2 & s2 & H2 & H). apply CHECK_inv in H2 as [Ha2 ->].
  rewrite (wrap_small (mem + size)) in * by (unfold is_word in *; lia).
  apply IsAligned_granule in Ha1, Ha2.
  rewrite !MemToShadow_div in H.
  pose proof (Z.div_mod mem 8 ltac:(lia)) as D1.
  pose proof (Z.div_mod (mem + size) 8 ltac:(lia)) as D2.
  assert (Hle : mem / 8 <= (mem + size) / 8) by (apply Z.div_le_mono; lia).
  rewrite wrap_small in H.
  2:{ unfold is_word, WORDSIZE in *. change (2 ^ 64) with 18446744073709551616 in *. lia. }
  split; [done|]. split; [done|].
  apply memset_shadow_inv in H as [[Hlen ->]|(_ & _ & ->)].
  - split; [intros a Ha; lia|]. split; [done|]. exists (shadow s). by destruct s.
  - cbn [shadow set_shadow shadow_byte]. split; [|split; [|eauto]].
    + intros a Ha. rewrite MemToShadow_div.
      assert (mem / 8 <= a / 8) by (apply Z.div_le_mono; lia).
      assert (a / 8 < (mem + size) / 8).
      { apply Z.div_lt_upper_bound; lia. }
      destruct (Z.leb_spec (mem / 8) (a / 8)); [|lia].
      destruct (Z.ltb_spec (a / 8) (mem / 8 + ((mem + size) / 8 - mem / 8))); [done|lia].
    + intros g Hg. rewrite !MemToShadow_div in Hg.
      destruct (Z.leb_spec (mem / 8) g); [|done].
      destruct (Z.ltb_spec g (mem / 8 + ((mem + size) / 8 - mem / 8))); [lia|done].
Qed.

(** [PoisonShadow] fails its [CHECK]s unless both ends of the range are
    multiples of the shadow granule; when it returns, every byte of the
    range has the shadow value written, the shadow outside the range is as
    before and nothing else of the state has changed. *)
Theorem PoisonShadow_spec (mem size v : Z) (s : heap) :
  is_word mem -> 0 <= size -> mem + size < 2 ^ WORDSIZE ->
  (mem mod 8 <> 0 \/ (mem + size) mod 8 <> 0 -> PoisonShadow mem size v s = Abort)
  /\ (forall s', PoisonShadow mem size v s = Ok (tt, s') ->
        (forall a, mem <= a < mem + size -> shadow_byte (shadow s') (MemToShadow a) = v)
        /\ (forall g, ~ (MemToShadow mem <= g < MemToShadow (mem + size)) ->
              shadow_byte (shadow s') g = shadow_byte (shadow s) g)
        /\ hdr s' = hdr s /\ words s' = words s /\ brk s' = brk s
        /\ chunks s' = chunks s /\ quarantine_ s' = quarantine_ s
        /\ quarantine_size_ s' = quarantine_size_ s
        /\ malloced_items_ s' = malloced_items_ s).
Proof.
  intros Hw Hs Hb. split.
  - intros Hm. unfold PoisonShadow, bind, CHECK.
    destruct (Z.eq_dec (mem mod 8) 0) as [E|E].
    + rewrite (proj2 (IsAligned_granule mem) E).
      rewrite (wrap_small (mem + size)) by (unfold is_word in *; lia).
      rewrite IsAligned_granule_false; [done|]. destruct Hm as [Hm|Hm]; [by destruct Hm|done].
    + by rewrite IsAligned_granule_false.
  - intros s' H.
    destruct (PoisonShadow_sets _ _ _ _ _ _ Hw Hs Hb H) as (_ & _ & H1 & H2 & f & ->).
    done.
Qed.

Definition sh_0 : heap := set_brk (mmap_base + 4096) (heap0 0).
Definition sh_1 : heap := run (PoisonShadow mmap_base 64 255) sh_0.

Lemma PoisonShadow_spec_witness :
  (forall a, mmap_base <= a < mmap_base + 64 ->
     shadow_byte (shadow sh_1) (MemToShadow a) = 255)
  /\ (forall g, ~ (MemToShadow mmap_base <= g < MemToShadow (mmap_base + 64)) ->
        shadow_byte (shadow sh_1) g = shadow_byte (shadow sh_0) g)
  /\ hdr sh_1 = hdr sh_0 /\ words sh_1 = words sh_0 /\ brk sh_1 = brk sh_0
  /\ chunks sh_1 = chunks sh_0 /\ quarantine_ sh_1 = quarantine_ sh_0
  /\ quarantine_size_ sh_1 = quarantine_size_ sh_0
  /\ malloced_items_ sh_1 = malloced_items_ sh_0.
Proof.
  apply (proj2 (PoisonShadow_spec mmap_base 64 255 sh_0
                  ltac:(unfold is_word; vm_compute; split; [discriminate|reflexivity])
                  ltac:(lia) ltac:(vm_compute; reflexivity)) sh_1).
  vm_compute. reflexivity.
Defined.

(** ** The page provider *)

(** [MmapNewPages] fails its [CHECK] on a size that is no multiple of the
    page size and aborts when [mmap] fails; otherwise it returns the new
    pages, at the former end of the heap, with the shadow of every byte of
    them set to 0xFF and the allocator's data as before. *)
Theorem MmapNewPages_spec (size : Z) (s : heap) :
  mmap_base <= brk s <= mmap_limit -> brk s mod 8 = 0 ->
  (size mod kPageSize <> 0 -> MmapNewPages size s = Abort)
  /\ (size mod kPageSize = 0 -> (size <= 0 \/ mmap_limit < brk s + size) ->
      MmapNewPages size s = Abort)
  /\ (size mod kPageSize = 0 -> 0 < size -> brk s + size <= mmap_limit ->
      exists s', MmapNewPages size s = Ok (brk s, s')
        /\ brk s' = brk s + size
        /\ (forall a, brk s <= a < brk s + size ->
              shadow_byte (shadow s') (MemToShadow a) = 255)
        /\ hdr s' = hdr s /\ words s' = words s /\ chunks s' = chunks s
        /\ quarantine_ s' = quarantine_ s /\ malloced_items_ s' = malloced_items_ s).
Proof.
  intros Hb Hal. unfold MmapNewPages, mmap. split; [|split].
  - intros Hm. unfold bind, CHECK. apply Z.eqb_neq in Hm. by rewrite Hm.
  - intros Hm Hf. apply Z.eqb_eq in Hm. unfold bind, CHECK. rewrite Hm.
    assert (Hc : (0 <? size) && (brk s + size <=? mmap_limit) = false).
    { apply andb_false_iff. destruct Hf; [left; apply Z.ltb_ge|right; apply Z.leb_gt]; lia. }
    rewrite Hc. rewrite Z.eqb_refl. done.
  - intros Hm Hpos Hlim. apply Z.eqb_eq in Hm as Hm'. unfold bind at 1, CHECK. rewrite Hm'.
    assert (Hc : (0 <? size) && (brk s + size <=? mmap_limit) = true).
    { apply andb_true_iff. split; [apply Z.ltb_lt|apply Z.leb_le]; lia. }
    unfold bind at 1. rewrite Hc.
    assert (Hnf : (brk s =? MAP_FAILED) = false).
    { apply Z.eqb_neq. assert (Hmf : MAP_FAILED = 18446744073709551615) by reflexivity.
      knorm. lia. }
    rewrite Hnf.
    assert (Hsz : size mod 8 = 0).
    { unfold kPageSize in Hm. apply Z.mod_divide in Hm; [|lia]. destruct Hm as [q ->].
      replace (q * 4096) with (q * 512 * 8) by lia. apply Z.mod_mul. lia. }
    assert (Hw : is_word (brk s)) by (knorm; lia).
    assert (Hlt : brk s + size < 2 ^ WORDSIZE) by (knorm; lia).
    set (s1 := set_brk (brk s + size) s).
    assert (Hrun : exists s', PoisonShadow (brk s) size 255 s1 = Ok (tt, s')).
    { unfold PoisonShadow.
      rewrite bind_CHECK by (by apply IsAligned_granule).
      rewrite (wrap_small (brk s + size)) by (unfold is_word in *; lia).
      rewrite bind_CHECK.
      2:{ apply IsAligned_granule. rewrite Z.add_mod, Hal, Hsz by lia. done. }
      rewrite !MemToShadow_div.
      assert (Hle : brk s / 8 <= (brk s + size) / 8) by (apply Z.div_le_mono; lia).
      pose proof (Z.div_mod (brk s) 8 ltac:(lia)) as D1.
      pose proof (Z.div_mod (brk s + size) 8 ltac:(lia)) as D2.
      pose proof (Z.mod_pos_bound (brk s) 8 ltac:(lia)) as D3.
      pose proof (Z.mod_pos_bound (brk s + size) 8 ltac:(lia)) as D4.
      rewrite wrap_small by (knorm; lia).
      unfold memset_shadow. destruct ((brk s + size) / 8 - brk s / 8 =? 0); [eauto|].
      rewrite !MemToShadow_div. subst s1. cbn [brk set_brk].
      assert (Hc2 : (mmap_base / 8 <=? brk s / 8)
                    && (brk s / 8 + ((brk s + size) / 8 - brk s / 8) <=? (brk s + size) / 8)
                    = true).
      { apply andb_true_iff. split; apply Z.leb_le; [apply Z.div_le_mono; lia|lia]. }
      rewrite Hc2. eauto. }
    destruct Hrun as [s' Hrun]. exists s'. unfold bind. fold s1. rewrite Hrun.
    split; [done|].
    destruct (PoisonShadow_sets _ _ _ _ _ _ Hw (Z.lt_le_incl _ _ Hpos) Hlt Hrun) as (_ & _ & H1 & _ & f & ->).
    done.
Qed.

Lemma MmapNewPages_spec_witness :
  exists s', MmapNewPages kMinMmapSize (heap0 0) = Ok (brk (heap0 0), s')
    /\ brk s' = brk (heap0 0) + kMinMmapSize
    /\ (forall a, brk (heap0 0) <= a < brk (heap0 0) + kMinMmapSize ->
          shadow_byte (shadow s') (MemToShadow a) = 255)
    /\ hdr s' = hdr (heap0 0) /\ words s' = words (heap0 0)
    /\ chunks s' = chunks (heap0 0)
    /\ quarantine_ s' = quarantine_ (heap0 0)
    /\ malloced_items_ s' = malloced_items_ (heap0 0).
Proof.
  apply (proj2 (proj2 (MmapNewPages_spec kMinMmapSize (heap0 0)
           ltac:(vm_compute; split; discriminate) ltac:(vm_compute; reflexivity))));
    vm_compute; (reflexivity || discriminate).
Defined.

(** ** The word loops *)

Lemma IsWordAligned_iff a : IsWordAligned a = true <-> a mod kWordSize = 0.
Proof.
  unfold IsWordAligned, IsAligned. change kWordSize with (2 ^ 3).
  rewrite land_pred_pow2 by (unfold WORDSIZE; lia). apply Z.eqb_eq.
Qed.

Lemma field_at_set_words w s a : field_at (set_words w s) a = field_at s a.
Proof. reflexivity. Qed.

Lemma mapped_set_words w s a n : mapped (set_words w s) a n = mapped s a n.
Proof. reflexivity. Qed.

Lemma load_word_set_words a w s v :
  field_at s a = None ->
  mapped s a kWordSize && (a mod kWordSize =? 0) = true ->
  w !! a = Some v ->
  load_word a (set_words w s) = Ok (v, set_words w s).
Proof.
  intros Hf Hm Hw. unfold load_word.
  rewrite field_at_set_words, Hf, mapped_set_words, Hm. cbn [words set_words]. by rewrite Hw.
Qed.

(** The words that [clear_loop] has written and those it has left. *)
Lemma clear_loop_sets mem n : forall i s s',
  clear_loop n mem i s = Ok (tt, s') ->
  exists w, s' = set_words w s
    /\ (forall k, i <= k < i + Z.of_nat n ->
          w !! wrap (mem + k * kWordSize) = Some 0
          /\ field_at s (wrap (mem + k * kWordSize)) = None
          /\ mapped s (wrap (mem + k * kWordSize)) kWordSize
             && (wrap (mem + k * kWordSize) mod kWordSize =? 0) = true)
    /\ (forall a, w !! a = Some 0 \/ w !! a = words s !! a)
    /\ (forall a, (forall k, i <= k < i + Z.of_nat n -> a <> wrap (mem + k * kWordSize)) ->
          w !! a = words s !! a).
Proof.
  induction n as [|n IH]; intros i s s' H.
  - injection H as <-. exists (words s). split; [by destruct s|].
    split; [intros k Hk; lia|]. split; [by right|done].
  - cbn [clear_loop] in H.
    apply bind_Ok in H as ([] & s1 & H1 & H).
    apply store_word_inv in H1 as (Hf & Hm & ->).
    apply IH in H as (w & -> & A & B & C).
    exists w. split; [done|]. cbn [words set_words] in *.
    split; [|split].
    + intros k Hk. destruct (Z.eq_dec k i) as [->|Hne].
      * split; [|done]. destruct (B (wrap (mem + i * kWordSize))) as [E|E]; [done|].
        by rewrite E, lookup_insert_eq.
      * destruct (A k ltac:(lia)) as (A1 & A2 & A3). done.
    + intros a. destruct (B a) as [E|E]; [by left|].
      destruct (Z.eq_dec a (wrap (mem + i * kWordSize))) as [->|Hne].
      * left. by rewrite E, lookup_insert_eq.
      * right. by rewrite E, lookup_insert_ne.
    + intros a Ha. rewrite C by (intros k Hk; apply Ha; lia).
      rewrite lookup_insert_ne; [done|]. intros E. apply (Ha i); [lia|done].
Qed.

(** [asan_clear_mem] fails its [CHECK] on an address that is not
    word-aligned; when it returns, each of the [n_words] words from [mem]
    reads 0, every other word is as it was, and the chunk headers, the
    shadow and the lists of the allocator are untouched. *)
Theorem asan_clear_mem_spec (mem n_words : Z) (s : heap) :
  (mem mod kWordSize <> 0 -> asan_clear_mem mem n_words s = Abort)
  /\ (forall s', asan_clear_mem mem n_words s = Ok (tt, s') ->
        (forall k, 0 <= k < n_words ->
           load_word (wrap (mem + k * kWordSize)) s' = Ok (0, s'))
        /\ (forall a, (forall k, 0 <= k < n_words -> a <> wrap (mem + k * kWordSize)) ->
              words s' !! a = words s !! a)
        /\ hdr s' = hdr s /\ shadow s' = shadow s /\ brk s' = brk s
        /\ chunks s' = chunks s /\ quarantine_ s' = quarantine_ s
        /\ quarantine_size_ s' = quarantine_size_ s
        /\ malloced_items_ s' = malloced_items_ s).
Proof.
  split.
  - intros Hm. unfold asan_clear_mem, bind, CHECK.
    destruct (IsWordAligned mem) eqn:E; [|done]. by apply IsWordAligned_iff in E.
  - intros s' H. unfold asan_clear_mem in H.
    apply bind_Ok in H as ([] & s0 & H0 & H). apply CHECK_inv in H0 as [_ ->].
    apply clear_loop_sets in H as (w & -> & A & _ & C).
    split; [|split; [|done]].
    + intros k Hk. destruct (A k ltac:(lia)) as (A1 & A2 & A3).
      by apply load_word_set_words.
    + intros a Ha. apply C. intros k Hk. apply Ha. lia.
Qed.

(** Mapped pages that hold the words 2 and 5, the first of them among the
    four words to clear. *)
Definition cl_0 : heap :=
  set_words (<[mmap_base + 8 := 2]> (<[mmap_base + 32 := 5]> ∅))
            (set_brk (mmap_base + 4096) (heap0 0)).
Definition cl_1 : heap := run (asan_clear_mem mmap_base 4) cl_0.

Lemma cl_1_reads :
  load_word (mmap_base + 8) cl_0 = Ok (2, cl_0)
  /\ load_word (mmap_base + 8) cl_1 = Ok (0, cl_1)
  /\ load_word (mmap_base + 32) cl_1 = Ok (5, cl_1).
Proof.
  split; [vm_compute; reflexivity|].
  split; [vm_compute; reflexivity|].
  vm_compute. reflexivity.
Qed.

Lemma asan_clear_mem_spec_witness :
  (forall k, 0 <= k < 4 -> load_word (wrap (mmap_base + k * kWordSize)) cl_1 = Ok (0, cl_1))
  /\ (forall a, (forall k, 0 <= k < 4 -> a <> wrap (mmap_base + k * kWordSize)) ->
        words cl_1 !! a = words cl_0 !! a)
  /\ hdr cl_1 = hdr cl_0 /\ shadow cl_1 = shadow cl_0 /\ brk cl_1 = brk cl_0
  /\ chunks cl_1 = chunks cl_0 /\ quarantine_ cl_1 = quarantine_ cl_0
  /\ quarantine_size_ cl_1 = quarantine_size_ cl_0
  /\ malloced_items_ cl_1 = malloced_items_ cl_0.
Proof.
  apply (proj2 (asan_clear_mem_spec mmap_base 4 cl_0) cl_1).
  vm_compute. reflexivity.
Defined.

Lemma load_word_set_words_ne a b v s x :
  a <> b ->
  load_word a s = Ok (x, s) ->
  load_word a (set_words (<[b := v]> (words s)) s)
  = Ok (x, set_words (<[b := v]> (words s)) s).
Proof.
  intros Hne. unfold load_word.
  rewrite field_at_set_words.
  destruct (field_at s a); [by intros [= ->]|].
  rewrite mapped_set_words.
  destruct (mapped s a kWordSize && (a mod kWordSize =? 0)); [|done].
  cbn [words set_words]. rewrite lookup_insert_ne by done. by intros [= ->].
Qed.

Lemma load_word_set_words_ne_inv a b v s x s1 :
  a <> b ->
  load_word a (set_words (<[b := v]> (words s)) s) = Ok (x, s1) ->
  load_word a s = Ok (x, s).
Proof.
  intros Hne. unfold load_word.
  rewrite field_at_set_words.
  destruct (field_at s a); [by intros [= ->]|].
  rewrite mapped_set_words.
  destruct (mapped s a kWordSize && (a mod kWordSize =? 0)); [|done].
  cbn [words set_words]. rewrite lookup_insert_ne by done. by intros [= ->].
Qed.

(** The words that [copy_loop] has written, when no word is read after it
    was written: the destination starts at or below the source, or after
    its end. *)
Lemma copy_loop_sets dst src N n : forall i s s',
  is_word dst -> is_word src -> 0 <= i -> i + Z.of_nat n = N ->
  dst + N * kWordSize <= 2 ^ WORDSIZE -> src + N * kWordSize <= 2 ^ WORDSIZE ->
  (dst <= src \/ src + N * kWordSize <= dst) ->
  copy_loop n dst src i s = Ok (tt, s') ->
  exists w, s' = set_words w s
    /\ (forall k, i <= k < N ->
          exists v, load_word (src + k * kWordSize) s = Ok (v, s)
            /\ w !! (dst + k * kWordSize) = Some v
            /\ field_at s (dst + k * kWordSize) = None
            /\ mapped s (dst + k * kWordSize) kWordSize
               && ((dst + k * kWordSize) mod kWordSize =? 0) = true)
    /\ (forall a, (forall k, i <= k < N -> a <> dst + k * kWordSize) ->
          w !! a = words s !! a).
Proof.
  induction n as [|n IH]; intros i s s' Hd Hs Hi HN Hbd Hbs Hov H.
  - injection H as <-. exists (words s). split; [by destruct s|].
    split; [intros k Hk; lia|done].
  - cbn [copy_loop] in H.
    assert (Hwd : forall k, 0 <= k < N -> wrap (dst + k * kWordSize) = dst + k * kWordSize).
    { intros k Hk. apply wrap_small. knorm. lia. }
    assert (Hws : forall k, 0 <= k < N -> wrap (src + k * kWordSize) = src + k * kWordSize).
    { intros k Hk. apply wrap_small. knorm. lia. }
    rewrite Hws, Hwd in H by lia.
    apply bind_Ok in H as (v & s0 & H0 & H).
    pose proof (load_word_frame _ _ _ _ H0) as ->.
    apply bind_Ok in H as ([] & s1 & H1 & H).
    apply store_word_inv in H1 as (Hf & Hm & ->).
    apply IH in H as (w & -> & A & C); try done; [|lia..].
    exists w. split; [done|]. cbn [words set_words] in *. split.
    + intros k Hk. destruct (Z.eq_dec k i) as [->|Hne].
      * exists v. split; [done|]. split; [|done].
        rewrite C by (intros k Hk'; change kWordSize with 8; lia).
        by rewrite lookup_insert_eq.
      * destruct (A k ltac:(lia)) as (x & A1 & A2 & A3 & A4).
        exists x. split; [|done].
        eapply load_word_set_words_ne_inv; [|exact A1].
        change kWordSize with 8 in *. lia.
    + intros a Ha. rewrite C by (intros k Hk; apply Ha; lia).
      rewrite lookup_insert_ne; [done|]. intros E. apply (Ha i); [lia|done].
Qed.

(** [asan_copy_mem] fails its [CHECK]s on an address that is not
    word-aligned.  When it returns and the destination starts at or below
    the source or after its end, each of the [n_words] words of the
    destination reads what the source held before the call, and every
    other word is as it was. *)
Theorem asan_copy_mem_spec (dst src n_words : Z) (s : heap) :
  is_word dst -> is_word src -> 0 <= n_words ->
  dst + n_words * kWordSize <= 2 ^ WORDSIZE ->
  src + n_words * kWordSize <= 2 ^ WORDSIZE ->
  (dst mod kWordSize <> 0 \/ src mod kWordSize <> 0 ->
   asan_copy_mem dst src n_words s = Abort)
  /\ (dst <= src \/ src + n_words * kWordSize <= dst ->
      forall s', asan_copy_mem dst src n_words s = Ok (tt, s') ->
        (forall k, 0 <= k < n_words ->
           exists v, load_word (src + k * kWordSize) s = Ok (v, s)
                     /\ load_word (dst + k * kWordSize) s' = Ok (v, s'))
        /\ (forall a, (forall k, 0 <= k < n_words -> a <> dst + k * kWordSize) ->
              words s' !! a = words s !! a)
        /\ hdr s' = hdr s /\ shadow s' = shadow s /\ brk s' = brk s
        /\ chunks s' = chunks s /\ quarantine_ s' = quarantine_ s
        /\ quarantine_size_ s' = quarantine_size_ s
        /\ malloced_items_ s' = malloced_items_ s).
Proof.
  intros Hd Hs Hn Hbd Hbs. split.
  - intros Hm. unfold asan_copy_mem, bind, CHECK.
    destruct (IsWordAligned dst) eqn:E1; [|done]. apply IsWordAligned_iff in E1.
    destruct (IsWordAligned src) eqn:E2; [|done]. apply IsWordAligned_iff in E2.
    by destruct Hm.
  - intros Hov s' H. unfold asan_copy_mem in H.
    apply bind_Ok in H as ([] & s0 & H0 & H). apply CHECK_inv in H0 as [_ ->].
    apply bind_Ok in H as ([] & s0 & H0 & H). apply CHECK_inv in H0 as [_ ->].
    apply (copy_loop_sets dst src n_words) in H as (w & -> & A & C);
      try done; [|rewrite Z2Nat.id by done; lia].
    split; [|split; [|done]].
    + intros k Hk. destruct (A k Hk) as (v & A1 & A2 & A3 & A4).
      exists v. split; [done|]. by apply load_word_set_words.
    + intros a Ha. by apply C.
Qed.

Definition cp_0 : heap :=
  set_words (<[mmap_base + 64 := 7]> ∅) (set_brk (mmap_base + 4096) (heap0 0)).
Definition cp_1 : heap := run (asan_copy_mem mmap_base (mmap_base + 64) 2) cp_0.

Lemma asan_copy_mem_spec_witness :
  (forall k, 0 <= k < 2 ->
     exists v, load_word (mmap_base + 64 + k * kWordSize) cp_0 = Ok (v, cp_0)
               /\ load_word (mmap_base + k * kWordSize) cp_1 = Ok (v, cp_1))
  /\ (forall a, (forall k, 0 <= k < 2 -> a <> mmap_base + k * kWordSize) ->
        words cp_1 !! a = words cp_0 !! a)
  /\ hdr cp_1 = hdr cp_0 /\ shadow cp_1 = shadow cp_0 /\ brk cp_1 = brk cp_0
  /\ chunks cp_1 = chunks cp_0 /\ quarantine_ cp_1 = quarantine_ cp_0
  /\ quarantine_size_ cp_1 = quarantine_size_ cp_0
  /\ malloced_items_ cp_1 = malloced_items_ cp_0.
Proof.
  apply (proj2 (asan_copy_mem_spec mmap_base (mmap_base + 64) 2 cp_0
           ltac:(unfold is_word; vm_compute; split; [discriminate|reflexivity])
           ltac:(unfold is_word; vm_compute; split; [discriminate|reflexivity])
           ltac:(lia) ltac:(vm_compute; discriminate) ltac:(vm_compute; discriminate))).
  - left. vm_compute. discriminate.
  - vm_compute. reflexivity.
Defined.

(** ** The allocation service *)

Section ServiceProperties.

Variable kMinRedzone : Z.

Local Abbreviation kRedzone := (kRedzone kMinRedzone).
Local Abbreviation kMinAllocSize := (kMinAllocSize kMinRedzone).
Local Abbreviation RoundUptoRedzone := (RoundUptoRedzone kMinRedzone).
Local Abbreviation needed_size := (needed_size kMinRedzone).
Local Abbreviation Allocate := (Allocate kMinRedzone).
Local Abbreviation PtrToChunk := (PtrToChunk kMinRedzone).
Local Abbreviation Deallocate := (Deallocate kMinRedzone).
Local Abbreviation Reallocate := (Reallocate kMinRedzone).

(** The pointer of an over-aligned request. *)
Lemma Allocate_aligned alignment size s p s' :
  0 <= kRedzone -> is_word alignment -> size <> 0 -> kRedzone < alignment ->
  Allocate alignment size s = Ok (p, s') ->
  p mod alignment = 0.
Proof.
  intros HR Hwa Hn Hlt Hrun.
  destruct (Allocate_inv _ _ _ _ _ _ Hwa Hn Hrun)
    as (sz & m & s1 & c1 & s3 & Hp2 & _ & _ & _ & _ & _ & _ & _ & _ & _ & _ & Hpl & _).
  apply IsPowerOfTwo_inv in Hp2 as (j & Hj & ->); [|done|lia].
  assert (Hland : Z.land p (wrap (2 ^ j - 1)) = 0).
  { destruct Hpl as [(_ & _ & Hc)|(_ & _ & Hc & _)]; [|done].
    apply andb_false_iff in Hc as [Hc|Hc].
    - apply Z.ltb_ge in Hc. lia.
    - apply negb_false_iff, Z.eqb_eq in Hc. done. }
  by rewrite land_pred_pow2 in Hland.
Qed.

End ServiceProperties.

(** A request with an alignment above [kRedzone] gets a pointer that is a
    multiple of the alignment; [__asan_valloc] returns multiples of the
    page size. *)
Theorem asan_memalign_aligned (kMinRedzone : Z) :
  0 <= kRedzone kMinRedzone ->
  (forall alignment size s p s',
     is_word alignment -> size <> 0 -> kRedzone kMinRedzone < alignment ->
     asan_memalign kMinRedzone alignment size s = Ok (p, s') ->
     p mod alignment = 0)
  /\ (forall size s p s',
        size <> 0 -> kRedzone kMinRedzone < kPageSize ->
        asan_valloc kMinRedzone size s = Ok (p, s') ->
        p mod kPageSize = 0).
Proof.
  intros HR. split.
  - intros alignment size s p s' Hwa Hn Hlt Hrun.
    by apply (Allocate_aligned kMinRedzone alignment size s p s').
  - intros size s p s' Hn Hlt Hrun.
    by apply (Allocate_aligned kMinRedzone kPageSize size s p s').
Qed.

Lemma asan_memalign_aligned_witness : c9_p mod 4096 = 0.
Proof.
  apply (proj1 (asan_memalign_aligned 32 ltac:(vm_compute; discriminate))
           4096 10 c9_0 c9_p c9_1).
  - unfold is_word. vm_compute. split; [discriminate|reflexivity].
  - discriminate.
  - vm_compute. reflexivity.
  - apply c9_1_run.
Defined.

(** A header after an update that leaves [allocated_size]. *)
Lemma lookup_alter_Some_sizes (f : Chunk -> Chunk) (h : gmap Z Chunk) (i x : Z) (c' : Chunk) :
  (forall c, allocated_size (f c) = allocated_size c) ->
  alter f i h !! x = Some c' ->
  exists c, h !! x = Some c /\ allocated_size c = allocated_size c'.
Proof.
  intros Hf. destruct (decide (i = x)) as [->|Hne].
  - rewrite lookup_alter_eq. destruct (h !! x) as [c|]; [|done].
    intros [= <-]. exists c. split; [done|]. symmetry. apply Hf.
  - rewrite lookup_alter_ne by done. eauto.
Qed.

(** What [AllocateChunk] takes: the head of the free list of the size
    class, after [GetNewChunks] when the list was empty. *)
Lemma AllocateChunk_pops size s m s' :
  is_word size -> AllocateChunk size s = Ok (m, s') ->
  exists idx s1 c,
    0 <= idx < WORDSIZE /\ size = 2 ^ idx
    /\ ((chunks s !! Z.to_nat idx = Some 0 /\ GetNewChunks size s = Ok (tt, s1))
        \/ (chunks s !! Z.to_nat idx <> Some 0 /\ s1 = s))
    /\ chunks s1 !! Z.to_nat idx = Some m /\ m <> 0
    /\ hdr s1 !! m = Some c /\ chunk_state c = CHUNK_AVAILABLE
    /\ chunks s' = <[Z.to_nat idx := next c]> (chunks s1)
    /\ (forall x c', hdr s' !! x = Some c' ->
          exists c0, hdr s1 !! x = Some c0 /\ allocated_size c0 = allocated_size c')
    /\ brk s' = brk s1
    /\ (forall y c0, y <> m -> hdr s1 !! y = Some c0 ->
          exists c', hdr s' !! y = Some c' /\ next c' = next c0
                     /\ chunk_state c' = chunk_state c0
                     /\ allocated_size c' = allocated_size c0).
Proof.
  intros Hw Hrun. unfold AllocateChunk in Hrun.
  apply bind_Ok in Hrun as (u & s0 & H0 & Hrun). apply CHECK_inv in H0 as [_ ->].
  apply bind_Ok in Hrun as (idx & s0 & H0 & Hrun).
  apply Log2_inv in H0 as (Hidx & -> & ->); [|done].
  apply bind_Ok in Hrun as (head & s0 & H0 & Hrun).
  apply chunks_get_inv in H0 as (Hhead & _ & ->).
  apply bind_Ok in Hrun as (u1 & s1 & Hrefill & Hrun).
  apply bind_Ok in Hrun as (m' & s0 & H0 & Hrun).
  apply chunks_get_inv in H0 as (Hm' & _ & ->).
  apply bind_Ok in Hrun as (u2 & s0 & H0 & Hrun). apply CHECK_inv in H0 as [Hm0 ->].
  apply bind_Ok in Hrun as (c & s0 & H0 & Hrun). apply load_Ok in H0 as [Hc ->].
  apply bind_Ok in Hrun as (u3 & s0 & H0 & Hrun). apply chunks_set_inv in H0 as ->.
  apply bind_Ok in Hrun as (u4 & s0 & H0 & Hrun). apply update_inv in H0 as [_ ->].
  apply bind_Ok in Hrun as (c2 & s0 & H0 & Hrun). apply load_Ok in H0 as [Hc2 ->].
  revert Hc2. alter_lookup. intros [= <-].
  apply bind_Ok in Hrun as (u5 & s0 & H0 & Hrun). apply CHECK_inv in H0 as [Hst ->].
  hsimpl. apply Z.eqb_eq in Hst.
  apply bind_Ok in Hrun as (u6 & s0 & H0 & Hrun). apply update_inv in H0 as [_ ->].
  apply bind_Ok in Hrun as (sg & s0 & H0 & Hrun). apply get_inv in H0 as [-> ->].
  hsimpl.
  apply bind_Ok in Hrun as (u7 & s2 & Hlink & Hrun).
  apply bind_Ok in Hrun as (u8 & s0 & H0 & Hrun). apply update_inv in H0 as [_ ->].
  apply bind_Ok in Hrun as (u9 & s0 & H0 & Hrun). apply modify_inv in H0 as ->.
  apply ret_inv in Hrun as [-> ->].
  apply negb_true_iff, Z.eqb_neq in Hm0.
  exists idx, s1, c. split; [done|]. split; [done|].
  assert (Hch : chunks s2 = <[Z.to_nat idx := next c]> (chunks s1)
                /\ (forall x c', hdr s2 !! x = Some c' ->
                      exists c0, hdr s1 !! x = Some c0
                                 /\ allocated_size c0 = allocated_size c')
                /\ brk s2 = brk s1
                /\ (forall y c0, y <> m' -> hdr s1 !! y = Some c0 ->
                      exists c', hdr s2 !! y = Some c' /\ next c' = next c0
                                 /\ chunk_state c' = chunk_state c0
                                 /\ allocated_size c' = allocated_size c0)).
  { destruct (malloced_items_ s1 =? 0).
    - apply ret_inv in Hlink as [_ ->]. hsimpl. split; [done|]. split; [|split; [done|]].
      + intros x c' Hc'.
        apply lookup_alter_Some_sizes in Hc' as (c1 & Hc1 & E1); [|done].
        apply lookup_alter_Some_sizes in Hc1 as (c2 & Hc2 & E2); [|done]. exists c2. split; [done|congruence].
      + intros y c0 Hy Hc0. rewrite !lookup_alter_ne by done. eauto.
    - apply update_inv in Hlink as [_ ->]. hsimpl. split; [done|]. split; [|split; [done|]].
      + intros x c' Hc'.
        apply lookup_alter_Some_sizes in Hc' as (c1 & Hc1 & E1); [|done].
        apply lookup_alter_Some_sizes in Hc1 as (c2 & Hc2 & E2); [|done].
        apply lookup_alter_Some_sizes in Hc2 as (c3 & Hc3 & E3); [|done].
        exists c3. split; [done|congruence].
      + intros y c0 Hy Hc0.
        destruct (decide (y = malloced_items_ s1)) as [->|Hne].
        * rewrite lookup_alter_eq, !lookup_alter_ne, Hc0 by done. simpl. eauto.
        * rewrite !lookup_alter_ne by done. eauto. }
  destruct Hch as (Hch & Hdom & Hbrk & Hkeep).
  split.
  { destruct (Z.eqb_spec head 0) as [->|Hne].
    - left. destruct u1. done.
    - right. apply ret_inv in Hrefill as [_ ->]. split; [|done]. congruence. }
  split; [done|]. split; [done|]. split; [done|]. split; [done|].
  hsimpl. split; [done|]. split; [|split; [done|]].
  - intros x c' Hc'.
    apply lookup_alter_Some_sizes in Hc' as (c1 & Hc1 & E1); [|done].
    destruct (Hdom x c1 Hc1) as (c0 & Hc0 & E0). exists c0. split; [done|congruence].
  - intros y c0 Hy Hc0. rewrite lookup_alter_ne by done. eauto.
Qed.

Section ServiceInversion.

Variable kMinRedzone : Z.

Local Abbreviation kRedzone := (kRedzone kMinRedzone).
Local Abbreviation kMinAllocSize := (kMinAllocSize kMinRedzone).
Local Abbreviation RoundUptoRedzone := (RoundUptoRedzone kMinRedzone).
Local Abbreviation needed_size := (needed_size kMinRedzone).
Local Abbreviation Allocate := (Allocate kMinRedzone).
Local Abbreviation PtrToChunk := (PtrToChunk kMinRedzone).
Local Abbreviation Deallocate := (Deallocate kMinRedzone).
Local Abbreviation Reallocate := (Reallocate kMinRedzone).

(** One [Allocate] that returns, step by step: the chunk [m] drawn by
    [AllocateChunk], the state [s1] after it, the state [s3] before the
    payload is unpoisoned. *)
Lemma Allocate_full alignment size s l lv p s' :
  wf s l lv -> is_word alignment -> size <> 0 ->
  Allocate alignment size s = Ok (p, s') ->
  exists sz m s1 c1 s3,
    sz = 2 ^ Z.log2_up (needed_size alignment size)
    /\ AllocateChunk sz s = Ok (m, s1)
    /\ wf s1 l (m :: lv) /\ (m ∉ lv) /\ (m ∉ l)
    /\ hdr s1 !! m = Some c1 /\ allocated_size c1 = sz
    /\ chunk_state c1 = CHUNK_ALLOCATED
    /\ mmap_base <= m < brk s1
    /\ live_ptr kMinRedzone s' p m
    /\ hdr s' = alter (set_used_size size) m (hdr s1)
    /\ hdr s3 = hdr s' /\ brk s3 = brk s1 /\ shadow s3 = shadow s1
    /\ brk s' = brk s1 /\ words s' = words s3
    /\ chunks s' = chunks s1
    /\ ((p = wrap (m + kRedzone) /\ words s3 = words s)
        \/ (kRedzone < alignment
            /\ Z.land (wrap (m + kRedzone)) (wrap (alignment - 1)) <> 0
            /\ (exists k, 0 <= k < WORDSIZE /\ alignment = 2 ^ k
                  /\ p = wrap (Z.shiftl (Z.shiftr (wrap (wrap (m + kRedzone) + alignment - 1)) k) k))
            /\ words s3 = <[wrap (wrap (p - kRedzone) + kWordSize) := m]>
                            (<[wrap (p - kRedzone) := CHUNK_MEMALIGN]> (words s))))
    /\ PoisonShadow p (RoundUptoRedzone size) 0 s3 = Ok (tt, s').
Proof.
  intros H Hwa Hn Hrun.
  destruct (Allocate_chunk _ _ _ _ _ _ _ _ H Hwa Hn Hrun)
    as (m2 & c2 & Hlive & Hc2 & Hst2 & _).
  destruct (Allocate_inv _ _ _ _ _ _ Hwa Hn Hrun)
    as (sz & m & s1 & c1 & s3 & _ & _ & Hsz & Hlog & Hmin & _ & Hdraw & Hm0 & Hc1
        & Hasz & Hst & Hpl & Hps).
  destruct (AllocateChunk_wf s l lv sz m s1 H) as (Hwf1 & Hmlv & _ & Hd); [|exact Hdraw|].
  { rewrite Hsz. by apply pow2_is_word. }
  pose proof (wf_range _ _ _ _ Hwf1 m c1 Hc1) as Hrange.
  pose proof (wf_brk _ _ _ _ Hwf1) as Hbrk.
  pose proof (PoisonShadow_frame _ _ _ _ _ _ Hps) as [f Es'].
  destruct Hd as (_ & _ & _ & _ & _ & Dw & _).
  set (s2 := set_hdr (alter (set_used_size size) m (hdr s1)) s1) in *.
  assert (Hml : m ∉ l).
  { intros Hin. destruct (wf_ring_lookup _ _ _ _ m Hwf1 Hin) as (c0 & Hc0 & Hs0).
    assert (c0 = c1) by congruence. subst c0. states. }
  assert (Hs3 : hdr s3 = hdr s2 /\ brk s3 = brk s1 /\ shadow s3 = shadow s1).
  { apply placed_frame in Hpl as [w ->]. done. }
  destruct Hs3 as (Hh3 & Hb3 & Hsh3).
  assert (Hm2 : m2 = m).
  { destruct Hlive as (Hres & _).
    assert (Hhs' : hdr s' = hdr s2) by (rewrite Es'; hsimpl; done).
    assert (Hcm : hdr s' !! m = Some (set_used_size size c1)).
    { rewrite Hhs'. subst s2. hsimpl. by rewrite lookup_alter_eq, Hc1. }
    destruct Hpl as [(Hp & E3 & _)|(Hlt & _ & _ & _ & F1 & F2 & M1 & M2 & E3)].
    - assert (Ha : wrap (p - kRedzone) = m).
      { rewrite Hp, wrap_wrap_sub. replace (m + kRedzone - kRedzone) with m by lia.
        apply wrap_small. knorm. lia. }
      destruct Hres as [(Ea & _)|(F & _)]; [congruence|].
      rewrite Ha in F. unfold field_at in F. rewrite Hcm in F. done.
    - destruct Hres as [(Ea & c & Hc & _)|(_ & _ & _ & _ & _ & W2)].
      + exfalso. unfold field_at in F1. rewrite Ea in F1.
        rewrite Hhs' in Hc. rewrite Hc in F1. done.
      + rewrite Es', E3 in W2. hsimpl. rewrite lookup_insert_eq in W2. congruence. }
  subst m2.
  exists sz, m, s1, c1, s3.
  split; [done|]. split; [done|]. split; [done|]. split; [done|]. split; [done|].
  split; [done|]. split; [done|]. split; [done|]. split; [done|]. split; [done|].
  split. { rewrite Es'. hsimpl. rewrite Hh3. done. }
  split. { rewrite Es'. hsimpl. done. }
  split; [done|]. split; [done|].
  split. { rewrite Es'. hsimpl. done. }
  split. { rewrite Es'. hsimpl. done. }
  split. { rewrite Es'. hsimpl. apply placed_frame in Hpl as [w ->]. done. }
  split; [|done].
  destruct Hpl as [(Hp & -> & _)|(Hlt & Hna & _ & Hk & _ & _ & _ & _ & ->)].
  - left. split; [done|]. subst s2. hsimpl. done.
  - right. split; [done|]. split; [done|]. split; [done|].
    subst s2. hsimpl. by rewrite Dw.
Qed.

End ServiceInversion.

(** A [PoisonShadow] that returns in a heap below [mmap_limit] has a range
    that does not wrap around. *)
Lemma PoisonShadow_no_wrap mem size v s u s' :
  is_word mem -> is_word size -> brk s <= mmap_limit ->
  PoisonShadow mem size v s = Ok (u, s') -> mem + size < 2 ^ WORDSIZE.
Proof.
  intros Hm Hs Hb H.
  destruct (Z.lt_ge_cases (mem + size) (2 ^ WORDSIZE)) as [|Hge]; [done|exfalso].
  unfold PoisonShadow in H.
  apply bind_Ok in H as (u1 & s1 & H1 & H). apply CHECK_inv in H1 as [Ha1 ->].
  apply bind_Ok in H as (u2 & s2 & H2 & H). apply CHECK_inv in H2 as [Ha2 ->].
  assert (Hw : wrap (mem + size) = mem + size - 2 ^ WORDSIZE).
  { unfold wrap. symmetry. apply (Z.mod_unique _ _ 1); unfold is_word in *; lia. }
  rewrite Hw in *. set (e := mem + size - 2 ^ WORDSIZE) in *.
  apply IsAligned_granule in Ha1, Ha2. rewrite !MemToShadow_div in H.
  pose proof (Z.div_mod mem 8 ltac:(lia)) as D1.
  pose proof (Z.div_mod e 8 ltac:(lia)) as D2.
  assert (He : 0 <= e < mem) by (unfold is_word in *; lia).
  assert (Hw2 : wrap (e / 8 - mem / 8) = e / 8 - mem / 8 + 18446744073709551616).
  { unfold wrap, WORDSIZE. change (2 ^ 64) with 18446744073709551616.
    symmetry. apply (Z.mod_unique _ _ (-1)); [left|lia].
    unfold is_word, WORDSIZE in *. change (2 ^ 64) with 18446744073709551616 in *. lia. }
  rewrite Hw2 in H.
  apply memset_shadow_inv in H as [[Hlen _]|(_ & Hlim & _)].
  - unfold is_word, WORDSIZE in *. change (2 ^ 64) with 18446744073709551616 in *. lia.
  - rewrite MemToShadow_div in Hlim.
    assert (brk s / 8 <= brk s \/ brk s < 0).
    { pose proof (Z.div_mod (brk s) 8 ltac:(lia)).
      pose proof (Z.mod_pos_bound (brk s) 8 ltac:(lia)). lia. }
    assert (brk s < 0 -> brk s / 8 < 0) by (intros; apply Z.div_lt_upper_bound; lia).
    knorm. lia.
Qed.

Section ServiceTheorems.

Variable kMinRedzone : Z.

Local Abbreviation kRedzone := (kRedzone kMinRedzone).
Local Abbreviation RoundUptoRedzone := (RoundUptoRedzone kMinRedzone).
Local Abbreviation Allocate := (Allocate kMinRedzone).
Local Abbreviation PtrToChunk := (PtrToChunk kMinRedzone).
Local Abbreviation Deallocate := (Deallocate kMinRedzone).
Local Abbreviation Reallocate := (Reallocate kMinRedzone).

Lemma RoundUptoRedzone_word n : is_word (RoundUptoRedzone n).
Proof. unfold RoundUptoRedzone. apply wrap_is_word. Qed.

(** The payload after [Deallocate]. *)
Lemma Deallocate_shadow p s l lv s' :
  wf s l lv -> is_word p -> p <> 0 -> Deallocate p s = Ok (tt, s') ->
  exists m c,
    PtrToChunk p s = Ok (m, s) /\ hdr s !! m = Some c
    /\ chunk_state c = CHUNK_ALLOCATED
    /\ (forall a, p <= a < p + RoundUptoRedzone (used_size c) ->
          shadow_byte (shadow s') (MemToShadow a) = 255)
    /\ (forall g, ~ (MemToShadow p <= g < MemToShadow (p + RoundUptoRedzone (used_size c))) ->
          shadow_byte (shadow s') g = shadow_byte (shadow s) g)
    /\ words s' = words s /\ brk s' = brk s.
Proof.
  intros H Hw Hp Hrun.
  destruct (Deallocate_wf _ _ _ _ _ _ H Hp Hrun)
    as (m & c & sp & l1 & l2 & l' & k & Hptr & Hc & Hst & Hps & _ & _ & _ & _ & _ & Hpost).
  destruct Hpost as (_ & _ & _ & _ & _ & Tw & Ts & Tb & _).
  pose proof (wf_brk _ _ _ _ H) as Hb.
  pose proof (RoundUptoRedzone_word (used_size c)) as Hr.
  pose proof (PoisonShadow_no_wrap _ _ _ _ _ _ Hw Hr (proj2 Hb) Hps) as Hnw.
  destruct (PoisonShadow_sets _ _ _ _ _ _ Hw (proj1 Hr) Hnw Hps)
    as (_ & _ & S1 & S2 & f & Esp).
  exists m, c. split; [done|]. split; [done|]. split; [done|].
  rewrite Ts, Tw, Tb. split; [done|]. split; [done|]. rewrite Esp. done.
Qed.

End ServiceTheorems.

(** After [Deallocate p] every byte of the payload, up to the next
    multiple of [kRedzone], has the shadow value 0xFF and the shadow of
    the rest of the heap is as before; the words of the heap are not
    touched. *)
Theorem Deallocate_poisons (kMinRedzone : Z) (p : Z) (s s' : heap) :
  reachable kMinRedzone s -> is_word p -> p <> 0 ->
  Deallocate kMinRedzone p s = Ok (tt, s') ->
  exists m c,
    PtrToChunk kMinRedzone p s = Ok (m, s) /\ hdr s !! m = Some c
    /\ chunk_state c = CHUNK_ALLOCATED
    /\ (forall a, p <= a < p + RoundUptoRedzone kMinRedzone (used_size c) ->
          shadow_byte (shadow s') (MemToShadow a) = 255)
    /\ (forall g, ~ (MemToShadow p <= g
                     < MemToShadow (p + RoundUptoRedzone kMinRedzone (used_size c))) ->
          shadow_byte (shadow s') g = shadow_byte (shadow s) g)
    /\ words s' = words s /\ brk s' = brk s.
Proof.
  intros Hr Hw Hp Hrun.
  destruct (reachable_Inv _ _ Hr) as (l & lv & H & _).
  by apply (Deallocate_shadow kMinRedzone p s l lv s').
Qed.

Lemma Deallocate_poisons_witness :
  exists m c,
    PtrToChunk 32 demo_p demo1 = Ok (m, demo1) /\ hdr demo1 !! m = Some c
    /\ chunk_state c = CHUNK_ALLOCATED
    /\ (forall a, demo_p <= a < demo_p + RoundUptoRedzone 32 (used_size c) ->
          shadow_byte (shadow demo2) (MemToShadow a) = 255)
    /\ (forall g, ~ (MemToShadow demo_p <= g
                     < MemToShadow (demo_p + RoundUptoRedzone 32 (used_size c))) ->
          shadow_byte (shadow demo2) g = shadow_byte (shadow demo1) g)
    /\ words demo2 = words demo1 /\ brk demo2 = brk demo1.
Proof.
  apply (Deallocate_poisons 32 demo_p demo1 demo2).
  - apply demo1_reachable.
  - unfold is_word. vm_compute. split; [discriminate|reflexivity].
  - vm_compute. discriminate.
  - apply demo2_run.
Defined.

Section ServiceTheorems2.

Variable kMinRedzone : Z.

Local Abbreviation kRedzone := (kRedzone kMinRedzone).
Local Abbreviation RoundUptoRedzone := (RoundUptoRedzone kMinRedzone).
Local Abbreviation Allocate := (Allocate kMinRedzone).
Local Abbreviation PtrToChunk := (PtrToChunk kMinRedzone).
Local Abbreviation Deallocate := (Deallocate kMinRedzone).
Local Abbreviation Reallocate := (Reallocate kMinRedzone).

(** The chunk of a new block was on a free list, if it was there at all. *)
Lemma Allocate_available alignment size s l lv p s' :
  wf s l lv -> is_word alignment -> size <> 0 ->
  Allocate alignment size s = Ok (p, s') ->
  exists m,
    PtrToChunk p s' = Ok (m, s') /\ (m ∉ l) /\ (m ∉ lv)
    /\ (forall c, hdr s !! m = Some c -> chunk_state c = CHUNK_AVAILABLE)
    /\ wf s' l (m :: lv).
Proof.
  intros H Hwa Hn Hrun.
  destruct (Allocate_full _ _ _ _ _ _ _ _ H Hwa Hn Hrun)
    as (sz & m & s1 & c1 & s3 & Hsz & Hdraw & Hwf1 & Hmlv & Hml & _ & _ & _ & _ & Hlive & _).
  destruct (Allocate_wf _ _ _ _ _ _ _ _ H Hwa Hn Hrun) as (m' & Hwf' & Hm' & _).
  exists m. split; [apply resolves_PtrToChunk, Hlive|].
  split; [done|]. split; [done|].
  assert (Hwsz : is_word sz).
  { destruct (Allocate_inv _ _ _ _ _ _ Hwa Hn Hrun) as (sz' & _ & _ & _ & _ & _ & _ & E & Hl & _).
    rewrite Hsz. by apply pow2_is_word. }
  split.
  - intros c Hc.
    destruct (AllocateChunk_pops _ _ _ _ Hwsz Hdraw)
      as (idx & s1' & c' & _ & Esz & Href & _ & _ & Hc' & Hst' & _).
    destruct Href as [(_ & Hg)|(_ & ->)]; [|congruence].
    destruct (GetNewChunks_wf _ _ _ _ _ H Hwsz Hg) as (_ & G1 & _).
    apply G1 in Hc. congruence.
  - destruct Hlive as (_ & c & Hc & Hst & _).
    pose proof (wf_alloc _ _ _ _ Hwf' m c Hc Hst) as Hin.
    apply elem_of_cons in Hin as [->|Hin]; [done|].
    exfalso.
    destruct (dlseg_elem _ _ _ _ _ _ (wf_live _ _ _ _ Hwf1) ltac:(right; exact Hin))
      as (c0 & Hc0 & _).
    pose proof (wf_live_nodup _ _ _ _ Hwf1) as Hnd.
    apply NoDup_cons in Hnd as [Hnd _]. done.
Qed.

End ServiceTheorems2.

(** [Allocate] never hands out a chunk that is allocated or in the
    quarantine: the chunk behind the pointer it returns was in state
    [CHUNK_AVAILABLE] before the call, or was carved out of new pages by
    the call; after the call it is the head of the list of allocated
    chunks. *)
Theorem Allocate_takes_available (kMinRedzone alignment size : Z) (s : heap) (p : Z) (s' : heap) :
  reachable kMinRedzone s -> is_word alignment -> size <> 0 ->
  Allocate kMinRedzone alignment size s = Ok (p, s') ->
  exists m c',
    PtrToChunk kMinRedzone p s' = Ok (m, s')
    /\ (forall c, hdr s !! m = Some c -> chunk_state c = CHUNK_AVAILABLE)
    /\ hdr s' !! m = Some c' /\ chunk_state c' = CHUNK_ALLOCATED
    /\ malloced_items_ s' = m.
Proof.
  intros Hr Hwa Hn Hrun.
  destruct (reachable_Inv _ _ Hr) as (l & lv & H & _).
  destruct (Allocate_available _ _ _ _ _ _ _ _ H Hwa Hn Hrun)
    as (m & Hptr & _ & _ & Hav & Hwf').
  destruct (dlseg_elem _ _ _ _ _ m (wf_live _ _ _ _ Hwf') ltac:(left)) as (c' & Hc' & Hst').
  exists m, c'. split; [done|]. split; [done|]. split; [done|]. split; [done|].
  apply (wf_live_head _ _ _ _ Hwf').
Qed.

Lemma Allocate_takes_available_witness :
  exists m c',
    PtrToChunk 32 demo_p demo1 = Ok (m, demo1)
    /\ (forall c, hdr demo0 !! m = Some c -> chunk_state c = CHUNK_AVAILABLE)
    /\ hdr demo1 !! m = Some c' /\ chunk_state c' = CHUNK_ALLOCATED
    /\ malloced_items_ demo1 = m.
Proof.
  apply (Allocate_takes_available 32 0 big demo0 demo_p demo1).
  - apply demo0_reachable.
  - unfold is_word. vm_compute. split; [discriminate|reflexivity].
  - vm_compute. discriminate.
  - apply demo1_run.
Defined.

Section ServiceTheorems3.

Variable kMinRedzone : Z.

Local Abbreviation kRedzone := (kRedzone kMinRedzone).
Local Abbreviation RoundUptoRedzone := (RoundUptoRedzone kMinRedzone).
Local Abbreviation Allocate := (Allocate kMinRedzone).
Local Abbreviation PtrToChunk := (PtrToChunk kMinRedzone).
Local Abbreviation Deallocate := (Deallocate kMinRedzone).
Local Abbreviation Reallocate := (Reallocate kMinRedzone).

(** A pointer that resolves to a chunk is not null. *)
Lemma resolves_nonnull s l lv p m :
  wf s l lv -> 0 <= kRedzone <= 2 ^ (WORDSIZE - 1) -> resolves kMinRedzone s p m -> p <> 0.
Proof.
  intros H HR Hres ->. pose proof (wf_brk _ _ _ _ H) as Hb.
  unfold WORDSIZE in HR. change (2 ^ (64 - 1)) with 9223372036854775808 in HR.
  assert (Ha : wrap (0 - kRedzone) < mmap_base \/ mmap_limit < wrap (0 - kRedzone)).
  { destruct (Z.eq_dec kRedzone 0) as [E|E].
    - rewrite E. left. vm_compute. reflexivity.
    - right. assert (Hw : wrap (0 - kRedzone) = 2 ^ WORDSIZE - kRedzone).
      { unfold wrap. symmetry. apply (Z.mod_unique _ _ (-1)); [left|]; knorm; lia. }
      rewrite Hw. knorm. lia. }
  destruct Hres as [(Ea & c & Hc & _)|(_ & _ & M1 & _)].
  - pose proof (wf_range _ _ _ _ H m c Hc). lia.
  - apply andb_true_iff in M1 as [M1 _]. unfold mapped in M1.
    apply andb_true_iff in M1 as [Mb Me]. apply Z.leb_le in Mb, Me. knorm. lia.
Qed.

(** A block that was just allocated can be freed, once. *)
Lemma Allocate_then_Deallocate alignment size s l lv p s1 :
  wf s l lv -> 0 <= kRedzone <= 2 ^ (WORDSIZE - 1) ->
  is_word alignment -> size <> 0 -> 0 < flag_quarantine_size s ->
  Allocate alignment size s = Ok (p, s1) ->
  p <> 0 /\ exists s2, Deallocate p s1 = Ok (tt, s2) /\ Deallocate p s2 = Abort.
Proof.
  intros H HR Hwa Hn Hflag Hrun.
  destruct (Allocate_chunk _ _ _ _ _ _ _ _ H Hwa Hn Hrun) as (m & c & Hlive & _).
  destruct (Allocate_wf _ _ _ _ _ _ _ _ H Hwa Hn Hrun) as (m' & Hwf1 & _ & _ & Ef).
  assert (Hp : p <> 0) by (eapply resolves_nonnull; [exact Hwf1|done|apply Hlive]).
  split; [done|].
  destruct (Deallocate_total _ _ _ _ _ _ Hwf1 Hlive Hp ltac:(lia)) as [s2 Hd].
  exists s2. split; [done|].
  eapply Deallocate_twice; [exact Hwf1|apply Hlive|done|done].
Qed.

(** The chunk of a reallocated block. *)
Lemma Reallocate_chunk p size s l lv q s' :
  wf s l lv -> p <> 0 -> size <> 0 -> Reallocate p size s = Ok (q, s') ->
  exists m c m' s1,
    PtrToChunk p s = Ok (m, s) /\ hdr s !! m = Some c
    /\ chunk_state c = CHUNK_ALLOCATED
    /\ Allocate 0 size s = Ok (q, s1)
    /\ PtrToChunk q s1 = Ok (m', s1) /\ q = wrap (m' + kRedzone)
    /\ m' <> m
    /\ (forall c0, hdr s !! m' = Some c0 -> chunk_state c0 = CHUNK_AVAILABLE).
Proof.
  intros H Hp Hn Hrun.
  destruct (Reallocate_inv _ _ _ _ _ _ Hp Hn Hrun)
    as (m & c & s1 & s2 & Hptr & Hc & Hst & Hal & _).
  assert (Hw0 : is_word 0) by (unfold is_word; vm_compute; split; [discriminate|reflexivity]).
  destruct (Allocate_available _ _ _ _ _ _ _ _ H Hw0 Hn Hal)
    as (m' & Hptr' & _ & Hmlv & Hav & _).
  destruct (Allocate_full _ _ _ _ _ _ _ _ H Hw0 Hn Hal)
    as (sz & m2 & s1' & c1 & s3 & _ & _ & _ & _ & _ & _ & _ & _ & _ & Hlive & _ & _ & _ & _
        & _ & _ & _ & Hpl & _).
  assert (m2 = m').
  { pose proof (resolves_PtrToChunk _ _ _ _ (proj1 Hlive)). congruence. }
  subst m2.
  exists m, c, m', s1. split; [done|]. split; [done|]. split; [done|]. split; [done|].
  split; [done|]. split.
  - destruct Hpl as [(Hq & _)|(_ & _ & (k & Hk & E & _) & _)]; [done|].
    destruct (pow2_nonzero k); unfold WORDSIZE in *; [done|lia].
  - split; [|done]. intros ->.
    apply Hmlv. eapply wf_alloc; eauto.
Qed.

End ServiceTheorems3.

(** From a reachable state with a positive quarantine cap, the pointer
    that [Allocate] returns for a size other than 0 is not null and
    [Deallocate] of it returns; a second [Deallocate] of it aborts. *)
Theorem Deallocate_after_Allocate (kMinRedzone alignment size : Z) (s : heap) (p : Z) (s1 : heap) :
  reachable kMinRedzone s ->
  0 <= kRedzone kMinRedzone <= 2 ^ (WORDSIZE - 1) ->
  is_word alignment -> size <> 0 -> 0 < flag_quarantine_size s ->
  Allocate kMinRedzone alignment size s = Ok (p, s1) ->
  p <> 0
  /\ exists s2, Deallocate kMinRedzone p s1 = Ok (tt, s2)
                /\ Deallocate kMinRedzone p s2 = Abort.
Proof.
  intros Hr HR Hwa Hn Hflag Hrun.
  destruct (reachable_Inv _ _ Hr) as (l & lv & H & _).
  by apply (Allocate_then_Deallocate kMinRedzone alignment size s l lv p s1).
Qed.

Lemma Deallocate_after_Allocate_witness :
  demo_p <> 0
  /\ exists s2, Deallocate 32 demo_p demo1 = Ok (tt, s2)
                /\ Deallocate 32 demo_p s2 = Abort.
Proof.
  apply (Deallocate_after_Allocate 32 0 big demo0 demo_p demo1).
  - apply demo0_reachable.
  - vm_compute. split; discriminate.
  - unfold is_word. vm_compute. split; [discriminate|reflexivity].
  - vm_compute. discriminate.
  - vm_compute. reflexivity.
  - apply demo1_run.
Defined.

(** [Reallocate] of a non-null pointer to a size other than 0 never
    resizes in place: the block it returns lies [kRedzone] bytes into a
    chunk other than the chunk of the old pointer, one that was
    [CHUNK_AVAILABLE] or new. *)
Theorem Reallocate_moves (kMinRedzone p size : Z) (s : heap) (q : Z) (s' : heap) :
  reachable kMinRedzone s -> p <> 0 -> size <> 0 ->
  Reallocate kMinRedzone p size s = Ok (q, s') ->
  exists m c m' s1,
    PtrToChunk kMinRedzone p s = Ok (m, s) /\ hdr s !! m = Some c
    /\ chunk_state c = CHUNK_ALLOCATED
    /\ Allocate kMinRedzone 0 size s = Ok (q, s1)
    /\ PtrToChunk kMinRedzone q s1 = Ok (m', s1)
    /\ q = wrap (m' + kRedzone kMinRedzone)
    /\ m' <> m
    /\ (forall c0, hdr s !! m' = Some c0 -> chunk_state c0 = CHUNK_AVAILABLE).
Proof.
  intros Hr Hp Hn Hrun.
  destruct (reachable_Inv _ _ Hr) as (l & lv & H & _).
  by apply (Reallocate_chunk kMinRedzone p size s l lv q s').
Qed.

Lemma c9_1_reachable : reachable 32 c9_1.
Proof.
  eapply reach_Allocate; [| | |apply c9_1_run].
  - apply c9_0_reachable.
  - unfold is_word. vm_compute. split; [discriminate|reflexivity].
  - unfold is_word. vm_compute. split; [discriminate|reflexivity].
Qed.

Lemma Reallocate_moves_witness :
  exists m c m' s1,
    PtrToChunk 32 c9_p c9_1 = Ok (m, c9_1) /\ hdr c9_1 !! m = Some c
    /\ chunk_state c = CHUNK_ALLOCATED
    /\ Allocate 32 0 big c9_1 = Ok (c9_q, s1)
    /\ PtrToChunk 32 c9_q s1 = Ok (m', s1)
    /\ c9_q = wrap (m' + kRedzone 32)
    /\ m' <> m
    /\ (forall c0, hdr c9_1 !! m' = Some c0 -> chunk_state c0 = CHUNK_AVAILABLE).
Proof.
  apply (Reallocate_moves 32 c9_p big c9_1 c9_q c9_2).
  - apply c9_1_reachable.
  - vm_compute. discriminate.
  - vm_compute. discriminate.
  - apply c9_2_run.
Defined.

(** ** The entry points *)

(** [__asan_calloc] returns memory that reads 0: each of the words it
    clears, which cover every byte of the block when the byte count is at
    most 2^64 - 8; for a product of 0 (modulo 2^64) it returns null and
    leaves the state as it is. *)
Theorem asan_calloc_zeroes (kMinRedzone nmemb size : Z) (s : heap) :
  (forall p s',
     asan_calloc kMinRedzone nmemb size s = Ok (p, s') ->
     (forall k, 0 <= k < wrap (wrap (nmemb * size) + kWordSize - 1) / kWordSize ->
        load_word (wrap (p + k * kWordSize)) s' = Ok (0, s'))
     /\ (wrap (nmemb * size) + kWordSize - 1 < 2 ^ WORDSIZE ->
         forall b, 0 <= b < wrap (nmemb * size) ->
           load_word (wrap (p + b / kWordSize * kWordSize)) s' = Ok (0, s')))
  /\ (wrap (nmemb * size) = 0 -> asan_calloc kMinRedzone nmemb size s = Ok (0, s)).
Proof.
  split.
  - intros p s' Hrun. unfold asan_calloc in Hrun.
    apply bind_Ok in Hrun as (q & s1 & Hal & Hrun).
    apply bind_Ok in Hrun as ([] & s2 & Hcl & Hrun).
    injection Hrun as <- <-.
    unfold asan_clear_mem in Hcl.
    apply bind_Ok in Hcl as ([] & s0 & H0 & Hcl). apply CHECK_inv in H0 as [_ ->].
    apply clear_loop_sets in Hcl as (w & -> & A & _ & _).
    set (n := wrap (nmemb * size)) in *.
    assert (Hcnt : 0 <= wrap (n + kWordSize - 1) / kWordSize).
    { apply Z.div_pos; [apply wrap_is_word|]. vm_compute. reflexivity. }
    assert (Hz : forall k, 0 <= k < wrap (n + kWordSize - 1) / kWordSize ->
                 load_word (wrap (q + k * kWordSize)) (set_words w s1)
                 = Ok (0, set_words w s1)).
    { intros k Hk. destruct (A k) as (A1 & A2 & A3); [rewrite Z2Nat.id by done; lia|].
      by apply load_word_set_words. }
    split; [done|].
    intros Hnw b Hb. apply Hz.
    rewrite (wrap_small (n + kWordSize - 1)).
    2:{ pose proof (wrap_is_word (nmemb * size)) as Hw. fold n in Hw.
        unfold is_word in *. change kWordSize with 8 in *. lia. }
    change kWordSize with 8 in *.
    split; [apply Z.div_pos; lia|].
    apply Z.div_lt_upper_bound; [lia|].
    pose proof (Z.div_mod (n + 8 - 1) 8 ltac:(lia)).
    pose proof (Z.mod_pos_bound (n + 8 - 1) 8 ltac:(lia)). lia.
  - intros Hz. unfold asan_calloc. rewrite Hz. reflexivity.
Qed.

(** A block that held the word 42, freed with a quarantine cap of one byte
    (so its chunk is on the free list again), and the [calloc] that takes
    the same chunk. *)
Definition dz_p : Z := value 0 (Allocate 32 0 4100) (heap0 1).
Definition dz_1 : heap :=
  let s := run (Allocate 32 0 4100) (heap0 1) in
  set_words (<[dz_p := 42]> (words s)) s.
Definition dz_2 : heap := run (Deallocate 32 dz_p) dz_1.
Definition dz_q : Z := value 0 (asan_calloc 32 1 4100) dz_2.
Definition dz_3 : heap := run (asan_calloc 32 1 4100) dz_2.

Lemma dz_3_run : asan_calloc 32 1 4100 dz_2 = Ok (dz_q, dz_3).
Proof. vm_compute. reflexivity. Qed.

Lemma dz_3_reads :
  Deallocate 32 dz_p dz_1 = Ok (tt, dz_2)
  /\ load_word dz_p dz_2 = Ok (42, dz_2)
  /\ dz_q = dz_p
  /\ load_word dz_q dz_3 = Ok (0, dz_3).
Proof.
  split; [vm_compute; reflexivity|].
  split; [vm_compute; reflexivity|].
  split; [vm_compute; reflexivity|].
  vm_compute. reflexivity.
Qed.

Lemma asan_calloc_zeroes_witness :
  (forall k, 0 <= k < wrap (wrap (1 * 4100) + kWordSize - 1) / kWordSize ->
     load_word (wrap (dz_q + k * kWordSize)) dz_3 = Ok (0, dz_3))
  /\ (wrap (1 * 4100) + kWordSize - 1 < 2 ^ WORDSIZE ->
      forall b, 0 <= b < wrap (1 * 4100) ->
        load_word (wrap (dz_q + b / kWordSize * kWordSize)) dz_3 = Ok (0, dz_3)).
Proof.
  apply (proj1 (asan_calloc_zeroes 32 1 4100 dz_2) dz_q dz_3).
  apply dz_3_run.
Defined.

(** The states the program reaches through the entry points. *)
Inductive api_reachable (kMinRedzone : Z) : heap -> Prop :=
| api_init cap : is_word cap -> api_reachable kMinRedzone (heap0 cap)
| api_malloc s size p s' :
    api_reachable kMinRedzone s -> is_word size ->
    asan_malloc kMinRedzone size s = Ok (p, s') -> api_reachable kMinRedzone s'
| api_calloc s nmemb size p s' :
    api_reachable kMinRedzone s -> is_word nmemb -> is_word size ->
    asan_calloc kMinRedzone nmemb size s = Ok (p, s') -> api_reachable kMinRedzone s'
| api_memalign s alignment size p s' :
    api_reachable kMinRedzone s -> is_word alignment -> is_word size ->
    asan_memalign kMinRedzone alignment size s = Ok (p, s') -> api_reachable kMinRedzone s'
| api_valloc s size p s' :
    api_reachable kMinRedzone s -> is_word size ->
    asan_valloc kMinRedzone size s = Ok (p, s') -> api_reachable kMinRedzone s'
| api_posix_memalign s alignment size r s' :
    api_reachable kMinRedzone s -> is_word alignment -> is_word size ->
    asan_posix_memalign kMinRedzone alignment size s = Ok (r, s') ->
    api_reachable kMinRedzone s'
| api_realloc s p size q s' :
    api_reachable kMinRedzone s -> is_word p -> is_word size ->
    asan_realloc kMinRedzone p size s = Ok (q, s') -> api_reachable kMinRedzone s'
| api_free s p s' :
    api_reachable kMinRedzone s -> is_word p ->
    asan_free kMinRedzone p s = Ok (tt, s') -> api_reachable kMinRedzone s'.

Lemma Inv_set_words s w : Inv s -> Inv (set_words w s).
Proof.
  intros (l & lv & H & Hcap). exists l, lv. split; [by apply wf_set_words|done].
Qed.

Lemma api_reachable_Inv kMinRedzone s : api_reachable kMinRedzone s -> Inv s.
Proof.
  induction 1 as [cap Hc|s n p s' _ IH Hn Hrun|s a n p s' _ IH Ha Hn Hrun
                 |s a n p s' _ IH Ha Hn Hrun|s n p s' _ IH Hn Hrun
                 |s a n r s' _ IH Ha Hn Hrun|s p n q s' _ IH Hp Hn Hrun
                 |s p s' _ IH Hp Hrun].
  - exists [], []. split; [by apply wf_heap0|]. simpl. by destruct Hc.
  - eapply Allocate_Inv; [exact IH| |exact Hrun].
    unfold is_word. vm_compute. split; [discriminate|reflexivity].
  - unfold asan_calloc in Hrun.
    apply bind_Ok in Hrun as (q & s1 & Hal & Hrun).
    apply bind_Ok in Hrun as ([] & s2 & Hcl & Hrun). injection Hrun as _ <-.
    apply asan_clear_mem_frame in Hcl as [w ->]. apply Inv_set_words.
    eapply Allocate_Inv; [exact IH| |exact Hal].
    unfold is_word. vm_compute. split; [discriminate|reflexivity].
  - eapply Allocate_Inv; [exact IH|exact Ha|exact Hrun].
  - eapply Allocate_Inv; [exact IH| |exact Hrun].
    unfold is_word. vm_compute. split; [discriminate|reflexivity].
  - unfold asan_posix_memalign in Hrun.
    apply bind_Ok in Hrun as (q & s1 & Hal & Hrun).
    apply bind_Ok in Hrun as ([] & s2 & Hck & Hrun). injection Hrun as _ <-.
    assert (s2 = s1) as ->.
    { destruct (a =? 0); [discriminate|]. by apply CHECK_inv in Hck as [_ ->]. }
    eapply Allocate_Inv; [exact IH|exact Ha|exact Hal].
  - eapply Reallocate_Inv; [exact IH|exact Hrun].
  - eapply Deallocate_Inv; [exact IH|exact Hrun].
Qed.

(** After every entry point that returns ([__asan_malloc], [_calloc],
    [_memalign], [_valloc], [_posix_memalign], [_realloc], [_free]) the
    chunks linked from [quarantine_] form a ring without repetition, the
    chunks linked from [malloced_items_] are those in state
    [CHUNK_ALLOCATED], and the quarantine counter is the sum of the sizes
    of the ring and at most the cap. *)
Theorem entry_points_keep_invariant (kMinRedzone : Z) (s : heap) :
  api_reachable kMinRedzone s ->
  exists l lv,
    NoDup l /\ ring (hdr s) (quarantine_ s) l
    /\ NoDup lv /\ malloced_items_ s = hd 0 lv
    /\ dlseg (hdr s) CHUNK_ALLOCATED 0 lv 0
    /\ (forall x c, hdr s !! x = Some c -> chunk_state c = CHUNK_ALLOCATED <-> x ∈ lv)
    /\ (forall x, x ∈ l -> exists c, hdr s !! x = Some c
                                     /\ chunk_state c = CHUNK_QUARANTINE)
    /\ quarantine_size_ s = sum_sizes (hdr s) l
    /\ quarantine_size_ s <= flag_quarantine_size s.
Proof.
  intros Hr. destruct (api_reachable_Inv _ _ Hr) as (l & lv & H & Hcap).
  exists l, lv. split; [apply H|]. split; [apply H|]. split; [apply H|].
  split; [apply H|]. split; [apply H|]. split.
  - intros x c Hc. split; [by apply (wf_alloc _ _ _ _ H)|].
    intros Hin. destruct (dlseg_elem _ _ _ _ _ _ (wf_live _ _ _ _ H) Hin) as (c0 & Hc0 & Hs0).
    congruence.
  - split; [|split; [apply H|done]].
    intros x Hx. by apply (wf_ring_lookup _ _ _ _ _ H).
Qed.

Definition api_1 : heap := run (asan_valloc 32 big) demo0.

Lemma api_1_reachable : api_reachable 32 api_1.
Proof.
  apply (api_valloc 32 demo0 big (value 0 (asan_valloc 32 big) demo0) api_1).
  - apply api_init. unfold is_word. vm_compute. split; [discriminate|reflexivity].
  - unfold is_word. vm_compute. split; [discriminate|reflexivity].
  - vm_compute. reflexivity.
Qed.

Lemma entry_points_keep_invariant_witness :
  exists l lv,
    NoDup l /\ ring (hdr api_1) (quarantine_ api_1) l
    /\ NoDup lv /\ malloced_items_ api_1 = hd 0 lv
    /\ dlseg (hdr api_1) CHUNK_ALLOCATED 0 lv 0
    /\ (forall x c, hdr api_1 !! x = Some c -> chunk_state c = CHUNK_ALLOCATED <-> x ∈ lv)
    /\ (forall x, x ∈ l -> exists c, hdr api_1 !! x = Some c
                                     /\ chunk_state c = CHUNK_QUARANTINE)
    /\ quarantine_size_ api_1 = sum_sizes (hdr api_1) l
    /\ quarantine_size_ api_1 <= flag_quarantine_size api_1.
Proof. apply (entry_points_keep_invariant 32 api_1). apply api_1_reachable. Defined.

(** ** The free lists *)

(** The header that [GetNewChunks] leaves in the [k]-th chunk it carves:
    the link goes to the chunk carved before it. *)
Definition carved (mem size h0 k : Z) : Chunk :=
  mkChunk CHUNK_AVAILABLE size 0 (if k =? 0 then h0 else mem + (k - 1) * size) 0.

(** The loop of [GetNewChunks], from the [i]-th chunk on, over pages that
    hold no header yet. *)
Lemma GetNewChunks_loop_carves mem size idx n : forall i s s' h,
  0 <= i -> 0 < size -> mem + (i + Z.of_nat n) * size <= 2 ^ WORDSIZE -> 0 <= mem ->
  chunks s !! Z.to_nat idx = Some h ->
  (i = 0 \/ h = mem + (i - 1) * size) ->
  (forall k, i <= k < i + Z.of_nat n -> hdr s !! (mem + k * size) = None) ->
  GetNewChunks_loop n mem size idx i s = Ok (tt, s') ->
  (forall k, i <= k < i + Z.of_nat n ->
     hdr s' !! (mem + k * size) = Some (carved mem size h k))
  /\ (forall x, (forall k, i <= k < i + Z.of_nat n -> x <> mem + k * size) ->
        hdr s' !! x = hdr s !! x)
  /\ chunks s' = (if Z.of_nat n =? 0 then chunks s
                  else <[Z.to_nat idx := mem + (i + Z.of_nat n - 1) * size]> (chunks s))
  /\ words s' = words s /\ shadow s' = shadow s /\ brk s' = brk s
  /\ quarantine_ s' = quarantine_ s /\ quarantine_size_ s' = quarantine_size_ s
  /\ malloced_items_ s' = malloced_items_ s
  /\ flag_quarantine_size s' = flag_quarantine_size s.
Proof.
  induction n as [|n IH]; intros i s s' h Hi Hsz Hb Hmem Hh Hhd Hfree Hrun.
  - injection Hrun as <-. split; [intros k Hk; lia|]. done.
  - cbn [GetNewChunks_loop] in Hrun.
    assert (Hw : wrap (mem + i * size) = mem + i * size).
    { apply wrap_small. unfold is_word. nia. }
    rewrite Hw in Hrun.
    apply bind_Ok in Hrun as (hd0 & s0 & H0 & Hrun).
    apply chunks_get_inv in H0 as (Hhd0 & Hidx & ->).
    assert (hd0 = h) by congruence. subst hd0.
    apply bind_Ok in Hrun as ([] & s1 & H1 & Hrun).
    unfold init_chunk in H1. injection H1 as <-.
    rewrite (Hfree i ltac:(lia)) in Hrun. cbn [default] in Hrun.
    apply bind_Ok in Hrun as ([] & s2 & H2 & Hrun).
    apply chunks_set_inv in H2 as ->.
    set (ci := set_next h (set_allocated_size size (set_chunk_state CHUNK_AVAILABLE
                 (mkChunk 0 0 0 0 0)))) in *.
    set (s2 := set_chunks _ _) in Hrun.
    assert (Hlen : (Z.to_nat idx < length (chunks s))%nat).
    { apply lookup_lt_is_Some. eauto. }
    assert (G1 : chunks s2 !! Z.to_nat idx = Some (mem + i * size)).
    { subst s2. hsimpl. by apply list_lookup_insert_eq. }
    assert (G2 : i + 1 = 0 \/ mem + i * size = mem + (i + 1 - 1) * size).
    { right. f_equal. f_equal. lia. }
    assert (G3 : forall k, i + 1 <= k < i + 1 + Z.of_nat n ->
                 hdr s2 !! (mem + k * size) = None).
    { intros k Hk. subst s2. hsimpl. rewrite lookup_insert_ne by nia.
      apply Hfree. lia. }
    assert (G4 : mem + (i + 1 + Z.of_nat n) * size <= 2 ^ WORDSIZE).
    { replace (i + 1 + Z.of_nat n) with (i + Z.of_nat (S n)) by lia. done. }
    destruct (IH (i + 1) s2 s' (mem + i * size) ltac:(lia) Hsz G4 Hmem G1 G2 G3 Hrun)
      as (A & B & C & D).
    clear G1 G2 G3 G4 IH.
    subst s2. hsimpl. split; [|split; [|split; [|done]]].
    + intros k Hk. destruct (Z.eq_dec k i) as [->|Hne].
      * rewrite B by (intros k Hk'; nia). rewrite lookup_insert_eq.
        unfold carved. f_equal. subst ci. cbn.
        destruct Hhd as [-> | ->]; [done|].
        by destruct (Z.eqb_spec i 0).
      * rewrite A by lia. unfold carved.
        destruct (Z.eqb_spec k 0) as [E|_]; [lia|done].
    + intros x Hx. rewrite B by (intros k Hk; apply Hx; lia).
      apply lookup_insert_ne. intros E. apply (Hx i); [lia|done].
    + rewrite C. destruct (Z.eqb_spec (Z.of_nat (S n)) 0) as [|_]; [lia|].
      destruct (Z.eqb_spec (Z.of_nat n) 0) as [E|_].
      * f_equal. f_equal. lia.
      * rewrite list_insert_insert_eq. f_equal. f_equal. lia.
Qed.

Lemma MmapNewPages_poisons size s mem s' :
  mmap_base <= brk s <= mmap_limit ->
  MmapNewPages size s = Ok (mem, s') ->
  mem = brk s /\ 0 < size /\ brk s + size <= mmap_limit
  /\ size mod kPageSize = 0
  /\ (forall a, brk s <= a < brk s + size ->
        shadow_byte (shadow s') (MemToShadow a) = 255)
  /\ exists f, s' = set_shadow f (set_brk (brk s + size) s).
Proof.
  intros Hb H. pose proof (MmapNewPages_inv _ _ _ _ H) as (-> & Hpos & Hlim & f & Es').
  split; [done|]. split; [done|]. split; [done|].
  unfold MmapNewPages in H.
  apply bind_Ok in H as (u & s0 & H0 & H). apply CHECK_inv in H0 as [Hpg ->].
  apply Z.eqb_eq in Hpg. split; [done|]. split; [|eauto].
  apply bind_Ok in H as (res & s1 & H1 & H).
  unfold mmap in H1.
  destruct ((0 <? size) && (brk s + size <=? mmap_limit)) eqn:Hc.
  - injection H1 as <- <-.
    destruct (brk s =? MAP_FAILED); [discriminate|].
    apply bind_Ok in H as (u2 & s2 & H2 & H). apply ret_inv in H as [_ ->].
    assert (Hw : is_word (brk s)) by (knorm; lia).
    assert (Hlt : brk s + size < 2 ^ WORDSIZE) by (knorm; lia).
    destruct (PoisonShadow_sets _ _ _ _ _ _ Hw (Z.lt_le_incl _ _ Hpos) Hlt H2)
      as (_ & _ & S1 & _).
    done.
  - injection H1 as <- <-. rewrite Z.eqb_refl in H. discriminate.
Qed.

(** What a [GetNewChunks] that returns has done. *)
Lemma GetNewChunks_new_chunks (j : Z) (s : heap) (l lv : list Z) (s' : heap) :
  wf s l lv -> 0 <= j < WORDSIZE ->
  GetNewChunks (2 ^ j) s = Ok (tt, s') ->
  brk s' = brk s + Z.max (2 ^ j) kMinMmapSize
  /\ Z.max (2 ^ j) kMinMmapSize mod kPageSize = 0
  /\ (forall k, 0 <= k < Z.max (2 ^ j) kMinMmapSize / 2 ^ j ->
        hdr s' !! (brk s + k * 2 ^ j) = Some (carved (brk s) (2 ^ j) 0 k))
  /\ (forall x, (forall k, 0 <= k < Z.max (2 ^ j) kMinMmapSize / 2 ^ j ->
                           x <> brk s + k * 2 ^ j) ->
        hdr s' !! x = hdr s !! x)
  /\ chunks s' = <[Z.to_nat j := brk s + (Z.max (2 ^ j) kMinMmapSize / 2 ^ j - 1) * 2 ^ j]>
                   (chunks s)
  /\ (forall a, brk s <= a < brk s + Z.max (2 ^ j) kMinMmapSize ->
        shadow_byte (shadow s') (MemToShadow a) = 255)
  /\ words s' = words s
  /\ quarantine_ s' = quarantine_ s /\ quarantine_size_ s' = quarantine_size_ s
  /\ malloced_items_ s' = malloced_items_ s.
Proof.
  intros H Hj Hrun. unfold GetNewChunks in Hrun.
  rewrite bind_Log2 in Hrun by done.
  apply bind_Ok in Hrun as (head & s0 & H0 & Hrun).
  apply chunks_get_inv in H0 as (Hhead & _ & ->).
  apply bind_Ok in Hrun as (u1 & s0 & H0 & Hrun). apply CHECK_inv in H0 as [Hh0 ->].
  apply Z.eqb_eq in Hh0. subst head.
  apply bind_Ok in Hrun as (u2 & s0 & H0 & Hrun). apply CHECK_inv in H0 as [_ ->].
  apply bind_Ok in Hrun as (u3 & s0 & H0 & Hrun). apply CHECK_inv in H0 as [_ ->].
  apply bind_Ok in Hrun as (u4 & s0 & H0 & Hrun). apply CHECK_inv in H0 as [_ ->].
  apply bind_Ok in Hrun as (mem & s1 & Hmm & Hrun).
  pose proof (wf_brk _ _ _ _ H) as Hb.
  apply MmapNewPages_poisons in Hmm as (-> & Hpos & Hlim & Hpg & Hsh & f & ->); [|lia].
  set (msz := Z.max (2 ^ j) kMinMmapSize) in *.
  assert (Hp2 : 0 < 2 ^ j) by (apply Z.pow_pos_nonneg; lia).
  assert (Hn : Z.of_nat (Z.to_nat (msz / 2 ^ j)) = msz / 2 ^ j).
  { apply Z2Nat.id. apply Z.div_pos; lia. }
  pose proof (Z.mul_div_le msz (2 ^ j) Hp2) as Hmd.
  assert (Hn1 : 1 <= msz / 2 ^ j).
  { apply Z.div_le_lower_bound; lia. }
  set (s1 := set_shadow f (set_brk (brk s + msz) s)) in *.
  assert (G1 : brk s + (0 + Z.of_nat (Z.to_nat (msz / 2 ^ j))) * 2 ^ j <= 2 ^ WORDSIZE).
  { rewrite Hn. knorm. nia. }
  assert (G0 : 0 <= brk s) by (knorm; lia).
  assert (G2 : chunks s1 !! Z.to_nat j = Some 0) by done.
  assert (G3 : forall k, 0 <= k < 0 + Z.of_nat (Z.to_nat (msz / 2 ^ j)) ->
               hdr s1 !! (brk s + k * 2 ^ j) = None).
  { intros k Hk. subst s1. hsimpl.
    destruct (hdr s !! (brk s + k * 2 ^ j)) as [c|] eqn:Hc; [|done].
    pose proof (wf_range _ _ _ _ H _ _ Hc). nia. }
  destruct (GetNewChunks_loop_carves (brk s) (2 ^ j) j (Z.to_nat (msz / 2 ^ j))
              0 s1 s' 0 (Z.le_refl 0) Hp2 G1 G0 G2 (or_introl eq_refl) G3 Hrun)
    as (A & B & C & D1 & D2 & D3 & D4 & D5 & D6 & _).
  clear G0 G1 G2 G3.
  rewrite Hn in *. subst s1. hsimpl.
  split; [done|]. split; [done|]. split. { intros k Hk. apply A. lia. }
  split. { intros x Hx. apply B. intros k Hk. apply Hx. lia. }
  split.
  { rewrite C. destruct (Z.eqb_spec (msz / 2 ^ j) 0); [lia|]. f_equal. }
  split; [|done]. intros a Ha. rewrite D2. by apply Hsh.
Qed.

(** [GetNewChunks] fails its [CHECK] when the free list of the size class
    is not empty.  When it returns, the heap has grown by the larger of
    the chunk size and [kMinMmapSize]; the new pages are cut into chunks
    of the size asked for, each [CHUNK_AVAILABLE] and linked to the one
    cut before it, the last one being the head of the free list; the
    shadow of the new pages is 0xFF; the headers that were there, the
    words, the quarantine and the list of allocated chunks are as
    before. *)
Theorem GetNewChunks_carves (j : Z) (s : heap) (l lv : list Z) :
  wf s l lv -> 0 <= j < WORDSIZE ->
  (forall h, chunks s !! Z.to_nat j = Some h -> h <> 0 -> GetNewChunks (2 ^ j) s = Abort)
  /\ (forall s', GetNewChunks (2 ^ j) s = Ok (tt, s') ->
        brk s' = brk s + Z.max (2 ^ j) kMinMmapSize
        /\ (forall k, 0 <= k < Z.max (2 ^ j) kMinMmapSize / 2 ^ j ->
              hdr s' !! (brk s + k * 2 ^ j) = Some (carved (brk s) (2 ^ j) 0 k))
        /\ (forall x, (forall k, 0 <= k < Z.max (2 ^ j) kMinMmapSize / 2 ^ j ->
                                 x <> brk s + k * 2 ^ j) ->
              hdr s' !! x = hdr s !! x)
        /\ chunks s' = <[Z.to_nat j := brk s + (Z.max (2 ^ j) kMinMmapSize / 2 ^ j - 1) * 2 ^ j]>
                         (chunks s)
        /\ (forall a, brk s <= a < brk s + Z.max (2 ^ j) kMinMmapSize ->
              shadow_byte (shadow s') (MemToShadow a) = 255)
        /\ words s' = words s
        /\ quarantine_ s' = quarantine_ s /\ quarantine_size_ s' = quarantine_size_ s
        /\ malloced_items_ s' = malloced_items_ s).
Proof.
  intros H Hj. split.
  - intros h Hh Hne. unfold GetNewChunks. rewrite bind_Log2 by done.
    rewrite bind_chunks_get with (v := h); [|lia|done].
    apply Z.eqb_neq in Hne. unfold bind, CHECK. by rewrite Hne.
  - intros s' Hrun.
    destruct (GetNewChunks_new_chunks j s l lv s' H Hj Hrun)
      as (E1 & _ & E2 & E3 & E4 & E5 & E6).
    done.
Qed.

(** Fresh pages cut into four chunks of 2^17 bytes. *)
Definition gn_1 : heap := run (GetNewChunks (2 ^ 17)) (heap0 0).

Lemma gn_1_run : GetNewChunks (2 ^ 17) (heap0 0) = Ok (tt, gn_1).
Proof. vm_compute. reflexivity. Qed.

Lemma GetNewChunks_carves_witness :
  brk gn_1 = brk (heap0 0) + Z.max (2 ^ 17) kMinMmapSize
  /\ (forall k, 0 <= k < Z.max (2 ^ 17) kMinMmapSize / 2 ^ 17 ->
        hdr gn_1 !! (brk (heap0 0) + k * 2 ^ 17)
        = Some (carved (brk (heap0 0)) (2 ^ 17) 0 k))
  /\ (forall x, (forall k, 0 <= k < Z.max (2 ^ 17) kMinMmapSize / 2 ^ 17 ->
                           x <> brk (heap0 0) + k * 2 ^ 17) ->
        hdr gn_1 !! x = hdr (heap0 0) !! x)
  /\ chunks gn_1
     = <[Z.to_nat 17 := brk (heap0 0) + (Z.max (2 ^ 17) kMinMmapSize / 2 ^ 17 - 1) * 2 ^ 17]>
         (chunks (heap0 0))
  /\ (forall a, brk (heap0 0) <= a < brk (heap0 0) + Z.max (2 ^ 17) kMinMmapSize ->
        shadow_byte (shadow gn_1) (MemToShadow a) = 255)
  /\ words gn_1 = words (heap0 0)
  /\ quarantine_ gn_1 = quarantine_ (heap0 0)
  /\ quarantine_size_ gn_1 = quarantine_size_ (heap0 0)
  /\ malloced_items_ gn_1 = malloced_items_ (heap0 0).
Proof.
  apply (proj2 (GetNewChunks_carves 17 (heap0 0) [] []
                  (wf_heap0 0 ltac:(unfold is_word; vm_compute; split; [discriminate|reflexivity]))
                  ltac:(vm_compute; split; [discriminate|reflexivity])) gn_1).
  apply gn_1_run.
Defined.

(** [AllocateChunk] takes the chunk at the head of the free list of the
    size class, which was [CHUNK_AVAILABLE], and leaves the list at the
    chunk linked from it; when the list is empty it first calls
    [GetNewChunks] and takes the chunk carved last.  The chunk becomes
    [CHUNK_ALLOCATED] and the head of the list of allocated chunks. *)
Theorem AllocateChunk_takes_head (j : Z) (s : heap) (l lv : list Z) (m : Z) (s' : heap) :
  wf s l lv -> 0 <= j < WORDSIZE ->
  AllocateChunk (2 ^ j) s = Ok (m, s') ->
  (forall h, chunks s !! Z.to_nat j = Some h -> h <> 0 ->
     m = h /\ brk s' = brk s
     /\ exists c, hdr s !! h = Some c /\ chunk_state c = CHUNK_AVAILABLE
                  /\ chunks s' = <[Z.to_nat j := next c]> (chunks s))
  /\ (chunks s !! Z.to_nat j = Some 0 ->
      m = brk s + (Z.max (2 ^ j) kMinMmapSize / 2 ^ j - 1) * 2 ^ j
      /\ brk s' = brk s + Z.max (2 ^ j) kMinMmapSize
      /\ chunks s'
         = <[Z.to_nat j := if Z.max (2 ^ j) kMinMmapSize / 2 ^ j - 1 =? 0 then 0
                           else brk s + (Z.max (2 ^ j) kMinMmapSize / 2 ^ j - 1 - 1) * 2 ^ j]>
             (chunks s))
  /\ malloced_items_ s' = m
  /\ (exists c', hdr s' !! m = Some c' /\ chunk_state c' = CHUNK_ALLOCATED
                 /\ prev c' = 0 /\ next c' = malloced_items_ s)
  /\ wf s' l (m :: lv).
Proof.
  intros H Hj Hrun.
  pose proof (pow2_is_word j Hj) as Hw.
  destruct (AllocateChunk_wf _ _ _ _ _ _ H Hw Hrun) as (Hwf' & _ & _ & _).
  destruct (AllocateChunk_pops _ _ _ _ Hw Hrun)
    as (idx & s1 & c & Hidx & Esz & Href & Hm & Hm0 & Hc & Hst & Hch & _ & Hbrk & _).
  assert (idx = j) as ->.
  { apply (Z.pow_inj_r 2); lia. }
  split; [|split; [|split; [|split; [|done]]]].
  - intros h Hh Hne. destruct Href as [(Hz & _)|(_ & ->)]; [congruence|].
    assert (m = h) by congruence. subst h.
    split; [done|]. split; [done|]. exists c. done.
  - intros Hz. destruct Href as [(_ & Hg)|(Hnz & _)]; [|done].
    destruct (GetNewChunks_new_chunks j s l lv s1 H Hj Hg)
      as (E1 & _ & E2 & _ & E4 & _).
    set (n := Z.max (2 ^ j) kMinMmapSize / 2 ^ j) in *.
    assert (Hp2 : 0 < 2 ^ j) by (apply Z.pow_pos_nonneg; lia).
    assert (Hn1 : 1 <= n) by (apply Z.div_le_lower_bound; lia).
    assert (Hlen : (Z.to_nat j < length (chunks s))%nat).
    { apply lookup_lt_is_Some. eauto. }
    rewrite E4, list_lookup_insert_eq in Hm by done.
    injection Hm as <-.
    rewrite (E2 (n - 1)) in Hc by lia. injection Hc as <-.
    split; [done|]. split; [lia|].
    rewrite Hch, E4, list_insert_insert_eq. done.
  - apply (wf_live_head _ _ _ _ Hwf').
  - destruct (wf_live _ _ _ _ Hwf') as [(c' & Hc' & Hs' & Hp' & Hn') _].
    exists c'. split; [done|]. split; [done|]. split; [done|].
    rewrite Hn'. symmetry. apply (wf_live_head _ _ _ _ H).
Qed.

(** A free list of four chunks, of which [AllocateChunk] takes the head. *)
Definition ac_m : Z := value 0 (AllocateChunk (2 ^ 17)) gn_1.
Definition ac_1 : heap := run (AllocateChunk (2 ^ 17)) gn_1.

Lemma gn_1_wf : wf gn_1 [] [].
Proof.
  apply (GetNewChunks_wf (heap0 0) [] [] (2 ^ 17) gn_1).
  - apply wf_heap0. unfold is_word. vm_compute. split; [discriminate|reflexivity].
  - unfold is_word. vm_compute. split; [discriminate|reflexivity].
  - apply gn_1_run.
Qed.

Lemma AllocateChunk_takes_head_witness :
  (forall h, chunks gn_1 !! Z.to_nat 17 = Some h -> h <> 0 ->
     ac_m = h /\ brk ac_1 = brk gn_1
     /\ exists c, hdr gn_1 !! h = Some c /\ chunk_state c = CHUNK_AVAILABLE
                  /\ chunks ac_1 = <[Z.to_nat 17 := next c]> (chunks gn_1))
  /\ (chunks gn_1 !! Z.to_nat 17 = Some 0 ->
      ac_m = brk gn_1 + (Z.max (2 ^ 17) kMinMmapSize / 2 ^ 17 - 1) * 2 ^ 17
      /\ brk ac_1 = brk gn_1 + Z.max (2 ^ 17) kMinMmapSize
      /\ chunks ac_1
         = <[Z.to_nat 17 := if Z.max (2 ^ 17) kMinMmapSize / 2 ^ 17 - 1 =? 0 then 0
                            else brk gn_1
                                 + (Z.max (2 ^ 17) kMinMmapSize / 2 ^ 17 - 1 - 1) * 2 ^ 17]>
             (chunks gn_1))
  /\ malloced_items_ ac_1 = ac_m
  /\ (exists c', hdr ac_1 !! ac_m = Some c' /\ chunk_state c' = CHUNK_ALLOCATED
                 /\ prev c' = 0 /\ next c' = malloced_items_ gn_1)
  /\ wf ac_1 [] [ac_m].
Proof.
  apply (AllocateChunk_takes_head 17 gn_1 [] [] ac_m ac_1).
  - apply gn_1_wf.
  - vm_compute. split; [discriminate|reflexivity].
  - vm_compute. reflexivity.
Defined.

(** The list was not empty: the chunk taken is its head, the fourth chunk
    carved, and the list is left at the third. *)
Lemma ac_1_head :
  chunks gn_1 !! Z.to_nat 17 = Some ac_m /\ ac_m = mmap_base + 3 * 2 ^ 17
  /\ chunks ac_1 !! Z.to_nat 17 = Some (mmap_base + 2 * 2 ^ 17).
Proof.
  split; [vm_compute; reflexivity|].
  split; [vm_compute; reflexivity|].
  vm_compute. reflexivity.
Qed.

(** ** Where the chunks lie

    Every chunk starts at a multiple of [R] and the heap ends at a page
    boundary. *)
Definition aligned_heap (R : Z) (s : heap) : Prop :=
  (forall x c, hdr s !! x = Some c -> x mod R = 0) /\ brk s mod kPageSize = 0.

Lemma aligned_heap0 R cap : aligned_heap R (heap0 cap).
Proof.
  split; [|reflexivity].
  intros x c Hc. unfold heap0 in Hc. cbn [hdr] in Hc. by rewrite lookup_empty in Hc.
Qed.

Lemma aligned_heap_frame R s s' :
  aligned_heap R s ->
  (forall x, is_Some (hdr s' !! x) -> is_Some (hdr s !! x)) -> brk s' = brk s ->
  aligned_heap R s'.
Proof.
  intros [A B] Hd Hb. split; [|by rewrite Hb].
  intros x c Hc. destruct (Hd x) as [c0 Hc0]; [eauto|]. eauto.
Qed.

Lemma mod0_divide a b : 0 < b -> a mod b = 0 <-> (b | a).
Proof. intros Hb. apply Z.mod_divide. lia. Qed.

Section Geometry.

Variable kMinRedzone : Z.

Local Abbreviation kRedzone := (kRedzone kMinRedzone).
Local Abbreviation RoundUptoRedzone := (RoundUptoRedzone kMinRedzone).
Local Abbreviation needed_size := (needed_size kMinRedzone).
Local Abbreviation Allocate := (Allocate kMinRedzone).
Local Abbreviation PtrToChunk := (PtrToChunk kMinRedzone).
Local Abbreviation Deallocate := (Deallocate kMinRedzone).
Local Abbreviation Reallocate := (Reallocate kMinRedzone).

Hypothesis kRedzone_pos : 0 < kRedzone.
Hypothesis kRedzone_page : kPageSize mod kRedzone = 0.

Lemma AllocateChunk_aligned_heap sz s l lv m s' :
  wf s l lv -> is_word sz -> sz mod kRedzone = 0 -> aligned_heap kRedzone s ->
  AllocateChunk sz s = Ok (m, s') -> aligned_heap kRedzone s'.
Proof.
  intros H Hw Hsz Hal Hrun.
  destruct (AllocateChunk_pops _ _ _ _ Hw Hrun)
    as (j & s1 & c & Hj & -> & Href & _ & _ & _ & _ & _ & Hdom & Hbrk & _).
  apply (aligned_heap_frame _ s1); [|intros x [c' Hc']; destruct (Hdom x c' Hc') as (c0 & Hc0 & _); eauto|done].
  destruct Href as [(_ & Hg)|(_ & ->)]; [|done].
  destruct (GetNewChunks_new_chunks j s l lv s1 H Hj Hg)
    as (E1 & Hpg & E2 & E3 & _).
  destruct Hal as [A B].
  apply mod0_divide in Hsz, kRedzone_page; try done.
  apply mod0_divide in B, Hpg; [|done..].
  assert (Hp2 : 0 < 2 ^ j) by (apply Z.pow_pos_nonneg; lia).
  split.
  - intros x cx Hcx.
    destruct (hdr s !! x) as [c0|] eqn:Hc0; [by eapply A|].
    set (k := (x - brk s) / 2 ^ j).
    destruct (Z.eq_dec x (brk s + k * 2 ^ j)) as [Ex|Ex].
    + rewrite Ex. apply mod0_divide; [done|].
      apply Z.divide_add_r; [by apply (Z.divide_trans _ kPageSize)|].
      by apply Z.divide_mul_r.
    + rewrite E3 in Hcx; [congruence|].
      intros k' Hk' E. apply Ex.
      assert (Hk : (x - brk s) / 2 ^ j = k').
      { rewrite E. replace (brk s + k' * 2 ^ j - brk s) with (k' * 2 ^ j) by lia.
        apply Z.div_mul. lia. }
      subst k. rewrite Hk. exact E.
  - rewrite E1. apply mod0_divide; [done|]. by apply Z.divide_add_r.
Qed.

Lemma Allocate_aligned_heap alignment size s l lv p s' :
  wf s l lv -> is_word alignment -> aligned_heap kRedzone s ->
  Allocate alignment size s = Ok (p, s') -> aligned_heap kRedzone s'.
Proof.
  intros H Hwa Hal Hrun.
  destruct (Z.eq_dec size 0) as [->|Hn].
  { injection Hrun as _ <-. done. }
  destruct (Allocate_inv _ _ _ _ _ _ Hwa Hn Hrun)
    as (sz0 & _ & _ & _ & _ & _ & _ & Esz0 & Hlog & _ & Hmod & _).
  destruct (Allocate_full _ _ _ _ _ _ _ _ H Hwa Hn Hrun)
    as (sz & m & s1 & c1 & s3 & Esz & Hdraw & _ & _ & _ & _ & _ & _ & _ & _ & Hh' & _ & _ & _
        & Hb' & _).
  assert (Hmod' : sz mod kRedzone = 0) by congruence.
  assert (Hw : is_word sz) by (rewrite Esz; by apply pow2_is_word).
  pose proof (AllocateChunk_aligned_heap _ _ _ _ _ _ H Hw Hmod' Hal Hdraw) as Hal1.
  apply (aligned_heap_frame _ s1); [done| |done].
  intros x. rewrite Hh'. by rewrite lookup_alter_is_Some.
Qed.

Lemma Deallocate_aligned_heap p s l lv s' :
  wf s l lv -> aligned_heap kRedzone s ->
  Deallocate p s = Ok (tt, s') -> aligned_heap kRedzone s'.
Proof.
  intros H Hal Hrun.
  destruct (Z.eq_dec p 0) as [->|Hp].
  { injection Hrun as <-. done. }
  destruct (Deallocate_wf _ _ _ _ _ _ H Hp Hrun)
    as (m & c & sp & l1 & l2 & l' & k & _ & _ & _ & Hps & _ & _ & _ & _ & _ & Hpost).
  destruct Hpost as (Hss & _ & _ & _ & _ & _ & _ & Tb & _).
  apply PoisonShadow_frame in Hps as [f ->].
  apply (aligned_heap_frame _ s); [done| |done].
  intros x [c' Hc']. destruct (same_sizes_lookup _ _ _ _ Hss Hc') as (c0 & Hc0 & _).
  eauto.
Qed.

Lemma reachable_wf_aligned s :
  reachable kMinRedzone s -> exists l lv, wf s l lv /\ aligned_heap kRedzone s.
Proof.
  induction 1 as [cap Hc|s a n p s' Hr IH Ha Hn Hrun|s p s' Hr IH Hp Hrun
                 |s p n q s' Hr IH Hp Hn Hrun].
  - exists [], []. split; [by apply wf_heap0|apply aligned_heap0].
  - destruct IH as (l & lv & H & Hal).
    assert (Hal' : aligned_heap kRedzone s')
      by exact (Allocate_aligned_heap _ _ _ _ _ _ _ H Ha Hal Hrun).
    assert (Hr' : reachable kMinRedzone s') by exact (reach_Allocate kMinRedzone s a n p s' Hr Ha Hn Hrun).
    destruct (reachable_Inv _ _ Hr') as (l' & lv' & H' & _). eauto.
  - destruct IH as (l & lv & H & Hal).
    assert (Hal' : aligned_heap kRedzone s')
      by exact (Deallocate_aligned_heap _ _ _ _ _ H Hal Hrun).
    assert (Hr' : reachable kMinRedzone s') by exact (reach_Deallocate kMinRedzone s p s' Hr Hp Hrun).
    destruct (reachable_Inv _ _ Hr') as (l' & lv' & H' & _). eauto.
  - destruct IH as (l & lv & H & Hal).
    assert (Hr' : reachable kMinRedzone s') by exact (reach_Reallocate kMinRedzone s p n q s' Hr Hp Hn Hrun).
    destruct (reachable_Inv _ _ Hr') as (l' & lv' & H' & _).
    exists l', lv'. split; [done|].
    assert (Hw0 : is_word 0) by (unfold is_word; vm_compute; split; [discriminate|reflexivity]).
    destruct (Z.eq_dec p 0) as [->|Hp0].
    { unfold Reallocate in Hrun. simpl in Hrun.
      exact (Allocate_aligned_heap _ _ _ _ _ _ _ H Hw0 Hal Hrun). }
    destruct (Z.eq_dec n 0) as [->|Hn0].
    { unfold Reallocate in Hrun. apply Z.eqb_neq in Hp0. rewrite Hp0 in Hrun.
      simpl in Hrun. injection Hrun as _ <-. done. }
    destruct (Reallocate_inv _ _ _ _ _ _ Hp0 Hn0 Hrun)
      as (m & c & s1 & s2 & _ & _ & _ & Hal1 & Hcp & Hde).
    pose proof (Allocate_aligned_heap _ _ _ _ _ _ _ H Hw0 Hal Hal1) as A1.
    destruct (Allocate_wf _ _ _ _ _ _ _ _ H Hw0 Hn0 Hal1) as (m' & Hwf1 & _).
    apply asan_copy_mem_frame in Hcp as [w ->].
    eapply (Deallocate_aligned_heap p (set_words w s1)); [|  |exact Hde].
    + apply wf_set_words. exact Hwf1.
    + apply (aligned_heap_frame _ s1); done.
Qed.

End Geometry.

Lemma pow2_divide a b : 0 <= a <= b -> (2 ^ a | 2 ^ b).
Proof.
  intros H. exists (2 ^ (b - a)). rewrite <- Z.pow_add_r by lia. f_equal. lia.
Qed.

Section Pointers.

Variable kMinRedzone : Z.

Local Abbreviation kRedzone := (kRedzone kMinRedzone).
Local Abbreviation RoundUptoRedzone := (RoundUptoRedzone kMinRedzone).
Local Abbreviation needed_size := (needed_size kMinRedzone).
Local Abbreviation Allocate := (Allocate kMinRedzone).
Local Abbreviation PtrToChunk := (PtrToChunk kMinRedzone).
Local Abbreviation Deallocate := (Deallocate kMinRedzone).

(** The shadow of a new block. *)
Lemma Allocate_unpoisons alignment size s l lv p s' :
  wf s l lv -> 0 < kRedzone -> is_word alignment -> 0 < size ->
  size + kRedzone <= 2 ^ WORDSIZE -> is_word p ->
  Allocate alignment size s = Ok (p, s') ->
  forall a, p <= a < p + size -> shadow_byte (shadow s') (MemToShadow a) = 0.
Proof.
  intros H HR Hwa Hs Hb Hwp Hrun a Ha.
  assert (Hn : size <> 0) by lia.
  destruct (Allocate_full _ _ _ _ _ _ _ _ H Hwa Hn Hrun)
    as (sz & m & s1 & c1 & s3 & _ & _ & Hwf1 & _ & _ & _ & _ & _ & _ & _ & _ & _ & Hb3 & _
        & _ & _ & _ & _ & Hps).
  pose proof (wf_brk _ _ _ _ Hwf1) as Hbrk.
  assert (Hr : is_word (RoundUptoRedzone size)) by apply RoundUptoRedzone_word.
  assert (Hlim : brk s3 <= mmap_limit) by lia.
  pose proof (PoisonShadow_no_wrap _ _ _ _ _ _ Hwp Hr Hlim Hps) as Hnw.
  destruct (PoisonShadow_sets _ _ _ _ _ _ Hwp (proj1 Hr) Hnw Hps) as (_ & _ & S1 & _).
  apply S1.
  assert (size <= RoundUptoRedzone size); [|lia].
  unfold RoundUptoRedzone.
  destruct (round_up_to_redzone_spec kRedzone size HR) as [Hle _].
  unfold round_up_to_redzone in Hle.
  rewrite (wrap_small (size + kRedzone - 1)) by (unfold is_word; lia).
  rewrite wrap_small by (unfold is_word; lia). lia.
Qed.

Variable r : Z.
Hypothesis r_range : 0 <= r <= 12.
Hypothesis kRedzone_pow2 : kRedzone = 2 ^ r.

Lemma kRedzone_bounds : 0 < kRedzone <= kPageSize.
Proof.
  rewrite kRedzone_pow2. split; [apply Z.pow_pos_nonneg; lia|].
  change kPageSize with (2 ^ 12). apply Z.pow_le_mono_r; lia.
Qed.

Lemma kRedzone_divides_page : kPageSize mod kRedzone = 0.
Proof.
  apply mod0_divide; [apply kRedzone_bounds|].
  rewrite kRedzone_pow2. change kPageSize with (2 ^ 12). by apply pow2_divide.
Qed.

(** The pointer of a new block. *)
Lemma Allocate_pointer_aligned alignment size s p s' :
  reachable kMinRedzone s -> is_word alignment -> is_word size -> size <> 0 ->
  Allocate alignment size s = Ok (p, s') ->
  p <> 0 /\ is_word p /\ p mod kRedzone = 0
  /\ (forall k, 0 <= k -> alignment = 2 ^ k -> p mod alignment = 0).
Proof.
  intros Hr Hwa Hws Hn Hrun.
  pose proof kRedzone_bounds as HR. pose proof kRedzone_divides_page as HRp.
  destruct (reachable_Inv _ _ Hr) as (l & lv & H & _).
  assert (Hr' : reachable kMinRedzone s')
    by exact (reach_Allocate kMinRedzone s alignment size p s' Hr Hwa Hws Hrun).
  destruct (reachable_wf_aligned kMinRedzone (proj1 HR) HRp s' Hr')
    as (l' & lv' & H' & Hal' & _).
  destruct (Allocate_full _ _ _ _ _ _ _ _ H Hwa Hn Hrun)
    as (sz & m & s1 & c1 & s3 & _ & _ & Hwf1 & _ & _ & _ & _ & _ & Hrange & Hlive & _ & _ & _ & _
        & _ & _ & _ & Hpl & _).
  pose proof (wf_brk _ _ _ _ Hwf1) as Hb.
  assert (Hp0 : p <> 0).
  { eapply (resolves_nonnull kMinRedzone s'); [exact H'| |apply Hlive].
    unfold WORDSIZE, kPageSize in *. change (2 ^ (64 - 1)) with 9223372036854775808. lia. }
  assert (Hm : m mod kRedzone = 0).
  { destruct Hlive as (_ & c & Hc & _). by eapply Hal'. }
  assert (HR0 : 0 <= kRedzone) by lia.
  assert (Hpa : kRedzone < alignment -> p mod alignment = 0).
  { intros Hlt. exact (Allocate_aligned kMinRedzone alignment size s p s' HR0 Hwa Hn Hlt Hrun). }
  assert (HpR : is_word p /\ p mod kRedzone = 0).
  { destruct Hpl as [(Ep & _)|(Hlt & _ & (k & Hk & Ek & Ep) & _)].
    - rewrite Ep. rewrite wrap_small by (unfold kPageSize in *; knorm; lia).
      split; [unfold kPageSize in *; knorm; lia|].
      rewrite Z.add_mod, Hm, Z.mod_same by lia. done.
    - split; [rewrite Ep; apply wrap_is_word|].
      specialize (Hpa Hlt).
      assert (r < k).
      { rewrite kRedzone_pow2, Ek in Hlt. apply Z.pow_lt_mono_r_iff in Hlt; lia. }
      apply mod0_divide; [lia|]. apply mod0_divide in Hpa; [|lia].
      apply (Z.divide_trans _ alignment); [|done].
      rewrite kRedzone_pow2, Ek. apply pow2_divide. lia. }
  destruct HpR as (Hwp & HpR).
  split; [done|]. split; [done|]. split; [done|].
  intros k Hk Ek.
  destruct (Z.lt_ge_cases kRedzone alignment) as [Hlt|Hge]; [by apply Hpa|].
  assert (k <= r).
  { rewrite kRedzone_pow2, Ek in Hge. apply Z.pow_le_mono_r_iff in Hge; lia. }
  assert (0 < alignment) by (rewrite Ek; apply Z.pow_pos_nonneg; lia).
  apply mod0_divide; [done|]. apply mod0_divide in HpR; [|lia].
  apply (Z.divide_trans _ kRedzone); [|done].
  rewrite kRedzone_pow2, Ek. apply pow2_divide. lia.
Qed.

End Pointers.

(** When [kRedzone] is a power of two up to the page size and the size is
    at most [2^64 - kRedzone], the pointer that [Allocate] returns from a
    reachable state is not null, it is a multiple of [kRedzone] and of the
    alignment asked for when that is larger, and the shadow of every byte
    of the block is 0. *)
Theorem Allocate_pointer (kMinRedzone r alignment size : Z) (s : heap) (p : Z) (s' : heap) :
  0 <= r <= 12 -> kRedzone kMinRedzone = 2 ^ r ->
  reachable kMinRedzone s -> is_word alignment ->
  0 < size -> size + kRedzone kMinRedzone <= 2 ^ WORDSIZE ->
  Allocate kMinRedzone alignment size s = Ok (p, s') ->
  p <> 0
  /\ p mod Z.max alignment (kRedzone kMinRedzone) = 0
  /\ forall a, p <= a < p + size -> shadow_byte (shadow s') (MemToShadow a) = 0.
Proof.
  intros Hr HR Hre Hwa Hs Hb Hrun.
  pose proof (kRedzone_bounds kMinRedzone r Hr HR) as HRb.
  assert (Hws : is_word size) by (unfold is_word; lia).
  assert (Hn : size <> 0) by lia.
  destruct (Allocate_pointer_aligned kMinRedzone r Hr HR alignment size s p s'
              Hre Hwa Hws Hn Hrun) as (Hp0 & Hwp & HpR & Hpa).
  split; [done|]. split.
  - destruct (Z.max_spec alignment (kRedzone kMinRedzone)) as [[Hlt ->]|[Hge ->]]; [done|].
    destruct (Z.eq_dec alignment (kRedzone kMinRedzone)) as [E|Hne]; [by rewrite E|].
    destruct (Allocate_inv _ _ _ _ _ _ Hwa Hn Hrun) as (sz & m & s1 & c1 & s3 & Hp2 & _).
    apply IsPowerOfTwo_inv in Hp2 as (k & Hk & Ek); [|done|lia].
    apply (Hpa k); [lia|done].
  - destruct (reachable_Inv _ _ Hre) as (l & lv & H & _).
    apply (Allocate_unpoisons kMinRedzone alignment size s l lv p s'); try done. lia.
Qed.

Lemma Allocate_pointer_witness :
  demo_p <> 0
  /\ demo_p mod Z.max 0 (kRedzone 32) = 0
  /\ forall a, demo_p <= a < demo_p + big ->
               shadow_byte (shadow demo1) (MemToShadow a) = 0.
Proof.
  apply (Allocate_pointer 32 6 0 big demo0 demo_p demo1).
  - lia.
  - reflexivity.
  - apply demo0_reachable.
  - unfold is_word. vm_compute. split; [discriminate|reflexivity].
  - reflexivity.
  - vm_compute. discriminate.
  - apply demo1_run.
Defined.

(** [__asan_posix_memalign] with an alignment of 0 never returns.  With
    any other alignment its own [CHECK] never fails from a reachable
    state (when [kRedzone] is a power of two up to the page size): it
    returns 0 and stores the pointer exactly when [Allocate] returns that
    pointer, which is a multiple of the alignment. *)
Theorem asan_posix_memalign_spec (kMinRedzone r alignment size : Z) (s : heap) :
  0 <= r <= 12 -> kRedzone kMinRedzone = 2 ^ r ->
  reachable kMinRedzone s -> is_word alignment -> is_word size ->
  (alignment = 0 -> forall res, asan_posix_memalign kMinRedzone alignment size s <> Ok res)
  /\ (alignment <> 0 ->
      forall rc p s',
        asan_posix_memalign kMinRedzone alignment size s = Ok ((rc, p), s')
        <-> rc = 0 /\ Allocate kMinRedzone alignment size s = Ok (p, s'))
  /\ (forall rc p s',
        asan_posix_memalign kMinRedzone alignment size s = Ok ((rc, p), s') ->
        p mod alignment = 0).
Proof.
  intros Hr HR Hre Hwa Hws.
  assert (Hal : forall p s', alignment <> 0 ->
            Allocate kMinRedzone alignment size s = Ok (p, s') -> p mod alignment = 0).
  { intros p s' Hne Hrun. destruct (Z.eq_dec size 0) as [->|Hn].
    - injection Hrun as <- _. apply Z.mod_0_l. done.
    - destruct (Allocate_inv _ _ _ _ _ _ Hwa Hn Hrun) as (sz & m & s1 & c1 & s3 & Hp2 & _).
      apply IsPowerOfTwo_inv in Hp2 as (k & Hk & Ek); [|done..].
      destruct (Allocate_pointer_aligned kMinRedzone r Hr HR alignment size s p s'
                  Hre Hwa Hws Hn Hrun) as (_ & _ & _ & Hpa).
      apply (Hpa k); [lia|done]. }
  split; [|split].
  - intros -> res Hrun. unfold asan_posix_memalign in Hrun.
    apply bind_Ok in Hrun as (q & s1 & _ & Hrun).
    apply bind_Ok in Hrun as (u & s2 & Hu & _). discriminate.
  - intros Hne rc p s'. apply Z.eqb_neq in Hne as Hne'. split.
    + intros Hrun. unfold asan_posix_memalign in Hrun.
      apply bind_Ok in Hrun as (q & s1 & Hq & Hrun).
      apply bind_Ok in Hrun as (u & s2 & Hu & Hrun).
      rewrite Hne' in Hu. apply CHECK_inv in Hu as [_ ->].
      injection Hrun as <- <- <-. done.
    + intros [-> Hrun]. unfold asan_posix_memalign.
      unfold bind at 1. rewrite Hrun, Hne'.
      rewrite bind_CHECK; [done|]. apply Z.eqb_eq. by apply (Hal p s').
  - intros rc p s' Hrun. unfold asan_posix_memalign in Hrun.
    apply bind_Ok in Hrun as (q & s1 & Hq & Hrun).
    apply bind_Ok in Hrun as (u & s2 & Hu & Hrun).
    destruct (Z.eqb_spec alignment 0) as [->|Hne]; [discriminate|].
    apply CHECK_inv in Hu as [Hm ->]. injection Hrun as _ <- _.
    by apply Z.eqb_eq in Hm.
Qed.

Lemma asan_posix_memalign_spec_witness :
  (4096 = 0 -> forall res, asan_posix_memalign 32 4096 10 c9_0 <> Ok res)
  /\ (4096 <> 0 ->
      forall rc p s',
        asan_posix_memalign 32 4096 10 c9_0 = Ok ((rc, p), s')
        <-> rc = 0 /\ Allocate 32 4096 10 c9_0 = Ok (p, s'))
  /\ (forall rc p s',
        asan_posix_memalign 32 4096 10 c9_0 = Ok ((rc, p), s') ->
        p mod 4096 = 0).
Proof.
  apply (asan_posix_memalign_spec 32 6 4096 10 c9_0).
  - lia.
  - reflexivity.
  - apply c9_0_reachable.
  - unfold is_word. vm_compute. split; [discriminate|reflexivity].
  - unfold is_word. vm_compute. split; [discriminate|reflexivity].
Defined.

(** In every reachable state each chunk lies in the mapped heap, at a
    multiple of [kRedzone] (a power of two up to the page size), and its
    [allocated_size] is a power of two; the heap ends at a page
    boundary. *)
Theorem chunks_well_placed (kMinRedzone r : Z) (s : heap) :
  0 <= r <= 12 -> kRedzone kMinRedzone = 2 ^ r ->
  reachable kMinRedzone s ->
  (forall x c, hdr s !! x = Some c ->
     mmap_base <= x < brk s /\ x mod kRedzone kMinRedzone = 0
     /\ exists j, 0 <= j < WORDSIZE /\ allocated_size c = 2 ^ j)
  /\ brk s mod kPageSize = 0 /\ mmap_base <= brk s <= mmap_limit.
Proof.
  intros Hr HR Hre.
  pose proof (kRedzone_bounds kMinRedzone r Hr HR) as HRb.
  pose proof (kRedzone_divides_page kMinRedzone r Hr HR) as HRp.
  destruct (reachable_wf_aligned kMinRedzone (proj1 HRb) HRp s Hre)
    as (l & lv & H & Hal & Hpg).
  pose proof (wf_brk _ _ _ _ H) as Hb.
  split; [|split; [done|lia]].
  intros x c Hc. split; [by apply (wf_range _ _ _ _ H x c)|].
  split; [by apply (Hal x c)|]. by apply (wf_pow2 _ _ _ _ H x c).
Qed.

Lemma chunks_well_placed_witness :
  (forall x c, hdr demo2 !! x = Some c ->
     mmap_base <= x < brk demo2 /\ x mod kRedzone 32 = 0
     /\ exists j, 0 <= j < WORDSIZE /\ allocated_size c = 2 ^ j)
  /\ brk demo2 mod kPageSize = 0 /\ mmap_base <= brk demo2 <= mmap_limit.
Proof.
  apply (chunks_well_placed 32 6 demo2); [lia|reflexivity|apply demo2_reachable].
Defined.

(** ** Chunks do not overlap

    Each chunk ends inside the mapped heap and two chunks have no byte in
    common. *)
Definition disjoint_chunks (s : heap) : Prop :=
  (forall x c, hdr s !! x = Some c -> x + allocated_size c <= brk s)
  /\ (forall x y cx cy, x <> y -> hdr s !! x = Some cx -> hdr s !! y = Some cy ->
        x + allocated_size cx <= y \/ y + allocated_size cy <= x).

Lemma disjoint_chunks0 cap : disjoint_chunks (heap0 cap).
Proof.
  split.
  - intros x c Hc. unfold heap0 in Hc. cbn [hdr] in Hc. by rewrite lookup_empty in Hc.
  - intros x y cx cy _ Hc. unfold heap0 in Hc. cbn [hdr] in Hc. by rewrite lookup_empty in Hc.
Qed.

Lemma disjoint_chunks_frame s s' :
  disjoint_chunks s ->
  (forall x c', hdr s' !! x = Some c' ->
     exists c, hdr s !! x = Some c /\ allocated_size c = allocated_size c') ->
  brk s <= brk s' ->
  disjoint_chunks s'.
Proof.
  intros [A B] Hd Hb. split.
  - intros x c' Hc'. destruct (Hd x c' Hc') as (c & Hc & <-).
    pose proof (A x c Hc). lia.
  - intros x y cx' cy' Hne Hx Hy.
    destruct (Hd x cx' Hx) as (cx & Hcx & <-).
    destruct (Hd y cy' Hy) as (cy & Hcy & <-). eauto.
Qed.

(** The headers after [GetNewChunks]: the old ones and the carved ones. *)
Lemma GetNewChunks_classify j s l lv s' x c :
  wf s l lv -> 0 <= j < WORDSIZE ->
  GetNewChunks (2 ^ j) s = Ok (tt, s') ->
  hdr s' !! x = Some c ->
  (hdr s !! x = Some c /\ x < brk s)
  \/ (exists k, 0 <= k < Z.max (2 ^ j) kMinMmapSize / 2 ^ j
                /\ x = brk s + k * 2 ^ j /\ allocated_size c = 2 ^ j).
Proof.
  intros H Hj Hrun Hc.
  destruct (GetNewChunks_new_chunks j s l lv s' H Hj Hrun) as (_ & _ & E2 & E3 & _).
  assert (Hp2 : 0 < 2 ^ j) by (apply Z.pow_pos_nonneg; lia).
  set (n := Z.max (2 ^ j) kMinMmapSize / 2 ^ j) in *.
  set (k := (x - brk s) / 2 ^ j).
  destruct (decide (0 <= k < n /\ x = brk s + k * 2 ^ j)) as [[Hk Ex]|Hn].
  - right. exists k. split; [done|]. split; [done|].
    rewrite Ex, (E2 k Hk) in Hc. injection Hc as <-. done.
  - left. rewrite E3 in Hc.
    + split; [done|]. apply (wf_range _ _ _ _ H x c Hc).
    + intros k' Hk' E. apply Hn.
      assert (Hk : k = k').
      { subst k. rewrite E.
        replace (brk s + k' * 2 ^ j - brk s) with (k' * 2 ^ j) by lia.
        apply Z.div_mul. lia. }
      rewrite Hk. done.
Qed.

Lemma GetNewChunks_disjoint j s l lv s' :
  wf s l lv -> 0 <= j < WORDSIZE -> disjoint_chunks s ->
  GetNewChunks (2 ^ j) s = Ok (tt, s') -> disjoint_chunks s'.
Proof.
  intros H Hj [A B] Hrun.
  destruct (GetNewChunks_new_chunks j s l lv s' H Hj Hrun) as (E1 & _).
  assert (Hp2 : 0 < 2 ^ j) by (apply Z.pow_pos_nonneg; lia).
  pose proof (Z.mul_div_le (Z.max (2 ^ j) kMinMmapSize) (2 ^ j) Hp2) as Hmd.
  set (n := Z.max (2 ^ j) kMinMmapSize / 2 ^ j) in *.
  split.
  - intros x c Hc.
    destruct (GetNewChunks_classify _ _ _ _ _ _ _ H Hj Hrun Hc)
      as [(Hc0 & _)|(k & Hk & -> & ->)].
    + pose proof (A x c Hc0). lia.
    + rewrite E1. nia.
  - intros x y cx cy Hne Hx Hy.
    destruct (GetNewChunks_classify _ _ _ _ _ _ _ H Hj Hrun Hx)
      as [(Hx0 & Hxb)|(k & Hk & Ex & Esx)];
    destruct (GetNewChunks_classify _ _ _ _ _ _ _ H Hj Hrun Hy)
      as [(Hy0 & Hyb)|(k' & Hk' & Ey & Esy)].
    + eauto.
    + left. pose proof (A x cx Hx0). nia.
    + right. pose proof (A y cy Hy0). nia.
    + rewrite Esx, Esy. assert (k <> k') by (intros ->; congruence). nia.
Qed.

Lemma AllocateChunk_disjoint sz s l lv m s' :
  wf s l lv -> is_word sz -> disjoint_chunks s ->
  AllocateChunk sz s = Ok (m, s') -> disjoint_chunks s'.
Proof.
  intros H Hw Hd Hrun.
  destruct (AllocateChunk_pops _ _ _ _ Hw Hrun)
    as (j & s1 & c & Hj & -> & Href & _ & _ & _ & _ & _ & Hdom & Hbrk & _).
  apply (disjoint_chunks_frame s1); [|done|lia].
  destruct Href as [(_ & Hg)|(_ & ->)]; [|done].
  by apply (GetNewChunks_disjoint j s l lv s1).
Qed.

Section Disjoint.

Variable kMinRedzone : Z.

Local Abbreviation kRedzone := (kRedzone kMinRedzone).
Local Abbreviation RoundUptoRedzone := (RoundUptoRedzone kMinRedzone).
Local Abbreviation needed_size := (needed_size kMinRedzone).
Local Abbreviation Allocate := (Allocate kMinRedzone).
Local Abbreviation PtrToChunk := (PtrToChunk kMinRedzone).
Local Abbreviation Deallocate := (Deallocate kMinRedzone).
Local Abbreviation Reallocate := (Reallocate kMinRedzone).

Lemma Allocate_disjoint alignment size s l lv p s' :
  wf s l lv -> is_word alignment -> disjoint_chunks s ->
  Allocate alignment size s = Ok (p, s') -> disjoint_chunks s'.
Proof.
  intros H Hwa Hd Hrun.
  destruct (Z.eq_dec size 0) as [->|Hn].
  { injection Hrun as _ <-. done. }
  destruct (Allocate_full _ _ _ _ _ _ _ _ H Hwa Hn Hrun)
    as (sz & m & s1 & c1 & s3 & Esz & Hdraw & _ & _ & _ & _ & _ & _ & _ & _ & Hh' & _ & _ & _
        & Hb' & _).
  destruct (Allocate_inv _ _ _ _ _ _ Hwa Hn Hrun)
    as (sz0 & _ & _ & _ & _ & _ & _ & Esz0 & Hlog & _).
  assert (Hw : is_word sz) by (rewrite Esz; by apply pow2_is_word).
  pose proof (AllocateChunk_disjoint _ _ _ _ _ _ H Hw Hd Hdraw) as Hd1.
  apply (disjoint_chunks_frame s1); [done| |lia].
  intros x c' Hc'. rewrite Hh' in Hc'.
  by apply lookup_alter_Some_sizes in Hc'.
Qed.

Lemma Deallocate_disjoint p s l lv s' :
  wf s l lv -> disjoint_chunks s ->
  Deallocate p s = Ok (tt, s') -> disjoint_chunks s'.
Proof.
  intros H Hd Hrun.
  destruct (Z.eq_dec p 0) as [->|Hp].
  { injection Hrun as <-. done. }
  destruct (Deallocate_wf _ _ _ _ _ _ H Hp Hrun)
    as (m & c & sp & l1 & l2 & l' & k & _ & _ & _ & Hps & _ & _ & _ & _ & _ & Hpost).
  destruct Hpost as (Hss & _ & _ & _ & _ & _ & _ & Tb & _).
  apply PoisonShadow_frame in Hps as [f ->].
  apply (disjoint_chunks_frame s); [done| |rewrite Tb; done].
  intros x c' Hc'. by apply (same_sizes_lookup _ _ _ _ Hss).
Qed.

Lemma reachable_disjoint s : reachable kMinRedzone s -> disjoint_chunks s.
Proof.
  induction 1 as [cap Hc|s a n p s' Hr IH Ha Hn Hrun|s p s' Hr IH Hp Hrun
                 |s p n q s' Hr IH Hp Hn Hrun].
  - apply disjoint_chunks0.
  - destruct (reachable_Inv _ _ Hr) as (l & lv & H & _).
    exact (Allocate_disjoint _ _ _ _ _ _ _ H Ha IH Hrun).
  - destruct (reachable_Inv _ _ Hr) as (l & lv & H & _).
    exact (Deallocate_disjoint _ _ _ _ _ H IH Hrun).
  - destruct (reachable_Inv _ _ Hr) as (l & lv & H & _).
    assert (Hw0 : is_word 0) by (unfold is_word; vm_compute; split; [discriminate|reflexivity]).
    destruct (Z.eq_dec p 0) as [->|Hp0].
    { unfold Reallocate in Hrun. simpl in Hrun.
      exact (Allocate_disjoint _ _ _ _ _ _ _ H Hw0 IH Hrun). }
    destruct (Z.eq_dec n 0) as [->|Hn0].
    { unfold Reallocate in Hrun. apply Z.eqb_neq in Hp0. rewrite Hp0 in Hrun.
      simpl in Hrun. injection Hrun as _ <-. done. }
    destruct (Reallocate_inv _ _ _ _ _ _ Hp0 Hn0 Hrun)
      as (m & c & s1 & s2 & _ & _ & _ & Hal1 & Hcp & Hde).
    pose proof (Allocate_disjoint _ _ _ _ _ _ _ H Hw0 IH Hal1) as A1.
    destruct (Allocate_wf _ _ _ _ _ _ _ _ H Hw0 Hn0 Hal1) as (m' & Hwf1 & _).
    apply asan_copy_mem_frame in Hcp as [w ->].
    eapply (Deallocate_disjoint p (set_words w s1)); [| |exact Hde].
    + apply wf_set_words. exact Hwf1.
    + apply (disjoint_chunks_frame s1); [done| |done]. intros x c' Hc'. eauto.
Qed.

End Disjoint.

Lemma round_down_pow2 x k :
  0 <= x -> 0 <= k ->
  Z.shiftl (Z.shiftr x k) k <= x /\ x - 2 ^ k < Z.shiftl (Z.shiftr x k) k.
Proof.
  intros Hx Hk. rewrite Z.shiftr_div_pow2, Z.shiftl_mul_pow2 by done.
  assert (Hp : 0 < 2 ^ k) by (apply Z.pow_pos_nonneg; lia).
  pose proof (Z.div_mod x (2 ^ k) ltac:(lia)) as D.
  pose proof (Z.mod_pos_bound x (2 ^ k) Hp) as B. lia.
Qed.

Section Placement.

Variable kMinRedzone : Z.

Local Abbreviation kRedzone := (kRedzone kMinRedzone).
Local Abbreviation RoundUptoRedzone := (RoundUptoRedzone kMinRedzone).
Local Abbreviation needed_size := (needed_size kMinRedzone).
Local Abbreviation Allocate := (Allocate kMinRedzone).
Local Abbreviation PtrToChunk := (PtrToChunk kMinRedzone).

(** Where the block lies in its chunk. *)
Lemma Allocate_block alignment size s l lv p s' :
  wf s l lv -> 0 < kRedzone -> is_word alignment -> 0 < size ->
  spec_needed kRedzone alignment size < 2 ^ WORDSIZE ->
  Allocate alignment size s = Ok (p, s') ->
  exists m c,
    PtrToChunk p s' = Ok (m, s') /\ hdr s' !! m = Some c
    /\ chunk_state c = CHUNK_ALLOCATED /\ used_size c = size
    /\ m + kRedzone <= p
    /\ size <= RoundUptoRedzone size
    /\ p + RoundUptoRedzone size <= m + allocated_size c.
Proof.
  intros H HR Hwa Hs Hnw Hrun.
  assert (Hn : size <> 0) by lia.
  destruct (Allocate_full _ _ _ _ _ _ _ _ H Hwa Hn Hrun)
    as (sz & m & s1 & c1 & s3 & Esz & _ & Hwf1 & _ & _ & Hc1 & Hasz & Hst & Hrange & Hlive
        & Hh' & _ & _ & _ & _ & _ & _ & Hpl & _).
  destruct (Allocate_inv _ _ _ _ _ _ Hwa Hn Hrun)
    as (sz0 & _ & _ & _ & _ & _ & _ & Esz0 & Hlog & _).
  pose proof (wf_brk _ _ _ _ Hwf1) as Hb.
  assert (Ha0 : 0 <= alignment) by apply Hwa.
  pose proof (needed_size_spec kMinRedzone alignment size HR ltac:(lia) Ha0 Hnw) as En.
  destruct (round_up_to_redzone_spec kRedzone size HR) as [Hr _].
  assert (Ern : RoundUptoRedzone size = round_up_to_redzone kRedzone size).
  { unfold RoundUptoRedzone, spec_needed, round_up_to_redzone in *.
    assert (0 <= (if kRedzone <? alignment then alignment else 0))
      by (destruct (_ <? _); lia).
    rewrite (wrap_small (size + kRedzone - 1)) by (unfold is_word; lia).
    apply wrap_small. unfold is_word. lia. }
  assert (Hnpos : 0 < needed_size alignment size).
  { rewrite En. unfold spec_needed. destruct (_ <? _); lia. }
  assert (Hsz : needed_size alignment size <= sz <= 2 ^ (WORDSIZE - 1)).
  { rewrite Esz. split.
    - apply Z.log2_log2_up_spec. done.
    - apply Z.pow_le_mono_r; lia. }
  unfold WORDSIZE in Hsz. change (2 ^ (64 - 1)) with 9223372036854775808 in Hsz.
  exists m, (set_used_size size c1).
  split; [apply resolves_PtrToChunk, Hlive|].
  split. { rewrite Hh'. by rewrite lookup_alter_eq, Hc1. }
  split; [done|]. split; [done|].
  rewrite Ern. cbn [allocated_size set_used_size]. rewrite Hasz.
  rewrite En in Hsz. unfold spec_needed in Hsz.
  assert (Hif : 0 <= (if kRedzone <? alignment then alignment else 0))
    by (destruct (_ <? _); lia).
  destruct Hpl as [(-> & _)|(Hlt & _ & (k & Hk & Ek & Ep) & _)].
  - rewrite wrap_small by (knorm; lia). lia.
  - apply Z.ltb_lt in Hlt as Hlt'. rewrite Hlt' in Hsz.
    rewrite (wrap_small (m + kRedzone)) in Ep by (knorm; lia).
    rewrite (wrap_small (m + kRedzone + alignment - 1)) in Ep by (knorm; lia).
    destruct (round_down_pow2 (m + kRedzone + alignment - 1) k ltac:(knorm; lia) ltac:(lia))
      as [D1 D2].
    rewrite <- Ek in D2.
    rewrite wrap_small in Ep by (knorm; lia).
    lia.
Qed.

End Placement.

(** In every reachable state two chunks have no byte in common and each
    chunk ends inside the mapped heap. *)
Theorem chunks_do_not_overlap (kMinRedzone : Z) (s : heap) :
  reachable kMinRedzone s ->
  (forall x c, hdr s !! x = Some c ->
     mmap_base <= x /\ x + allocated_size c <= brk s)
  /\ (forall x y cx cy, x <> y -> hdr s !! x = Some cx -> hdr s !! y = Some cy ->
        x + allocated_size cx <= y \/ y + allocated_size cy <= x).
Proof.
  intros Hr. destruct (reachable_disjoint _ _ Hr) as [A B].
  destruct (reachable_Inv _ _ Hr) as (l & lv & H & _).
  split; [|done]. intros x c Hc. split; [|by apply A].
  apply (wf_range _ _ _ _ H x c Hc).
Qed.

Lemma chunks_do_not_overlap_witness :
  (forall x c, hdr c9_2 !! x = Some c ->
     mmap_base <= x /\ x + allocated_size c <= brk c9_2)
  /\ (forall x y cx cy, x <> y -> hdr c9_2 !! x = Some cx -> hdr c9_2 !! y = Some cy ->
        x + allocated_size cx <= y \/ y + allocated_size cy <= x).
Proof.
  apply (chunks_do_not_overlap 32 c9_2).
  apply (reach_Reallocate 32 c9_1 c9_p big c9_q c9_2).
  - apply c9_1_reachable.
  - unfold is_word. vm_compute. split; [discriminate|reflexivity].
  - unfold is_word. vm_compute. split; [discriminate|reflexivity].
  - apply c9_2_run.
Defined.

(** The block that [Allocate] returns lies inside its chunk, after the
    redzone that holds the header, and overlaps no other chunk (when the
    sum of the rounded size, the redzone and the alignment slack fits a
    word). *)
Theorem Allocate_block_in_chunk (kMinRedzone alignment size : Z) (s : heap) (p : Z) (s' : heap) :
  reachable kMinRedzone s -> 0 < kRedzone kMinRedzone ->
  is_word alignment -> 0 < size ->
  spec_needed (kRedzone kMinRedzone) alignment size < 2 ^ WORDSIZE ->
  Allocate kMinRedzone alignment size s = Ok (p, s') ->
  exists m c,
    PtrToChunk kMinRedzone p s' = Ok (m, s') /\ hdr s' !! m = Some c
    /\ used_size c = size
    /\ m + kRedzone kMinRedzone <= p
    /\ p + size <= p + RoundUptoRedzone kMinRedzone size
    /\ p + RoundUptoRedzone kMinRedzone size <= m + allocated_size c
    /\ m + allocated_size c <= brk s'
    /\ (forall y cy, y <> m -> hdr s' !! y = Some cy ->
          p + RoundUptoRedzone kMinRedzone size <= y \/ y + allocated_size cy <= p).
Proof.
  intros Hr HR Hwa Hs Hnw Hrun.
  destruct (reachable_Inv _ _ Hr) as (l & lv & H & _).
  destruct (Allocate_block _ _ _ _ _ _ _ _ H HR Hwa Hs Hnw Hrun)
    as (m & c & Hptr & Hc & _ & Hus & Hlo & Hrs & Hhi).
  assert (Hr' : reachable kMinRedzone s').
  { apply (reach_Allocate kMinRedzone s alignment size p s' Hr Hwa); [|done].
    unfold is_word. unfold spec_needed in Hnw.
    destruct (round_up_to_redzone_spec (kRedzone kMinRedzone) size HR) as [Hrr _].
    assert (0 <= (if kRedzone kMinRedzone <? alignment then alignment else 0)).
    { destruct (_ <? _); [apply Hwa|lia]. }
    lia. }
  destruct (reachable_disjoint _ _ Hr') as [A B].
  exists m, c. split; [done|]. split; [done|]. split; [done|]. split; [done|].
  split; [lia|]. split; [done|]. split; [by apply A|].
  intros y cy Hne Hy.
  destruct (B m y c cy ltac:(congruence) Hc Hy) as [D|D]; lia.
Qed.

Lemma Allocate_block_in_chunk_witness :
  exists m c,
    PtrToChunk 32 c9_p c9_1 = Ok (m, c9_1) /\ hdr c9_1 !! m = Some c
    /\ used_size c = 10
    /\ m + kRedzone 32 <= c9_p
    /\ c9_p + 10 <= c9_p + RoundUptoRedzone 32 10
    /\ c9_p + RoundUptoRedzone 32 10 <= m + allocated_size c
    /\ m + allocated_size c <= brk c9_1
    /\ (forall y cy, y <> m -> hdr c9_1 !! y = Some cy ->
          c9_p + RoundUptoRedzone 32 10 <= y \/ y + allocated_size cy <= c9_p).
Proof.
  apply (Allocate_block_in_chunk 32 4096 10 c9_0 c9_p c9_1).
  - apply c9_0_reachable.
  - reflexivity.
  - unfold is_word. vm_compute. split; [discriminate|reflexivity].
  - reflexivity.
  - vm_compute. reflexivity.
  - apply c9_1_run.
Defined.

(** ** The free lists *)

(** The chain of a size class: from [x], through the [next] fields, the
    available chunks [fl] of the size [sz], to the null pointer. *)
Fixpoint lseg (h : gmap Z Chunk) (sz x : Z) (fl : list Z) : Prop :=
  match fl with
  | [] => x = 0
  | y :: fl' =>
      x = y /\ y <> 0
      /\ exists c, h !! y = Some c /\ chunk_state c = CHUNK_AVAILABLE
                   /\ allocated_size c = sz /\ lseg h sz (next c) fl'
  end.

(** Every entry of [chunks] heads such a chain, of the size of its class,
    that visits no chunk twice. *)
Definition free_lists (s : heap) : Prop :=
  forall (i : nat) (v : Z), chunks s !! i = Some v ->
    exists fl, NoDup fl /\ lseg (hdr s) (2 ^ Z.of_nat i) v fl.

Lemma lseg_elem h sz x fl y :
  lseg h sz x fl -> y ∈ fl ->
  exists c, h !! y = Some c /\ chunk_state c = CHUNK_AVAILABLE
            /\ allocated_size c = sz.
Proof.
  revert x. induction fl as [|z fl IH]; intros x H Hy; [by apply elem_of_nil in Hy|].
  destruct H as (_ & _ & c & Hc & Hst & Hsz & H).
  apply elem_of_cons in Hy as [->|Hy]; eauto.
Qed.

Lemma lseg_ext h h' sz x fl :
  lseg h sz x fl ->
  (forall y c, y ∈ fl -> h !! y = Some c ->
     exists c', h' !! y = Some c' /\ next c' = next c
                /\ chunk_state c' = chunk_state c
                /\ allocated_size c' = allocated_size c) ->
  lseg h' sz x fl.
Proof.
  revert x. induction fl as [|z fl IH]; intros x H Hext; [done|].
  destruct H as (-> & Hz & c & Hc & Hst & Hsz & H).
  destruct (Hext z c ltac:(left) Hc) as (c' & Hc' & En & Es & Ea).
  split; [done|]. split; [done|]. exists c'. split; [done|].
  split; [congruence|]. split; [congruence|]. rewrite En.
  apply IH; [done|]. intros y cy Hy. apply Hext. by right.
Qed.

Lemma free_lists0 cap : free_lists (heap0 cap).
Proof.
  intros i v Hv. unfold heap0 in Hv. cbn [chunks] in Hv.
  apply lookup_replicate in Hv as [-> _]. exists []. split; [constructor|done].
Qed.

(** The free lists survive what leaves [chunks] and the links, states and
    sizes of the available chunks alone. *)
Lemma free_lists_frame s s' :
  free_lists s -> chunks s' = chunks s ->
  (forall y c, hdr s !! y = Some c -> chunk_state c = CHUNK_AVAILABLE ->
     exists c', hdr s' !! y = Some c' /\ next c' = next c
                /\ chunk_state c' = chunk_state c
                /\ allocated_size c' = allocated_size c) ->
  free_lists s'.
Proof.
  intros F Ech Hext i v Hv. rewrite Ech in Hv.
  destruct (F i v Hv) as (fl & Hnd & Hfl). exists fl. split; [done|].
  apply (lseg_ext (hdr s)); [done|]. intros y c Hy Hc.
  destruct (lseg_elem _ _ _ _ _ Hfl Hy) as (c0 & Hc0 & Hst0 & _).
  apply Hext; congruence.
Qed.

(** *** [GetNewChunks] *)

(** The chunks that [GetNewChunks] carves, from the [k]-th down to the first. *)
Fixpoint chain (mem sz : Z) (k : nat) : list Z :=
  (mem + Z.of_nat k * sz) ::
  match k with
  | O => []
  | S k' => chain mem sz k'
  end.

Lemma chain_elem mem sz k y :
  y ∈ chain mem sz k -> exists i, (i <= k)%nat /\ y = mem + Z.of_nat i * sz.
Proof.
  induction k as [|k IH]; cbn [chain]; intros Hy.
  - apply list_elem_of_singleton in Hy as ->. exists O. split; [lia|done].
  - apply elem_of_cons in Hy as [->|Hy]; [exists (S k); split; [lia|done]|].
    destruct (IH Hy) as (i & Hi & ->). exists i. split; [lia|done].
Qed.

Lemma chain_NoDup mem sz k : 0 < sz -> NoDup (chain mem sz k).
Proof.
  intros Hsz. induction k as [|k IH]; cbn [chain].
  - apply NoDup_singleton.
  - apply NoDup_cons. split; [|done]. intros Hin.
    apply chain_elem in Hin as (i & Hi & E). nia.
Qed.

Lemma chain_lseg h mem sz n k :
  0 < sz -> 0 < mem ->
  (forall i, 0 <= i < n -> h !! (mem + i * sz) = Some (carved mem sz 0 i)) ->
  Z.of_nat k < n ->
  lseg h sz (mem + Z.of_nat k * sz) (chain mem sz k).
Proof.
  intros Hsz Hmem Hc. induction k as [|k IH]; intros Hk; cbn [chain lseg].
  - split; [done|]. split; [lia|]. eexists. split; [apply Hc; lia|].
    split; [done|]. split; [done|]. done.
  - split; [done|]. split; [nia|]. eexists. split; [apply Hc; lia|].
    split; [done|]. split; [done|]. cbn [carved next].
    destruct (Z.eqb_spec (Z.of_nat (S k)) 0) as [|_]; [lia|].
    replace (Z.of_nat (S k) - 1) with (Z.of_nat k) by lia.
    destruct k as [|k']; apply IH; lia.
Qed.

Lemma GetNewChunks_free_lists j s l lv s' :
  wf s l lv -> 0 <= j < WORDSIZE -> free_lists s ->
  GetNewChunks (2 ^ j) s = Ok (tt, s') -> free_lists s'.
Proof.
  intros H Hj F Hrun.
  destruct (GetNewChunks_new_chunks j s l lv s' H Hj Hrun)
    as (_ & _ & E2 & E3 & Ech & _).
  assert (Hp2 : 0 < 2 ^ j) by (apply Z.pow_pos_nonneg; lia).
  set (n := Z.max (2 ^ j) kMinMmapSize / 2 ^ j) in *.
  assert (Hn : 1 <= n).
  { subst n. apply Z.div_le_lower_bound; lia. }
  pose proof (wf_brk _ _ _ _ H) as Hb. unfold mmap_base in Hb.
  intros i v Hv. rewrite Ech in Hv.
  destruct (decide (i = Z.to_nat j)) as [->|Hne].
  - rewrite list_lookup_insert_eq in Hv.
    2:{ rewrite (wf_chunks _ _ _ _ H). unfold WORDSIZE in *. lia. }
    injection Hv as <-. rewrite Z2Nat.id by lia.
    exists (chain (brk s) (2 ^ j) (Z.to_nat (n - 1))).
    split; [by apply chain_NoDup|].
    replace (n - 1) with (Z.of_nat (Z.to_nat (n - 1))) at 1 by lia.
    apply (chain_lseg _ _ _ n); [done|lia|exact E2|lia].
  - rewrite list_lookup_insert_ne in Hv by done.
    destruct (F i v Hv) as (fl & Hnd & Hfl). exists fl. split; [done|].
    apply (lseg_ext (hdr s)); [done|]. intros y c Hy Hc. exists c. split; [|done].
    rewrite E3; [done|]. intros k Hk ->.
    pose proof (wf_range _ _ _ _ H _ _ Hc). nia.
Qed.

(** *** [AllocateChunk] *)

Lemma AllocateChunk_free_lists size s l lv m s' :
  wf s l lv -> is_word size -> free_lists s ->
  AllocateChunk size s = Ok (m, s') -> free_lists s'.
Proof.
  intros H Hw F Hrun.
  destruct (AllocateChunk_pops _ _ _ _ Hw Hrun)
    as (j & s1 & c & Hj & -> & Href & Hhead & Hm0 & Hc & Hst & Hch & _ & _ & Hkeep).
  assert (F1 : free_lists s1).
  { destruct Href as [(_ & Hg)|(_ & ->)]; [|done].
    by apply (GetNewChunks_free_lists j s l lv s1). }
  destruct (F1 _ _ Hhead) as (fl & Hnd & Hfl). rewrite Z2Nat.id in Hfl by lia.
  destruct fl as [|m' fl]; [done|].
  destruct Hfl as (<- & _ & c' & Hc' & _ & Hsz & Hfl).
  assert (c' = c) by congruence. subst c'.
  apply NoDup_cons in Hnd as [Hm Hnd].
  intros i v Hv. rewrite Hch in Hv.
  destruct (decide (i = Z.to_nat j)) as [->|Hne].
  - rewrite list_lookup_insert_eq in Hv by (by apply lookup_lt_Some in Hhead).
    injection Hv as <-. rewrite Z2Nat.id by lia.
    exists fl. split; [done|].
    apply (lseg_ext (hdr s1)); [done|]. intros y cy Hy Hcy.
    apply Hkeep; [|done]. by intros ->.
  - rewrite list_lookup_insert_ne in Hv by done.
    destruct (F1 i v Hv) as (fl' & Hnd' & Hfl'). exists fl'. split; [done|].
    apply (lseg_ext (hdr s1)); [done|]. intros y cy Hy Hcy.
    apply Hkeep; [|done]. intros ->.
    destruct (lseg_elem _ _ _ _ _ Hfl' Hy) as (c0 & Hc0 & _ & Hsz0).
    assert (c0 = c) by congruence. subst c0.
    rewrite Hsz in Hsz0. apply Z.pow_inj_r in Hsz0; lia.
Qed.

(** The chunk that [AllocateChunk] returns has the size asked for. *)
Lemma AllocateChunk_size j s l lv m s' :
  wf s l lv -> free_lists s -> 0 <= j < WORDSIZE ->
  AllocateChunk (2 ^ j) s = Ok (m, s') ->
  exists c, hdr s' !! m = Some c /\ allocated_size c = 2 ^ j
            /\ chunk_state c = CHUNK_ALLOCATED.
Proof.
  intros H F Hj Hrun.
  assert (Hw : is_word (2 ^ j)) by (by apply pow2_is_word).
  destruct (AllocateChunk_wf _ _ _ _ _ _ H Hw Hrun) as (_ & _ & (c' & Hc' & Hst') & _).
  destruct (AllocateChunk_pops _ _ _ _ Hw Hrun)
    as (j' & s1 & c & Hj' & Ej & Href & Hhead & Hm0 & Hc & Hst & _ & Hdom & _).
  apply Z.pow_inj_r in Ej; [|lia..]. subst j'.
  assert (F1 : free_lists s1).
  { destruct Href as [(_ & Hg)|(_ & ->)]; [|done].
    by apply (GetNewChunks_free_lists j s l lv s1). }
  destruct (F1 _ _ Hhead) as (fl & _ & Hfl). rewrite Z2Nat.id in Hfl by lia.
  destruct fl as [|m' fl]; [done|].
  destruct Hfl as (<- & _ & c0 & Hc0 & _ & Hsz & _).
  destruct (Hdom m c' Hc') as (c1 & Hc1 & E1).
  exists c'. split; [done|]. split; [congruence|done].
Qed.

(** *** [pop] and the loop of [TakeChunkBack] *)

Lemma pop_free_lists s l0 t lv s' :
  wf s (l0 ++ [t]) lv -> free_lists s -> pop s = Ok (tt, s') -> free_lists s'.
Proof.
  intros H F Hrun.
  destruct (pop_spec _ _ _ _ H) as (s'' & Hpop & Hwf' & Hpost).
  rewrite Hrun in Hpop. injection Hpop as <-.
  destruct Hpost as (_ & Hss & (c' & Hc' & Hst' & Hnx') & Hch & _ & _ & _ & _ & _ & _ & Hav).
  destruct (wf_ring_lookup _ _ _ _ t H) as (ct & Hct & Hstt).
  { apply elem_of_app. right. left. }
  destruct (wf_pow2 _ _ _ _ H t ct Hct) as (j & Hj & Hasz).
  rewrite (asz_of_lookup _ _ _ Hct), Hasz, Z.log2_pow2 in Hch, Hnx' by lia.
  assert (Hjl : (Z.to_nat j < length (chunks s))%nat).
  { rewrite (wf_chunks _ _ _ _ H). unfold WORDSIZE in *. lia. }
  assert (Hkeep : forall sz x fl, lseg (hdr s) sz x fl -> lseg (hdr s') sz x fl).
  { intros sz x fl Hfl. apply (lseg_ext (hdr s)); [done|]. intros y c Hy Hc.
    destruct (lseg_elem _ _ _ _ _ Hfl Hy) as (c0 & Hc0 & Hst0 & _).
    exists c. split; [|done]. apply Hav; congruence. }
  intros i v Hv. rewrite Hch in Hv.
  destruct (decide (i = Z.to_nat j)) as [->|Hne].
  - rewrite list_lookup_insert_eq in Hv by done. injection Hv as <-.
    destruct (lookup_lt_is_Some_2 _ _ Hjl) as [hd0 Hhd0].
    destruct (F _ _ Hhd0) as (fl & Hnd & Hfl).
    rewrite Hhd0 in Hnx'. simpl in Hnx'.
    exists (t :: fl). split.
    + apply NoDup_cons. split; [|done]. intros Hin.
      destruct (lseg_elem _ _ _ _ _ Hfl Hin) as (c0 & Hc0 & Hst0 & _).
      assert (c0 = ct) by congruence. subst c0. rewrite Hstt in Hst0. discriminate.
    + split; [done|]. split; [by apply (wf_nonnull _ _ _ _ _ _ H Hct)|].
      exists c'. split; [done|]. split; [done|]. split.
      * destruct (same_sizes_lookup _ _ _ _ Hss Hc') as (c0 & Hc0 & <-).
        rewrite Z2Nat.id by lia. congruence.
      * rewrite Hnx'. by apply Hkeep.
  - rewrite list_lookup_insert_ne in Hv by done.
    destruct (F i v Hv) as (fl & Hnd & Hfl). exists fl. split; [done|]. by apply Hkeep.
Qed.

Lemma evict_free_lists fuel : forall s l lv s',
  wf s l lv -> (length l < fuel)%nat -> free_lists s ->
  evict fuel s = Ok (tt, s') -> free_lists s'.
Proof.
  induction fuel as [|fuel IH]; intros s l lv s' H Hlen F Hrun; [lia|].
  pose proof (wf_qsize _ _ _ _ H) as Hqs.
  cbn [evict] in Hrun.
  destruct (negb (quarantine_size_ s =? 0)
            && (flag_quarantine_size s <? quarantine_size_ s)) eqn:Hcond.
  - apply andb_true_iff in Hcond as [Hne Hlt].
    apply negb_true_iff, Z.eqb_neq in Hne.
    destruct l as [|x l1] using rev_ind; [simpl in Hqs; lia|]. clear IHl1.
    destruct (pop_spec _ _ _ _ H) as (s1 & Hpop & Hwf1 & _).
    rewrite (bind_step _ _ _ _ _ Hpop) in Hrun.
    apply (IH s1 l1 lv s'); [done| |by apply (pop_free_lists s l1 x lv)|done].
    rewrite length_app in Hlen. simpl in Hlen. lia.
  - injection Hrun as <-. done.
Qed.

(** *** [TakeChunkBack] *)

Lemma TakeChunkBack_free_lists s l l1 l2 m s' :
  wf s l (l1 ++ m :: l2) -> 0 < flag_quarantine_size s -> free_lists s ->
  TakeChunkBack m s = Ok (tt, s') -> free_lists s'.
Proof.
  intros H Hflag F. apply (TakeChunkBack_links s l l1 l2 m); [done..|].
  intros s3 c Hc Hwf3 Hlen _ _ _ _ Hfr Hch _ _ _ _ Hev.
  apply (evict_free_lists (S (size (hdr s3))) s3 (m :: l) (l1 ++ l2) s'); [done|lia| |done].
  apply (free_lists_frame s); [done|done|].
  intros y cy Hcy Hst. exists cy. split; [|done]. rewrite Hfr; [done| |].
  - intros Hin.
    destruct (dlseg_elem _ _ _ _ _ _ (wf_live _ _ _ _ H) Hin) as (c2 & Hc2 & Hst2).
    assert (c2 = cy) by congruence. subst c2. rewrite Hst in Hst2. discriminate.
  - intros Hin. destruct (wf_ring_lookup _ _ _ _ y H Hin) as (c2 & Hc2 & Hst2).
    assert (c2 = cy) by congruence. subst c2. rewrite Hst in Hst2. discriminate.
Qed.

Section FreeLists.

Variable kMinRedzone : Z.

Local Abbreviation kRedzone := (kRedzone kMinRedzone).
Local Abbreviation RoundUptoRedzone := (RoundUptoRedzone kMinRedzone).
Local Abbreviation needed_size := (needed_size kMinRedzone).
Local Abbreviation Allocate := (Allocate kMinRedzone).
Local Abbreviation PtrToChunk := (PtrToChunk kMinRedzone).
Local Abbreviation Deallocate := (Deallocate kMinRedzone).
Local Abbreviation Reallocate := (Reallocate kMinRedzone).

Lemma Allocate_free_lists alignment size s l lv p s' :
  wf s l lv -> is_word alignment -> free_lists s ->
  Allocate alignment size s = Ok (p, s') -> free_lists s'.
Proof.
  intros H Hwa F Hrun.
  destruct (Z.eq_dec size 0) as [->|Hn].
  { injection Hrun as _ <-. done. }
  destruct (Allocate_full _ _ _ _ _ _ _ _ H Hwa Hn Hrun)
    as (sz & m & s1 & c1 & s3 & Esz & Hdraw & _ & _ & _ & _ & _ & _ & _ & _ & Hh' & _ & _ & _
        & _ & _ & Hch' & _).
  destruct (Allocate_inv _ _ _ _ _ _ Hwa Hn Hrun)
    as (sz0 & _ & _ & _ & _ & _ & _ & Esz0 & Hlog & _).
  assert (Hw : is_word sz) by (rewrite Esz; by apply pow2_is_word).
  pose proof (AllocateChunk_free_lists _ _ _ _ _ _ H Hw F Hdraw) as F1.
  apply (free_lists_frame s1); [done|done|].
  intros y c Hc _. rewrite Hh'.
  destruct (decide (y = m)) as [->|Hne].
  - rewrite lookup_alter_eq, Hc. simpl. eauto.
  - rewrite lookup_alter_ne by done. eauto.
Qed.

Lemma Deallocate_free_lists p s l lv s' :
  wf s l lv -> free_lists s ->
  Deallocate p s = Ok (tt, s') -> free_lists s'.
Proof.
  intros H F Hrun.
  destruct (Z.eq_dec p 0) as [->|Hp].
  { injection Hrun as <-. done. }
  destruct (Deallocate_inv _ _ _ _ Hp Hrun)
    as (m & c & sp & Hptr & Hc & Hst & Hps & Htcb & Hflag).
  assert (Hin : m ∈ lv) by (eapply wf_alloc; eauto).
  apply list_elem_of_split in Hin as (l1 & l2 & ->).
  pose proof (PoisonShadow_frame _ _ _ _ _ _ Hps) as [f Esp].
  assert (Hwfp : wf sp l (l1 ++ m :: l2)).
  { unfold wf. subst sp. hsimpl.
    eapply wf_at_frame; [exact H|hsimpl; try done..].
    pose proof (wf_brk _ _ _ _ H). lia. }
  apply (TakeChunkBack_free_lists sp l l1 l2 m s'); [done| | |done].
  - subst sp. hsimpl. exact Hflag.
  - apply (free_lists_frame s); [done|by subst sp|].
    intros y cy Hcy _. subst sp. hsimpl. eauto.
Qed.

Lemma reachable_free_lists s : reachable kMinRedzone s -> free_lists s.
Proof.
  induction 1 as [cap Hc|s a n p s' Hr IH Ha Hn Hrun|s p s' Hr IH Hp Hrun
                 |s p n q s' Hr IH Hp Hn Hrun].
  - apply free_lists0.
  - destruct (reachable_Inv _ _ Hr) as (l & lv & H & _).
    exact (Allocate_free_lists _ _ _ _ _ _ _ H Ha IH Hrun).
  - destruct (reachable_Inv _ _ Hr) as (l & lv & H & _).
    exact (Deallocate_free_lists _ _ _ _ _ H IH Hrun).
  - destruct (reachable_Inv _ _ Hr) as (l & lv & H & _).
    assert (Hw0 : is_word 0) by (unfold is_word; vm_compute; split; [discriminate|reflexivity]).
    destruct (Z.eq_dec p 0) as [->|Hp0].
    { unfold Reallocate in Hrun. simpl in Hrun.
      exact (Allocate_free_lists _ _ _ _ _ _ _ H Hw0 IH Hrun). }
    destruct (Z.eq_dec n 0) as [->|Hn0].
    { unfold Reallocate in Hrun. apply Z.eqb_neq in Hp0. rewrite Hp0 in Hrun.
      simpl in Hrun. injection Hrun as _ <-. done. }
    destruct (Reallocate_inv _ _ _ _ _ _ Hp0 Hn0 Hrun)
      as (m & c & s1 & s2 & _ & _ & _ & Hal1 & Hcp & Hde).
    pose proof (Allocate_free_lists _ _ _ _ _ _ _ H Hw0 IH Hal1) as A1.
    destruct (Allocate_wf _ _ _ _ _ _ _ _ H Hw0 Hn0 Hal1) as (m' & Hwf1 & _).
    apply asan_copy_mem_frame in Hcp as [w ->].
    eapply (Deallocate_free_lists p (set_words w s1)); [| |exact Hde].
    + apply wf_set_words. exact Hwf1.
    + apply (free_lists_frame s1); [done|done|]. intros y c' Hc' _. eauto.
Qed.

End FreeLists.

(** In every reachable state each entry of [chunks] heads a chain of
    [next] links that ends in the null pointer and visits, without
    repetition, only available chunks whose [allocated_size] is the size of
    the class; so a non-null head is itself such a chunk. *)
Theorem free_lists_hold (kMinRedzone : Z) (s : heap) (i : nat) (v : Z) :
  reachable kMinRedzone s -> chunks s !! i = Some v ->
  (exists fl, NoDup fl /\ lseg (hdr s) (2 ^ Z.of_nat i) v fl)
  /\ (v <> 0 -> exists c, hdr s !! v = Some c
                          /\ chunk_state c = CHUNK_AVAILABLE
                          /\ allocated_size c = 2 ^ Z.of_nat i).
Proof.
  intros Hr Hv.
  destruct (reachable_free_lists _ _ Hr i v Hv) as (fl & Hnd & Hfl).
  split; [eauto|]. intros Hv0.
  destruct fl as [|y fl]; [done|].
  destruct Hfl as (-> & _ & c & Hc & Hst & Hsz & _). eauto.
Qed.

Lemma free_lists_hold_witness :
  (exists fl, NoDup fl /\ lseg (hdr c9_1) (2 ^ Z.of_nat 13) 4295475200 fl)
  /\ (4295475200 <> 0 -> exists c, hdr c9_1 !! 4295475200 = Some c
                          /\ chunk_state c = CHUNK_AVAILABLE
                          /\ allocated_size c = 2 ^ Z.of_nat 13).
Proof.
  apply (free_lists_hold 32 c9_1 13 4295475200).
  - apply c9_1_reachable.
  - vm_compute. reflexivity.
Defined.


(** ** Runs that return *)

Lemma RoundUptoPowerOfTwo_run size s :
  0 < size <= 2 ^ (WORDSIZE - 1) ->
  RoundUptoPowerOfTwo size s = Ok (2 ^ Z.log2_up size, s).
Proof.
  intros Hs.
  assert (Hw : is_word size).
  { unfold is_word, WORDSIZE in *. change (2 ^ (64 - 1)) with 9223372036854775808 in Hs.
    change (2 ^ 64) with 18446744073709551616. lia. }
  assert (Hk : 0 <= Z.log2_up size < WORDSIZE).
  { split; [apply Z.log2_up_nonneg|].
    assert (Z.log2_up size <= WORDSIZE - 1); [|lia].
    apply Z.log2_up_le_pow2; unfold WORDSIZE in *; lia. }
  unfold RoundUptoPowerOfTwo.
  assert (Hnz : negb (size =? 0) = true) by (apply negb_true_iff, Z.eqb_neq; lia).
  rewrite bind_CHECK by done.
  destruct (IsPowerOfTwo size) eqn:Hp.
  - apply IsPowerOfTwo_inv in Hp as (j & Hj & ->); [|done|lia].
    rewrite Z.log2_up_pow2 by lia. done.
  - assert (Hnp : 2 ^ Z.log2 size <> size).
    { intros E. rewrite <- E in Hp. rewrite IsPowerOfTwo_pow2 in Hp; [done|].
      split; [apply Z.log2_nonneg|]. apply Z.log2_lt_pow2; [lia|]. apply Hw. }
    destruct (Z.log2_spec size ltac:(lia)) as [Hlo Hhi].
    assert (Hup : Z.log2_up size = Z.succ (Z.log2 size)).
    { destruct (Z.log2_log2_up_spec size ltac:(lia)) as [H1 H2].
      pose proof (Z.le_log2_up_succ_log2 size) as H3.
      pose proof (Z.le_log2_log2_up size) as H4.
      destruct (Z.eq_dec (Z.log2_up size) (Z.log2 size)) as [E|E]; [|lia].
      exfalso. apply Hnp. rewrite E in H2. lia. }
    unfold clzl.
    replace (WORDSIZE - (WORDSIZE - 1 - Z.log2 size)) with (Z.log2_up size) by lia.
    unfold shl1 at 1.
    assert (Hr : (0 <=? Z.log2_up size) && (Z.log2_up size <? WORDSIZE) = true).
    { apply andb_true_iff. split; [apply Z.leb_le|apply Z.ltb_lt]; lia. }
    rewrite Hr. rewrite bind_ret.
    rewrite bind_CHECK by (apply Z.ltb_lt; rewrite Hup; lia).
    unfold shl1 at 1.
    assert (Hr' : (0 <=? Z.log2_up size - 1) && (Z.log2_up size - 1 <? WORDSIZE) = true).
    { pose proof (Z.log2_nonneg size).
      apply andb_true_iff. split; [apply Z.leb_le|apply Z.ltb_lt]; lia. }
    rewrite Hr'. rewrite bind_ret.
    rewrite bind_CHECK.
    2:{ apply Z.ltb_lt. replace (Z.log2_up size - 1) with (Z.log2 size) by lia. lia. }
    unfold shl1. rewrite Hr. done.
Qed.

Lemma PoisonShadow_run mem size v s :
  mmap_base <= mem -> 0 <= size -> mem + size <= brk s -> brk s <= mmap_limit ->
  mem mod 8 = 0 -> size mod 8 = 0 ->
  exists f, PoisonShadow mem size v s = Ok (tt, set_shadow f s).
Proof.
  intros Hlo Hs Hhi Hlim Hm Hsz. unfold PoisonShadow.
  rewrite bind_CHECK by (by apply IsAligned_granule).
  rewrite (wrap_small (mem + size)) by (knorm; lia).
  rewrite bind_CHECK.
  2:{ apply IsAligned_granule. rewrite Z.add_mod, Hm, Hsz by lia. done. }
  rewrite !MemToShadow_div.
  assert (Hle : mem / 8 <= (mem + size) / 8) by (apply Z.div_le_mono; lia).
  pose proof (Z.div_mod mem 8 ltac:(lia)) as D1.
  pose proof (Z.div_mod (mem + size) 8 ltac:(lia)) as D2.
  pose proof (Z.mod_pos_bound mem 8 ltac:(lia)) as D3.
  pose proof (Z.mod_pos_bound (mem + size) 8 ltac:(lia)) as D4.
  rewrite wrap_small by (knorm; lia).
  unfold memset_shadow. destruct ((mem + size) / 8 - mem / 8 =? 0).
  { exists (shadow s). by destruct s. }
  rewrite !MemToShadow_div.
  assert (Hc2 : (mmap_base / 8 <=? mem / 8)
                && (mem / 8 + ((mem + size) / 8 - mem / 8) <=? brk s / 8) = true).
  { apply andb_true_iff. split; apply Z.leb_le; [apply Z.div_le_mono; lia|].
    replace (mem / 8 + ((mem + size) / 8 - mem / 8)) with ((mem + size) / 8) by lia.
    apply Z.div_le_mono; lia. }
  rewrite Hc2. eauto.
Qed.

Lemma MmapNewPages_run size s :
  size mod kPageSize = 0 -> 0 < size -> brk s + size <= mmap_limit ->
  mmap_base <= brk s -> brk s mod 8 = 0 ->
  exists f, MmapNewPages size s
            = Ok (brk s, set_shadow f (set_brk (brk s + size) s)).
Proof.
  intros Hm Hpos Hlim Hb Hal. unfold MmapNewPages, mmap.
  rewrite bind_CHECK by (by apply Z.eqb_eq).
  assert (Hc : (0 <? size) && (brk s + size <=? mmap_limit) = true).
  { apply andb_true_iff. split; [apply Z.ltb_lt|apply Z.leb_le]; lia. }
  unfold bind at 1. rewrite Hc.
  assert (Hnf : (brk s =? MAP_FAILED) = false).
  { apply Z.eqb_neq. assert (Hmf : MAP_FAILED = 18446744073709551615) by reflexivity.
    knorm. lia. }
  rewrite Hnf.
  assert (Hsz : size mod 8 = 0).
  { unfold kPageSize in Hm. apply Z.mod_divide in Hm; [|lia]. destruct Hm as [q ->].
    replace (q * 4096) with (q * 512 * 8) by lia. apply Z.mod_mul. lia. }
  destruct (PoisonShadow_run (brk s) size 255 (set_brk (brk s + size) s))
    as [f Hrun]; hsimpl; try lia; try done.
  exists f. unfold bind. rewrite Hrun. done.
Qed.

Lemma GetNewChunks_loop_run n : forall mem size idx i s,
  0 <= idx -> (Z.to_nat idx < length (chunks s))%nat ->
  exists s', GetNewChunks_loop n mem size idx i s = Ok (tt, s').
Proof.
  induction n as [|n IH]; intros mem size idx i s Hidx Hlen; cbn [GetNewChunks_loop].
  - eexists. reflexivity.
  - destruct (lookup_lt_is_Some_2 _ _ Hlen) as [v Hv].
    rewrite (bind_chunks_get idx v) by done.
    unfold bind at 1, init_chunk.
    rewrite bind_chunks_set by (hsimpl; done).
    apply IH; [done|]. hsimpl. by rewrite length_insert.
Qed.

Lemma max_pow2 a b : 0 <= a -> 0 <= b -> Z.max (2 ^ a) (2 ^ b) = 2 ^ Z.max a b.
Proof.
  intros Ha Hb. destruct (Z.le_ge_cases a b).
  - rewrite !Z.max_r; [done|lia|]. apply Z.pow_le_mono_r; lia.
  - rewrite !Z.max_l; [done|lia|]. apply Z.pow_le_mono_r; lia.
Qed.

Lemma GetNewChunks_run j s l lv :
  wf s l lv -> 0 <= j < WORDSIZE -> chunks s !! Z.to_nat j = Some 0 ->
  brk s mod 8 = 0 -> brk s + Z.max (2 ^ j) kMinMmapSize <= mmap_limit ->
  exists s', GetNewChunks (2 ^ j) s = Ok (tt, s').
Proof.
  intros H Hj Hhead Hal Hroom. unfold GetNewChunks.
  rewrite bind_Log2 by done.
  rewrite (bind_chunks_get j 0) by (first [lia|done]).
  rewrite bind_CHECK by done.
  rewrite bind_CHECK by (by apply IsPowerOfTwo_pow2).
  rewrite bind_CHECK by reflexivity.
  assert (Emax : Z.max (2 ^ j) kMinMmapSize = 2 ^ Z.max j 19).
  { change kMinMmapSize with (2 ^ 19). apply max_pow2; lia. }
  rewrite Emax in *.
  assert (Hmj : 0 <= Z.max j 19 < WORDSIZE) by (unfold WORDSIZE in *; lia).
  rewrite bind_CHECK by (by apply IsPowerOfTwo_pow2).
  assert (Hp : 0 < 2 ^ Z.max j 19) by (apply Z.pow_pos_nonneg; lia).
  destruct (MmapNewPages_run (2 ^ Z.max j 19) s) as [f Hm]; try done.
  - change kPageSize with (2 ^ 12). apply mod0_divide; [lia|].
    apply pow2_divide. lia.
  - apply (wf_brk _ _ _ _ H).
  - rewrite (bind_step _ _ _ _ _ Hm).
    apply GetNewChunks_loop_run; [lia|]. hsimpl.
    by apply lookup_lt_Some in Hhead.
Qed.

Lemma AllocateChunk_run j s l lv :
  wf s l lv -> free_lists s -> 0 <= j < WORDSIZE -> brk s mod 8 = 0 ->
  (chunks s !! Z.to_nat j = Some 0 ->
   brk s + Z.max (2 ^ j) kMinMmapSize <= mmap_limit) ->
  exists m s', AllocateChunk (2 ^ j) s = Ok (m, s').
Proof.
  intros H F Hj Hal Hroom. unfold AllocateChunk.
  rewrite bind_CHECK by (by apply IsPowerOfTwo_pow2).
  rewrite bind_Log2 by done.
  assert (Hjl : (Z.to_nat j < length (chunks s))%nat).
  { rewrite (wf_chunks _ _ _ _ H). unfold WORDSIZE in *. lia. }
  destruct (lookup_lt_is_Some_2 _ _ Hjl) as [head Hhead].
  rewrite (bind_chunks_get j head) by (first [lia|done]).
  assert (Href : exists s1,
            (if head =? 0 then GetNewChunks (2 ^ j) else ret tt) s = Ok (tt, s1)
            /\ wf s1 l lv /\ free_lists s1
            /\ exists m, chunks s1 !! Z.to_nat j = Some m /\ m <> 0).
  { destruct (Z.eqb_spec head 0) as [->|Hne].
    - destruct (GetNewChunks_run j s l lv H Hj Hhead Hal (Hroom Hhead)) as [s1 Hg].
      exists s1. split; [done|]. split.
      { apply (GetNewChunks_wf s l lv (2 ^ j) s1 H); [by apply pow2_is_word|done]. }
      split; [by apply (GetNewChunks_free_lists j s l lv s1)|].
      destruct (GetNewChunks_new_chunks j s l lv s1 H Hj Hg) as (_ & _ & _ & _ & Ech & _).
      eexists. split; [rewrite Ech; by apply list_lookup_insert_eq|].
      assert (Hp2 : 0 < 2 ^ j) by (apply Z.pow_pos_nonneg; lia).
      assert (Hn : 1 <= Z.max (2 ^ j) kMinMmapSize / 2 ^ j).
      { apply Z.div_le_lower_bound; lia. }
      pose proof (wf_brk _ _ _ _ H) as Hb. unfold mmap_base in Hb. nia.
    - exists s. split; [done|]. split; [done|]. split; [done|]. eauto. }
  destruct Href as (s1 & Hr & H1 & F1 & m & Hm & Hm0).
  rewrite (bind_step _ _ _ _ _ Hr).
  rewrite (bind_chunks_get j m) by (first [lia|done]).
  rewrite bind_CHECK by (by apply negb_true_iff, Z.eqb_neq).
  destruct (F1 _ _ Hm) as (fl & _ & Hfl).
  destruct fl as [|m' fl]; [done|].
  destruct Hfl as (<- & _ & c & Hc & Hst & _).
  rewrite (bind_load _ _ _ _ Hc).
  rewrite bind_chunks_set by (first [lia|by apply lookup_lt_Some in Hm]).
  step_update. step_load.
  step_check. { by apply Z.eqb_eq. }
  step_update. rewrite bind_get. hsimpl.
  destruct (Z.eqb_spec (malloced_items_ s1) 0) as [Hmi|Hmi].
  - rewrite bind_ret. step_update. rewrite bind_modify. eexists _, _. reflexivity.
  - step_update.
    { rewrite !lookup_alter_is_Some.
      pose proof (wf_live_head _ _ _ _ H1) as Hh. pose proof (wf_live _ _ _ _ H1) as Hl.
      destruct lv as [|x lv']; [simpl in Hh; lia|]. simpl in Hh. rewrite Hh.
      destruct (dlseg_elem _ _ _ _ _ x Hl ltac:(left)) as (cx & Hcx & _). eauto. }
    step_update. { rewrite !lookup_alter_is_Some. eauto. }
    rewrite bind_modify. eexists _, _. reflexivity.
Qed.

Lemma field_at_None s a :
  (forall t, 0 <= t <= 32 -> hdr s !! (a - t) = None) -> field_at s a = None.
Proof.
  intros Hn. unfold field_at. change kWordSize with 8.
  pose proof (Hn 0 ltac:(lia)) as H0. rewrite Z.sub_0_r in H0.
  rewrite H0, (Hn 8), (Hn (2 * 8)), (Hn (3 * 8)), (Hn (4 * 8)) by lia. done.
Qed.

Lemma store_word_run a v s :
  field_at s a = None -> mmap_base <= a -> a + 8 <= brk s -> a mod 8 = 0 ->
  store_word a v s = Ok (tt, set_words (<[a := v]> (words s)) s).
Proof.
  intros Hf Hlo Hhi Hal. unfold store_word, mapped. rewrite Hf.
  change kWordSize with 8. rewrite Hal.
  destruct (Z.leb_spec mmap_base a); [|lia].
  destruct (Z.leb_spec (a + 8) (brk s)); [|lia]. done.
Qed.

(** No header lies inside a chunk. *)
Lemma inside_chunk s l lv m c y :
  wf s l lv -> disjoint_chunks s -> hdr s !! m = Some c ->
  m < y < m + allocated_size c -> hdr s !! y = None.
Proof.
  intros H [_ B] Hc Hy. destruct (hdr s !! y) as [cy|] eqn:Hcy; [|done].
  pose proof (wf_asz_pos _ _ _ _ _ _ H Hcy).
  destruct (B m y c cy ltac:(lia) Hc Hcy); lia.
Qed.

Section Totality.

Variable kMinRedzone : Z.

Local Abbreviation kRedzone := (kRedzone kMinRedzone).
Local Abbreviation RoundUptoRedzone := (RoundUptoRedzone kMinRedzone).
Local Abbreviation needed_size := (needed_size kMinRedzone).
Local Abbreviation Allocate := (Allocate kMinRedzone).

Variable r : Z.
Hypothesis r_range : 6 <= r <= 12.
Hypothesis kRedzone_pow2 : kRedzone = 2 ^ r.

Lemma kRedzone_range : 64 <= kRedzone <= 4096.
Proof.
  rewrite kRedzone_pow2. change 64 with (2 ^ 6). change 4096 with (2 ^ 12).
  split; apply Z.pow_le_mono_r; lia.
Qed.

Lemma kRedzone_mult8 x : x mod kRedzone = 0 -> x mod 8 = 0.
Proof.
  pose proof kRedzone_range as HR. intros Hx.
  apply mod0_divide; [lia|]. apply mod0_divide in Hx; [|lia].
  apply (Z.divide_trans _ kRedzone); [|done].
  rewrite kRedzone_pow2. change 8 with (2 ^ 3). apply pow2_divide. lia.
Qed.

(** The sizes of [Allocate] when nothing wraps. *)
Lemma Allocate_sizes alignment size :
  is_word alignment -> IsPowerOfTwo alignment = true -> 0 < size ->
  size + 2 * kRedzone + alignment <= 2 ^ (WORDSIZE - 1) ->
  let rd := RoundUptoRedzone size in
  let N := needed_size alignment size in
  size <= rd /\ kRedzone <= rd /\ rd mod kRedzone = 0
  /\ N = rd + kRedzone + (if kRedzone <? alignment then alignment else 0)
  /\ N mod kRedzone = 0 /\ N <= 2 ^ (WORDSIZE - 1)
  /\ (kRedzone < alignment -> exists k, r < k < WORDSIZE /\ alignment = 2 ^ k).
Proof.
  intros Hwa Hpa Hs Hfit rd N.
  pose proof kRedzone_range as HR.
  assert (H63 : 2 ^ (WORDSIZE - 1) = 9223372036854775808) by reflexivity.
  rewrite H63 in *.
  destruct (round_up_to_redzone_spec kRedzone size ltac:(lia)) as [[Hle Hlt] Hmod].
  assert (Erd : rd = round_up_to_redzone kRedzone size).
  { subst rd. unfold RoundUptoRedzone.
    rewrite (wrap_small (size + kRedzone - 1)) by (knorm; lia).
    fold (round_up_to_redzone kRedzone size). apply wrap_small. knorm. lia. }
  assert (HrdR : kRedzone <= rd).
  { rewrite Erd. apply mod0_divide in Hmod; [|lia]. destruct Hmod as [q Hq].
    assert (1 <= q) by nia. rewrite Hq. nia. }
  assert (EN : N = rd + kRedzone + (if kRedzone <? alignment then alignment else 0)).
  { subst N. rewrite needed_size_spec; [|lia|lia|apply Hwa|].
    - unfold spec_needed. by rewrite <- Erd.
    - unfold spec_needed. rewrite <- Erd. destruct (_ <? _); knorm; lia. }
  assert (Hk : kRedzone < alignment -> exists k, r < k < WORDSIZE /\ alignment = 2 ^ k).
  { intros Hra. destruct (IsPowerOfTwo_inv alignment Hwa ltac:(lia) Hpa) as (k & Hk & Ek).
    exists k. split; [|done]. split; [|lia].
    rewrite kRedzone_pow2, Ek in Hra. apply Z.pow_lt_mono_r_iff in Hra; lia. }
  split; [lia|]. split; [done|]. split; [congruence|]. split; [done|].
  split; [|split; [|done]].
  - rewrite EN, Erd. destruct (Z.ltb_spec kRedzone alignment) as [Hra|_].
    + destruct (Hk Hra) as (k & Hkr & Ek).
      assert (Ha : alignment mod kRedzone = 0).
      { apply mod0_divide; [lia|]. rewrite kRedzone_pow2, Ek. apply pow2_divide. lia. }
      rewrite Z.add_mod, (Z.add_mod _ kRedzone), Hmod, Z.mod_same, Ha by lia. done.
    + rewrite Z.add_0_r, Z.add_mod, Hmod, Z.mod_same by lia. done.
  - rewrite EN, Erd. unfold is_word in Hwa. destruct (_ <? _); lia.
Qed.

Lemma Allocate_run alignment size s l lv :
  wf s l lv -> free_lists s -> aligned_heap kRedzone s -> disjoint_chunks s ->
  is_word alignment -> IsPowerOfTwo alignment = true -> 0 < size ->
  size + 2 * kRedzone + alignment <= 2 ^ (WORDSIZE - 1) ->
  (chunks s !! Z.to_nat (Z.log2_up (needed_size alignment size)) = Some 0 ->
   brk s + Z.max (2 ^ Z.log2_up (needed_size alignment size)) kMinMmapSize
   <= mmap_limit) ->
  exists p s', Allocate alignment size s = Ok (p, s').
Proof.
  intros H F Hal Hd Hwa Hpa Hs Hfit Hroom.
  pose proof kRedzone_range as HR.
  destruct (Allocate_sizes alignment size Hwa Hpa Hs Hfit)
    as (Hle & HrdR & Hrdm & EN & HNm & HN63 & Hk).
  remember (RoundUptoRedzone size) as rd eqn:Erd.
  remember (needed_size alignment size) as N eqn:ENN.
  assert (HNpos : 2 * kRedzone <= N).
  { rewrite EN. unfold is_word in Hwa. destruct (_ <? _); lia. }
  set (j := Z.log2_up N) in *.
  assert (Hj : 0 <= j < WORDSIZE).
  { split; [apply Z.log2_up_nonneg|].
    assert (j <= WORDSIZE - 1); [|lia].
    apply Z.log2_up_le_pow2; unfold WORDSIZE in *; lia. }
  destruct (round_up_to_power_of_two_least N ltac:(lia)) as [HNj _].
  unfold round_up_to_power_of_two in HNj. fold j in HNj.
  assert (Hrj : r <= j).
  { apply (Z.pow_le_mono_r_iff 2); [lia|lia|]. rewrite <- kRedzone_pow2. lia. }
  assert (Hjm : 2 ^ j mod kRedzone = 0).
  { apply mod0_divide; [lia|]. rewrite kRedzone_pow2. apply pow2_divide. lia. }
  assert (Hw : is_word (2 ^ j)) by (by apply pow2_is_word).
  destruct (AllocateChunk_run j s l lv H F Hj) as (m & s1 & Hdraw); [|done|].
  { destruct Hal as [_ Hb]. unfold kPageSize in Hb.
    apply mod0_divide; [lia|]. apply mod0_divide in Hb; [|lia].
    apply (Z.divide_trans _ 4096); [|done]. exists 512. lia. }
  destruct (AllocateChunk_wf _ _ _ _ _ _ H Hw Hdraw) as (H1 & _ & _ & _).
  destruct (AllocateChunk_size j s l lv m s1 H F Hj Hdraw) as (c1 & Hc1 & Hsz1 & Hst1).
  pose proof (AllocateChunk_aligned_heap kMinRedzone ltac:(lia)
                ltac:(apply mod0_divide; [lia|]; rewrite kRedzone_pow2;
                      change kPageSize with (2 ^ 12); apply pow2_divide; lia)
                _ _ _ _ _ _ H Hw Hjm Hal Hdraw) as Hal1.
  pose proof (AllocateChunk_disjoint _ _ _ _ _ _ H Hw Hd Hdraw) as Hd1.
  pose proof (wf_range _ _ _ _ H1 m c1 Hc1) as Hmr.
  pose proof (wf_brk _ _ _ _ H1) as Hb1.
  pose proof (proj1 Hd1 m c1 Hc1) as Hend. rewrite Hsz1 in Hend.
  pose proof (proj1 Hal1 m c1 Hc1) as Hmm.
  unfold Allocate.
  assert (Hs0 : (size =? 0) = false) by (apply Z.eqb_neq; lia). rewrite Hs0.
  rewrite bind_CHECK by done.
  rewrite <- ENN, <- Erd.
  rewrite bind_CHECK by (by apply Z.eqb_eq).
  rewrite (bind_step _ _ _ _ _ (RoundUptoPowerOfTwo_run N s ltac:(lia))). fold j.
  rewrite bind_CHECK by (apply Z.leb_le; unfold kMinAllocSize; lia).
  rewrite bind_CHECK by (by apply Z.eqb_eq).
  rewrite (bind_step _ _ _ _ _ Hdraw).
  rewrite bind_CHECK by (apply negb_true_iff, Z.eqb_neq; unfold mmap_base in Hmr; lia).
  rewrite (bind_load _ _ _ _ Hc1).
  rewrite bind_CHECK by (by apply Z.eqb_eq).
  rewrite bind_CHECK by (by apply Z.eqb_eq).
  rewrite bind_update by eauto.
  set (s2 := set_hdr (alter (set_used_size size) m (hdr s1)) s1).
  rewrite (wrap_small (m + kRedzone)) by (knorm; lia).
  assert (Hm8 : (m + kRedzone) mod 8 = 0).
  { apply kRedzone_mult8. rewrite Z.add_mod, Hmm, Z.mod_same by lia. done. }
  assert (Hrd8 : rd mod 8 = 0) by (by apply kRedzone_mult8).
  destruct ((kRedzone <? alignment)
            && negb (Z.land (m + kRedzone) (wrap (alignment - 1)) =? 0)) eqn:Hbr.
  - apply andb_true_iff in Hbr as [Hra Hnal]. apply Z.ltb_lt in Hra.
    apply negb_true_iff, Z.eqb_neq in Hnal.
    destruct (Hk Hra) as (k & Hkr & Ek). rewrite Ek in *.
    assert (Hk' : 0 <= k < WORDSIZE) by lia.
    rewrite land_pred_pow2 in Hnal by done.
    destruct (Z.ltb_spec kRedzone (2 ^ k)) as [_|]; [|lia].
    assert (Hp2k : 0 < 2 ^ k) by (apply Z.pow_pos_nonneg; lia).
    rewrite bind_assoc, bind_Log2 by done.
    rewrite (wrap_small (m + kRedzone + 2 ^ k - 1)) by (knorm; lia).
    destruct (round_down_pow2 (m + kRedzone + 2 ^ k - 1) k ltac:(knorm; lia) ltac:(lia))
      as [Hlo Hhi].
    remember (Z.shiftl (Z.shiftr (m + kRedzone + 2 ^ k - 1) k) k) as A2 eqn:EA2.
    assert (HA2k : A2 mod 2 ^ k = 0).
    { rewrite EA2, Z.shiftl_mul_pow2 by lia. apply Z.mod_mul. lia. }
    assert (HA2R : A2 mod kRedzone = 0).
    { apply mod0_divide; [lia|]. apply mod0_divide in HA2k; [|lia].
      apply (Z.divide_trans _ (2 ^ k)); [|done].
      rewrite kRedzone_pow2. apply pow2_divide. lia. }
    assert (HA2 : m + 2 * kRedzone <= A2).
    { assert (A2 <> m + kRedzone) by congruence.
      apply mod0_divide in HA2R; [|lia]. apply mod0_divide in Hmm; [|lia].
      destruct HA2R as [q1 Hq1], Hmm as [q2 Hq2].
      assert (q2 < q1) by nia.
      assert (q1 <> q2 + 1) by (intros E; apply H0; rewrite Hq1, Hq2, E; lia).
      nia. }
    assert (HNk : rd + kRedzone + 2 ^ k <= 2 ^ j) by lia.
    rewrite (wrap_small A2) by (knorm; lia).
    rewrite ?bind_assoc.
    rewrite bind_CHECK by (rewrite land_pred_pow2 by done; by apply Z.eqb_eq).
    rewrite (wrap_small (A2 - kRedzone)) by (knorm; lia).
    assert (Hfree : forall y, m < y < m + 2 ^ j -> hdr s2 !! y = None).
    { intros y Hy. subst s2. hsimpl. rewrite lookup_alter_ne by lia.
      apply (inside_chunk s1 l (m :: lv) m c1); [done|done|done|]. rewrite Hsz1. done. }
    assert (Hp8 : (A2 - kRedzone) mod 8 = 0).
    { apply kRedzone_mult8. rewrite Zminus_mod, HA2R, Z.mod_same by lia. done. }
    rewrite ?bind_assoc.
    rewrite (bind_step _ _ _ _ _ (store_word_run (A2 - kRedzone) CHUNK_MEMALIGN s2
               ltac:(apply field_at_None; intros t Ht; apply Hfree; lia)
               ltac:(lia) ltac:(subst s2; hsimpl; lia) Hp8)).
    rewrite (wrap_small (A2 - kRedzone + kWordSize)) by (knorm; lia).
    change kWordSize with 8.
    rewrite ?bind_assoc.
    rewrite (bind_step _ _ _ _ _ (store_word_run (A2 - kRedzone + 8) m _
               ltac:(rewrite field_at_set_words; apply field_at_None; intros t Ht;
                     apply Hfree; lia)
               ltac:(lia) ltac:(subst s2; hsimpl; lia)
               ltac:(rewrite Z.add_mod, Hp8 by lia; done))).
    rewrite bind_ret.
    match goal with |- context [bind (PoisonShadow A2 rd 0) _ ?st] =>
      destruct (PoisonShadow_run A2 rd 0 st) as [f Hps]
    end; subst s2; hsimpl; try done; try lia.
    { by apply kRedzone_mult8. }
    rewrite (bind_step _ _ _ _ _ Hps). eauto.
  - rewrite bind_ret.
    destruct (PoisonShadow_run (m + kRedzone) rd 0 s2) as [f Hps];
      subst s2; hsimpl; try done; try lia.
    { rewrite EN in HNj. unfold is_word in Hwa. destruct (_ <? _); lia. }
    rewrite (bind_step _ _ _ _ _ Hps). eauto.
Qed.

End Totality.

(** From a reachable state, with [kRedzone] a power of two from 64 to the
    page size, [Allocate] returns for every non-zero size and every
    alignment that is zero or a power of two: no [CHECK] fails and nothing
    undefined is done, as long as the size, two redzones and the alignment
    sum to at most 2^63 and, when the free list of the size class is
    empty, the address space has room for the pages to map. *)
Theorem Allocate_returns (kMinRedzone r alignment size : Z) (s : heap) :
  6 <= r <= 12 -> kRedzone kMinRedzone = 2 ^ r ->
  reachable kMinRedzone s ->
  is_word alignment -> IsPowerOfTwo alignment = true ->
  0 < size ->
  size + 2 * kRedzone kMinRedzone + alignment <= 2 ^ (WORDSIZE - 1) ->
  (chunks s !! Z.to_nat (Z.log2_up (needed_size kMinRedzone alignment size)) = Some 0 ->
   brk s + Z.max (2 ^ Z.log2_up (needed_size kMinRedzone alignment size)) kMinMmapSize
   <= mmap_limit) ->
  exists p s', Allocate kMinRedzone alignment size s = Ok (p, s').
Proof.
  intros Hr HR Hreach Hwa Hpa Hs Hfit Hroom.
  assert (HRr : 64 <= kRedzone kMinRedzone <= 4096) by (by apply (kRedzone_range _ r)).
  assert (HRp : kPageSize mod kRedzone kMinRedzone = 0).
  { apply mod0_divide; [lia|]. rewrite HR. change kPageSize with (2 ^ 12).
    apply pow2_divide. lia. }
  destruct (reachable_wf_aligned kMinRedzone ltac:(lia) HRp s Hreach)
    as (l & lv & H & Hal).
  apply (Allocate_run kMinRedzone r Hr HR alignment size s l lv); try done.
  - by apply (reachable_free_lists kMinRedzone).
  - by apply (reachable_disjoint kMinRedzone).
Qed.

Lemma Allocate_returns_witness :
  exists p s', Allocate 32 4096 10 c9_0 = Ok (p, s').
Proof.
  apply (Allocate_returns 32 6 4096 10 c9_0).
  - lia.
  - reflexivity.
  - apply c9_0_reachable.
  - unfold is_word. vm_compute. split; [discriminate|reflexivity].
  - reflexivity.
  - lia.
  - vm_compute. discriminate.
  - intros _. vm_compute. discriminate.
Defined.


(** ** What [Reallocate] copies *)

(** A word inside a chunk, after its header, is a raw word. *)
Lemma load_word_inside s l lv m c a :
  wf s l lv -> disjoint_chunks s -> hdr s !! m = Some c ->
  m + 5 * kWordSize <= a -> a + kWordSize <= m + allocated_size c ->
  field_at s a = None
  /\ (a mod kWordSize = 0 -> load_word a s = Ok (default 0 (words s !! a), s)).
Proof.
  intros H Hd Hc Hlo Hhi. change kWordSize with 8 in *.
  assert (Hf : field_at s a = None).
  { apply field_at_None. intros t Ht.
    apply (inside_chunk s l lv m c); [done..|lia]. }
  split; [done|]. intros Hal. unfold load_word, mapped. rewrite Hf.
  change kWordSize with 8. rewrite Hal.
  pose proof (wf_range _ _ _ _ H m c Hc) as Hr.
  pose proof (proj1 Hd m c Hc) as He.
  destruct (Z.leb_spec mmap_base a); [|lia].
  destruct (Z.leb_spec (a + 8) (brk s)); [|lia]. done.
Qed.

Section Contents.

Variable kMinRedzone : Z.

Local Abbreviation kRedzone := (kRedzone kMinRedzone).
Local Abbreviation RoundUptoRedzone := (RoundUptoRedzone kMinRedzone).
Local Abbreviation needed_size := (needed_size kMinRedzone).
Local Abbreviation Allocate := (Allocate kMinRedzone).
Local Abbreviation PtrToChunk := (PtrToChunk kMinRedzone).
Local Abbreviation Deallocate := (Deallocate kMinRedzone).
Local Abbreviation Reallocate := (Reallocate kMinRedzone).

Lemma Reallocate_copies p size s l lv q s' m c :
  wf s l lv -> disjoint_chunks s -> 0 < kRedzone ->
  is_word p -> p <> 0 -> size <> 0 ->
  Reallocate p size s = Ok (q, s') ->
  PtrToChunk p s = Ok (m, s) -> hdr s !! m = Some c ->
  m + 5 * kWordSize <= p ->
  let n := wrap (Z.min size (used_size c) + kWordSize - 1) / kWordSize in
  p + n * kWordSize <= m + allocated_size c ->
  forall k, 0 <= k < n ->
    exists v, load_word (p + k * kWordSize) s = Ok (v, s)
              /\ load_word (q + k * kWordSize) s' = Ok (v, s').
Proof.
  intros H Hd HR Hwp Hp Hn Hrun Hptr Hc Hlo n Hhi k Hk.
  assert (Hw0 : is_word 0) by (unfold is_word; vm_compute; split; [discriminate|reflexivity]).
  destruct (Reallocate_inv _ _ _ _ _ _ Hp Hn Hrun)
    as (m0 & c0 & s1 & s2 & Hptr0 & Hc0 & Hst & Hal & Hcp & Hde).
  rewrite Hptr in Hptr0. injection Hptr0 as <-.
  rewrite Hc in Hc0. injection Hc0 as <-. fold n in Hcp.
  destruct (Allocate_full _ _ _ _ _ _ _ _ H Hw0 Hn Hal)
    as (sz & m' & s1' & c1 & s3 & Esz & Hdraw & Hwf1' & Hmlv & _ & Hc1 & Hasz1 & _ & Hr1
        & _ & Hh1 & _ & _ & _ & Hb1 & Hw1 & _ & Hpl & _).
  destruct Hpl as [(Eq & Hw3)|(Hlt & _)]; [|lia].
  destruct (Allocate_inv _ _ _ _ _ _ Hw0 Hn Hal)
    as (sz0 & ? & ? & ? & ? & _ & _ & Esz0 & Hlog & Hmin & _).
  assert (Hmin' : 2 * kRedzone <= sz).
  { rewrite Esz, <- Esz0. unfold kMinAllocSize in Hmin. lia. }
  assert (Hwsz : is_word sz) by (rewrite Esz; by apply pow2_is_word).
  destruct (AllocateChunk_wf _ _ _ _ _ _ H Hwsz Hdraw) as (_ & _ & _ & Hdr).
  destruct (Allocate_wf _ _ _ _ _ _ _ _ H Hw0 Hn Hal) as (m1 & Hwf1 & _).
  pose proof (Allocate_disjoint _ _ _ _ _ _ _ _ H Hw0 Hd Hal) as Hd1.
  assert (Hmm : m <> m').
  { intros <-. apply Hmlv. eapply wf_alloc; eauto. }
  (* the two chunks in the state after [Allocate] *)
  destruct (proj1 Hdr m c Hc) as (cm' & Hcm' & Easz & _).
  assert (Hcm1 : exists cm, hdr s1 !! m = Some cm /\ allocated_size cm = allocated_size c).
  { rewrite Hh1, lookup_alter_ne by done. eauto. }
  destruct Hcm1 as (cm & Hcm & Eam).
  assert (Hc1' : exists c2, hdr s1 !! m' = Some c2 /\ allocated_size c2 = sz).
  { rewrite Hh1, lookup_alter_eq, Hc1. simpl. eauto. }
  destruct Hc1' as (c2 & Hc2 & Ea2).
  pose proof (wf_range _ _ _ _ Hwf1 m' c2 Hc2) as Hr2.
  pose proof (wf_brk _ _ _ _ Hwf1) as Hbk.
  pose proof (proj1 Hd1 m' c2 Hc2) as He2. rewrite Ea2 in He2.
  pose proof (proj1 Hd1 m cm Hcm) as Hem. rewrite Eam in Hem.
  pose proof (wf_range _ _ _ _ Hwf1 m cm Hcm) as Hrm.
  assert (Eq' : q = m' + kRedzone).
  { rewrite Eq. apply wrap_small. knorm. lia. }
  assert (Hn0 : 0 <= n).
  { subst n. apply Z.div_pos; [apply wrap_is_word|]. change kWordSize with 8. lia. }
  assert (Hov : q <= p \/ p + n * kWordSize <= q).
  { change kWordSize with 8 in *.
    destruct (proj2 Hd1 m m' cm c2 Hmm Hcm Hc2) as [Hlt|Hlt]; [right|left]; lia. }
  unfold asan_copy_mem in Hcp.
  apply bind_Ok in Hcp as ([] & s0 & H0 & Hcp). apply CHECK_inv in H0 as [_ ->].
  apply bind_Ok in Hcp as ([] & s0 & H0 & Hcp). apply CHECK_inv in H0 as [Hpal ->].
  apply IsWordAligned_iff in Hpal.
  apply (copy_loop_sets q p n) in Hcp as (w & -> & A & _);
    try done; [| |rewrite Z2Nat.id by done; lia| |].
  2:{ knorm. lia. }
  2:{ change kWordSize with 8 in *. knorm. lia. }
  2:{ change kWordSize with 8 in *. knorm. lia. }
  destruct (A k Hk) as (v & A1 & A2 & A3 & A4).
  exists v. split.
  - (* the source word before the call *)
    assert (Hak : (p + k * kWordSize) mod kWordSize = 0).
    { change kWordSize with 8 in *. rewrite Z.add_mod, Hpal, Z.mod_mul by lia. done. }
    destruct (load_word_inside s1 l (m1 :: lv) m cm (p + k * kWordSize))
      as (_ & L1); try done; [change kWordSize with 8 in *; nia..|].
    destruct (load_word_inside s l lv m c (p + k * kWordSize))
      as (_ & L); try done; [change kWordSize with 8 in *; nia..|].
    rewrite (L1 Hak) in A1. injection A1 as <-.
    rewrite (L Hak). rewrite Hw1, Hw3. done.
  - (* the destination word after the call *)
    assert (L2 : load_word (q + k * kWordSize) (set_words w s1)
                 = Ok (v, set_words w s1)) by (by apply load_word_set_words).
    destruct (Deallocate_wf _ _ _ _ _ _ (wf_set_words _ _ _ w Hwf1) Hp Hde)
      as (md & cd & sp & l1 & l2 & l' & kk & _ & _ & _ & Hps & _ & _ & _ & _ & _ & Hpost).
    destruct Hpost as (Hss & _ & _ & _ & _ & Tw & _ & Tb & _).
    apply PoisonShadow_frame in Hps as [f ->].
    unfold load_word.
    rewrite (field_at_None_dom s1 s').
    + unfold mapped in *. rewrite Tb, Tw. cbn [brk words set_shadow set_words].
      rewrite A4, A2. done.
    + intros y. destruct Hss as [_ Hss]. apply Hss.
    + done.
Qed.

End Contents.

(** A block with two words stored in it, which is then reallocated. *)
Definition kc_1 : heap :=
  set_words (<[c9_p + kWordSize := 43]> (<[c9_p := 42]> (words c9_1))) c9_1.
Definition kc_q : Z := value 0 (Reallocate 32 c9_p big) kc_1.
Definition kc_2 : heap := run (Reallocate 32 c9_p big) kc_1.

Lemma kc_2_run : Reallocate 32 c9_p big kc_1 = Ok (kc_q, kc_2).
Proof. vm_compute. reflexivity. Qed.

Lemma kc_2_reads :
  load_word c9_p kc_1 = Ok (42, kc_1)
  /\ load_word (c9_p + kWordSize) kc_1 = Ok (43, kc_1)
  /\ load_word kc_q kc_2 = Ok (42, kc_2)
  /\ load_word (kc_q + kWordSize) kc_2 = Ok (43, kc_2).
Proof.
  split; [vm_compute; reflexivity|].
  split; [vm_compute; reflexivity|].
  split; [vm_compute; reflexivity|].
  vm_compute. reflexivity.
Qed.

Lemma disjoint_chunks_set_words w s :
  disjoint_chunks s -> disjoint_chunks (set_words w s).
Proof. intros Hd. exact Hd. Qed.

(** [Reallocate] keeps the contents.  In a state that satisfies the
    invariant of the allocator and whose chunks are disjoint (both hold in
    the states that the calls of the allocator reach, and neither
    constrains the raw words, so the data of the program is arbitrary),
    when the old block lies inside its chunk, after the header, each of
    the words that [Reallocate] copies (the smaller of the new size and
    the old [used_size], rounded up to words) reads in the new block,
    after the call, what it read in the old block before the call. *)
Theorem Reallocate_keeps_contents (kMinRedzone p size : Z) (s : heap) (q : Z) (s' : heap)
    (m : Z) (c : Chunk) :
  0 < kRedzone kMinRedzone -> Inv s -> disjoint_chunks s ->
  is_word p -> p <> 0 -> size <> 0 ->
  Reallocate kMinRedzone p size s = Ok (q, s') ->
  PtrToChunk kMinRedzone p s = Ok (m, s) -> hdr s !! m = Some c ->
  m + 5 * kWordSize <= p ->
  p + wrap (Z.min size (used_size c) + kWordSize - 1) / kWordSize * kWordSize
  <= m + allocated_size c ->
  forall k, 0 <= k < wrap (Z.min size (used_size c) + kWordSize - 1) / kWordSize ->
    exists v, load_word (p + k * kWordSize) s = Ok (v, s)
              /\ load_word (q + k * kWordSize) s' = Ok (v, s').
Proof.
  intros HR (l & lv & H & _) Hd Hwp Hp Hn Hrun Hptr Hc Hlo Hhi.
  exact (Reallocate_copies kMinRedzone p size s l lv q s' m c H
           Hd HR Hwp Hp Hn Hrun Hptr Hc Hlo Hhi).
Qed.

Lemma Reallocate_keeps_contents_witness :
  exists v, load_word (c9_p + 1 * kWordSize) kc_1 = Ok (v, kc_1)
            /\ load_word (kc_q + 1 * kWordSize) kc_2 = Ok (v, kc_2).
Proof.
  refine (Reallocate_keeps_contents 32 c9_p big kc_1 kc_q kc_2 4295483392
            (mkChunk CHUNK_ALLOCATED 8192 10 0 0) _ _ _ _ _ _ _ _ _ _ _ 1 _).
  - reflexivity.
  - apply Inv_set_words. apply (reachable_Inv 32). apply c9_1_reachable.
  - apply disjoint_chunks_set_words. apply (reachable_disjoint 32). apply c9_1_reachable.
  - unfold is_word. vm_compute. split; [discriminate|reflexivity].
  - vm_compute. discriminate.
  - vm_compute. discriminate.
  - apply kc_2_run.
  - vm_compute. reflexivity.
  - vm_compute. reflexivity.
  - vm_compute. discriminate.
  - vm_compute. discriminate.
  - vm_compute. split; [discriminate|reflexivity].
Defined.
